(* ===== verification/_CoqProject ===== *)
-Q . S2P
Prelude.v
GoStrings.v
GoTime.v
Netip.v
SipHash.v
Dns.v
SimpleDns.v
Cookie.v
Caddy.v
CookieHandler.v
Dnr.v
SvcParams.v
RadnrConfig.v
Advertiser.v
Lifecycle.v
Radnr.v
Restart.v
RadnrRun.v
SniTls.v
SniReload.v
ProbeLabels.v
ProbeKeyTag.v
ProbeObserve.v
ProbeReport.v
ProbeStore.v
ProbeWire.v
ProbeSign.v
ProbeMetrics.v
ProbeRace.v
ProbeDnssd.v
ProbeServe.v
ProbeServeProps.v
ProbeSoaRace.v
ProbeRuns.v
ProbeValkey.v
ProbeFleet.v
ProbeSetup.v
DynZone.v
DynUpdate.v
DynProps.v
DynSetup.v
DynHeap.v
DynRace.v
Ci.v
Chain.v
