(* ===== verification/Prelude.v ===== *)
(** * Formal model of the coredns-plugins repository

    Five CoreDNS plugins written in Go: [cookie] (DNS Cookies, RFC 7873 and
    9018), [dynupdate] (RFC 2136 updates of an in-memory zone), [radnr]
    (router advertisements carrying an encrypted resolver, RFC 9463),
    [sni_tls] (certificates by server name, reloaded from files) and [probe]
    (a zone whose answers describe the resolver that asks).  Each definition
    is a translation of a Go function, named after it; where two files use one
    Go name the model's has a prefix ([cookie_ServeDNS], [dyn_ServeDNS],
    [probe_ServeDNS], [radnr_parse]).  Definitions are executable and every
    theorem with hypotheses has a [_witness] that runs it on a concrete input.

    ** How Go is modelled

    - A [byte] is [Byte.byte]; a [string] or [[]byte] is a list of bytes; an
      integer is a [Z] with its width's wrap-around written out ([u8], [u16],
      [u32], [u64]).
    - A function that can fail returns [result E A], with the source's errors
      as constructors of [E]; a nil result without an error is an [option].
    - A handler is a function from the plugin's state and the request to the
      state and what was written ([Outcome]).  A method that holds a mutex for
      its whole body is one step; where a claim is about interleavings
      (reloads, timers, registries) the steps are those between two
      acquisitions, or between two accesses of an atomic variable (the
      counter and signature caches), and the theorems range over every
      sequence of them.
    - [time.Now] is an argument, one for each reading of the clock where the
      code reads it more than once and that matters; times and durations are
      in nanoseconds.
    - A loop over input is structural recursion or recursion with fuel.  Fuel
      is the length of the input (each turn consumes a byte, a label or a
      token), and a lemma says that it is enough: [Caddy.loop_fuel] for every
      Corefile loop, [GoTime.duration_fuel] for durations,
      [ProbeServeProps.chunk_pad_total] for TXT strings; the decoders'
      round-trip theorems say it for the wire formats.
    - What is not in this repository is a parameter with named laws that state
      its documented behaviour: [Dns] (the DNS library's names, messages and
      types), [Caddy] (the Corefile dispenser), [ProbeServe.RequestLib]
      (CoreDNS's request), [ProbeSign.CryptoLib] and [KeyLib] (signatures and
      key files), [ProbeValkey] (the Valkey server), TLS and X.509 in
      [SniTls], the [file] plugin in [DynUpdate], sockets and the ndp parser
      in [Radnr].  [SimpleDns] and the local instances of the witnesses show
      that the laws can hold.

    ** Files

    Shared: [Prelude] (bytes, words, lists, the [result] monad, tactics),
    [GoStrings] ([strings], [strconv], [encoding/hex]), [GoTime]
    ([time.ParseDuration] with its floating point, [fmt.Sscanf]), [Netip]
    ([net/netip]), [Dns], [SimpleDns], [Caddy].

    [cookie]: [SipHash] (siphash.go), [Cookie] (cookie.go), [CookieHandler]
    (handler.go, metrics.go, setup.go).  The streaming hash computes
    SipHash-2-4 as its paper writes it ([SipHash.Paper], which shares no step
    with the code); verification accepts the cookies the server makes inside
    the window, across the 32-bit wrap of the clock, and of those with zero
    reserved bytes no others; [ServeDNS] gives every response one fresh cookie and demands one
    where it should; the window of a secret rollover keeps cookies valid.

    [dynupdate]: [DynZone] (zone.go), [DynUpdate] (update.go, dynupdate.go),
    [DynProps], [DynSetup] (setup.go).  The zone is a list of records; an
    UPDATE is checked, applied to a copy and swapped in.  Nothing changes
    unless every check passed; any run of requests keeps the zone well formed
    with a serial that moves forward if none offers two SOA records; prerequisites match RFC 2136's reading
    of them; types outside the policy are out of reach.  [DynHeap] translates
    the update path again over pointers and shared arrays and shows that it
    computes the same and disturbs nothing readers hold; [DynRace] takes the
    plugin's lock apart: every interleaving of updates, queries and transfers
    is equivalent to serving them in the order of their commits, and none
    deadlocks.

    [radnr]: [Dnr] (pkg/dnr), [SvcParams] (pkg/svcparams), [RadnrConfig]
    (internal/config, setup.go), [Advertiser] (internal/advertiser),
    [Lifecycle], [Radnr] and [RadnrRun] (radnr.go, conn.go).  The option's encoder and
    decoder are inverse on exactly the valid options; an accepted
    configuration cannot disturb a LAN; the timer keeps the RFC 4861 rates
    under every sequence of solicitations and timeouts; the advertiser and its
    reader, a labelled step relation over [RadnrRun.World], send what was
    configured where it was configured, and stop after a cancellation: within
    finitely many steps once out of the loop, and in every weakly fair
    execution from anywhere.

    [sni_tls]: [SniTls] (sni_tls.go), [SniReload] (reload.go, setup.go), over
    [Lifecycle].  A name gets the certificate of the last configured pair
    that carries it, or its wildcard, and no other in strict mode; a reload
    never empties the store, and a start leaves only the loops of its
    instance; once the files settle the next poll serves them, under
    conditions the theorem names, two of which ([setup_rotation_missed],
    [unframed_rotation_missed]) the code can fail to meet.

    [probe]: [ProbeLabels] (labels.go), [ProbeKeyTag] (keytag.go),
    [ProbeDnssd] (dnssd.go) and [ProbeReport] (errorreport.go) are the name
    grammars, each accepted exactly and none overlapping another;
    [ProbeObserve] (observe.go, encrypted.go) is what one query shows;
    [ProbeStore] ([MemStore] in observe.go) refines a table swept whole at
    every call, and [ProbeValkey] (valkey.go) counts truthfully over the
    commands it sends; both implement the class [ProbeServe.StoreLib], so the
    theorems of serving hold with either, and [ProbeFleet] lets the commands
    of many replicas interleave at that server; [ProbeMetrics] (metrics.go) shows
    the counter caches transparent, and [ProbeRace] that they stay so when
    queries are counted in parallel, under every schedule of their steps;
    [ProbeWire] (echconfig.go, zoneversion.go, ede.go) and [ProbeSign]
    (sign.go) are what the zone puts in its answers; [ProbeServe] (probe.go, agent.go) composes all of them
    into [ServeDNS], whose theorems are in [ProbeServeProps]: what is written
    and recorded for every kind of query ([sections_spec] writes the reply's
    sections down record by record), that a signature has the window, fields
    and octets its query asked for, whatever is in the cache, and that the
    agent zone takes reports in without ever refusing; [ProbeSoaRace] lets
    queries sign the SOA in parallel over the lock-free signature cache;
    [ProbeRuns] follows a run of queries over the in-process store to what a
    visitor is told; [ProbeSetup] (setup.go, metadata.go) is what a Corefile
    can configure.

    Between plugins: [Chain] puts [cookie] in front of [probe] and of
    [dynupdate], as [plugin.cfg] does: what reaches them, what comes back
    through the cookie writer, and what that writer hides from them.
    [Restart] runs the hooks of a plugin as caddy does, over any series of
    successful, refused and dropped restarts, against the class
    [Restart.Plugin] of a startup that may fail; [radnr] and [sni_tls] are its
    instances, and [Restart.Expected] the specification of which loops run.

    [ci]: [Ci] (ci/main.go) builds the commands of the pipeline and checks
    their results: one [plugin.cfg] whatever order the patches are taken in,
    and no image without both capabilities and every plugin seen in it.

    ** Bounds of the statements

    Signature times are exact from the epoch to 2106 and described past it
    ([rrsigTime_from_2106]).  The shared store's theorems are about calls that
    met no error; nothing is claimed of a command without an answer.  A
    pipeline of commands runs at one instant of the server's clock.  [int] is
    64 bits wide.

    ** Not modelled

    Logging; plugin registration with CoreDNS and Prometheus; goroutine
    scheduling below the steps above and Go's memory model; the contents of
    sockets and of TLS handshakes; [Signer.DS], which only calls the library;
    JSON encoding, a parameter of [ProbeValkey]; what a Dagger engine does
    with a container, a parameter of [Ci]; the TLA+ and Lean models under
    [src/verification]; tests, fuzz seeds and benchmarks. *)

From Stdlib Require Export ZArith Lia Bool.
From Stdlib Require Import Strings.String Strings.Byte.
Export String.StringSyntax.
From stdpp Require Export base tactics numbers list option gmap.
From stdpp Require Import countable.

#[global] Open Scope Z_scope.

(** ** Bytes

    A Go [byte] is [Byte.byte]; a Go [string] and a Go [[]byte] are both
    [list byte] (Go strings are byte sequences). *)

Abbreviation byte := (Corelib.Init.Byte.byte).
Abbreviation bytes := (list byte).

(** A Go string literal. *)
Definition bs (s : string) : bytes := list_byte_of_string s.
Arguments bs s%_string.

Definition b2z (b : byte) : Z := Z.of_N (Byte.to_N b).

(** Conversion of an integer to a byte, modulo 256, as Go's [byte(x)]. *)
Definition z2b (z : Z) : byte :=
  match Byte.of_N (Z.to_N (z mod 256)) with
  | Some b => b
  | None => Byte.x00
  end.

Lemma b2z_range b : 0 <= b2z b < 256.
Proof.
  unfold b2z. pose proof (Byte.to_N_bounded b). lia.
Qed.

Lemma z2b_b2z b : z2b (b2z b) = b.
Proof.
  unfold z2b. rewrite Z.mod_small by apply b2z_range.
  unfold b2z. rewrite N2Z.id, Byte.of_to_N. done.
Qed.

Lemma b2z_z2b z : b2z (z2b z) = z mod 256.
Proof.
  unfold z2b, b2z.
  pose proof (Z.mod_pos_bound z 256 ltac:(lia)) as Hr.
  destruct (Byte.of_N (Z.to_N (z mod 256))) as [b|] eqn:E.
  - apply Byte.to_of_N in E. rewrite E. lia.
  - apply Byte.of_N_None_iff in E. lia.
Qed.

Lemma b2z_z2b_small z : 0 <= z < 256 -> b2z (z2b z) = z.
Proof. intros ?. rewrite b2z_z2b. by apply Z.mod_small. Qed.

Lemma b2z_inj b c : b2z b = b2z c -> b = c.
Proof. intros H. by rewrite <- (z2b_b2z b), <- (z2b_b2z c), H. Qed.

#[global] Instance byte_eq_dec : EqDecision byte := Byte.byte_eq_dec.

#[global] Program Instance byte_countable : Countable byte :=
  inj_countable' b2z z2b _.
Next Obligation. apply z2b_b2z. Qed.

(** Decidable equality of strings, as a boolean. *)
Definition beqb (a b : bytes) : bool := bool_decide (a = b).

Lemma beqb_true a b : beqb a b = true <-> a = b.
Proof. unfold beqb. apply bool_decide_eq_true. Qed.

Lemma beqb_refl a : beqb a a = true.
Proof. by apply beqb_true. Qed.

Lemma beqb_false a b : beqb a b = false <-> a <> b.
Proof. unfold beqb. apply bool_decide_eq_false. Qed.

(** ** Results

    A Go function returning [(T, error)] is a function to [result E T]; the
    error value is an inductive of the component. *)

Inductive result (E A : Type) : Type :=
| Ok (a : A)
| Err (e : E).
Arguments Ok {E A} a.
Arguments Err {E A} e.

#[global] Instance result_ret {E} : MRet (result E) := fun A a => Ok a.
#[global] Instance result_bind {E} : MBind (result E) := fun A B f m =>
  match m with Ok a => f a | Err e => Err e end.

Definition is_ok {E A} (r : result E A) : bool :=
  match r with Ok _ => true | Err _ => false end.

(** [guard c e]: Go's [if !c { return e }]. *)
Definition check {E} (c : bool) (e : E) : result E unit :=
  if c then Ok tt else Err e.

Lemma bind_ok {E A B} (m : result E A) (f : A -> result E B) b :
  (m ≫= f) = Ok b <-> exists a, m = Ok a /\ f a = Ok b.
Proof.
  destruct m as [a|e]; cbn.
  - split; [eauto|]. intros (a' & [= ->] & ?). done.
  - split; [done|]. intros (? & ? & ?). done.
Qed.

Lemma Ok_inj {E A} (a b : A) : Ok (E := E) a = Ok b -> a = b.
Proof. by intros [= ->]. Qed.

Lemma check_ok {E} c (e : E) u : check c e = Ok u <-> c = true.
Proof. destruct c, u; cbn; split; done. Qed.

(** ** Machine integers

    A Go [uintN] is a [Z] in [[0, 2^N)]; arithmetic on it wraps. *)

Definition u8 (z : Z) : Z := z mod 2 ^ 8.
Definition u16 (z : Z) : Z := z mod 2 ^ 16.
Definition u32 (z : Z) : Z := z mod 2 ^ 32.
Definition u64 (z : Z) : Z := z mod 2 ^ 64.

Definition is_u16 (z : Z) : Prop := 0 <= z < 2 ^ 16.
Definition is_u32 (z : Z) : Prop := 0 <= z < 2 ^ 32.
Definition is_u64 (z : Z) : Prop := 0 <= z < 2 ^ 64.

Lemma u16_range z : is_u16 (u16 z).
Proof. apply Z.mod_pos_bound. lia. Qed.
Lemma u32_range z : is_u32 (u32 z).
Proof. apply Z.mod_pos_bound. lia. Qed.
Lemma u64_range z : is_u64 (u64 z).
Proof. apply Z.mod_pos_bound. lia. Qed.
Lemma u16_small z : is_u16 z -> u16 z = z.
Proof. apply Z.mod_small. Qed.
Lemma u32_small z : is_u32 z -> u32 z = z.
Proof. apply Z.mod_small. Qed.

(** [len(x)] as a Go [int]. *)
Definition zlen {A} (l : list A) : Z := Z.of_nat (length l).

Lemma zlen_nonneg {A} (l : list A) : 0 <= zlen l.
Proof. unfold zlen. lia. Qed.
Lemma zlen_app {A} (l k : list A) : zlen (l ++ k) = zlen l + zlen k.
Proof. unfold zlen. rewrite length_app. lia. Qed.
Lemma zlen_cons {A} (x : A) l : zlen (x :: l) = 1 + zlen l.
Proof. unfold zlen. cbn. lia. Qed.
Lemma zlen_nil {A} : zlen (@nil A) = 0.
Proof. done. Qed.

(** ** Big- and little-endian fields ([encoding/binary]) *)

Fixpoint be_bytes (n : nat) (z : Z) : bytes :=
  match n with
  | O => []
  | S n' => z2b (z / 256 ^ Z.of_nat n') :: be_bytes n' z
  end.

Fixpoint be_val (l : bytes) : Z :=
  match l with
  | [] => 0
  | b :: t => b2z b * 256 ^ zlen t + be_val t
  end.

Definition le_bytes (n : nat) (z : Z) : bytes := rev (be_bytes n z).
Definition le_val (l : bytes) : Z := be_val (rev l).

Lemma length_be_bytes n z : length (be_bytes n z) = n.
Proof. induction n; cbn; congruence. Qed.

Lemma length_le_bytes n z : length (le_bytes n z) = n.
Proof. unfold le_bytes. by rewrite length_rev, length_be_bytes. Qed.

Lemma zlen_be_bytes n z : zlen (be_bytes n z) = Z.of_nat n.
Proof. unfold zlen. by rewrite length_be_bytes. Qed.

Lemma be_val_range l : 0 <= be_val l < 256 ^ zlen l.
Proof.
  induction l as [|b t IH]; cbn [be_val]; [done|].
  rewrite zlen_cons, Z.pow_add_r by (pose proof (zlen_nonneg t); lia).
  pose proof (b2z_range b). nia.
Qed.

Lemma be_val_bytes n z : be_val (be_bytes n z) = z mod 256 ^ Z.of_nat n.
Proof.
  induction n as [|n IH]; cbn [be_bytes be_val].
  - by rewrite Z.mod_1_r.
  - rewrite IH, zlen_be_bytes, b2z_z2b, Nat2Z.inj_succ, Z.pow_succ_r by lia.
    rewrite (Z.mul_comm 256), Z.rem_mul_r by (try apply Z.pow_nonzero; lia).
    lia.
Qed.

Lemma be_val_bytes_small n z :
  0 <= z < 256 ^ Z.of_nat n -> be_val (be_bytes n z) = z.
Proof. intros ?. rewrite be_val_bytes. by apply Z.mod_small. Qed.

Lemma be_bytes_val l : be_bytes (length l) (be_val l) = l.
Proof.
  assert (H : forall t k, be_bytes (length t) (be_val t + k * 256 ^ zlen t) = t).
  { induction t as [|b t IH]; intros k; [done|].
    cbn [be_bytes length be_val]. fold (zlen t).
    rewrite zlen_cons, Z.pow_add_r by (pose proof (zlen_nonneg t); lia).
    pose proof (be_val_range t) as Hr.
    f_equal.
    - replace (b2z b * 256 ^ zlen t + be_val t + k * (256 ^ 1 * 256 ^ zlen t))
        with (be_val t + (b2z b + k * 256) * 256 ^ zlen t) by lia.
      rewrite Z.div_add, Z.div_small, Z.add_0_l by lia.
      apply b2z_inj. rewrite b2z_z2b, Z_mod_plus_full.
      apply Z.mod_small, b2z_range.
    - etransitivity; [|apply (IH (b2z b + k * 256))]. f_equal. lia. }
  specialize (H l 0). by rewrite Z.mul_0_l, Z.add_0_r in H.
Qed.

Lemma be_bytes_val_n n l : length l = n -> be_bytes n (be_val l) = l.
Proof. intros <-. apply be_bytes_val. Qed.

Lemma le_val_bytes n z : le_val (le_bytes n z) = z mod 256 ^ Z.of_nat n.
Proof. unfold le_val, le_bytes. by rewrite rev_involutive, be_val_bytes. Qed.

Lemma be_bytes_inj n a b :
  0 <= a < 256 ^ Z.of_nat n -> 0 <= b < 256 ^ Z.of_nat n ->
  be_bytes n a = be_bytes n b -> a = b.
Proof.
  intros Ha Hb H%(f_equal be_val). by rewrite !be_val_bytes_small in H.
Qed.

(** ** Lists *)

Lemma take_drop_app_length {A} (l k : list A) :
  take (length l) (l ++ k) = l /\ drop (length l) (l ++ k) = k.
Proof. by rewrite take_app_length, drop_app_length. Qed.

Lemma take_app_n {A} n (l k : list A) : length l = n -> take n (l ++ k) = l.
Proof. intros <-. apply take_app_length. Qed.

Lemma drop_app_n {A} n (l k : list A) : length l = n -> drop n (l ++ k) = k.
Proof. intros <-. apply drop_app_length. Qed.

Lemma forallb_Forall_true {A} (f : A -> bool) l :
  forallb f l = true <-> Forall (fun x => f x = true) l.
Proof. by rewrite forallb_forall, List.Forall_forall. Qed.

Lemma existsb_Exists_true {A} (f : A -> bool) l :
  existsb f l = true <-> Exists (fun x => f x = true) l.
Proof. rewrite existsb_exists, List.Exists_exists. done. Qed.

Lemma existsb_false {A} (f : A -> bool) l : existsb f l = false <-> forall x, x ∈ l -> f x = false.
Proof.
  rewrite <- not_true_iff_false, existsb_exists. split.
  - intros H x Hx. apply not_true_iff_false. intros E. apply H. exists x. by rewrite <- list_elem_of_In.
  - intros H (x & Hx & E). rewrite <- list_elem_of_In in Hx. by rewrite H in E.
Qed.

(** ** Automation

    [inv_ok] opens the monadic binds and guards of a hypothesis
    [m = Ok r]; [inv_if] splits the innermost conditional of the goal or of a
    hypothesis, keeping its equation. *)

Ltac inv_ok :=
  repeat match goal with
  | H : (_ ≫= _) = Ok _ |- _ => apply bind_ok in H as (? & ? & ?)
  | H : check _ _ = Ok _ |- _ => apply check_ok in H
  | H : Ok _ = Ok _ |- _ => injection H as H; try subst
  | H : mret _ = Ok _ |- _ => injection H as H; try subst
  | H : Err _ = Ok _ |- _ => discriminate H
  end.

(** As [inv_ok], without simplifying the values it equates. *)
Ltac inv_ok_raw :=
  repeat match goal with
  | H : (_ ≫= _) = Ok _ |- _ => apply bind_ok in H as (? & ? & ?)
  | H : check _ _ = Ok _ |- _ => apply check_ok in H
  | H : Ok _ = Ok _ |- _ => apply Ok_inj in H; try subst
  | H : Err _ = Ok _ |- _ => discriminate H
  end.

Ltac bool_prop :=
  repeat match goal with
  | H : _ && _ = true |- _ => apply andb_true_iff in H as [? ?]
  | H : _ || _ = false |- _ => apply orb_false_iff in H as [? ?]
  | H : negb _ = true |- _ => apply negb_true_iff in H
  | H : negb _ = false |- _ => apply negb_false_iff in H
  | H : (_ <? _) = true |- _ => apply Z.ltb_lt in H
  | H : (_ <? _) = false |- _ => apply Z.ltb_ge in H
  | H : (_ <=? _) = true |- _ => apply Z.leb_le in H
  | H : (_ <=? _) = false |- _ => apply Z.leb_gt in H
  | H : (_ =? _) = true |- _ => apply Z.eqb_eq in H
  | H : (_ =? _) = false |- _ => apply Z.eqb_neq in H
  | H : beqb _ _ = true |- _ => apply beqb_true in H
  | H : beqb _ _ = false |- _ => apply beqb_false in H
  end.

Create HintDb plugins.
Create Rewrite HintDb plugins.
#[export] Hint Resolve zlen_nonneg b2z_range be_val_range : plugins.
#[export] Hint Rewrite @zlen_app @zlen_cons @zlen_nil zlen_be_bytes
  length_be_bytes length_le_bytes : plugins.
