(* ===== verification/GoStrings.v ===== *)
(** * The parts of Go's standard library on strings that the plugins use

    [strings.IndexByte], [LastIndexByte], [HasPrefix], [TrimSuffix],
    [CutPrefix], [Split]/[SplitSeq], [Join], [encoding/hex] and the decimal
    and hexadecimal conversions of [strconv], on byte strings, with the laws
    the plugins' theorems need.  The ASCII fold the plugins write out by hand
    is here too, as a function on one byte. *)

From S2P Require Import Prelude.

(** ** ASCII *)

Definition is_upper (b : byte) : bool := (65 <=? b2z b) && (b2z b <=? 90).
Definition is_lower (b : byte) : bool := (97 <=? b2z b) && (b2z b <=? 122).
Definition is_digit (b : byte) : bool := (48 <=? b2z b) && (b2z b <=? 57).

(** [if 'A' <= c && c <= 'Z' { c += 'a' - 'A' }]. *)
Definition lower_byte (b : byte) : byte :=
  if is_upper b then z2b (b2z b + 32) else b.

Definition lower (s : bytes) : bytes := map lower_byte s.

Lemma lower_cons b s : lower (b :: s) = lower_byte b :: lower s.
Proof. done. Qed.

Lemma lower_byte_idem b : lower_byte (lower_byte b) = lower_byte b.
Proof. destruct b; vm_compute; reflexivity. Qed.

Lemma is_upper_lower b : is_upper (lower_byte b) = false.
Proof. destruct b; vm_compute; reflexivity. Qed.

Lemma lower_byte_id b : is_upper b = false -> lower_byte b = b.
Proof. unfold lower_byte. by intros ->. Qed.

Lemma lower_idem s : lower (lower s) = lower s.
Proof.
  unfold lower. rewrite map_map. apply map_ext, lower_byte_idem.
Qed.

Lemma lower_id s : forallb (fun b => negb (is_upper b)) s = true -> lower s = s.
Proof.
  induction s as [|b s IH]; [done|]. cbn [forallb]. intros [H ?]%andb_true_iff.
  rewrite lower_cons, IH by done. f_equal. apply lower_byte_id.
  by apply negb_true_iff.
Qed.

Lemma length_lower s : length (lower s) = length s.
Proof. apply length_map. Qed.

Lemma lower_app s t : lower (s ++ t) = lower s ++ lower t.
Proof. apply map_app. Qed.

Lemma lower_inj_length s t : lower s = lower t -> length s = length t.
Proof. intros H. by rewrite <- (length_lower s), H, length_lower. Qed.

(** ** Searching *)

(** [strings.IndexByte]; [None] is -1. *)
Fixpoint index_byte (s : bytes) (c : byte) : option nat :=
  match s with
  | [] => None
  | b :: t => if decide (b = c) then Some O else S <$> index_byte t c
  end.

(** [strings.LastIndexByte]. *)
Fixpoint last_index_byte (s : bytes) (c : byte) : option nat :=
  match s with
  | [] => None
  | b :: t =>
      match last_index_byte t c with
      | Some i => Some (S i)
      | None => if decide (b = c) then Some O else None
      end
  end.

(** [strings.Count(s, string(c))] for a single byte. *)
Fixpoint count_byte (s : bytes) (c : byte) : nat :=
  match s with
  | [] => O
  | b :: t => ((if decide (b = c) then 1 else 0) + count_byte t c)%nat
  end.

Definition has_prefix (p s : bytes) : bool := beqb (take (length p) s) p.

Definition cut_prefix (p s : bytes) : option bytes :=
  if has_prefix p s then Some (drop (length p) s) else None.

Definition has_suffix (suf s : bytes) : bool :=
  (length suf <=? length s)%nat
    && beqb (drop (length s - length suf) s) suf.

Definition trim_suffix (s suf : bytes) : bytes :=
  if has_suffix suf s then take (length s - length suf) s else s.

Lemma index_byte_spec s c i :
  index_byte s c = Some i <->
  exists l r, s = l ++ c :: r /\ length l = i /\ c ∉ l.
Proof.
  revert i. induction s as [|b t IH]; intros i; cbn.
  - split; [done|]. intros ([|??] & ? & [=] & _).
  - case_decide as Hb.
    + subst b. split.
      * intros [= <-]. exists [], t. split_and!; [done..|]. apply not_elem_of_nil.
      * intros ([|x l] & r & E & <- & Hn); [done|].
        injection E as -> ->. exfalso. apply Hn. by constructor.
    + split.
      * intros H.
        destruct (index_byte t c) as [j|] eqn:E; [|done]. injection H as <-.
        destruct (proj1 (IH j) eq_refl) as (l & r & -> & <- & Hn).
        exists (b :: l), r. split_and!; [done..|].
        rewrite not_elem_of_cons. split; [congruence|done].
      * intros ([|x l] & r & E & <- & Hn); [by injection E as -> ->|].
        injection E as -> ->. rewrite not_elem_of_cons in Hn.
        rewrite (proj2 (IH (length l))); [done|]. exists l, r. naive_solver.
Qed.

Lemma index_byte_None s c : index_byte s c = None <-> c ∉ s.
Proof.
  induction s as [|b t IH]; cbn.
  - split; [intros _; apply not_elem_of_nil|done].
  - rewrite not_elem_of_cons. case_decide as Hb; [naive_solver|].
    destruct (index_byte t c); cbn; naive_solver.
Qed.

Lemma last_index_byte_None s c : last_index_byte s c = None <-> c ∉ s.
Proof.
  induction s as [|b t IH]; cbn.
  - split; [intros _; apply not_elem_of_nil|done].
  - rewrite not_elem_of_cons. destruct (last_index_byte t c).
    + split; [done|]. intros [_ Hn]. apply IH in Hn. done.
    + case_decide; naive_solver.
Qed.

Lemma last_index_byte_app l c r :
  c ∉ r -> last_index_byte (l ++ c :: r) c = Some (length l).
Proof.
  intros Hr. induction l as [|b l IH]; cbn.
  - rewrite (proj2 (last_index_byte_None r c)) by done.
    by rewrite decide_True by done.
  - by rewrite IH.
Qed.

Lemma last_index_byte_spec s c i :
  last_index_byte s c = Some i ->
  s = take i s ++ c :: drop (S i) s /\ c ∉ drop (S i) s /\ (i < length s)%nat.
Proof.
  revert i. induction s as [|b t IH]; intros i; cbn; [done|].
  destruct (last_index_byte t c) as [j|] eqn:E.
  - intros [= <-]. destruct (IH j eq_refl) as (H1 & H2 & H3).
    cbn. split_and!; [by f_equal|done|lia].
  - case_decide; [|done]. intros [= <-]. subst b. cbn.
    apply last_index_byte_None in E. rewrite drop_0. split_and!; [done..|lia].
Qed.

Lemma index_byte_app l c r :
  c ∉ l -> index_byte (l ++ c :: r) c = Some (length l).
Proof. intros ?. apply index_byte_spec. eauto. Qed.

Lemma count_byte_0 s c : count_byte s c = O <-> c ∉ s.
Proof.
  induction s as [|b t IH]; cbn.
  - split; [intros _; apply not_elem_of_nil|done].
  - rewrite not_elem_of_cons. case_decide; naive_solver lia.
Qed.

Lemma has_prefix_app p s : has_prefix p (p ++ s) = true.
Proof. unfold has_prefix. rewrite take_app_length. apply beqb_refl. Qed.

Lemma has_prefix_spec p s : has_prefix p s = true <-> exists t, s = p ++ t.
Proof.
  split.
  - intros H%beqb_true. exists (drop (length p) s).
    rewrite <- H at 1. by rewrite take_drop.
  - intros [t ->]. apply has_prefix_app.
Qed.

Lemma cut_prefix_app p s : cut_prefix p (p ++ s) = Some s.
Proof. unfold cut_prefix. by rewrite has_prefix_app, drop_app_length. Qed.

Lemma cut_prefix_spec p s t : cut_prefix p s = Some t <-> s = p ++ t.
Proof.
  split; [|intros ->; apply cut_prefix_app].
  unfold cut_prefix. destruct (has_prefix p s) eqn:E; [|done].
  apply has_prefix_spec in E as [u ->]. rewrite drop_app_length. congruence.
Qed.

Lemma has_suffix_app suf s : has_suffix suf (s ++ suf) = true.
Proof.
  unfold has_suffix. rewrite length_app. apply andb_true_iff. split.
  - apply Nat.leb_le. lia.
  - replace (length s + length suf - length suf)%nat with (length s) by lia.
    rewrite drop_app_length. apply beqb_refl.
Qed.

Lemma has_suffix_spec suf s : has_suffix suf s = true <-> exists t, s = t ++ suf.
Proof.
  split.
  - unfold has_suffix. intros [H1 H2%beqb_true]%andb_true_iff.
    exists (take (length s - length suf) s). rewrite <- H2 at 2.
    by rewrite take_drop.
  - intros [t ->]. apply has_suffix_app.
Qed.

Lemma trim_suffix_app s suf : trim_suffix (s ++ suf) suf = s.
Proof.
  unfold trim_suffix. rewrite has_suffix_app, length_app.
  replace (length s + length suf - length suf)%nat with (length s) by lia.
  apply take_app_length.
Qed.

(** ** Splitting and joining on a one-byte separator *)

Fixpoint split_byte (c : byte) (s : bytes) : list bytes :=
  match s with
  | [] => [[]]
  | b :: t =>
      if decide (b = c) then [] :: split_byte c t
      else match split_byte c t with
           | h :: r => (b :: h) :: r
           | [] => [[b]]
           end
  end.

Fixpoint join (sep : bytes) (parts : list bytes) : bytes :=
  match parts with
  | [] => []
  | [p] => p
  | p :: rest => p ++ sep ++ join sep rest
  end.

Lemma split_byte_nonnil c s : split_byte c s <> [].
Proof. destruct s; cbn; [done|]. case_decide; [done|]. by case_match. Qed.

Lemma join_split c s : join [c] (split_byte c s) = s.
Proof.
  induction s as [|b t IH]; cbn; [done|].
  pose proof (split_byte_nonnil c t).
  case_decide as Hb.
  - subst b. destruct (split_byte c t) as [|h r]; [done|]. cbn. by rewrite <- IH.
  - destruct (split_byte c t) as [|h r]; [done|].
    destruct r; cbn in *; by rewrite <- IH.
Qed.

Lemma split_byte_notin c p : c ∉ p -> split_byte c p = [p].
Proof.
  induction p as [|b t IH]; cbn; [done|].
  rewrite not_elem_of_cons. intros [? ?].
  rewrite decide_False by congruence. by rewrite IH.
Qed.

Lemma split_byte_app c p s :
  c ∉ p -> split_byte c (p ++ c :: s) = p :: split_byte c s.
Proof.
  induction p as [|b t IH]; cbn; [by rewrite decide_True|].
  rewrite not_elem_of_cons. intros [? ?].
  rewrite decide_False by congruence. by rewrite IH.
Qed.

Lemma split_byte_snoc c s : split_byte c (s ++ [c]) = split_byte c s ++ [[]].
Proof.
  induction s as [|b s IH]; cbn; [by rewrite decide_True|].
  rewrite IH. destruct (decide (b = c)); [done|].
  pose proof (split_byte_nonnil c s). by destruct (split_byte c s).
Qed.

Lemma split_join c parts :
  parts <> [] -> Forall (fun p => c ∉ p) parts ->
  split_byte c (join [c] parts) = parts.
Proof.
  induction parts as [|p rest IH]; [done|]. intros _ [Hp Hr]%Forall_cons.
  destruct rest as [|q rest].
  - by apply split_byte_notin.
  - change (join [c] (p :: q :: rest)) with (p ++ c :: join [c] (q :: rest)).
    rewrite split_byte_app by done. f_equal. by apply IH.
Qed.

Lemma split_byte_parts c s : Forall (fun p => c ∉ p) (split_byte c s).
Proof.
  induction s as [|b t IH]; cbn.
  - repeat constructor. apply not_elem_of_nil.
  - case_decide as Hb.
    + constructor; [apply not_elem_of_nil|done].
    + destruct (split_byte c t) as [|h r].
      * repeat constructor. apply not_elem_of_cons. split; [congruence|].
        apply not_elem_of_nil.
      * apply Forall_cons in IH as [? ?]. constructor; [|done].
        rewrite not_elem_of_cons. split; [congruence|done].
Qed.

Lemma length_join c parts :
  parts <> [] ->
  S (length (join [c] parts)) = (sum_list (length <$> parts) + length parts)%nat.
Proof.
  induction parts as [|p [|q rest] IH]; intros H; [done|cbn; lia|].
  change (join [c] (p :: q :: rest)) with (p ++ [c] ++ join [c] (q :: rest)).
  rewrite !length_app. specialize (IH ltac:(done)). cbn in *. lia.
Qed.

Lemma trim_suffix_notin c s l : c ∉ l -> l <> [] -> trim_suffix (s ++ l) [c] = s ++ l.
Proof.
  intros Hd Hl. unfold trim_suffix. destruct (has_suffix [c] (s ++ l)) eqn:E; [|done].
  apply has_suffix_spec in E as [t E]. destruct (exists_last Hl) as (l' & x & ->).
  rewrite app_assoc in E. apply app_inj_tail in E as [_ ->]. destruct Hd. apply elem_of_app. right. left.
Qed.

Lemma join_snoc c ls t : ls <> [] -> join [c] (ls ++ [t]) = join [c] ls ++ c :: t.
Proof.
  induction ls as [|l [|l2 r] IH]; [done|done|]. intros _.
  change (join [c] ((l :: l2 :: r) ++ [t])) with (l ++ c :: join [c] ((l2 :: r) ++ [t])).
  rewrite IH by done. change (join [c] (l :: l2 :: r)) with (l ++ c :: join [c] (l2 :: r)).
  by rewrite <- app_assoc.
Qed.

Lemma join_app c ls ks :
  ls <> [] -> ks <> [] -> join [c] (ls ++ ks) = join [c] ls ++ c :: join [c] ks.
Proof.
  intros Hl Hk. induction ls as [|l [|l2 r] IH]; [done| |].
  - by destruct ks.
  - change (join [c] ((l :: l2 :: r) ++ ks)) with (l ++ c :: join [c] ((l2 :: r) ++ ks)).
    rewrite IH by done. change (join [c] (l :: l2 :: r)) with (l ++ c :: join [c] (l2 :: r)).
    by rewrite <- app_assoc.
Qed.

(** Joined parts without the separator have no trailing separator. *)
Lemma trim_suffix_join c ls :
  ls <> [] -> Forall (fun l => l <> [] /\ c ∉ l) ls -> trim_suffix (join [c] ls) [c] = join [c] ls.
Proof.
  intros Hn H. destruct (exists_last Hn) as (pre & t & ->). apply Forall_app in H as [_ [[Ht Hc] _]%Forall_cons].
  destruct pre as [|l r]; [by apply (trim_suffix_notin c [])|]. rewrite join_snoc by done.
  change (c :: t) with ([c] ++ t). rewrite app_assoc. by apply trim_suffix_notin.
Qed.

(** Folding case changes no byte that is not a letter, so cutting at such a
    byte and folding commute. *)
Lemma lower_byte_eq c d : is_upper d = false -> is_lower d = false -> lower_byte c = d <-> c = d.
Proof.
  intros H1 H2. split; [|intros ->; by apply lower_byte_id].
  intros H. destruct (is_upper c) eqn:E; [|by rewrite lower_byte_id in H].
  exfalso. subst d. revert E H1 H2. by destruct c.
Qed.

Lemma split_byte_lower c s :
  is_upper c = false -> is_lower c = false -> split_byte c (lower s) = lower <$> split_byte c s.
Proof.
  intros H1 H2. induction s as [|b t IH]; [done|]. rewrite lower_cons. cbn [split_byte].
  pose proof (lower_byte_eq b c H1 H2) as Hb. rewrite IH.
  destruct (decide (lower_byte b = c)) as [E|E], (decide (b = c)) as [E'|E']; try (exfalso; tauto); [done|].
  pose proof (split_byte_nonnil c t). by destruct (split_byte c t).
Qed.

Lemma elem_of_lower c s : is_upper c = false -> is_lower c = false -> c ∈ lower s <-> c ∈ s.
Proof.
  intros H1 H2. change (lower s) with (lower_byte <$> s). rewrite list_elem_of_fmap. split.
  - intros (x & E & Hx). symmetry in E. apply lower_byte_eq in E as ->; done.
  - intros Hc. exists c. split; [|done]. symmetry. by apply lower_byte_eq.
Qed.

Lemma lower_join c parts :
  is_upper c = false -> lower (join [c] parts) = join [c] (lower <$> parts).
Proof.
  intros Hc. induction parts as [|p [|q rest] IH]; [done|done|].
  change (join [c] (p :: q :: rest)) with (p ++ [c] ++ join [c] (q :: rest)).
  rewrite !lower_app, IH. cbn [lower map]. by rewrite lower_byte_id.
Qed.

(** ** Hexadecimal ([encoding/hex]) *)

Definition hex_digit (n : Z) : byte := z2b (if n <? 10 then 48 + n else 87 + n).

Definition unhex (b : byte) : option Z :=
  if is_digit b then Some (b2z b - 48)
  else if (97 <=? b2z b) && (b2z b <=? 102) then Some (b2z b - 87)
  else if (65 <=? b2z b) && (b2z b <=? 70) then Some (b2z b - 55)
  else None.

(** [hex.EncodeToString]. *)
Fixpoint hex_encode (l : bytes) : bytes :=
  match l with
  | [] => []
  | b :: t => hex_digit (b2z b / 16) :: hex_digit (b2z b mod 16) :: hex_encode t
  end.

(** [hex.DecodeString]; [None] is an error (a non-hex digit, or an odd
    length). *)
Fixpoint hex_decode (s : bytes) : option bytes :=
  match s with
  | [] => Some []
  | a :: b :: t =>
      match unhex a, unhex b, hex_decode t with
      | Some x, Some y, Some r => Some (z2b (16 * x + y) :: r)
      | _, _, _ => None
      end
  | [_] => None
  end.

Lemma unhex_digits b :
  unhex (hex_digit (b2z b / 16)) = Some (b2z b / 16) /\
  unhex (hex_digit (b2z b mod 16)) = Some (b2z b mod 16).
Proof. destruct b; vm_compute; done. Qed.

Lemma hex_decode_encode l : hex_decode (hex_encode l) = Some l.
Proof.
  induction l as [|b t IH]; cbn [hex_encode hex_decode]; [done|].
  destruct (unhex_digits b) as [-> ->]. rewrite IH.
  rewrite <- (Z.div_mod (b2z b) 16) by lia. by rewrite z2b_b2z.
Qed.

Lemma length_hex_encode l : length (hex_encode l) = (2 * length l)%nat.
Proof. induction l as [|b t IH]; cbn [hex_encode length]; lia. Qed.

(** ** ASCII *)

Definition ascii (s : bytes) : bool := forallb (fun b => b2z b <? 128) s.

Lemma ascii_app s t : ascii (s ++ t) = ascii s && ascii t.
Proof. apply forallb_app. Qed.

Lemma lower_byte_128 b : (b2z (lower_byte b) <? 128) = (b2z b <? 128).
Proof. by destruct b. Qed.

Lemma ascii_lower s : ascii (lower s) = ascii s.
Proof. induction s as [|b s IH]; [done|]. cbn. rewrite lower_byte_128. f_equal. exact IH. Qed.

(** ** White space ([strings.TrimSpace])

    The encodings of the code points [unicode.IsSpace] accepts. *)

Definition white_space : list bytes :=
  ((fun c => [z2b c]) <$> [0x09; 0x0a; 0x0b; 0x0c; 0x0d; 0x20]) ++
  ((fun c => be_bytes 2 c) <$> [0xc285; 0xc2a0]) ++
  ((fun c => be_bytes 3 c) <$>
    [0xe19a80; 0xe28080; 0xe28081; 0xe28082; 0xe28083; 0xe28084; 0xe28085; 0xe28086; 0xe28087;
     0xe28088; 0xe28089; 0xe2808a; 0xe280a8; 0xe280a9; 0xe280af; 0xe2819f; 0xe38080]).

Fixpoint cut_first (ps : list bytes) (s : bytes) : option bytes :=
  match ps with
  | [] => None
  | p :: t => match cut_prefix p s with Some r => Some r | None => cut_first t s end
  end.

(** Each turn drops at least a byte, so [length s] turns are enough. *)
Fixpoint trim_left_of (fuel : nat) (ps : list bytes) (s : bytes) : bytes :=
  match fuel, cut_first ps s with
  | S fuel', Some r => trim_left_of fuel' ps r
  | _, _ => s
  end.

Definition TrimSpace (s : bytes) : bytes :=
  let l := trim_left_of (length s) white_space s in
  rev (trim_left_of (length l) (map (@rev byte) white_space) (rev l)).

Example TrimSpace_ascii : TrimSpace (bs " 	a b ") = bs "a b".
Proof. vm_compute. reflexivity. Qed.

(** ** Decimal ([strconv.Itoa], [strconv.ParseUint(s, 10, bits)]) *)

Fixpoint dec_digits (fuel : nat) (n : Z) (acc : bytes) : bytes :=
  match fuel with
  | O => acc
  | S fuel' =>
      let acc' := z2b (48 + n mod 10) :: acc in
      if n <? 10 then acc' else dec_digits fuel' (n / 10) acc'
  end.

(** [strconv.Itoa] of a non-negative integer: [log2 n + 1] steps are enough. *)
Definition itoa (n : Z) : bytes := dec_digits (S (Z.to_nat (Z.log2 n))) n [].

Fixpoint parse_digits (s : bytes) (acc : Z) : option Z :=
  match s with
  | [] => Some acc
  | b :: t => if is_digit b then parse_digits t (10 * acc + (b2z b - 48)) else None
  end.

Lemma parse_digits_nonneg s acc n : 0 <= acc -> parse_digits s acc = Some n -> 0 <= n.
Proof.
  revert acc. induction s as [|b t IH]; intros acc Ha; cbn; [by intros [= <-]|].
  destruct (is_digit b) eqn:E; [|done]. unfold is_digit in E. bool_prop. apply IH. lia.
Qed.

(** [strconv.ParseUint(s, 10, bits)]: digits only, within [bits] bits. *)
Definition parse_uint (bits : Z) (s : bytes) : option Z :=
  match s with
  | [] => None
  | _ => match parse_digits s 0 with
         | Some n => if n <? 2 ^ bits then Some n else None
         | None => None
         end
  end.

Example itoa_53 : itoa 65535 = bs "65535".
Proof. vm_compute. reflexivity. Qed.

(** ** Case-insensitive comparison

    [equalFoldASCII], which [dynupdate/zone.go] and [probe/dnssd.go] both
    have. *)

(** The byte-wise comparison of [equalFoldASCII]. *)
Fixpoint equalFold_bytes (a b : bytes) : bool :=
  match a, b with
  | x :: a', y :: b' =>
      let ca := if (65 <=? b2z x) && (b2z x <=? 90) then b2z x + 32 else b2z x in
      let cb := if (65 <=? b2z y) && (b2z y <=? 90) then b2z y + 32 else b2z y in
      if negb (ca =? cb) then false else equalFold_bytes a' b'
  | _, _ => true
  end.

Definition equalFoldASCII (a b : bytes) : bool :=
  if negb (zlen a =? zlen b) then false else equalFold_bytes a b.

Lemma fold_byte_eq x y :
  ((if (65 <=? b2z x) && (b2z x <=? 90) then b2z x + 32 else b2z x)
   =? (if (65 <=? b2z y) && (b2z y <=? 90) then b2z y + 32 else b2z y))
  = bool_decide (lower_byte x = lower_byte y).
Proof.
  assert (E : forall b, b2z (lower_byte b) = (if (65 <=? b2z b) && (b2z b <=? 90) then b2z b + 32 else b2z b)).
  { intros b. by destruct b. }
  rewrite <- !E. apply eq_true_iff_eq. rewrite Z.eqb_eq, bool_decide_eq_true.
  split; [apply b2z_inj|congruence].
Qed.

Lemma equalFoldASCII_spec a b : equalFoldASCII a b = beqb (lower a) (lower b).
Proof.
  unfold equalFoldASCII. destruct (zlen a =? zlen b) eqn:E; cbn [negb].
  - apply Z.eqb_eq in E. unfold zlen in E. apply Nat2Z.inj in E. revert b E.
    induction a as [|x a IH]; intros [|y b] E; try discriminate; [done|].
    cbn [equalFold_bytes]. rewrite fold_byte_eq. cbn in E. injection E as E.
    apply eq_true_iff_eq. rewrite beqb_true, !lower_cons.
    destruct (bool_decide (_ = _)) eqn:Exy; cbn [negb].
    + apply bool_decide_eq_true in Exy. rewrite IH, beqb_true by done.
      split; [congruence|by intros [= _ ?]].
    + apply bool_decide_eq_false in Exy. split; [done|by intros [= ??]].
  - apply Z.eqb_neq in E. symmetry. apply beqb_false. intros H%lower_inj_length.
    apply E. unfold zlen. by rewrite H.
Qed.

(** ** Paths *)

(** [filepath.Split]: the directory, with its slash, and the last element. *)
Definition filepath_Split (path : bytes) : bytes * bytes :=
  match last_index_byte path Byte.x2f with
  | Some i => (take (S i) path, drop (S i) path)
  | None => ([], path)
  end.

Lemma filepath_Split_app path dir base : filepath_Split path = (dir, base) -> path = dir ++ base.
Proof.
  unfold filepath_Split. destruct (last_index_byte path _); intros [= <- <-]; [by rewrite take_drop|done].
Qed.
