(* ===== verification/GoTime.v ===== *)
(** * Durations in a Corefile

    [time.ParseDuration], down to its floating-point fraction, and the
    [fmt.Sscanf("%d")] the probe reads numbers with. *)

From Stdlib Require Import Floats.SpecFloat.
From S2P Require Import Prelude GoStrings.

(** ** [float64] *)

Definition f64_of_Z (z : Z) : spec_float := binary_normalize 53 1024 z 0 false.
Definition f64_mul : spec_float -> spec_float -> spec_float := SFmul 53 1024.
Definition f64_div : spec_float -> spec_float -> spec_float := SFdiv 53 1024.

(** [uint64(x)] of a number in its range. *)
Definition Z_of_f64 (x : spec_float) : Z :=
  match x with
  | S754_finite false m e => if 0 <=? e then Z.pos m * 2 ^ e else Z.pos m / 2 ^ (- e)
  | _ => 0
  end.

(** ** [time.ParseDuration] *)

Definition unitMap (u : bytes) : option Z :=
  if beqb u (bs "ns") then Some 1
  else if beqb u (bs "us") || beqb u [Byte.xc2; Byte.xb5; Byte.x73] || beqb u [Byte.xce; Byte.xbc; Byte.x73] then Some 1000
  else if beqb u (bs "ms") then Some (10 ^ 6)
  else if beqb u (bs "s") then Some (10 ^ 9)
  else if beqb u (bs "m") then Some (60 * 10 ^ 9)
  else if beqb u (bs "h") then Some (3600 * 10 ^ 9)
  else None.

(** [leadingInt]: [None] is its overflow. *)
Fixpoint leadingInt (s : bytes) (x : Z) : option (Z * bytes) :=
  match s with
  | c :: t =>
      if is_digit c then
        if 2 ^ 63 / 10 <? x then None
        else let x := 10 * x + (b2z c - 48) in if 2 ^ 63 <? x then None else leadingInt t x
      else Some (x, s)
  | [] => Some (x, [])
  end.

(** [leadingFraction]: digits past the precision are skipped. *)
Fixpoint leadingFraction (s : bytes) (x : Z) (scale : spec_float) (overflow : bool) : Z * spec_float * bytes :=
  match s with
  | c :: t =>
      if is_digit c then
        if overflow then leadingFraction t x scale true
        else if (2 ^ 63 - 1) / 10 <? x then leadingFraction t x scale true
        else let y := 10 * x + (b2z c - 48) in
             if 2 ^ 63 <? y then leadingFraction t x scale true
             else leadingFraction t y (f64_mul scale (f64_of_Z 10)) false
      else (x, scale, s)
  | [] => (x, scale, [])
  end.

Definition byte_point : byte := Byte.x2e.

Definition unit_end (c : byte) : bool := bool_decide (c = byte_point) || is_digit c.

Fixpoint take_unit (s : bytes) : bytes * bytes :=
  match s with
  | c :: t => if unit_end c then ([], s) else let '(u, r) := take_unit t in (c :: u, r)
  | [] => ([], [])
  end.

(** The fraction after a number, with whether it has a digit. *)
Definition duration_fraction (s1 : bytes) : Z * spec_float * bool * bytes :=
  match s1 with
  | d :: s' => if bool_decide (d = byte_point) then
                 let '(f, scale, s'') := leadingFraction s' 0 (f64_of_Z 1) false in
                 (f, scale, negb (length s' =? length s'')%nat, s'')
               else (0, f64_of_Z 1, false, s1)
  | [] => (0, f64_of_Z 1, false, s1)
  end.

(** One number with its unit: its nanoseconds and the rest. *)
Definition duration_term (s : bytes) : option (Z * bytes) :=
  match s with
  | c :: _ =>
      if negb (unit_end c) then None
      else
        '(v, s1) ← leadingInt s 0;
        let pre := negb (length s =? length s1)%nat in
        let '(f, scale, post, s2) := duration_fraction s1 in
        if negb pre && negb post then None
        else
          let '(u, s3) := take_unit s2 in
          if beqb u [] then None
          else
            unit ← unitMap u;
            if 2 ^ 63 / unit <? v then None
            else
              let v := v * unit in
              if 0 <? f then
                let v := v + Z_of_f64 (f64_mul (f64_of_Z f) (f64_div (f64_of_Z unit) scale)) in
                if 2 ^ 63 <? v then None else Some (v, s3)
              else Some (v, s3)
  | [] => None
  end.

Fixpoint duration_loop (fuel : nat) (s : bytes) (d : Z) : option Z :=
  match s with
  | [] => Some d
  | _ :: _ =>
      match fuel with
      | O => None
      | S fuel' => '(v, s') ← duration_term s;
                   let d := d + v in if 2 ^ 63 <? d then None else duration_loop fuel' s' d
      end
  end.

(** [None] is an error.  Every turn of the loop consumes its unit, so as many
    turns as there are bytes are enough. *)
Definition ParseDuration (s : bytes) : option Z :=
  let '(neg, s) := match s with
                   | c :: t => if bool_decide (c = Byte.x2d) then (true, t)
                               else if bool_decide (c = Byte.x2b) then (false, t) else (false, s)
                   | [] => (false, s)
                   end in
  if beqb s (bs "0") then Some 0
  else if beqb s [] then None
  else
    d ← duration_loop (length s) s 0;
    if neg : bool then Some (- d) else if 2 ^ 63 - 1 <? d then None else Some d.

Example durations :
  ParseDuration (bs "1h30m") = Some (5400 * 10 ^ 9) /\ ParseDuration (bs "1.5s") = Some (1500 * 10 ^ 6) /\
  ParseDuration (bs ".1ms") = Some 100000 /\ ParseDuration (bs "-2us") = Some (-2000) /\
  ParseDuration (bs "0.3s") = Some 300000000 /\
  ParseDuration (bs "5") = None /\ ParseDuration (bs "9223372036854775808ns") = None.
Proof. vm_compute. done. Qed.

(** The fuel is enough: a term takes at least one byte. *)
Lemma take_unit_app s u r : take_unit s = (u, r) -> s = u ++ r.
Proof.
  revert u r. induction s as [|c t IH]; intros u r; cbn; [by intros [= <- <-]|].
  destruct (unit_end c); [by intros [= <- <-]|]. destruct (take_unit t) as [u' r'] eqn:E. intros [= <- <-].
  cbn. by rewrite (IH u' r').
Qed.

Lemma leadingInt_suffix s x v r : leadingInt s x = Some (v, r) -> (length r <= length s)%nat.
Proof.
  revert x. induction s as [|c t IH]; intros x; cbn; [by intros [= _ <-]|].
  destruct (is_digit c); [|by intros [= _ <-]]. destruct (_ <? _); [done|]. destruct (_ <? _); [done|].
  intros H%IH. lia.
Qed.

Lemma leadingFraction_suffix s x sc o : (length (leadingFraction s x sc o).2 <= length s)%nat.
Proof.
  revert x sc o. induction s as [|c t IH]; intros x sc o; cbn; [done|].
  destruct (is_digit c); [|cbn; lia]. destruct o; [etransitivity; [apply IH|lia]|].
  repeat (destruct (_ <? _); [etransitivity; [apply IH|lia]|]). etransitivity; [apply IH|lia].
Qed.

Lemma duration_term_shorter s v r : duration_term s = Some (v, r) -> (length r < length s)%nat.
Proof.
  unfold duration_term. destruct s as [|c t]; [done|]. destruct (negb _); [done|].
  rewrite bind_Some. intros ([v1 s1] & E & H). apply leadingInt_suffix in E.
  assert (Hm : (length (duration_fraction s1).2 <= length s1)%nat).
  { unfold duration_fraction. destruct s1 as [|d s']; [done|]. case_bool_decide; [|done].
    pose proof (leadingFraction_suffix s' 0 (f64_of_Z 1) false) as Hl. destruct (leadingFraction _ _ _ _) as [[f sc] s'']. cbn in *. lia. }
  destruct (duration_fraction s1) as [[[f sc] post] s2]. cbn in Hm.
  destruct (_ && _); [done|]. destruct (take_unit s2) as [u s3] eqn:Eu. apply take_unit_app in Eu.
  destruct (beqb u []) eqn:Eb; [done|]. apply beqb_false in Eb.
  assert (Hs : (length s3 < length s2)%nat) by (rewrite Eu, length_app; destruct u; [done|cbn; lia]).
  apply bind_Some in H as (unit & _ & H). destruct (_ <? _); [done|].
  destruct (0 <? f); [destruct (_ <? _); [done|]|]; injection H as _ <-; lia.
Qed.

Lemma duration_fuel n m s d : (length s <= n)%nat -> (length s <= m)%nat -> duration_loop n s d = duration_loop m s d.
Proof.
  revert m s d. induction n as [|n IH]; intros m s d Hn Hm.
  { destruct s; [by destruct m|cbn in Hn; lia]. }
  destruct s as [|c t]; [by destruct m|]. destruct m as [|m]; [cbn in Hm; lia|]. cbn [duration_loop].
  destruct (duration_term (c :: t)) as [[v r]|] eqn:E; [|done]. cbn [mbind option_bind].
  apply duration_term_shorter in E. destruct (_ <? _); [done|]. cbn in *. apply IH; lia.
Qed.

(** ** [fmt.Sscanf(s, "%d", &v)] of an [int] *)

(** Leading space is skipped, but not a line end. *)
Fixpoint skip_space (fuel : nat) (s : bytes) : option bytes :=
  match fuel with
  | O => Some s
  | S fuel' => match s with
               | c :: _ => if bool_decide (c = Byte.x0a) then None
                           else match cut_first white_space s with Some s' => skip_space fuel' s' | None => Some s end
               | [] => Some s
               end
  end.

(** The digits, up to the first other byte. *)
Fixpoint scan_digits (s : bytes) (acc : Z) : Z :=
  match s with c :: t => if is_digit c then scan_digits t (10 * acc + (b2z c - 48)) else acc | [] => acc end.

Definition Sscanf_d (s : bytes) : option Z :=
  s ← skip_space (length s) s;
  let '(neg, s) := match s with
                   | c :: t => if bool_decide (c = Byte.x2d) then (true, t)
                               else if bool_decide (c = Byte.x2b) then (false, t) else (false, s)
                   | [] => (false, s)
                   end in
  match s with
  | c :: _ => if is_digit c then
                let n := if neg : bool then - scan_digits s 0 else scan_digits s 0 in
                if (n <? - 2 ^ 63) || (2 ^ 63 - 1 <? n) then None else Some n
              else None
  | [] => None
  end.

Example scans : Sscanf_d (bs "64") = Some 64 /\ Sscanf_d (bs "-7") = Some (-7) /\ Sscanf_d (bs "x") = None /\
  Sscanf_d (bs "12abc") = Some 12.
Proof. vm_compute. done. Qed.
