(* ===== verification/Netip.v ===== *)
(** * [net/netip]: the address type every plugin handles

    [Addr] is Go's [netip.Addr]: the zero value, an IPv4 address, or an IPv6
    address with its zone.  [ParseAddr] follows the standard library's parser,
    [Prefix] its masking. *)

From S2P Require Import Prelude GoStrings.

Inductive Addr :=
| AddrZero
| Addr4 (a : Z)
| Addr6 (a : Z) (zone : bytes).

#[global] Instance addr_eq_dec : EqDecision Addr.
Proof. solve_decision. Defined.

Definition wf_addr (ip : Addr) : Prop :=
  match ip with
  | AddrZero => True
  | Addr4 a => 0 <= a < 2 ^ 32
  | Addr6 a _ => 0 <= a < 2 ^ 128
  end.

Definition IsValid (ip : Addr) : bool :=
  match ip with AddrZero => false | _ => true end.
Definition Is4 (ip : Addr) : bool :=
  match ip with Addr4 _ => true | _ => false end.
Definition Is6 (ip : Addr) : bool :=
  match ip with Addr6 _ _ => true | _ => false end.
Definition Zone (ip : Addr) : bytes :=
  match ip with Addr6 _ z => z | _ => [] end.

(** An IPv4-mapped IPv6 address: the top 96 bits are [::ffff]. *)
Definition Is4In6 (ip : Addr) : bool :=
  match ip with Addr6 a _ => a / 2 ^ 32 =? 0xffff | _ => false end.

Definition Unmap (ip : Addr) : Addr :=
  match ip with
  | Addr6 a _ => if Is4In6 ip then Addr4 (a mod 2 ^ 32) else ip
  | _ => ip
  end.

Definition WithZone (ip : Addr) (zone : bytes) : Addr :=
  match ip with Addr6 a _ => Addr6 a zone | _ => ip end.

Definition IsUnspecified (ip : Addr) : bool :=
  match ip with
  | Addr4 a => a =? 0
  | Addr6 a z => (a =? 0) && beqb z []
  | AddrZero => false
  end.

Definition BitLen (ip : Addr) : Z :=
  match ip with AddrZero => 0 | Addr4 _ => 32 | Addr6 _ _ => 128 end.

Definition AsSlice (ip : Addr) : bytes :=
  match ip with
  | AddrZero => []
  | Addr4 a => be_bytes 4 a
  | Addr6 a _ => be_bytes 16 a
  end.

(** [As16]: an IPv4 address in its IPv4-mapped form, the zero value as sixteen
    zero octets. *)
Definition As16 (ip : Addr) : bytes :=
  match ip with
  | AddrZero => be_bytes 16 0
  | Addr4 a => be_bytes 16 (0xffff * 2 ^ 32 + a)
  | Addr6 a _ => be_bytes 16 a
  end.

Definition AddrFrom16 (b : bytes) : Addr := Addr6 (be_val b) [].

Definition AddrFromSlice (b : bytes) : option Addr :=
  if (length b =? 4)%nat then Some (Addr4 (be_val b))
  else if (length b =? 16)%nat then Some (AddrFrom16 b)
  else None.

(** ** Prefixes *)

(** A [netip.Prefix]; [pbits] is -1 in an invalid prefix. *)
Record Prefix := { paddr : Addr; pbits : Z }.

#[global] Instance prefix_eq_dec : EqDecision Prefix.
Proof. solve_decision. Defined.

Definition PrefixZero : Prefix := {| paddr := AddrZero; pbits := -1 |}.

Definition prefix_valid (p : Prefix) : bool := 0 <=? pbits p.

Definition without_zone (ip : Addr) : Addr := WithZone ip [].

Definition PrefixFrom (ip : Addr) (bits : Z) : Prefix :=
  {| paddr := without_zone ip;
     pbits := if IsValid ip && (0 <=? bits) && (bits <=? BitLen ip)
              then bits else -1 |}.

Definition mask_addr (width a bits : Z) : Z :=
  a / 2 ^ (width - bits) * 2 ^ (width - bits).

(** [Addr.Prefix]: the address masked to [b] bits; [None] is an error. *)
Definition addr_prefix (ip : Addr) (b : Z) : option Prefix :=
  if b <? 0 then None
  else match ip with
       | AddrZero => Some PrefixZero
       | Addr4 a => if 32 <? b then None
                    else Some (PrefixFrom (Addr4 (mask_addr 32 a b)) b)
       | Addr6 a _ => if 128 <? b then None
                      else Some (PrefixFrom (Addr6 (mask_addr 128 a b) []) b)
       end.

(** ** [ParseAddr] *)

Definition c_dot : byte := Byte.x2e.
Definition c_colon : byte := Byte.x3a.
Definition c_percent : byte := Byte.x25.

Fixpoint parse_v4_octet (s : bytes) (val : Z) (first : bool) : option Z :=
  match s with
  | [] => if first then None else Some val
  | b :: t =>
      if is_digit b then
        if negb first && (val =? 0) then None
        else let v := val * 10 + (b2z b - 48) in
             if 255 <? v then None else parse_v4_octet t v false
      else None
  end.

Definition parse_v4_fields (s : bytes) : option bytes :=
  match split_byte c_dot s with
  | [f0; f1; f2; f3] =>
      a ← parse_v4_octet f0 0 true;
      b ← parse_v4_octet f1 0 true;
      c ← parse_v4_octet f2 0 true;
      d ← parse_v4_octet f3 0 true;
      Some [z2b a; z2b b; z2b c; z2b d]
  | _ => None
  end.

(** The hexadecimal group at the front of [s]: its value and the rest. *)
Fixpoint parse_group (s : bytes) (off : nat) (acc : Z) : option (Z * nat * bytes) :=
  match s with
  | b :: t =>
      match unhex b with
      | Some d => if (3 <? off)%nat then None
                  else parse_group t (S off) (acc * 16 + d)
      | None => Some (acc, off, s)
      end
  | [] => Some (acc, off, s)
  end.

(** The loop over groups: octets so far, the position of the ellipsis, the
    rest of the string.  Each turn adds two octets and stops at sixteen, so
    eight turns are enough. *)
Fixpoint parse_v6_loop (fuel : nat) (ip : bytes) (ell : option nat) (s : bytes)
  : option (bytes * option nat * bytes) :=
  match fuel with
  | O => Some (ip, ell, s)
  | S fuel' =>
      '(acc, off, rest) ← parse_group s 0 0;
      if (off =? 0)%nat then None
      else match rest with
      | [] => Some (ip ++ be_bytes 2 acc, ell, [])
      | c :: rest' =>
          if decide (c = c_dot) then
            if (negb (bool_decide (is_Some ell)) && negb (length ip =? 12)%nat)
               || (16 <? length ip + 4)%nat then None
            else v4 ← parse_v4_fields s; Some (ip ++ v4, ell, [])
          else if decide (c = c_colon) then
            let ip' := ip ++ be_bytes 2 acc in
            match rest' with
            | [] => None
            | d :: rest'' =>
                if decide (d = c_colon) then
                  match ell, rest'' with
                  | Some _, _ => None
                  | None, [] => Some (ip', Some (length ip'), [])
                  | None, _ => parse_v6_loop fuel' ip' (Some (length ip')) rest''
                  end
                else parse_v6_loop fuel' ip' ell rest'
            end
          else None
      end
  end.

Definition expand_ellipsis (ip : bytes) (ell : option nat) : option bytes :=
  if (length ip <? 16)%nat then
    e ← ell; Some (take e ip ++ repeat Byte.x00 (16 - length ip) ++ drop e ip)
  else match ell with Some _ => None | None => Some ip end.

Definition parse_v6_groups (s : bytes) (ell : option nat) : option bytes :=
  '(ip, ell', rest) ← parse_v6_loop 8 [] ell s;
  match rest with
  | [] => expand_ellipsis ip ell'
  | _ => None
  end.

Definition parse_v6 (s : bytes) : option Addr :=
  '(body, zone) ←
    match index_byte s c_percent with
    | Some i => match drop (S i) s with
                | [] => None
                | z => Some (take i s, z)
                end
    | None => Some (s, [])
    end;
  ip ← match body with
       | a :: b :: rest =>
           if decide (a = c_colon /\ b = c_colon) then
             match rest with
             | [] => Some (be_bytes 16 0)
             | _ => parse_v6_groups rest (Some O)
             end
           else parse_v6_groups body None
       | _ => parse_v6_groups body None
       end;
  Some (WithZone (AddrFrom16 ip) zone).

(** [netip.ParseAddr]: the first of ['.'], [':'], ['%'] decides. *)
Fixpoint parse_addr_scan (s rest : bytes) : option Addr :=
  match rest with
  | [] => None
  | b :: t =>
      if decide (b = c_dot) then
        o ← parse_v4_fields s; Some (Addr4 (be_val o))
      else if decide (b = c_colon) then parse_v6 s
      else if decide (b = c_percent) then None
      else parse_addr_scan s t
  end.

Definition ParseAddr (s : bytes) : option Addr := parse_addr_scan s s.

Example parse_v4_ok : ParseAddr (bs "198.51.100.100") = Some (Addr4 0xc6336464).
Proof. vm_compute. reflexivity. Qed.
Example parse_v6_ok :
  ParseAddr (bs "2001:db8:220:1:59de:d0f4:8769:82b8")
  = Some (Addr6 0x20010db80220000159ded0f4876982b8 []).
Proof. vm_compute. reflexivity. Qed.
Example parse_v6_ell : ParseAddr (bs "fe80::1%eth0") = Some (Addr6 (0xfe80 * 2 ^ 112 + 1) (bs "eth0")).
Proof. vm_compute. reflexivity. Qed.
Example parse_v6_mapped : Unmap <$> ParseAddr (bs "::ffff:192.0.2.7") = Some (Addr4 0xc0000207).
Proof. vm_compute. reflexivity. Qed.
Example parse_bad : ParseAddr (bs "1::2::3") = None /\ ParseAddr (bs "01.2.3.4") = None
  /\ ParseAddr (bs "1:2:3:4:5:6:7:8:9") = None /\ ParseAddr (bs "::") = Some (Addr6 0 []).
Proof. vm_compute. done. Qed.

(** ** Rendering ([Addr.AppendTo], [Prefix.AppendTo]) *)

Definition append_v4 (a : Z) : bytes := join [c_dot] ((fun b => itoa (b2z b)) <$> be_bytes 4 a).

(** Four hexadecimal digits without leading zeros. *)
Definition append_hex16 (g : Z) : bytes :=
  (if 0x1000 <=? g then [hex_digit (g / 0x1000)] else []) ++
  (if 0x100 <=? g then [hex_digit (g / 0x100 mod 16)] else []) ++
  (if 0x10 <=? g then [hex_digit (g / 0x10 mod 16)] else []) ++
  [hex_digit (g mod 16)].

Definition v6_groups (a : Z) : list Z := (fun i => a / 2 ^ (16 * (7 - i)) mod 2 ^ 16) <$> [0; 1; 2; 3; 4; 5; 6; 7].

Fixpoint zero_run (gs : list Z) : nat :=
  match gs with g :: t => if g =? 0 then S (zero_run t) else O | [] => O end.

(** The longest run of two or more zero groups, the first one if several:
    its start and its length. *)
Fixpoint longest_zeros (gs : list Z) (i : nat) (best : nat * nat) : nat * nat :=
  match gs with
  | [] => best
  | _ :: t => let l := zero_run gs in
              longest_zeros t (S i) (if (2 <=? l)%nat && (best.2 <? l)%nat then (i, l) else best)
  end.

Definition append_v6 (a : Z) : bytes :=
  let gs := v6_groups a in
  let '(start, len) := longest_zeros gs 0 (255%nat, O) in
  let text l := join [c_colon] (append_hex16 <$> l) in
  if (len =? 0)%nat then text gs
  else text (take start gs) ++ [c_colon; c_colon] ++ text (drop (start + len) gs).

Definition AddrAppendTo (ip : Addr) : bytes :=
  match ip with
  | AddrZero => []
  | Addr4 a => append_v4 a
  | Addr6 a z =>
      (if Is4In6 ip then bs "::ffff:" ++ append_v4 (a mod 2 ^ 32) else append_v6 a)
      ++ (if beqb z [] then [] else c_percent :: z)
  end.

Definition PrefixAppendTo (p : Prefix) : bytes :=
  if bool_decide (p = PrefixZero) then []
  else if negb (prefix_valid p) then bs "invalid Prefix"
  else AddrAppendTo (paddr p) ++ [Byte.x2f] ++ itoa (pbits p).

Example append_zeros : AddrAppendTo (Addr6 (0x20010db8 * 2 ^ 96 + 0x10000 + 0x53) []) = bs "2001:db8::1:53".
Proof. vm_compute. reflexivity. Qed.
Example append_prefix : PrefixAppendTo {| paddr := Addr4 (192 * 2 ^ 24 + 2 ^ 9); pbits := 24 |} = bs "192.0.2.0/24".
Proof. vm_compute. reflexivity. Qed.
Example append_all_zero : AddrAppendTo (Addr6 0 (bs "eth0")) = bs "::%eth0".
Proof. vm_compute. reflexivity. Qed.

(** ** Laws *)

Lemma Unmap_idem ip : Unmap (Unmap ip) = Unmap ip.
Proof. destruct ip as [|a|a z]; cbn; [done..|]. case_match eqn:E; cbn; [done|]. by rewrite E. Qed.

Lemma Unmap_not_4in6 ip : Is4In6 (Unmap ip) = false.
Proof. destruct ip as [|a|a z]; cbn; [done..|]. by case_match eqn:E. Qed.

Lemma wf_Unmap ip : wf_addr ip -> wf_addr (Unmap ip).
Proof.
  destruct ip as [|a|a z]; cbn; [done..|]. case_match; cbn; [|done].
  intros _. apply Z.mod_pos_bound. lia.
Qed.

Lemma length_AsSlice ip :
  length (AsSlice ip) = match ip with AddrZero => 0 | Addr4 _ => 4 | _ => 16 end%nat.
Proof. destruct ip; cbn [AsSlice]; by rewrite ?length_be_bytes. Qed.

Lemma AsSlice_AddrFromSlice b ip :
  AddrFromSlice b = Some ip -> AsSlice ip = b.
Proof.
  unfold AddrFromSlice. destruct (length b =? 4)%nat eqn:E4; [|destruct (length b =? 16)%nat eqn:E16; [|done]].
  - apply Nat.eqb_eq in E4. intros [= <-]. cbn [AsSlice]. by apply be_bytes_val_n.
  - apply Nat.eqb_eq in E16. intros [= <-]. cbn [AsSlice AddrFrom16]. by apply be_bytes_val_n.
Qed.

Lemma AsSlice_inj ip1 ip2 :
  wf_addr ip1 -> wf_addr ip2 -> Zone ip1 = Zone ip2 ->
  AsSlice ip1 = AsSlice ip2 -> ip1 = ip2.
Proof.
  intros H1 H2 Hz E. pose proof (f_equal length E) as L. rewrite !length_AsSlice in L.
  destruct ip1, ip2; cbn [AsSlice wf_addr Zone] in *; try done; subst;
    f_equal; eapply be_bytes_inj; try exact E; done.
Qed.

Lemma As16_AddrFrom16 b : length b = 16%nat -> As16 (AddrFrom16 b) = b.
Proof. intros. cbn [As16 AddrFrom16]. by apply be_bytes_val_n. Qed.

Lemma AddrFrom16_As16 ip :
  wf_addr ip -> Is6 ip = true -> Zone ip = [] -> AddrFrom16 (As16 ip) = ip.
Proof.
  destruct ip as [| |a z]; cbn [Is6 Zone wf_addr As16]; [done..|].
  intros Ha _ ->. unfold AddrFrom16. by rewrite be_val_bytes_small.
Qed.

Lemma length_As16 ip : length (As16 ip) = 16%nat.
Proof. by destruct ip. Qed.

(** A masked prefix stays within its width and is the address rounded down to
    a multiple of the host part. *)
Lemma mask_addr_spec width a bits :
  0 <= bits <= width -> 0 <= a < 2 ^ width ->
  0 <= mask_addr width a bits <= a /\
  mask_addr width a bits mod 2 ^ (width - bits) = 0 /\
  a - mask_addr width a bits < 2 ^ (width - bits).
Proof.
  intros Hb Ha. unfold mask_addr.
  set (m := 2 ^ (width - bits)).
  assert (Hm : 0 < m) by (apply Z.pow_pos_nonneg; lia).
  pose proof (Z.div_mod a m ltac:(lia)) as E.
  pose proof (Z.mod_pos_bound a m Hm).
  pose proof (Z.div_pos a m ltac:(lia) Hm).
  rewrite Z.mod_mul by lia. split_and!; [nia|nia|done|nia].
Qed.

(** Parsed addresses are in range. *)
Lemma parse_v4_fields_length s o : parse_v4_fields s = Some o -> length o = 4%nat.
Proof.
  unfold parse_v4_fields. destruct (split_byte c_dot s) as [|a [|b [|c [|d [|??]]]]]; try done.
  intros H. repeat (apply bind_Some in H as (? & _ & H)). by injection H as <-.
Qed.

Lemma parse_v6_loop_length fuel ip ell s ip' ell' rest :
  (length ip + 2 * fuel <= 16)%nat -> parse_v6_loop fuel ip ell s = Some (ip', ell', rest) ->
  (length ip' <= 16)%nat.
Proof.
  revert ip ell s. induction fuel as [|fuel IH]; intros ip ell s Hl H; cbn [parse_v6_loop] in H.
  { injection H as <- _ _. lia. }
  apply bind_Some in H as ([[acc off] r] & _ & H).
  assert (H2 : length (ip ++ be_bytes 2 acc) = (length ip + 2)%nat) by (by rewrite length_app, length_be_bytes).
  destruct (off =? 0)%nat; [done|]. destruct r as [|c r'].
  { injection H as <- _ _. rewrite length_app. cbn. lia. }
  destruct (decide (c = c_dot)).
  { destruct (_ || (16 <? length ip + 4)%nat) eqn:E; [done|]. apply orb_false_iff in E as [_ E].
    apply Nat.ltb_ge in E. apply bind_Some in H as (v4 & Hv & H). injection H as <- _ _.
    rewrite length_app, (parse_v4_fields_length _ _ Hv). lia. }
  destruct (decide (c = c_colon)); [|done]. destruct r' as [|d r'']; [done|].
  destruct (decide (d = c_colon)).
  - destruct ell; [done|]. destruct r''; [injection H as <- _ _; rewrite length_app; cbn; lia|].
    eapply IH; [|exact H]. lia.
  - eapply IH; [|exact H]. lia.
Qed.

Lemma parse_v6_groups_length s ell ip : parse_v6_groups s ell = Some ip -> (length ip <= 16)%nat.
Proof.
  unfold parse_v6_groups. intros H. apply bind_Some in H as ([[ip' ell'] rest] & Hp & H).
  apply parse_v6_loop_length in Hp; [|cbn; lia]. destruct rest; [|done]. unfold expand_ellipsis in H.
  destruct (length ip' <? 16)%nat; [|destruct ell'; [done|]; by injection H as <-].
  apply bind_Some in H as (e & _ & H). injection H as <-.
  rewrite !length_app, length_take, repeat_length, length_drop. lia.
Qed.

Lemma be_val_bound n l : (length l <= n)%nat -> 0 <= be_val l < 256 ^ Z.of_nat n.
Proof.
  intros H. pose proof (be_val_range l). split; [lia|]. eapply Z.lt_le_trans; [apply H0|].
  apply Z.pow_le_mono_r; [lia|]. unfold zlen. lia.
Qed.

Lemma ParseAddr_wf s ip : ParseAddr s = Some ip -> wf_addr ip.
Proof.
  unfold ParseAddr. generalize s at 2. intros rest. induction rest as [|b t IH]; cbn [parse_addr_scan]; [done|].
  destruct (decide (b = c_dot)).
  { intros H. apply bind_Some in H as (o & Ho & H). injection H as <-.
    apply parse_v4_fields_length in Ho. apply (be_val_bound 4). lia. }
  destruct (decide (b = c_colon)); [|by destruct (decide (b = c_percent))].
  unfold parse_v6. intros H. apply bind_Some in H as ([body z] & _ & H).
  apply bind_Some in H as (ip' & Hip & H). injection H as <-. cbn.
  assert (Hl : (length ip' <= 16)%nat).
  { destruct body as [|x [|y r]]; [by eapply parse_v6_groups_length..|].
    destruct (decide _); [|by eapply parse_v6_groups_length].
    destruct r; [|by eapply parse_v6_groups_length]. injection Hip as <-. done. }
  exact (be_val_bound 16 _ Hl).
Qed.
