(* ===== verification/SipHash.v ===== *)
(** * SipHash-2-4 ([cookie/siphash.go])

    The hash of the RFC 9018 server cookie, on 64-bit words with explicit wrap
    around, and the padded-block reference it implements. *)

From S2P Require Import Prelude.

Definition sipInit0 : Z := 0x736f6d6570736575.
Definition sipInit1 : Z := 0x646f72616e646f6d.
Definition sipInit2 : Z := 0x6c7967656e657261.
Definition sipInit3 : Z := 0x7465646279746573.
Definition lengthShift : Z := 56.
Definition sipFinal : Z := 0xff.
Definition byteMask : Z := 0xff.
Definition bitsPerByte : Z := 8.
Definition rotA : Z := 13.
Definition rotB : Z := 32.
Definition rotC : Z := 16.
Definition rotD : Z := 21.
Definition rotE : Z := 17.

(** [bits.RotateLeft64]. *)
Definition RotateLeft64 (x k : Z) : Z :=
  Z.lor (u64 (Z.shiftl x k)) (Z.shiftr x (64 - k)).

Record sipState := { v0 : Z; v1 : Z; v2 : Z; v3 : Z }.

(** The fourteen assignments of one SipRound, in the code's order. *)
Definition round (s : sipState) : sipState :=
  let '{| v0 := v0; v1 := v1; v2 := v2; v3 := v3 |} := s in
  let v0 := u64 (v0 + v1) in
  let v1 := RotateLeft64 v1 rotA in
  let v1 := Z.lxor v1 v0 in
  let v0 := RotateLeft64 v0 rotB in
  let v2 := u64 (v2 + v3) in
  let v3 := RotateLeft64 v3 rotC in
  let v3 := Z.lxor v3 v2 in
  let v0 := u64 (v0 + v3) in
  let v3 := RotateLeft64 v3 rotD in
  let v3 := Z.lxor v3 v0 in
  let v2 := u64 (v2 + v1) in
  let v1 := RotateLeft64 v1 rotE in
  let v1 := Z.lxor v1 v2 in
  let v2 := RotateLeft64 v2 rotB in
  {| v0 := v0; v1 := v1; v2 := v2; v3 := v3 |}.

Definition xor_v3 (m : Z) (s : sipState) : sipState :=
  {| v0 := v0 s; v1 := v1 s; v2 := v2 s; v3 := Z.lxor (v3 s) m |}.
Definition xor_v0 (m : Z) (s : sipState) : sipState :=
  {| v0 := Z.lxor (v0 s) m; v1 := v1 s; v2 := v2 s; v3 := v3 s |}.
Definition xor_v2 (m : Z) (s : sipState) : sipState :=
  {| v0 := v0 s; v1 := v1 s; v2 := Z.lxor (v2 s) m; v3 := v3 s |}.

Definition absorb (s : sipState) (m : Z) : sipState :=
  xor_v0 m (round (round (xor_v3 m s))).

Definition sip_init (key : bytes) : sipState :=
  let k0 := le_val (take 8 key) in
  let k1 := le_val (take 8 (drop 8 key)) in
  {| v0 := Z.lxor k0 sipInit0; v1 := Z.lxor k1 sipInit1;
     v2 := Z.lxor k0 sipInit2; v3 := Z.lxor k1 sipInit3 |}.

(** [for len(msg) >= 8 { s.absorb(...); msg = msg[8:] }]: the state and the
    remaining 0..7 bytes. *)
Fixpoint sip_blocks (s : sipState) (msg : bytes) : sipState * bytes :=
  match msg with
  | b0 :: b1 :: b2 :: b3 :: b4 :: b5 :: b6 :: b7 :: rest =>
      sip_blocks (absorb s (le_val [b0; b1; b2; b3; b4; b5; b6; b7])) rest
  | _ => (s, msg)
  end.

(** [for i, b := range msg { last |= uint64(b) << (8*i) }]. *)
Fixpoint last_bytes (i : Z) (last : Z) (msg : bytes) : Z :=
  match msg with
  | [] => last
  | b :: t => last_bytes (i + 1)
                (Z.lor last (u64 (Z.shiftl (b2z b) (bitsPerByte * i)))) t
  end.

Definition sip_last (n : Z) (rest : bytes) : Z :=
  last_bytes 0 (u64 (Z.shiftl (Z.land n byteMask) lengthShift)) rest.

Definition sip_finish (s : sipState) : Z :=
  let s := round (round (round (round (xor_v2 sipFinal s)))) in
  Z.lxor (Z.lxor (Z.lxor (v0 s) (v1 s)) (v2 s)) (v3 s).

(** The whole function; [key] is the 16-byte array. *)
Definition siphash24 (key msg : bytes) : Z :=
  let '(s, rest) := sip_blocks (sip_init key) msg in
  sip_finish (absorb s (sip_last (zlen msg) rest)).

(** ** The function of the paper (Aumasson and Bernstein, "SipHash: a fast
    short-input PRF", section 2)

    Written from the paper and not from the code: 64-bit arithmetic as
    arithmetic modulo 2^64, a rotation as a multiplication and a division, the
    four constants as the text they spell, SipRound as its two half rounds, the
    message as one padded sequence of words, and the numbers of rounds [c] and
    [d] as parameters. *)

Definition sip_pad (msg : bytes) : bytes :=
  msg ++ repeat Byte.x00 (Z.to_nat ((7 - zlen msg) mod 8)) ++ [z2b (zlen msg)].

Module Paper.
Definition quad : Type := Z * Z * Z * Z.

Definition add (x y : Z) : Z := (x + y) mod 2 ^ 64.
(** [x <<< k]. *)
Definition rol (x k : Z) : Z := (x * 2 ^ k) mod 2 ^ 64 + x / 2 ^ (64 - k).

(** A little-endian word. *)
Definition word (l : bytes) : Z := foldr (fun b w => b2z b + 256 * w) 0 l.

(** One column of the figure: both additions, both rotations, both xors, and
    the 32-bit rotation of the first word. *)
Definition half (k l : Z) (s : quad) : quad :=
  let '(a, b, c, d) := s in
  (rol (add a b) 32, Z.lxor (rol b k) (add a b), add c d, Z.lxor (rol d l) (add c d)).
(** The second half round has the first and the third word change places. *)
Definition swap02 (s : quad) : quad := let '(a, b, c, d) := s in (c, b, a, d).
Definition SipRound (s : quad) : quad := swap02 (half 17 21 (swap02 (half 13 16 s))).

Definition text : bytes := bs "somepseudorandomlygeneratedbytes".
Definition const (i : nat) : Z := be_val (take 8 (drop (8 * i) text)).

Definition init (key : bytes) : quad :=
  let k0 := word (take 8 key) in
  let k1 := word (take 8 (drop 8 key)) in
  (Z.lxor k0 (const 0), Z.lxor k1 (const 1), Z.lxor k0 (const 2), Z.lxor k1 (const 3)).

Definition compress (c : nat) (s : quad) (m : Z) : quad :=
  let '(v0, v1, v2, v3) := s in
  let '(v0, v1, v2, v3) := Nat.iter c SipRound (v0, v1, v2, Z.lxor v3 m) in
  (Z.lxor v0 m, v1, v2, v3).

Definition finalize (d : nat) (s : quad) : Z :=
  let '(v0, v1, v2, v3) := s in
  let '(v0, v1, v2, v3) := Nat.iter d SipRound (v0, v1, Z.lxor v2 255, v3) in
  Z.lxor (Z.lxor v0 v1) (Z.lxor v2 v3).

Fixpoint words (n : nat) (p : bytes) : list Z :=
  match n with
  | O => []
  | S n' => word (take 8 p) :: words n' (drop 8 p)
  end.

Definition SipHash (c d : nat) (key msg : bytes) : Z :=
  let p := sip_pad msg in
  finalize d (fold_left (compress c) (words (length p / 8) p) (init key)).
End Paper.

(** The padded message as the code's words, for the two-phase loop. *)
Fixpoint words_of (n : nat) (msg : bytes) : list Z :=
  match n with
  | O => []
  | S n' => le_val (take 8 msg) :: words_of n' (drop 8 msg)
  end.

(** ** Lemmas *)

Lemma testbit_above a k i :
  0 <= a < 2 ^ k -> 0 <= k <= i -> Z.testbit a i = false.
Proof.
  intros Ha Hi. destruct (decide (a = 0)) as [->|]; [apply Z.bits_0|].
  apply Z.bits_above_log2; [lia|]. apply Z.log2_lt_pow2; [lia|].
  pose proof (Z.pow_le_mono_r 2 k i). lia.
Qed.

Lemma lor_shift_add a b k :
  0 <= k -> 0 <= a < 2 ^ k -> Z.lor a (Z.shiftl b k) = a + b * 2 ^ k.
Proof.
  intros Hk Ha. rewrite <- Z.shiftl_mul_pow2 by done.
  symmetry. rewrite Z.add_nocarry_lxor.
  - apply Z.bits_inj'. intros i Hi. rewrite Z.lxor_spec, Z.lor_spec.
    destruct (Z.lt_ge_cases i k) as [Hik|Hik].
    + rewrite Z.shiftl_spec_low by done. by destruct (Z.testbit a i).
    + rewrite (testbit_above a k i) by lia. by destruct (Z.testbit _ i).
  - apply Z.bits_inj'. intros i Hi. rewrite Z.land_spec, Z.bits_0.
    destruct (Z.lt_ge_cases i k) as [Hik|Hik].
    + rewrite Z.shiftl_spec_low by done. apply andb_false_r.
    + by rewrite (testbit_above a k i) by lia.
Qed.

Lemma le_val_cons b t : le_val (b :: t) = b2z b + 256 * le_val t.
Proof.
  unfold le_val. cbn [rev].
  assert (H : forall l c, be_val (l ++ [c]) = b2z c + 256 * be_val l).
  { induction l as [|x l IH]; intros c; [change (b2z c * 1 + 0 = b2z c + 256 * 0); lia|].
    cbn [app be_val]. rewrite IH, zlen_app, Z.pow_add_r by (unfold zlen; lia).
    change (256 ^ zlen [c]) with 256. lia. }
  apply H.
Qed.

Lemma le_val_range l : 0 <= le_val l < 256 ^ zlen l.
Proof.
  unfold le_val. pose proof (be_val_range (rev l)) as H. unfold zlen in *.
  by rewrite length_rev in H.
Qed.

Lemma le_val_app l k : le_val (l ++ k) = le_val l + 256 ^ zlen l * le_val k.
Proof.
  induction l as [|b l IH]; [change (le_val k = 0 + 1 * le_val k); lia|].
  cbn [app]. rewrite !le_val_cons, IH, zlen_cons, Z.pow_add_r by (unfold zlen; lia). lia.
Qed.

Lemma le_val_zeros n : le_val (repeat Byte.x00 n) = 0.
Proof. induction n as [|n IH]; [done|]. cbn [repeat]. rewrite le_val_cons, IH. done. Qed.

(** Bytes or-ed into a word at increasing offsets, below an already present
    high part [hi * 2^56]. *)
Lemma last_bytes_val rest i lo hi :
  0 <= i -> i + zlen rest <= 7 -> 0 <= lo < 256 ^ i -> 0 <= hi < 256 ->
  last_bytes i (lo + hi * 2 ^ 56) rest
  = lo + 256 ^ i * le_val rest + hi * 2 ^ 56.
Proof.
  revert i lo. induction rest as [|b t IH]; intros i lo Hi Hlen Hlo Hhi; cbn [last_bytes].
  - change (le_val []) with 0. lia.
  - rewrite zlen_cons in Hlen. pose proof (zlen_nonneg t). pose proof (b2z_range b) as Hb.
    assert (E256 : 256 ^ i = 2 ^ (8 * i)) by (rewrite Z.pow_mul_r by lia; done).
    unfold bitsPerByte.
    assert (Hs : u64 (Z.shiftl (b2z b) (8 * i)) = b2z b * 256 ^ i).
    { rewrite Z.shiftl_mul_pow2, <- E256 by lia. apply Z.mod_small.
      pose proof (Z.pow_pos_nonneg 256 i ltac:(lia) Hi).
      pose proof (Z.pow_le_mono_r 256 i 6 ltac:(lia) ltac:(lia)). nia. }
    rewrite Hs.
    assert (Hor : Z.lor (lo + hi * 2 ^ 56) (b2z b * 256 ^ i)
                  = (lo + b2z b * 256 ^ i) + hi * 2 ^ 56).
    { pose proof (Z.pow_pos_nonneg 256 i ltac:(lia) Hi).
      assert (lo + b2z b * 256 ^ i < 256 ^ (i + 1)) by (rewrite Z.pow_add_r by lia; nia).
      pose proof (Z.pow_le_mono_r 256 (i + 1) 7 ltac:(lia) ltac:(lia)).
      pose proof (Z.pow_le_mono_r 256 i 7 ltac:(lia) ltac:(lia)).
      rewrite <- (lor_shift_add lo hi 56), <- (lor_shift_add (lo + b2z b * 256 ^ i) hi 56) by lia.
      rewrite <- (Z.lor_assoc lo), (Z.lor_comm (Z.shiftl hi 56)), Z.lor_assoc. f_equal.
      rewrite E256, <- Z.shiftl_mul_pow2, lor_shift_add by lia.
      by rewrite Z.shiftl_mul_pow2 by lia. }
    rewrite Hor, IH; [|lia..| |done].
    + rewrite le_val_cons, Z.pow_add_r by lia. change (256 ^ 1) with 256. nia.
    + pose proof (Z.pow_pos_nonneg 256 i ltac:(lia) Hi).
      rewrite Z.pow_add_r by lia. nia.
Qed.

Lemma sip_last_val n rest :
  zlen rest <= 7 ->
  sip_last n rest = le_val (rest ++ repeat Byte.x00 (7 - length rest) ++ [z2b n]).
Proof.
  intros H. unfold sip_last, byteMask, lengthShift.
  assert (E : Z.land n 255 = n mod 256) by (change 255 with (Z.ones 8); by rewrite Z.land_ones).
  pose proof (Z.mod_pos_bound n 256 ltac:(lia)).
  replace (u64 (Z.shiftl (Z.land n 255) 56)) with (0 + (n mod 256) * 2 ^ 56).
  2:{ rewrite E, Z.shiftl_mul_pow2 by lia. unfold u64. rewrite (Z.mod_small (_ * _)); lia. }
  rewrite last_bytes_val by (try done; lia).
  rewrite !le_val_app, le_val_zeros. rewrite le_val_cons. change (le_val []) with 0.
  rewrite b2z_z2b.
  assert (256 ^ zlen rest * 256 ^ zlen (repeat Byte.x00 (7 - length rest)) = 2 ^ 56).
  { rewrite <- Z.pow_add_r by apply zlen_nonneg. unfold zlen in *. rewrite repeat_length.
    replace (Z.of_nat (length rest) + Z.of_nat (7 - length rest)) with 7 by lia. done. }
  nia.
Qed.

Lemma sip_blocks_nil s msg : (length msg < 8)%nat -> sip_blocks s msg = (s, msg).
Proof. do 8 (destruct msg as [|? msg]; [done|]). cbn. lia. Qed.

Lemma sip_blocks_step s l msg :
  length l = 8%nat -> sip_blocks s (l ++ msg) = sip_blocks (absorb s (le_val l)) msg.
Proof. do 8 (destruct l as [|? l]; [done|]). by destruct l. Qed.

Lemma words_of_app s l n msg :
  length l = 8%nat ->
  fold_left absorb (words_of (S n) (l ++ msg)) s
  = fold_left absorb (words_of n msg) (absorb s (le_val l)).
Proof. intros H. cbn [words_of fold_left]. by rewrite take_app_n, drop_app_n. Qed.

Lemma sip_pad_short msg :
  (length msg < 8)%nat ->
  forall n, words_of 1 (msg ++ repeat Byte.x00 (7 - length msg) ++ [z2b n])
            = [sip_last n msg].
Proof.
  intros H n. cbn [words_of]. rewrite sip_last_val by (unfold zlen; lia). f_equal. f_equal.
  apply take_ge. rewrite !length_app, repeat_length. cbn. lia.
Qed.

(** The two-phase loop and the padded fold agree from any state. *)
Lemma sip_blocks_spec k : forall s msg n,
  length msg = k ->
  let '(s', rest) := sip_blocks s msg in
  (length rest < 8)%nat /\
  absorb s' (sip_last n rest)
  = fold_left absorb
      (words_of (S (length msg / 8))
        (msg ++ repeat Byte.x00 (7 - length msg mod 8) ++ [z2b n])) s.
Proof.
  induction (lt_wf k) as [k _ IH]. intros s msg n Hk.
  destruct (decide (length msg < 8)%nat) as [Hs|Hs].
  - rewrite sip_blocks_nil by done. split; [done|].
    rewrite Nat.div_small, Nat.mod_small by done.
    by rewrite sip_pad_short.
  - rewrite <- (take_drop 8 msg).
    assert (H8 : length (take 8 msg) = 8%nat) by (rewrite length_take; lia).
    rewrite sip_blocks_step by done.
    specialize (IH (length (drop 8 msg))).
    rewrite length_drop in IH.
    specialize (IH ltac:(lia) (absorb s (le_val (take 8 msg))) (drop 8 msg) n (length_drop _ _)).
    destruct (sip_blocks _ _) as [s' rest]. destruct IH as [? IH]. split; [done|].
    rewrite IH, length_app, H8, length_drop.
    replace (8 + (length msg - 8))%nat with (length msg - 8 + 1 * 8)%nat by lia.
    rewrite Nat.div_add, Nat.Div0.mod_add, Nat.add_1_r by lia.
    by rewrite <- app_assoc, (words_of_app _ (take 8 msg)).
Qed.

Lemma sip_pad_length msg :
  (length (sip_pad msg) / 8 = S (length msg / 8))%nat /\
  sip_pad msg = msg ++ repeat Byte.x00 (7 - length msg mod 8) ++ [z2b (zlen msg)].
Proof.
  assert (E : Z.to_nat ((7 - zlen msg) mod 8) = (7 - length msg mod 8)%nat).
  { unfold zlen. pose proof (Nat.mod_upper_bound (length msg) 8 ltac:(lia)).
    pose proof (Nat.div_mod_eq (length msg) 8).
    replace ((7 - Z.of_nat (length msg)) mod 8) with (Z.of_nat (7 - length msg mod 8)); [lia|].
    apply (Z.mod_unique_pos _ _ (- Z.of_nat (length msg / 8))); lia. }
  unfold sip_pad. rewrite E. split; [|done].
  rewrite !length_app, repeat_length. cbn [length].
  pose proof (Nat.mod_upper_bound (length msg) 8 ltac:(lia)).
  pose proof (Nat.div_mod_eq (length msg) 8) as D.
  replace (length msg + (7 - length msg mod 8 + 1))%nat
    with (0 + (S (length msg / 8)) * 8)%nat by lia.
  by rewrite Nat.div_add by lia.
Qed.

(** The result is a 64-bit word. *)
Lemma lxor_u64 a b : is_u64 a -> is_u64 b -> is_u64 (Z.lxor a b).
Proof.
  unfold is_u64. intros Ha Hb.
  assert (0 <= Z.lxor a b) by (apply Z.lxor_nonneg; lia).
  split; [done|].
  destruct (decide (Z.lxor a b = 0)) as [->|]; [lia|].
  apply Z.log2_lt_pow2; [lia|].
  eapply Z.le_lt_trans; [apply Z.log2_lxor; lia|].
  apply Z.max_lub_lt.
  - destruct (decide (a = 0)) as [->|]; [cbn; lia|]. apply Z.log2_lt_pow2; lia.
  - destruct (decide (b = 0)) as [->|]; [cbn; lia|]. apply Z.log2_lt_pow2; lia.
Qed.

Lemma lor_u64 a b : is_u64 a -> is_u64 b -> is_u64 (Z.lor a b).
Proof.
  unfold is_u64. intros Ha Hb.
  assert (0 <= Z.lor a b) by (apply Z.lor_nonneg; lia).
  split; [done|].
  destruct (decide (Z.lor a b = 0)) as [->|]; [lia|].
  apply Z.log2_lt_pow2; [lia|].
  rewrite Z.log2_lor by lia.
  apply Z.max_lub_lt.
  - destruct (decide (a = 0)) as [->|]; [cbn; lia|]. apply Z.log2_lt_pow2; lia.
  - destruct (decide (b = 0)) as [->|]; [cbn; lia|]. apply Z.log2_lt_pow2; lia.
Qed.

Lemma rotl_u64 x k : is_u64 x -> 0 <= k <= 64 -> is_u64 (RotateLeft64 x k).
Proof.
  intros Hx Hk. apply lor_u64; [apply u64_range|].
  unfold is_u64 in *. rewrite Z.shiftr_div_pow2 by lia.
  assert (0 < 2 ^ (64 - k)) by (apply Z.pow_pos_nonneg; lia).
  split; [apply Z.div_pos; lia|]. apply Z.div_lt_upper_bound; nia.
Qed.

Definition wf_sip (s : sipState) : Prop :=
  is_u64 (v0 s) /\ is_u64 (v1 s) /\ is_u64 (v2 s) /\ is_u64 (v3 s).

Lemma round_wf s : wf_sip s -> wf_sip (round s).
Proof.
  destruct s. unfold wf_sip, round, rotA, rotB, rotC, rotD, rotE.
  cbn [v0 v1 v2 v3]. intros (?&?&?&?).
  split_and!; repeat first
    [ apply lxor_u64 | apply rotl_u64; [|lia] | apply u64_range | done ].
Qed.

Lemma le_val_u64 l : (length l <= 8)%nat -> is_u64 (le_val l).
Proof.
  intros H. pose proof (le_val_range l). unfold is_u64, zlen in *.
  pose proof (Z.pow_le_mono_r 256 (Z.of_nat (length l)) 8 ltac:(lia) ltac:(lia)). lia.
Qed.

Lemma xor_wf s m : wf_sip s -> is_u64 m ->
  wf_sip (xor_v0 m s) /\ wf_sip (xor_v2 m s) /\ wf_sip (xor_v3 m s).
Proof.
  unfold wf_sip, xor_v0, xor_v2, xor_v3. cbn [v0 v1 v2 v3].
  intros (?&?&?&?) ?. split_and!; try done; by apply lxor_u64.
Qed.

Lemma absorb_wf s m : wf_sip s -> is_u64 m -> wf_sip (absorb s m).
Proof.
  intros H Hm. unfold absorb. refine (proj1 (xor_wf _ _ _ Hm)).
  do 2 apply round_wf. exact (proj2 (proj2 (xor_wf _ _ H Hm))).
Qed.

Lemma sip_init_wf key : wf_sip (sip_init key).
Proof.
  unfold wf_sip, sip_init. cbn [v0 v1 v2 v3].
  assert (is_u64 sipInit0 /\ is_u64 sipInit1 /\ is_u64 sipInit2 /\ is_u64 sipInit3)
    as (?&?&?&?) by (vm_compute; intuition congruence).
  split_and!; apply lxor_u64; try done; apply le_val_u64; rewrite length_take; lia.
Qed.

Lemma sip_blocks_wf k : forall s msg, length msg = k -> wf_sip s -> wf_sip (fst (sip_blocks s msg)).
Proof.
  induction (lt_wf k) as [k _ IH]. intros s msg Hk Hs.
  destruct (decide (length msg < 8)%nat) as [Hl|Hl]; [by rewrite sip_blocks_nil|].
  rewrite <- (take_drop 8 msg), sip_blocks_step by (rewrite length_take; lia).
  eapply IH; [|reflexivity|].
  - rewrite length_drop. lia.
  - apply absorb_wf; [done|]. apply le_val_u64. rewrite length_take. lia.
Qed.

Lemma siphash24_range key msg : is_u64 (siphash24 key msg).
Proof.
  unfold siphash24.
  pose proof (sip_blocks_wf _ (sip_init key) msg eq_refl (sip_init_wf key)) as Hw.
  pose proof (sip_blocks_spec _ (sip_init key) msg 0 eq_refl) as Hs.
  destruct (sip_blocks _ _) as [s rest]. destruct Hs as [Hl _].
  assert (Hw2 : wf_sip (absorb s (sip_last (zlen msg) rest))).
  { apply absorb_wf; [done|]. rewrite sip_last_val by (unfold zlen; lia).
    apply le_val_u64. rewrite !length_app, repeat_length. cbn [length]. lia. }
  assert (Hf : is_u64 sipFinal) by (split; vm_compute; congruence).
  destruct (round_wf _ (round_wf _ (round_wf _ (round_wf _
    (proj1 (proj2 (xor_wf _ _ Hw2 Hf))))))) as (?&?&?&?).
  unfold sip_finish. cbv zeta. apply lxor_u64; [apply lxor_u64; [apply lxor_u64|]|]; assumption.
Qed.

(** Test vectors of the paper: key 00..0f, the empty message and 00..0e. *)
Example sip_vector0 :
  siphash24 (map z2b (seqZ 0 16)) [] = 0x726fdb47dd0e0e31.
Proof. vm_compute. reflexivity. Qed.
Example sip_vector15 :
  siphash24 (map z2b (seqZ 0 16)) (map z2b (seqZ 0 15)) = 0xa129ca6149be45e5.
Proof. vm_compute. reflexivity. Qed.

(** ** The code's words against the paper's *)

Lemma rotl_rol x k : is_u64 x -> 0 <= k <= 64 -> RotateLeft64 x k = Paper.rol x k.
Proof.
  intros Hx Hk. unfold RotateLeft64, Paper.rol, is_u64 in *.
  assert (H0 : 0 < 2 ^ (64 - k)) by (apply Z.pow_pos_nonneg; lia).
  assert (H1 : 0 < 2 ^ k) by (apply Z.pow_pos_nonneg; lia).
  assert (H2 : 2 ^ (64 - k) * 2 ^ k = 2 ^ 64) by (rewrite <- Z.pow_add_r by lia; f_equal; lia).
  assert (E : u64 (Z.shiftl x k) = Z.shiftl (x mod 2 ^ (64 - k)) k).
  { rewrite !Z.shiftl_mul_pow2 by lia. unfold u64. rewrite <- H2. by rewrite Z.mul_mod_distr_r by lia. }
  rewrite Z.lor_comm, E, lor_shift_add; [|lia|].
  - rewrite Z.shiftr_div_pow2 by lia. rewrite <- H2, Z.mul_mod_distr_r by lia. lia.
  - rewrite Z.shiftr_div_pow2 by lia. split; [apply Z.div_pos; lia|]. apply Z.div_lt_upper_bound; lia.
Qed.

Definition quad_of (s : sipState) : Paper.quad := (v0 s, v1 s, v2 s, v3 s).

Lemma round_paper s : wf_sip s -> quad_of (round s) = Paper.SipRound (quad_of s).
Proof.
  destruct s as [a b c d]. unfold wf_sip, quad_of, round, Paper.SipRound, Paper.half, Paper.swap02.
  cbn [v0 v1 v2 v3]. unfold rotA, rotB, rotC, rotD, rotE. intros (Ha & Hb & Hc & Hd).
  assert (Hr : forall x y k, is_u64 x -> is_u64 y -> 0 <= k <= 64 -> is_u64 (Z.lxor (Paper.rol x k) y))
    by (intros; rewrite <- rotl_rol by done; by apply lxor_u64; [apply rotl_u64|]).
  assert (Hu : forall x y, is_u64 (Paper.add x y)) by (intros; apply u64_range).
  change u64 with (fun z => z mod 2 ^ 64). cbv beta. fold (Paper.add a b) (Paper.add c d).
  rewrite (rotl_rol b), (rotl_rol d), (rotl_rol (Paper.add a b)) by (done || lia).
  set (b' := Z.lxor (Paper.rol b 13) _). set (d' := Z.lxor (Paper.rol d 16) _).
  assert (is_u64 b') by (apply Hr; [done|done|lia]). assert (is_u64 d') by (apply Hr; [done|done|lia]).
  fold (Paper.add (Paper.rol (Paper.add a b) 32) d') (Paper.add (Paper.add c d) b').
  by rewrite !rotl_rol by (done || lia).
Qed.

Lemma iter_round_paper n s :
  wf_sip s -> quad_of (Nat.iter n round s) = Nat.iter n Paper.SipRound (quad_of s) /\ wf_sip (Nat.iter n round s).
Proof.
  intros Hs. induction n as [|n [IH Hw]]; [done|]. rewrite !Nat.iter_succ.
  split; [|by apply round_wf].
  by rewrite round_paper, IH.
Qed.

(** The paper's functions on the code's record. *)
Lemma compress_on c s m r :
  Nat.iter c Paper.SipRound (quad_of (xor_v3 m s)) = quad_of r ->
  Paper.compress c (quad_of s) m = quad_of (xor_v0 m r).
Proof. destruct s, r. unfold Paper.compress, quad_of, xor_v3, xor_v0. cbn [v0 v1 v2 v3]. by intros ->. Qed.

Lemma finalize_on d s r :
  Nat.iter d Paper.SipRound (quad_of (xor_v2 sipFinal s)) = quad_of r ->
  Paper.finalize d (quad_of s) = Z.lxor (Z.lxor (Z.lxor (v0 r) (v1 r)) (v2 r)) (v3 r).
Proof.
  destruct s, r. unfold Paper.finalize, quad_of, xor_v2, sipFinal. cbn [v0 v1 v2 v3]. intros ->.
  symmetry. apply Z.lxor_assoc.
Qed.

Lemma absorb_iter s m : absorb s m = xor_v0 m (Nat.iter 2 round (xor_v3 m s)).
Proof. by rewrite !Nat.iter_succ. Qed.

Lemma finish_iter s :
  let r := Nat.iter 4 round (xor_v2 sipFinal s) in
  sip_finish s = Z.lxor (Z.lxor (Z.lxor (v0 r) (v1 r)) (v2 r)) (v3 r).
Proof. cbv zeta. by rewrite !Nat.iter_succ. Qed.

#[local] Opaque round Paper.SipRound.

Lemma absorb_paper s m : wf_sip s -> is_u64 m -> quad_of (absorb s m) = Paper.compress 2 (quad_of s) m.
Proof.
  intros Hs Hm. destruct (iter_round_paper 2 (xor_v3 m s)) as [E _]; [exact (proj2 (proj2 (xor_wf _ _ Hs Hm)))|].
  rewrite absorb_iter. symmetry. exact (compress_on 2 s m _ (eq_sym E)).
Qed.

Lemma finish_paper s : wf_sip s -> sip_finish s = Paper.finalize 4 (quad_of s).
Proof.
  intros Hs. destruct (iter_round_paper 4 (xor_v2 sipFinal s)) as [E _].
  { refine (proj1 (proj2 (xor_wf _ _ Hs _))). split; vm_compute; congruence. }
  rewrite finish_iter. symmetry. exact (finalize_on 4 s _ (eq_sym E)).
Qed.

Lemma word_le_val l : Paper.word l = le_val l.
Proof. induction l as [|b l IH]; [done|]. cbn [Paper.word foldr]. rewrite le_val_cons. unfold Paper.word in IH. by rewrite IH. Qed.

Lemma init_paper key : quad_of (sip_init key) = Paper.init key.
Proof. unfold Paper.init. by rewrite !word_le_val. Qed.

Lemma fold_absorb_paper n : forall p s, wf_sip s ->
  quad_of (fold_left absorb (words_of n p) s) = fold_left (Paper.compress 2) (Paper.words n p) (quad_of s) /\ wf_sip (fold_left absorb (words_of n p) s).
Proof.
  induction n as [|n IH]; intros p s Hs; cbn [words_of Paper.words fold_left]; [done|].
  assert (Hu : is_u64 (le_val (take 8 p))) by (apply le_val_u64; rewrite length_take; lia).
  rewrite word_le_val, <- absorb_paper by done. apply IH. by apply absorb_wf.
Qed.

(** ** Property *)

(** C23: [siphash24] computes SipHash-2-4 as its paper defines it, for every
    key and message.  The specification shares no step with the code: its
    constants are the text "somepseudorandomlygeneratedbytes", its rounds are
    two half rounds in arithmetic modulo 2^64, two of them for a word and four
    to finish, and its message is padded with zeros and its length modulo 256
    and read as little-endian words, where the code has an eight-byte loop, an
    or-ed last block and fourteen assignments. *)
Theorem siphash24_correct key msg : siphash24 key msg = Paper.SipHash 2 4 key msg.
Proof.
  unfold siphash24, Paper.SipHash.
  destruct (sip_pad_length msg) as [-> ->].
  pose proof (sip_blocks_spec _ (sip_init key) msg (zlen msg) eq_refl) as H.
  destruct (sip_blocks _ _) as [s rest]. destruct H as [_ ->].
  destruct (fold_absorb_paper (S (length msg / 8))
    (msg ++ repeat Byte.x00 (7 - length msg mod 8) ++ [z2b (zlen msg)]) (sip_init key) (sip_init_wf key)) as [E Hw].
  by rewrite finish_paper, E, init_paper by done.
Qed.
