(* ===== verification/Dns.v ===== *)
(** * DNS messages and records, as the plugins see them

    The data types of [github.com/miekg/dns] that the plugins build, read and
    match on, and, as type classes, what they rely on of that library:
    [NameLib] for domain names, type names and the text of records, [MsgLib]
    for messages.  The library is not part of this repository, so both stay
    parameters of every model; [SimpleDns.v] gives an instance. *)

From S2P Require Import Prelude GoStrings Netip.

(** ** Numbers of the protocol *)

Definition TypeA : Z := 1.
Definition TypeNS : Z := 2.
Definition TypeCNAME : Z := 5.
Definition TypeSOA : Z := 6.
Definition TypeNULL : Z := 10.
Definition TypePTR : Z := 12.
Definition TypeTXT : Z := 16.
Definition TypeAAAA : Z := 28.
Definition TypeSRV : Z := 33.
Definition TypeOPT : Z := 41.
Definition TypeRRSIG : Z := 46.
Definition TypeNSEC : Z := 47.
Definition TypeDNSKEY : Z := 48.
Definition TypeSVCB : Z := 64.
Definition TypeHTTPS : Z := 65.
Definition TypeNXNAME : Z := 128.
Definition TypeANY : Z := 255.

Definition ClassINET : Z := 1.
Definition ClassNONE : Z := 254.
Definition ClassANY : Z := 255.

Definition OpcodeQuery : Z := 0.
Definition OpcodeUpdate : Z := 5.

Definition RcodeSuccess : Z := 0.
Definition RcodeFormatError : Z := 1.
Definition RcodeServerFailure : Z := 2.
Definition RcodeNameError : Z := 3.
Definition RcodeRefused : Z := 5.
Definition RcodeYXDomain : Z := 6.
Definition RcodeYXRrset : Z := 7.
Definition RcodeNXRrset : Z := 8.
Definition RcodeNotAuth : Z := 9.
Definition RcodeNotZone : Z := 10.
Definition RcodeBadCookie : Z := 23.

(** ** Resource records *)

(** [dns.RR_Header]. *)
Record Header := mkHeader {
  Name : bytes; Rrtype : Z; HClass : Z; Ttl : Z; Rdlength : Z
}.

Record SoaData := {
  Ns : bytes; Mbox : bytes; Serial : Z;
  Refresh : Z; Retry : Z; Expire : Z; Minttl : Z
}.

Record RrsigData := {
  TypeCovered : Z; Algorithm : Z; Labels : Z; OrigTtl : Z;
  Expiration : Z; Inception : Z; SigKeyTag : Z; SignerName : bytes;
  Signature : bytes
}.

(** A SvcParam of an SVCB or HTTPS record. *)
Inductive SvcParam :=
| SVCBAlpn (alpn : list bytes)
| SVCBECHConfig (ech : bytes).

(** The Go type behind a [dns.RR], with its data. *)
Inductive Rdata :=
| RdA (ip : bytes)
| RdAAAA (ip : bytes)
| RdNS (ns : bytes)
| RdPTR (ptr : bytes)
| RdTXT (txt : list bytes)
| RdSRV (priority weight port : Z) (target : bytes)
| RdSOA (soa : SoaData)
| RdSVCB (priority : Z) (target : bytes) (value : list SvcParam)
| RdHTTPS (priority : Z) (target : bytes) (value : list SvcParam)
| RdNSEC (next : bytes) (bitmap : list Z)
| RdDNSKEY (flags protocol algorithm : Z) (key : bytes)
| RdRRSIG (sig : RrsigData)
| RdOther (data : bytes).

Record RR := mkRR { Hdr : Header; Data : Rdata }.

#[global] Instance header_eq_dec : EqDecision Header.
Proof. solve_decision. Defined.
#[global] Instance soadata_eq_dec : EqDecision SoaData.
Proof. solve_decision. Defined.
#[global] Instance rrsigdata_eq_dec : EqDecision RrsigData.
Proof. solve_decision. Defined.
#[global] Instance svcparam_eq_dec : EqDecision SvcParam.
Proof. solve_decision. Defined.
#[global] Instance rdata_eq_dec : EqDecision Rdata.
Proof. solve_decision. Defined.
#[global] Instance rr_eq_dec : EqDecision RR.
Proof. solve_decision. Defined.

(** ** EDNS *)

(** [dns.EDNS0_SUBNET]. *)
Record Subnet := { Family : Z; SourceNetmask : Z; Address : bytes }.

Inductive EDNS0 :=
| EDNS0_COOKIE (cookie : bytes)
| EDNS0_LOCAL (code : Z) (data : bytes)
| EDNS0_ZONEVERSION (labelcount type : Z) (version : bytes)
| EDNS0_SUBNET (s : Subnet)
| EDNS0_EDE (infocode : Z) (text : bytes)
| EDNS0_REPORTING (agent : bytes)
| EDNS0_OTHER (code : Z) (data : bytes).

#[global] Instance subnet_eq_dec : EqDecision Subnet.
Proof. solve_decision. Defined.
#[global] Instance edns0_eq_dec : EqDecision EDNS0.
Proof. solve_decision. Defined.

(** The OPT pseudo-record: [OptTtl] is its TTL field, whose low 16 bits are
    the EDNS flags. *)
Record OPT := { UDPSize : Z; OptTtl : Z; Option : list EDNS0 }.

(** [OPT.Do]: the DO bit. *)
Definition opt_do (o : OPT) : bool := Z.testbit (OptTtl o) 15.

(** ** Messages *)

Record Question := { QName : bytes; Qtype : Z; Qclass : Z }.

(** A [dns.Msg].  [Edns] is what [IsEdns0] returns, the OPT record of the
    additional section; [Extra] is the rest of that section, and [Tsig] says
    whether [IsTsig] finds a TSIG record in it. *)
Record Msg := mkMsg {
  Opcode : Z; Rcode : Z; Response : bool; Authoritative : bool; Truncated : bool;
  Questions : list Question;
  Answer : list RR; NsSec : list RR; Extra : list RR;
  Edns : option OPT; Tsig : bool
}.

Definition set_edns (o : option OPT) (m : Msg) : Msg :=
  mkMsg (Opcode m) (Rcode m) (Response m) (Authoritative m) (Truncated m)
        (Questions m) (Answer m) (NsSec m) (Extra m) o (Tsig m).

Definition set_options (l : list EDNS0) (o : OPT) : OPT :=
  {| UDPSize := UDPSize o; OptTtl := OptTtl o; Option := l |}.

(** [new(dns.Msg)]. *)
Definition new_msg : Msg := mkMsg 0 0 false false false [] [] [] [] None false.

(** What the plugins use of [dns.Msg]'s own methods.  [SetReply r] and
    [SetRcode r rc] start a response to [r]; [SetEdns0] appends an OPT record
    to a message.  Documented behaviour, as laws: a response carries the
    request's code and the rcode it was given, no records and no OPT record;
    [SetEdns0] adds an OPT record without options. *)
Class MsgLib := {
  SetReply : Msg -> Msg -> Msg;
  SetRcode : Msg -> Msg -> Z -> Msg;
  SetEdns0 : Msg -> Z -> bool -> Msg
}.

Class MsgLaws (L : MsgLib) : Prop := {
  SetRcode_rcode r rc : Rcode (SetRcode new_msg r rc) = rc;
  SetRcode_response r rc : Response (SetRcode new_msg r rc) = true;
  SetRcode_edns r rc : Edns (SetRcode new_msg r rc) = None;
  SetRcode_empty r rc :
    Answer (SetRcode new_msg r rc) = [] /\ NsSec (SetRcode new_msg r rc) = []
    /\ Extra (SetRcode new_msg r rc) = [];
  SetRcode_after_reply r rc : Rcode (SetRcode (SetReply new_msg r) r rc) = rc;
  SetEdns0_edns m size do_ :
    Edns m = None ->
    exists o, Edns (SetEdns0 m size do_) = Some o /\ Option o = [] /\
              UDPSize o = size /\ opt_do o = do_;
  SetEdns0_rcode m size do_ : Rcode (SetEdns0 m size do_) = Rcode m
}.

(** ** Names, types and text

    [ToLower] and [ToUpper] are Go's: on ASCII, letter by letter; beyond it
    they follow the runtime's Unicode tables, of which only [ToLower_folded]
    is used.  [CanonicalName] qualifies a name and folds its ASCII letters;
    [IsFqdn] tells whether it ends in an unescaped dot. *)
Class NameLib := {
  ToLower : bytes -> bytes;
  ToUpper : bytes -> bytes;
  CanonicalName : bytes -> bytes;
  IsFqdn : bytes -> bool;
  IsSubDomain : bytes -> bytes -> bool;    (* parent, child *)
  TypeToString : Z -> option bytes;
  StringToType : bytes -> option Z;
  rr_String : RR -> bytes
}.

Definition dot : bytes := [Byte.x2e].

(** [dns.Fqdn]. *)
Definition Fqdn `{NameLib} (s : bytes) : bytes := if IsFqdn s then s else s ++ dot.

Class NameLaws (N : NameLib) : Prop := {
  ToLower_ascii s : ascii s = true -> ToLower s = lower s;
  ToLower_folded s : lower (ToLower s) = ToLower s;
  CanonicalName_ascii s : ascii s = true -> CanonicalName s = lower (Fqdn s);
  IsFqdn_dot s : IsFqdn s = true -> exists t, s = t ++ dot
}.

(** Labels and extended error codes. [SplitDomainName] gives a name's labels
    and [CountLabel] their number; on names without escapes, both cut at the
    dots. *)
Class LabelLib := {
  SplitDomainName : bytes -> list bytes;
  CountLabel : bytes -> Z;
  ExtendedErrorCodeToString : Z -> option bytes
}.

(** A label of a name without escapes. *)
Definition plain_label (l : bytes) : Prop := l <> [] /\ Byte.x2e ∉ l /\ Byte.x5c ∉ l.

(** A name of such labels, fully qualified; the root has none. *)
Definition fqdn_of (ls : list bytes) : bytes :=
  match ls with [] => dot | _ => join dot ls ++ dot end.

Lemma plain_dots ls : Forall plain_label ls -> Forall (fun l => l <> [] /\ Byte.x2e ∉ l) ls.
Proof. intros H. eapply Forall_impl; [exact H|]. by intros l (? & ? & ?). Qed.

Lemma lower_fqdn ls : ls <> [] -> lower (fqdn_of ls) = join dot (lower <$> ls) ++ dot.
Proof. intros Hn. unfold fqdn_of. destruct ls; [done|]. unfold dot. by rewrite lower_app, lower_join. Qed.

Lemma fqdn_app ls ks :
  ls <> [] -> ks <> [] -> fqdn_of (ls ++ ks) = join dot ls ++ dot ++ fqdn_of ks.
Proof.
  intros Hl Hk. unfold fqdn_of. destruct ls as [|l r]; [done|]. destruct ks as [|k t]; [done|].
  change ((l :: r) ++ k :: t) with (l :: (r ++ k :: t)). cbv iota beta.
  change (l :: (r ++ k :: t)) with ((l :: r) ++ k :: t). unfold dot. rewrite join_app by done.
  by rewrite <- app_assoc.
Qed.

Lemma plain_lower l : plain_label l -> plain_label (lower l).
Proof. intros (H1 & H2 & H3). split_and!; [by destruct l|by rewrite elem_of_lower..]. Qed.

Lemma join_plain_nonnil ls : Forall plain_label ls -> ls <> [] -> join dot ls <> [].
Proof. intros H Hn. destruct ls as [|l [|l2 r]]; [done| |]; apply Forall_cons in H as [(Hl & _) _]; by destruct l. Qed.

Lemma ascii_fqdn ls : Forall (fun l => ascii l = true) ls -> ascii (fqdn_of ls) = true.
Proof.
  intros H. assert (Hj : ascii (join dot ls) = true).
  { induction H as [|l [|l2 r] Hl Hr IH]; [done|done|].
    change (join dot (l :: l2 :: r)) with (l ++ dot ++ join dot (l2 :: r)). by rewrite !ascii_app, Hl, IH. }
  unfold fqdn_of. destruct ls; [done|]. by rewrite ascii_app, Hj.
Qed.

Class LabelLaws (N : NameLib) (L : LabelLib) : Prop := {
  SplitDomainName_plain ls :
    Forall plain_label ls -> ls <> [] ->
    SplitDomainName (join dot ls) = ls /\ SplitDomainName (fqdn_of ls) = ls;
  CountLabel_plain ls : Forall plain_label ls -> CountLabel (fqdn_of ls) = zlen ls;
  IsFqdn_plain ls : Forall plain_label ls -> IsFqdn (fqdn_of ls) = true;
  IsFqdn_unqualified ls : Forall plain_label ls -> ls <> [] -> IsFqdn (join dot ls) = false;
  IsSubDomain_plain ps cs :
    Forall plain_label ps -> Forall plain_label cs -> ps <> [] ->
    IsSubDomain (lower (fqdn_of ps)) (lower (fqdn_of cs)) = true
    <-> exists sub, lower <$> cs = sub ++ (lower <$> ps)
}.

(** CoreDNS's [request.Request]: the message and what its accessors say of
    the connection ([state.IP()], [state.Proto()]). *)
Record Request := { Req : Msg; SrcIP : bytes; Proto : bytes }.

(** ** Handlers

    What serving a message did: the messages written to the client in order,
    and the code returned to the server. *)
Record Outcome := { written : list Msg; code : Z }.

Definition write_one (m : Msg) : Outcome := {| written := [m]; code := RcodeSuccess |}.

(** The rest of the plugin chain ([plugin.NextOrFailure]): what it writes and
    returns for a request. *)
Abbreviation chain := (Msg -> Outcome).

(** The same with the state of those plugins and the writer they are given. *)
Abbreviation schain W S := (W -> S -> Msg -> S * Outcome).
