(* ===== verification/SimpleDns.v ===== *)
(** * Concrete library functions for the witnesses

    Small executable instances of the interfaces of [Dns.v], enough to run the
    models on concrete inputs; the theorems never depend on them. *)

From S2P Require Import Prelude GoStrings Netip Dns.

#[global] Instance simple_msglib : MsgLib := {
  SetReply m r := mkMsg 0 0 true false false (take 1 (Questions r))
                        (Answer m) (NsSec m) (Extra m) (Edns m) (Tsig m);
  SetRcode m r rc := mkMsg (Opcode r) rc true (Authoritative m) (Truncated m) (take 1 (Questions r))
                           (Answer m) (NsSec m) (Extra m) (Edns m) (Tsig m);
  SetEdns0 m sz do_ := set_edns (Some {| UDPSize := sz; OptTtl := (if do_ then 2 ^ 15 else 0);
                                         Option := [] |}) m
}.

#[global] Instance simple_msglaws : MsgLaws simple_msglib.
Proof.
  split; try done. intros m sz do_ _. eexists. split; [reflexivity|]. cbn.
  split_and!; try done. by destruct do_.
Qed.

(** A query for [name] with one OPT record carrying [opts]. *)
Definition query (name : bytes) (qtype : Z) (opts : list EDNS0) : Msg :=
  mkMsg OpcodeQuery 0 false false false
    [{| QName := name; Qtype := qtype; Qclass := ClassINET |}] [] [] []
    (Some {| UDPSize := 1232; OptTtl := 2 ^ 15; Option := opts |}) false.

(** *** Names *)

Definition backslash : byte := Byte.x5c.

(** How many of the first bytes of [s] are backslashes. *)
Fixpoint leading_backslashes (s : bytes) : nat :=
  match s with
  | c :: t => if bool_decide (c = backslash) then S (leading_backslashes t) else O
  | [] => O
  end.

Definition simple_IsFqdn (s : bytes) : bool :=
  match rev s with
  | c :: t => bool_decide (c = Byte.x2e) && Nat.even (leading_backslashes t)
  | [] => false
  end.

Definition upper_byte (b : byte) : byte := if is_lower b then z2b (b2z b - 32) else b.

Definition simple_types : list (bytes * Z) :=
  [(bs "A", 1); (bs "NS", 2); (bs "CNAME", 5); (bs "SOA", 6); (bs "NULL", 10); (bs "PTR", 12);
   (bs "TXT", 16); (bs "AAAA", 28); (bs "SRV", 33); (bs "OPT", 41); (bs "RRSIG", 46);
   (bs "NSEC", 47); (bs "DNSKEY", 48); (bs "SVCB", 64); (bs "HTTPS", 65); (bs "ANY", 255)].

Definition simple_rdata (d : Rdata) : bytes :=
  match d with
  | RdA ip | RdAAAA ip => hex_encode ip
  | RdNS n | RdPTR n => n
  | RdTXT l => join (bs " ") (hex_encode <$> l)
  | RdSOA s => Ns s ++ bs " " ++ Mbox s ++ bs " " ++ itoa (Serial s)
  | RdOther d => hex_encode d
  | _ => []
  end.

#[global] Instance simple_namelib : NameLib := {
  ToLower := lower;
  ToUpper := map upper_byte;
  CanonicalName s := lower (if simple_IsFqdn s then s else s ++ dot);
  IsFqdn := simple_IsFqdn;
  IsSubDomain parent child := beqb child parent || has_suffix (dot ++ parent) child;
  TypeToString t := fst <$> List.find (fun p => p.2 =? t) simple_types;
  StringToType s := snd <$> List.find (fun p => beqb p.1 s) simple_types;
  rr_String r := Name (Hdr r) ++ bs " " ++ itoa (Ttl (Hdr r)) ++ bs " " ++ itoa (HClass (Hdr r))
                 ++ bs " " ++ itoa (Rrtype (Hdr r)) ++ bs " " ++ simple_rdata (Data r)
}.

#[global] Instance simple_namelaws : NameLaws simple_namelib.
Proof.
  split; cbn; intros s; [done|apply lower_idem|done|].
  unfold simple_IsFqdn. destruct (rev s) as [|c t] eqn:E; [done|].
  intros [->%bool_decide_eq_true _]%andb_prop.
  exists (rev t). rewrite <- (rev_involutive s), E. done.
Qed.

(** *** Labels *)

(** Without escapes; a final dot ends the last label. *)
Definition simple_Split (s : bytes) : list bytes :=
  let s := trim_suffix s dot in if beqb s [] then [] else split_byte Byte.x2e s.

#[global] Instance simple_labellib : LabelLib := {
  SplitDomainName := simple_Split;
  CountLabel s := zlen (simple_Split s);
  ExtendedErrorCodeToString c := if c <? 30 then Some (bs "error") else None
}.

Lemma simple_Split_plain ls :
  Forall plain_label ls -> ls <> [] -> simple_Split (join dot ls) = ls /\ simple_Split (fqdn_of ls) = ls.
Proof.
  intros H Hn. unfold simple_Split, fqdn_of, dot.
  assert (Hj : join [Byte.x2e] ls <> []).
  { destruct ls as [|l [|l2 r]]; [done| |]; apply Forall_cons in H as [(Hl & _) _]; [done|]. by destruct l. }
  assert (Hs : split_byte Byte.x2e (join [Byte.x2e] ls) = ls).
  { apply split_join; [done|]. eapply Forall_impl; [apply (plain_dots _ H)|]. by intros l [_ ?]. }
  split.
  - rewrite trim_suffix_join by (done || by apply plain_dots). by rewrite (proj2 (beqb_false _ _) Hj).
  - destruct ls; [done|]. rewrite trim_suffix_app. by rewrite (proj2 (beqb_false _ _) Hj).
Qed.

Lemma no_backslash ls : Forall plain_label ls -> Byte.x5c ∉ join dot ls.
Proof.
  induction 1 as [|l [|l2 r] (_ & _ & Hb) _ IH]; [apply not_elem_of_nil|done|].
  change (join dot (l :: l2 :: r)) with (l ++ Byte.x2e :: join dot (l2 :: r)).
  rewrite elem_of_app, elem_of_cons. naive_solver.
Qed.

Lemma lower_dotless ls : Forall plain_label ls -> Forall (fun l => Byte.x2e ∉ l) (lower <$> ls).
Proof.
  intros H. apply Forall_fmap. eapply Forall_impl; [exact H|]. intros l (_ & Hd & _). cbn.
  by rewrite elem_of_lower.
Qed.

Lemma join_inj ls ks :
  ls <> [] -> ks <> [] -> Forall (fun l => Byte.x2e ∉ l) ls -> Forall (fun l => Byte.x2e ∉ l) ks ->
  join dot ls = join dot ks -> ls = ks.
Proof.
  intros H1 H2 H3 H4 H. apply (f_equal (split_byte Byte.x2e)) in H. unfold dot in H. by rewrite !split_join in H.
Qed.

Lemma subdomain_plain ps cs :
  Forall plain_label ps -> Forall plain_label cs -> ps <> [] ->
  lower (fqdn_of cs) = lower (fqdn_of ps) \/ has_suffix (dot ++ lower (fqdn_of ps)) (lower (fqdn_of cs)) = true
  <-> exists sub, lower <$> cs = sub ++ (lower <$> ps).
Proof.
  intros Hp Hc Hn. rewrite (lower_fqdn ps Hn), has_suffix_spec.
  apply lower_dotless in Hp as Hp', Hc as Hc'.
  assert (Hn' : lower <$> ps <> []) by (by destruct ps).
  destruct cs as [|c0 cs].
  { split.
    - assert (Hj : join dot (lower <$> ps) <> []).
      { destruct ps as [|p [|p2 r]]; [done| |]; apply Forall_cons in Hp as [(Hl & _) _]; by destruct p. }
      intros [H|[t H]]; exfalso.
      + change (lower (fqdn_of [])) with ([] ++ dot) in H. by apply app_inj_tail in H as [H _].
      + change (lower (fqdn_of [])) with ([] ++ dot) in H. rewrite !app_assoc in H.
        apply app_inj_tail in H as [H _]. symmetry in H. apply app_eq_nil in H as [H _]. by apply app_eq_nil in H as [_ ?].
    - intros [sub H]. symmetry in H. by apply app_eq_nil in H as [_ ?]. }
  rewrite (lower_fqdn (c0 :: cs)) by done. split.
  - intros [H|[t H]].
    + exists []. apply app_inj_tail in H as [H _]. by apply join_inj.
    + rewrite !app_assoc in H. apply app_inj_tail in H as [H _]. exists (split_byte Byte.x2e t).
      rewrite <- (join_split Byte.x2e t) in H at 1. apply join_inj; [done|intros E; by apply app_eq_nil in E as [_ ?]|done| |].
      * apply Forall_app. split; [apply split_byte_parts|done].
      * rewrite H. unfold dot. rewrite join_app by (done || apply split_byte_nonnil). by rewrite <- app_assoc.
  - intros [sub ->]. destruct sub as [|s0 sub]; [by left|]. right. exists (join dot (s0 :: sub)).
    unfold dot. rewrite join_app by done. by rewrite <- !app_assoc.
Qed.

#[global] Instance simple_labellaws : LabelLaws simple_namelib simple_labellib.
Proof.
  split; cbn.
  - apply simple_Split_plain.
  - intros [|l r] H; [done|]. by rewrite (proj2 (simple_Split_plain (l :: r) H ltac:(done))).
  - intros ls H. unfold fqdn_of. destruct ls as [|l r]; [done|].
    unfold simple_IsFqdn. rewrite rev_app_distr. change (rev dot) with dot. cbn [dot app].
    change (bool_decide (Byte.x2e = Byte.x2e)) with true. cbn [andb].
    destruct (rev (join dot (l :: r))) as [|b t] eqn:E; [done|]. cbn [leading_backslashes].
    rewrite bool_decide_eq_false_2; [done|]. intros ->. apply no_backslash in H. apply H.
    rewrite list_elem_of_In, in_rev, E. by left.
  - intros ls H Hn. unfold simple_IsFqdn. destruct (exists_last Hn) as (pre & t & ->).
    apply Forall_app in H as [_ [(Ht & Hd & _) _]%Forall_cons].
    assert (E : exists s b, join dot (pre ++ [t]) = s ++ [b] /\ b <> Byte.x2e).
    { destruct (exists_last Ht) as (t' & b & ->). rewrite elem_of_app, elem_of_cons in Hd.
      destruct pre as [|p r]; [exists t', b; naive_solver|].
      unfold dot. rewrite join_snoc by done. exists (join [Byte.x2e] (p :: r) ++ Byte.x2e :: t'), b.
      split; [by rewrite <- app_assoc|naive_solver]. }
    destruct E as (s & b & -> & Hb). rewrite rev_app_distr. cbn. by rewrite bool_decide_eq_false_2.
  - intros ps cs Hp Hc Hn. rewrite orb_true_iff, beqb_true. by apply subdomain_plain.
Qed.
