(* ===== verification/Cookie.v ===== *)
(** * DNS Cookies, the protocol rules ([cookie/cookie.go])

    Classification of option lengths, the RFC 9018 server cookie, its
    verification window and the secret list.  Time is a 32-bit Unix
    timestamp, compared in serial arithmetic as the code does. *)

From S2P Require Import Prelude GoStrings Netip SipHash.

Definition clientCookieLen : Z := 8.
Definition serverCookieLen : Z := 16.
Definition minWithServer : Z := clientCookieLen + 8.
Definition maxWithServer : Z := clientCookieLen + 32.
Definition versionSIPHash24 : Z := 1.
Definition maxAgeSeconds : Z := 3600.
Definition maxFutureSeconds : Z := 300.

Inductive class := classMalformed | classClientOnly | classWithServer.

#[global] Instance class_eq_dec : EqDecision class.
Proof. solve_decision. Defined.

Definition classify (optLen : Z) : class :=
  if optLen =? clientCookieLen then classClientOnly
  else if (minWithServer <=? optLen) && (optLen <=? maxWithServer) then classWithServer
  else classMalformed.

Definition class_String (c : class) : bytes :=
  match c with
  | classMalformed => bs "malformed"
  | classClientOnly => bs "client_only"
  | classWithServer => bs "with_server"
  end.

(** The outcome of classifying one request, and its metric label. *)
Inductive status :=
| statusNone | statusMalformed | statusClientOnly
| statusInvalidServer | statusValid | statusValidPrevious.

#[global] Instance status_eq_dec : EqDecision status.
Proof. solve_decision. Defined.

Definition status_label (s : status) : bytes :=
  match s with
  | statusNone => bs "no_cookie"
  | statusMalformed => bs "malformed"
  | statusClientOnly => bs "client_only"
  | statusInvalidServer => bs "invalid_server"
  | statusValid => bs "valid"
  | statusValidPrevious => bs "valid_previous"
  end.

Definition validated (s : status) : bool :=
  bool_decide (s = statusValid) || bool_decide (s = statusValidPrevious).

Definition hashInput (client : bytes) (version : byte) (reserved : bytes)
    (ts : Z) (ip : bytes) : bytes :=
  client ++ [version] ++ reserved ++ be_bytes 4 ts ++ ip.

Definition addrBytes (ip : Addr) : bytes := AsSlice (Unmap ip).

Definition serverCookie (secret client : bytes) (ts : Z) (ip : Addr) : bytes :=
  let h := siphash24 secret
             (hashInput client (z2b versionSIPHash24) (repeat Byte.x00 3) ts (addrBytes ip)) in
  [z2b versionSIPHash24] ++ repeat Byte.x00 3 ++ be_bytes 4 ts ++ le_bytes 8 h.

Definition inWindow (now ts : Z) : bool :=
  let age := u32 (now - ts) in
  (age <=? maxAgeSeconds) || (2 ^ 32 - maxFutureSeconds <=? age).

(** [server[0] != versionSIPHash24] of a non-empty slice. *)
Definition version_of (server : bytes) : Z := be_val (take 1 server).

Definition verify (secret client server : bytes) (ip : Addr) (now : Z) : bool :=
  if negb (zlen server =? serverCookieLen)
     || negb (version_of server =? versionSIPHash24) then false
  else
    let ts := be_val (take 4 (drop 4 server)) in
    if negb (inWindow now ts) then false
    else
      let reserved := take 3 (drop 1 server) in
      let h := siphash24 secret
                 (hashInput client (z2b (version_of server)) reserved ts (addrBytes ip)) in
      beqb (le_bytes 8 h) (drop 8 server).

Record secrets := { verifyOnly : list bytes; generate : bytes }.

Fixpoint check_previous (keys : list bytes) (client server : bytes) (ip : Addr) (now : Z)
  : status :=
  match keys with
  | [] => statusInvalidServer
  | k :: rest => if verify k client server ip now then statusValidPrevious
                 else check_previous rest client server ip now
  end.

Definition secrets_check (s : secrets) (client server : bytes) (ip : Addr) (now : Z) : status :=
  if verify (generate s) client server ip now then statusValid
  else check_previous (verifyOnly s) client server ip now.

(** ** Lemmas *)

Lemma length_serverCookie secret client ts ip :
  length (serverCookie secret client ts ip) = 16%nat.
Proof.
  unfold serverCookie. rewrite !length_app, length_be_bytes, length_le_bytes, repeat_length.
  done.
Qed.

(** The parts of a 16-byte server cookie. *)
Lemma server_parts server :
  length server = 16%nat ->
  exists v res tsb h, server = [v] ++ res ++ tsb ++ h /\ length res = 3%nat /\
    length tsb = 4%nat /\ length h = 8%nat /\
    version_of server = b2z v /\ take 3 (drop 1 server) = res /\
    take 4 (drop 4 server) = tsb /\ drop 8 server = h.
Proof.
  intros H. do 16 (destruct server as [|? server]; [done|]).
  destruct server; [|done].
  eexists _, [_; _; _], [_; _; _; _], _. split; [reflexivity|].
  split_and!; try reflexivity. cbn -[Z.pow]. rewrite Z.mul_1_r. lia.
Qed.

Lemma be_val_inj l k : length l = length k -> be_val l = be_val k -> l = k.
Proof.
  intros H E. rewrite <- (be_bytes_val l), <- (be_bytes_val k). by rewrite H, E.
Qed.

Lemma verify_serverCookie secret client ts ip now :
  is_u32 ts -> verify secret client (serverCookie secret client ts ip) ip now = inWindow now ts.
Proof.
  intros Hts. unfold verify, zlen. rewrite length_serverCookie. cbn [negb orb Z.of_nat].
  change (drop 8 _) with (le_bytes 8 (siphash24 secret
             (hashInput client (z2b versionSIPHash24) (repeat Byte.x00 3) ts (addrBytes ip)))).
  change (take 4 (drop 4 _)) with (be_bytes 4 ts).
  change (take 3 (drop 1 _)) with (repeat Byte.x00 3).
  change (version_of _) with 1.
  rewrite be_val_bytes_small by done. cbn [negb orb].
  change (negb (Z.pos _ =? serverCookieLen) || negb (1 =? versionSIPHash24)) with false.
  cbv iota. destruct (inWindow now ts); cbn [negb]; [|done]. apply beqb_refl.
Qed.

Lemma check_previous_spec keys client server ip now :
  check_previous keys client server ip now =
  if existsb (fun k => verify k client server ip now) keys
  then statusValidPrevious else statusInvalidServer.
Proof. induction keys as [|k keys IH]; cbn; [done|]. by destruct (verify k _ _ _ _). Qed.

Lemma secrets_check_validated s client server ip now :
  validated (secrets_check s client server ip now)
  = existsb (fun k => verify k client server ip now) (generate s :: verifyOnly s).
Proof.
  unfold secrets_check. rewrite check_previous_spec. cbn.
  destruct (verify (generate s) _ _ _ _); [done|]. cbn.
  by destruct (existsb _ _).
Qed.

Lemma inWindow_refl ts : is_u32 ts -> inWindow ts ts = true.
Proof. intros _. unfold inWindow. by rewrite Z.sub_diag. Qed.

(** ** Properties *)

(** The received bytes [verify] accepts, over whatever three reserved bytes
    they carry. *)
Lemma verify_form secret client server ip now :
  verify secret client server ip now = true <->
  exists (reserved : bytes) ts,
    length reserved = 3%nat /\ is_u32 ts /\ inWindow now ts = true /\
    server = [z2b 1] ++ reserved ++ be_bytes 4 ts
             ++ le_bytes 8 (siphash24 secret
                  (client ++ [z2b 1] ++ reserved ++ be_bytes 4 ts ++ addrBytes ip)).
Proof.
  split.
  - unfold verify. destruct (_ || _) eqn:Hg; [done|]. bool_prop.
    assert (Hlen : length server = 16%nat) by (unfold zlen, serverCookieLen in *; lia).
    destruct (server_parts server Hlen) as (v & res & tsb & h & -> & Hr & Ht & Hh & Ev & Er & Et & Eh).
    rewrite Er, Et, Eh. destruct (negb _) eqn:Hw; [done|]. bool_prop. intros He. bool_prop.
    rewrite Ev in *. assert (v = z2b 1) as -> by (apply b2z_inj; done).
    exists res, (be_val tsb). split_and!; [done| |done|].
    + pose proof (be_val_range tsb). unfold zlen in *. rewrite Ht in *. done.
    + rewrite (be_bytes_val_n 4 tsb) by done. rewrite <- He. unfold hashInput.
      rewrite (be_bytes_val_n 4 tsb) by done. done.
  - intros (res & ts & Hr & Hts & Hw & ->).
    do 3 (destruct res as [|? res]; [done|]). destruct res; [|done].
    set (h := siphash24 _ _). unfold verify, zlen.
    rewrite !length_app, length_be_bytes, length_le_bytes. cbn [length Nat.add].
    change (take 4 (drop 4 _)) with (be_bytes 4 ts).
    rewrite be_val_bytes_small, Hw by done.
    change (version_of _) with 1. cbn -[beqb be_bytes drop le_bytes hashInput].
    apply beqb_true. unfold h, hashInput. done.
Qed.

(** C24: what [verify] accepts, exactly, and how that compares with what
    [serverCookie] makes.  Accepted is a 16-byte server cookie of version 1
    whose timestamp is inside the window and whose last eight bytes are the
    little-endian SipHash of client cookie, version, the three reserved bytes
    it carries (whatever they are), timestamp and client address under the
    secret; nothing shorter, longer, of another version, outside the window or
    with another hash.  Among the cookies with zero reserved bytes, which is
    what this server sends, the accepted ones are exactly those [serverCookie]
    makes for the same secret, client cookie and address at a time inside the
    window. *)
Theorem verify_accepts_exactly secret client server ip now :
  (verify secret client server ip now = true <->
   exists (reserved : bytes) ts,
     length reserved = 3%nat /\ is_u32 ts /\ inWindow now ts = true /\
     server = [z2b 1] ++ reserved ++ be_bytes 4 ts
              ++ le_bytes 8 (siphash24 secret
                   (client ++ [z2b 1] ++ reserved ++ be_bytes 4 ts ++ addrBytes ip))) /\
  (verify secret client server ip now = true /\ take 3 (drop 1 server) = repeat Byte.x00 3 <->
   exists ts, is_u32 ts /\ inWindow now ts = true /\ server = serverCookie secret client ts ip).
Proof.
  split; [apply verify_form|]. split.
  - rewrite verify_form. intros [(res & ts & Hr & Hts & Hw & ->) Hz]. exists ts. split_and!; [done|done|].
    do 3 (destruct res as [|? res]; [done|]). destruct res; [|done]. by injection Hz as -> -> ->.
  - intros (ts & Hts & Hw & ->). by rewrite verify_serverCookie.
Qed.

(** A cookie of this server, and one with other reserved bytes, which it
    accepts but never makes. *)
Lemma verify_accepts_exactly_witness :
  let secret := bs "0123456789abcdef" in let client := bs "clientck" in
  let foreign := [z2b 1] ++ bs "xyz" ++ be_bytes 4 5
    ++ le_bytes 8 (siphash24 secret (client ++ [z2b 1] ++ bs "xyz" ++ be_bytes 4 5 ++ addrBytes (Addr4 7))) in
  (verify secret client (serverCookie secret client 5 (Addr4 7)) (Addr4 7) 10 = true /\
   verify secret client foreign (Addr4 7) 10 = true) /\
  forall ts, foreign <> serverCookie secret client ts (Addr4 7).
Proof.
  intros secret client foreign. assert (H5 : is_u32 5) by (split; vm_compute; congruence).
  split; [split|].
  - apply (proj2 (verify_accepts_exactly secret client (serverCookie secret client 5 (Addr4 7)) (Addr4 7) 10)).
    by exists 5.
  - apply (proj1 (verify_accepts_exactly secret client foreign (Addr4 7) 10)). by exists (bs "xyz"), 5.
  - intros ts E. apply (f_equal (fun l => take 3 (drop 1 l))) in E. vm_compute in E. discriminate.
Defined.

(** C25: the window is RFC 9018's "one hour back, five minutes ahead" for
    every pair of true times less than 2^31 seconds apart, also across the
    2^32 wrap of the 32-bit timestamp: the code's modular test agrees with the
    comparison on unbounded integers. *)
Theorem inWindow_serial (now stamped : Z) :
  Z.abs (now - stamped) < 2 ^ 31 ->
  (inWindow (u32 now) (u32 stamped) = true <-> -300 <= now - stamped <= 3600).
Proof.
  intros H. unfold inWindow, u32. rewrite <- Zminus_mod.
  set (d := now - stamped) in *. unfold maxAgeSeconds, maxFutureSeconds.
  assert (Hd : d mod 2 ^ 32 = if 0 <=? d then d else d + 2 ^ 32).
  { destruct (0 <=? d) eqn:E; bool_prop.
    - apply Z.mod_small. lia.
    - symmetry. apply (Z.mod_unique_pos _ _ (-1)); lia. }
  rewrite Hd, orb_true_iff, !Z.leb_le. destruct (0 <=? d) eqn:E; bool_prop; lia.
Qed.

Lemma inWindow_serial_witness :
  Z.abs ((2 ^ 32 + 100) - (2 ^ 32 - 3000)) < 2 ^ 31 /\
  inWindow (u32 (2 ^ 32 + 100)) (u32 (2 ^ 32 - 3000)) = true.
Proof.
  split; [lia|].
  apply (inWindow_serial (2 ^ 32 + 100) (2 ^ 32 - 3000)); lia.
Defined.

(** The SipHash input determines its parts: two inputs built from 8-byte
    client cookies, 3 reserved bytes, 32-bit timestamps and valid addresses
    are equal only if every part is, IPv4 against IPv6 included (an
    IPv4-mapped address counts as the IPv4 address it maps). *)
Theorem hashInput_injective c1 c2 v1 v2 r1 r2 t1 t2 (ip1 ip2 : Addr) :
  length c1 = 8%nat -> length c2 = 8%nat ->
  length r1 = 3%nat -> length r2 = 3%nat -> is_u32 t1 -> is_u32 t2 ->
  wf_addr ip1 -> wf_addr ip2 -> Zone ip1 = [] -> Zone ip2 = [] ->
  hashInput c1 v1 r1 t1 (addrBytes ip1) = hashInput c2 v2 r2 t2 (addrBytes ip2) ->
  c1 = c2 /\ v1 = v2 /\ r1 = r2 /\ t1 = t2 /\ Unmap ip1 = Unmap ip2.
Proof.
  intros Hc1 Hc2 Hr1 Hr2 Ht1 Ht2 Hw1 Hw2 Hz1 Hz2 E. unfold hashInput in E.
  apply app_inj_1 in E as [-> E]; [|congruence].
  apply app_inj_1 in E as [[= ->] E]; [|done].
  apply app_inj_1 in E as [-> E]; [|congruence].
  apply app_inj_1 in E as [Et E]; [|by rewrite !length_be_bytes].
  split_and!; [done..| |].
  - eapply be_bytes_inj; [| |exact Et]; done.
  - apply AsSlice_inj; [by apply wf_Unmap..| |exact E].
    destruct ip1, ip2; cbn in *; repeat case_match; cbn; congruence.
Qed.

Lemma hashInput_injective_witness :
  hashInput (bs "clientck") (z2b 1) (bs "abc") 5 (addrBytes (Addr4 9))
  = hashInput (bs "clientck") (z2b 1) (bs "abc") 5 (addrBytes (Addr6 (0xffff * 2 ^ 32 + 9) []))
  /\ Unmap (Addr4 9) = Unmap (Addr6 (0xffff * 2 ^ 32 + 9) []).
Proof.
  split; [vm_compute; reflexivity|].
  refine (proj2 (proj2 (proj2 (proj2 (hashInput_injective (bs "clientck") (bs "clientck")
    (z2b 1) (z2b 1) (bs "abc") (bs "abc") 5 5 (Addr4 9) (Addr6 (0xffff * 2 ^ 32 + 9) [])
    eq_refl eq_refl eq_refl eq_refl _ _ _ _ eq_refl eq_refl _)))));
    (split; vm_compute; congruence) || (vm_compute; reflexivity).
Defined.

(** Secret rollover. A server cookie issued under a secret [k] is
    validated by every server whose configuration holds [k], as its
    generating secret or among its verify-only ones, exactly while its
    timestamp is inside the window; and whatever is validated verifies under
    one of the configured secrets. *)
Theorem rollover_validates (s : secrets) (k client : bytes) (ts now : Z) (ip : Addr) :
  is_u32 ts -> k ∈ generate s :: verifyOnly s ->
  (inWindow now ts = true ->
   validated (secrets_check s client (serverCookie k client ts ip) ip now) = true) /\
  (forall server, validated (secrets_check s client server ip now) = true <->
     exists k', k' ∈ generate s :: verifyOnly s /\ verify k' client server ip now = true).
Proof.
  intros Hts Hk. split.
  - intros Hw. rewrite secrets_check_validated. apply existsb_exists. exists k.
    split; [by apply list_elem_of_In|]. by rewrite verify_serverCookie.
  - intros server. rewrite secrets_check_validated, existsb_exists.
    by setoid_rewrite list_elem_of_In.
Qed.

Lemma rollover_validates_witness :
  validated (secrets_check {| verifyOnly := [bs "fedcba9876543210"]; generate := bs "0123456789abcdef" |}
    (bs "clientck") (serverCookie (bs "fedcba9876543210") (bs "clientck") 100 (Addr4 1)) (Addr4 1) 200)
  = true.
Proof.
  refine (proj1 (rollover_validates {| verifyOnly := [bs "fedcba9876543210"]; generate := bs "0123456789abcdef" |}
    (bs "fedcba9876543210") (bs "clientck") 100 200 (Addr4 1) _ _) _).
  - split; vm_compute; congruence.
  - right. left.
  - vm_compute. reflexivity.
Defined.

(** RFC 9018 Appendix A.1 and A.4, as the code produces them. *)
Example rfc9018_A1 :
  Some (serverCookie (default [] (hex_decode (bs "e5e973e5a6b2a43f48e7dc849e37bfcf")))
    (default [] (hex_decode (bs "2464c4abcf10c957"))) 1559731985 (Addr4 0xc6336464))
  = hex_decode (bs "010000005cf79f111f8130c3eee29480").
Proof. vm_compute. reflexivity. Qed.
