(* ===== verification/Caddy.v ===== *)
(** * Reading a Corefile: the caddyfile dispenser

    Every plugin's [setup.go] pulls tokens from [caddy.Controller], which is
    not part of this repository.  [Dispenser] is the interface the plugins
    use of it, with a size that bounds how often it can advance; [block_loop]
    and [next_loop] are the [for c.NextBlock()] and [for c.Next()] loops over
    it, with the reasoning rules the plugins' theorems share.  [Corefile] is
    a concrete dispenser for the witnesses. *)

From S2P Require Import Prelude.

Class Dispenser (D : Type) := {
  Next : D -> bool * D;            (* to the next directive of the plugin *)
  NextBlock : D -> bool * D;       (* to the next line of its block *)
  NextArg : D -> bool * D;         (* to the next argument on the line *)
  RemainingArgs : D -> list bytes * D;
  Val : D -> bytes;                (* the current token *)
  ServerBlockKeys : D -> list bytes;
  size : D -> nat                  (* tokens not yet consumed *)
}.

(** Advancing consumes tokens; nothing gives any back. *)
Class DispenserLaws (D : Type) `{Dispenser D} : Prop := {
  Next_size d b d' : Next d = (b, d') -> (size d' <= size d)%nat /\ (b = true -> size d' < size d)%nat;
  NextBlock_size d b d' :
    NextBlock d = (b, d') -> (size d' <= size d)%nat /\ (b = true -> size d' < size d)%nat;
  NextArg_size d b d' : NextArg d = (b, d') -> (size d' <= size d)%nat;
  RemainingArgs_size d l d' : RemainingArgs d = (l, d') -> (size d' <= size d)%nat
}.

(** The error of a [setup] function. [OutOfFuel] is not an error of the code:
    a loop of the model that ran out of steps, which [loop_fuel] excludes. *)
Inductive ParseErr :=
| ArgErr
| PErr (msg : bytes)
| OutOfFuel.

(** Nothing in [m ≫= f] runs out of fuel if neither part does. *)
Lemma bind_total {A B} (m : result ParseErr A) (f : A -> result ParseErr B) :
  m <> Err OutOfFuel -> (forall a, m = Ok a -> f a <> Err OutOfFuel) -> (m ≫= f) <> Err OutOfFuel.
Proof. destruct m as [a|e]; cbn; [eauto|]. intros H _ [= ->]. by apply H. Qed.

Section Loops.
Context {D : Type} `{!Dispenser D}.
Context {S : Type}.
Variable adv : D -> bool * D.
Variable body : D -> S -> result ParseErr (D * S).

(** [for adv(c) { body }]. *)
Fixpoint loop (fuel : nat) (d : D) (s : S) : result ParseErr (D * S) :=
  match fuel with
  | O => Err OutOfFuel
  | Datatypes.S fuel' =>
      match adv d with
      | (false, d') => Ok (d', s)
      | (true, d') => '(d'', s') ← body d' s; loop fuel' d'' s'
      end
  end.

(** What one turn of the body preserves holds when the loop ends. *)
Lemma loop_inv (I : S -> Prop) fuel d s d' s' :
  (forall d s d' s', I s -> body d s = Ok (d', s') -> I s') ->
  I s -> loop fuel d s = Ok (d', s') -> I s'.
Proof.
  intros Hb. revert d s. induction fuel as [|fuel IH]; intros d s Hs; cbn; [done|].
  destruct (adv d) as [[] d1]; [|by intros [= <- <-]].
  intros Hl. apply bind_ok in Hl as ([d2 s2] & E & Hl). eauto.
Qed.

(** With as many steps as there are tokens the loop never runs out. *)
Lemma loop_fuel fuel d s :
  (forall d b d', adv d = (b, d') -> (size d' <= size d)%nat /\ (b = true -> size d' < size d)%nat) ->
  (forall d s d' s', body d s = Ok (d', s') -> (size d' <= size d)%nat) ->
  (forall d s, body d s <> Err OutOfFuel) ->
  (size d < fuel)%nat -> loop fuel d s <> Err OutOfFuel.
Proof.
  intros Ha Hb Hn. revert d s. induction fuel as [|fuel IH]; intros d s Hf; cbn; [lia|].
  destruct (adv d) as [[] d1] eqn:E; [|done].
  apply Ha in E as [_ E]. specialize (E eq_refl).
  destruct (body d1 s) as [[d2 s2]|e] eqn:Eb; cbn.
  - apply Hb in Eb. apply IH. lia.
  - intros [= ->]. by eapply Hn.
Qed.
(** A loop gives no token back. *)
Lemma loop_size fuel d s d' s' :
  (forall d b d', adv d = (b, d') -> (size d' <= size d)%nat /\ (b = true -> size d' < size d)%nat) ->
  (forall d s d' s', body d s = Ok (d', s') -> (size d' <= size d)%nat) ->
  loop fuel d s = Ok (d', s') -> (size d' <= size d)%nat.
Proof.
  intros Ha Hb. revert d s. induction fuel as [|fuel IH]; intros d s; cbn; [done|].
  destruct (adv d) as [[] d1] eqn:E; apply Ha in E as [E _]; [|by intros [= <- _]].
  intros H. apply bind_ok in H as ([d2 s2] & Eb & H). apply Hb in Eb. apply IH in H. lia.
Qed.
End Loops.

Definition block_loop {D} `{!Dispenser D} {S}
    (body : D -> S -> result ParseErr (D * S)) (d : D) (s : S) :=
  loop NextBlock body (Datatypes.S (size d)) d s.

Definition next_loop {D} `{!Dispenser D} {S}
    (body : D -> S -> result ParseErr (D * S)) (d : D) (s : S) :=
  loop Next body (Datatypes.S (size d)) d s.

(** [if !c.NextArg() { return c.ArgErr() }; c.Val()]. *)
Definition arg1 {D} `{!Dispenser D} (d : D) : result ParseErr (bytes * D) :=
  match NextArg d with
  | (true, d') => Ok (Val d', d')
  | (false, _) => Err ArgErr
  end.

Lemma arg1_size {D} `{!Dispenser D} `{!DispenserLaws D} (d : D) v d' :
  arg1 d = Ok (v, d') -> (size d' <= size d)%nat.
Proof. unfold arg1. destruct (NextArg d) as [[] ?] eqn:E; [|done]. intros [= _ <-]. by apply NextArg_size in E. Qed.

(** ** Parsers that end

    [calm next d r]: parsing from [d] did not run out of fuel, and what it
    leaves, seen through [next], is no longer than [d]. *)
Definition calm {D} `{!Dispenser D} {A} (next : A -> D) (d : D) (r : result ParseErr A) : Prop :=
  r <> Err OutOfFuel /\ forall a, r = Ok a -> (size (next a) <= size d)%nat.

Section Calm.
Context {D : Type} `{!Dispenser D} `{!DispenserLaws D}.

Lemma calm_ok {A} (next : A -> D) d a : (size (next a) <= size d)%nat -> calm next d (Ok a).
Proof. intros H. split; [done|]. by intros ? [= <-]. Qed.

Lemma calm_err {A} (next : A -> D) d e : e <> OutOfFuel -> calm next d (Err e).
Proof. intros H. split; [|done]. by intros [= ->]. Qed.

Lemma calm_bind {A B} (na : A -> D) (nb : B -> D) d m f :
  calm na d m -> (forall a, m = Ok a -> calm nb (na a) (f a)) -> calm nb d (m ≫= f).
Proof.
  intros [Hm Hs] Hf. split.
  - apply bind_total; [done|]. intros a Ha. apply (Hf a Ha).
  - intros b H. apply bind_ok in H as (a & Ha & H). specialize (Hs a Ha).
    destruct (Hf a Ha) as [_ Hb]. specialize (Hb b H). lia.
Qed.

Lemma arg1_calm (d : D) : calm snd d (arg1 d).
Proof.
  unfold arg1. destruct (NextArg d) as [[] d'] eqn:E; [|by apply calm_err].
  apply calm_ok. by apply NextArg_size in E.
Qed.

Lemma loop_calm {S} (adv : D -> bool * D) (body : D -> S -> result ParseErr (D * S)) fuel d s :
  (forall d b d', adv d = (b, d') -> (size d' <= size d)%nat /\ (b = true -> size d' < size d)%nat) ->
  (forall d s, calm fst d (body d s)) -> (size d < fuel)%nat -> calm fst d (loop adv body fuel d s).
Proof.
  intros Ha Hb Hf.
  assert (Hs : forall d s d' s', body d s = Ok (d', s') -> (size d' <= size d)%nat).
  { intros d0 s0 d' s' H. by apply (Hb d0 s0) in H. }
  split; [|intros [d' s'] H; by eapply loop_size].
  apply loop_fuel; [done|done| |done]. intros d0 s0. apply (Hb d0 s0).
Qed.

Lemma block_loop_calm {S} (body : D -> S -> result ParseErr (D * S)) d s :
  (forall d s, calm fst d (body d s)) -> calm fst d (block_loop body d s).
Proof. intros H. apply loop_calm; [apply NextBlock_size|done|lia]. Qed.

Lemma next_loop_calm {S} (body : D -> S -> result ParseErr (D * S)) d s :
  (forall d s, calm fst d (body d s)) -> calm fst d (next_loop body d s).
Proof. intros H. apply loop_calm; [apply Next_size|done|lia]. Qed.
End Calm.

(** ** A concrete dispenser *)

(** A Corefile: the plugin's directives, each with its arguments and the
    lines (name and arguments) of its block. *)
Record Corefile := {
  cf_keys : list bytes;
  cf_blocks : list (list bytes * list (bytes * list bytes));
  cf_lines : list (bytes * list bytes);
  cf_args : list bytes;
  cf_val : bytes
}.

Definition corefile (keys : list bytes) (blocks : list (list bytes * list (bytes * list bytes)))
  : Corefile :=
  {| cf_keys := keys; cf_blocks := blocks; cf_lines := []; cf_args := []; cf_val := [] |}.

Definition lines_size (l : list (bytes * list bytes)) : nat :=
  foldr (fun x n => S (length x.2) + n)%nat O l.

Definition corefile_size (c : Corefile) : nat :=
  (foldr (fun b n => S (length b.1 + lines_size b.2) + n) O (cf_blocks c)
   + lines_size (cf_lines c) + length (cf_args c))%nat.

#[global] Instance corefile_dispenser : Dispenser Corefile := {
  Next c := match cf_blocks c with
            | [] => (false, c)
            | (args, lines) :: rest =>
                (true, {| cf_keys := cf_keys c; cf_blocks := rest; cf_lines := lines;
                          cf_args := args; cf_val := [] |})
            end;
  NextBlock c := match cf_lines c with
                 | [] => (false, c)
                 | (n, args) :: rest =>
                     (true, {| cf_keys := cf_keys c; cf_blocks := cf_blocks c;
                               cf_lines := rest; cf_args := args; cf_val := n |})
                 end;
  NextArg c := match cf_args c with
               | [] => (false, c)
               | a :: rest =>
                   (true, {| cf_keys := cf_keys c; cf_blocks := cf_blocks c;
                             cf_lines := cf_lines c; cf_args := rest; cf_val := a |})
               end;
  RemainingArgs c := (cf_args c,
                      {| cf_keys := cf_keys c; cf_blocks := cf_blocks c;
                         cf_lines := cf_lines c; cf_args := []; cf_val := cf_val c |});
  Val := cf_val;
  ServerBlockKeys := cf_keys;
  size := corefile_size
}.

#[global] Instance corefile_laws : DispenserLaws Corefile.
Proof.
  split; intros [k bl li ar v]; cbn; unfold corefile_size.
  - destruct bl as [|[a l] bl]; intros ? ? [= <- <-]; cbn; lia.
  - destruct li as [|[n a] li]; intros ? ? [= <- <-]; cbn; lia.
  - destruct ar; intros ? ? [= <- <-]; cbn; lia.
  - intros ? ? [= <- <-]. cbn. lia.
Qed.
