(* ===== verification/CookieHandler.v ===== *)
(** * The [cookie] plugin ([cookie/handler.go], [cookie/setup.go])

    The handler around the rules of [Cookie.v]: inspecting a request, the
    BADCOOKIE gate, the writer that puts one fresh cookie on each response,
    the counters, and the Corefile configuration. *)

From S2P Require Import Prelude GoStrings Netip SipHash Dns SimpleDns Cookie Caddy.

Inductive mode := modePermissive | modeEnforce.

#[global] Instance mode_eq_dec : EqDecision mode.
Proof. solve_decision. Defined.

Definition mode_String (m : mode) : bytes :=
  match m with modeEnforce => bs "enforce" | modePermissive => bs "permissive" end.

Record config := { cfg_verifyOnly : list bytes; cfg_mode : mode; cfg_secret : bytes }.

Record CookiePlugin := { keys : secrets; c_mode : mode }.

Definition newCookie (cfg : config) : CookiePlugin :=
  {| c_mode := cfg_mode cfg;
     keys := {| generate := cfg_secret cfg; verifyOnly := cfg_verifyOnly cfg |} |}.

(** ** Inspecting a request *)

Record inspected := { in_ip : Addr; in_status : status; in_client : bytes }.

Definition zeroClient : bytes := repeat Byte.x00 8.

Definition only_status (s : status) : inspected :=
  {| in_ip := AddrZero; in_status := s; in_client := zeroClient |}.

Fixpoint first_cookie (l : list EDNS0) : option bytes :=
  match l with
  | [] => None
  | EDNS0_COOKIE c :: _ => Some c
  | _ :: t => first_cookie t
  end.

Definition clientAddr (state : Request) : Addr :=
  match ParseAddr (SrcIP state) with
  | None => AddrZero
  | Some ip => Unmap (WithZone ip [])
  end.

(** [uint32(c.now().Unix())]. *)
Definition timestamp (now : Z) : Z := u32 now.

(** [inspect], at Unix time [now]. *)
Definition inspect (c : CookiePlugin) (state : Request) (now : Z) : inspected :=
  match Edns (Req state) with
  | None => only_status statusNone
  | Some opt =>
      match first_cookie (Option opt) with
      | None => only_status statusNone
      | Some raw =>
          match hex_decode raw with
          | None => only_status statusMalformed
          | Some data =>
              match classify (zlen data) with
              | classMalformed => only_status statusMalformed
              | cl =>
                  let client := take 8 data in
                  let ip := clientAddr state in
                  {| in_ip := ip; in_client := client;
                     in_status :=
                       if bool_decide (cl = classClientOnly) then statusClientOnly
                       else if negb (IsValid ip) then statusInvalidServer
                       else secrets_check (keys c) client (drop 8 data) ip (timestamp now) |}
              end
          end
      end
  end.

(** ** The response cookie *)

Definition Cookie_option (c : CookiePlugin) (inp : inspected) (now : Z) : EDNS0 :=
  let server := serverCookie (generate (keys c)) (in_client inp) (timestamp now) (in_ip inp) in
  EDNS0_COOKIE (hex_encode (in_client inp ++ server)).

Definition is_cookie (o : EDNS0) : bool :=
  match o with EDNS0_COOKIE _ => true | _ => false end.

(** [cookieWriter], without the writer it wraps. *)
Record cookieWriter := { w_option : EDNS0; w_udpSize : Z; w_do : bool }.

Section Handler.
Context `{L : MsgLib}.

(** [cookieWriter.WriteMsg]: the message the underlying writer gets. *)
Definition cookie_WriteMsg (w : cookieWriter) (m : Msg) : Msg :=
  let m := match Edns m with
           | None => SetEdns0 m (w_udpSize w) (w_do w)
           | Some _ => m
           end in
  match Edns m with
  | None => m
  | Some opt =>
      let kept := List.filter (fun o => negb (is_cookie o)) (Option opt) in
      set_edns (Some (set_options (kept ++ [w_option w]) opt)) m
  end.

(** The plugin's counters; [requests_total] by its [case] label. *)
Record CookieMetrics := {
  requests : gmap bytes Z; badCookies : Z; formerrs : Z
}.

Definition count_request (s : status) (mt : CookieMetrics) : CookieMetrics :=
  {| requests := <[status_label s := default 0 (requests mt !! status_label s) + 1]> (requests mt);
     badCookies := badCookies mt; formerrs := formerrs mt |}.

Definition writer_of (c : CookiePlugin) (r : Msg) (inp : inspected) (now : Z) : cookieWriter :=
  match Edns r with
  | Some opt => {| w_option := Cookie_option c inp now; w_udpSize := UDPSize opt; w_do := opt_do opt |}
  | None => {| w_option := Cookie_option c inp now; w_udpSize := 0; w_do := false |}
  end.

(** [ServeDNS], with the state [s] of the plugins after it: the first clock
    reading verifies the cookie, the second stamps the new one. They are given
    the writer itself, or the cookie writer around it. *)
Definition cookie_ServeDNS {W S : Type} (c : CookiePlugin) (wrap : W -> W) (next : schain W S)
    (state : Request) (w : W) (now0 now1 : Z) (mt : CookieMetrics) (s : S) : S * Outcome * CookieMetrics :=
  let r := Req state in
  let inp := inspect c state now0 in
  let mt := count_request (in_status inp) mt in
  if bool_decide (in_status inp = statusNone) then (next w s r, mt)
  else if bool_decide (in_status inp = statusMalformed) then
    (s, write_one (SetRcode new_msg r RcodeFormatError),
     {| requests := requests mt; badCookies := badCookies mt; formerrs := formerrs mt + 1 |})
  else
    let cw := writer_of c r inp now1 in
    if negb (validated (in_status inp)) && bool_decide (c_mode c = modeEnforce)
       && beqb (Proto state) (bs "udp")
    then (s, write_one (cookie_WriteMsg cw (SetRcode new_msg r RcodeBadCookie)),
          {| requests := requests mt; badCookies := badCookies mt + 1; formerrs := formerrs mt |})
    else
      let '(s, out) := next (wrap w) s r in
      (s, {| written := cookie_WriteMsg cw <$> written out; code := code out |}, mt).

(** [Metadata]: the value published as [cookie/status]. *)
Definition cookie_Metadata (c : CookiePlugin) (state : Request) (now : Z) : bytes :=
  status_label (in_status (inspect c state now)).

(** *** Lemmas *)

Lemma first_cookie_filter l o :
  is_cookie o = true ->
  List.filter is_cookie (List.filter (fun o => negb (is_cookie o)) l ++ [o]) = [o].
Proof.
  intros Ho. rewrite List.filter_app. cbn. rewrite Ho.
  replace (List.filter is_cookie _) with (@nil EDNS0); [done|].
  induction l as [|x l IH]; [done|]. cbn. destruct (is_cookie x) eqn:E; cbn; [done|].
  by rewrite E.
Qed.

Lemma cookie_WriteMsg_spec `{!MsgLaws L} w m :
  is_cookie (w_option w) = true ->
  exists opt, Edns (cookie_WriteMsg w m) = Some opt /\
    List.filter is_cookie (Option opt) = [w_option w].
Proof.
  intros Hw. unfold cookie_WriteMsg.
  destruct (Edns m) as [opt|] eqn:E.
  - rewrite E. eexists. split; [done|]. cbn. by apply first_cookie_filter.
  - destruct (SetEdns0_edns m (w_udpSize w) (w_do w) E) as (o & -> & Ho & _).
    eexists. split; [done|]. cbn. by apply first_cookie_filter.
Qed.

Lemma writer_of_option c r inp now : w_option (writer_of c r inp now) = Cookie_option c inp now.
Proof. unfold writer_of. by destruct (Edns r). Qed.

(** What [inspect] says of a request whose first cookie is [raw]. *)
Lemma inspect_client c state now :
  in_status (inspect c state now) <> statusNone ->
  in_status (inspect c state now) <> statusMalformed ->
  length (in_client (inspect c state now)) = 8%nat /\
  in_ip (inspect c state now) = clientAddr state.
Proof.
  unfold inspect. destruct (Edns _) as [opt|]; [|done].
  destruct (first_cookie _) as [raw|]; [|done].
  destruct (hex_decode raw) as [data|]; [|done].
  destruct (classify (zlen data)) eqn:E; [done| |]; intros _ _; cbn; (split; [|done]);
    rewrite length_take; unfold classify, clientCookieLen, minWithServer, zlen in E;
    repeat case_match; bool_prop; unfold clientCookieLen in *; try done; lia.
Qed.

Lemma inspect_issued c state opt now ts client secret :
  Edns (Req state) = Some opt ->
  first_cookie (Option opt)
    = Some (hex_encode (client ++ serverCookie secret client ts (clientAddr state))) ->
  length client = 8%nat ->
  in_status (inspect c state now)
  = if negb (IsValid (clientAddr state)) then statusInvalidServer
    else secrets_check (keys c) client
           (serverCookie secret client ts (clientAddr state)) (clientAddr state) (timestamp now).
Proof.
  intros Ho Hf Hl. unfold inspect. rewrite Ho, Hf, hex_decode_encode.
  replace (classify _) with classWithServer.
  2:{ rewrite zlen_app. unfold zlen. by rewrite Hl, length_serverCookie. }
  cbn. by rewrite take_app_n, drop_app_n.
Qed.
End Handler.

(** ** Properties *)

(** C6: cookies close the loop. Whatever [ServeDNS] writes for a request with
    a well-formed COOKIE option carries exactly one COOKIE option, whatever
    the next plugin put there; and when the same client sends that option
    back from the same address within the window (by serial arithmetic), the
    request is classified [statusValid] under the same generating secret. *)
Theorem ServeDNS_cookie_comes_back `{L : MsgLib} `{!MsgLaws L} {W S}
    (c : CookiePlugin) (wrap : W -> W) (next : schain W S) (state state' : Request) (w : W)
    (now0 now1 now2 : Z) (mt : CookieMetrics) (s : S) (m : Msg) (opt' : OPT) :
  in_status (inspect c state now0) <> statusNone ->
  in_status (inspect c state now0) <> statusMalformed ->
  In m (written (cookie_ServeDNS c wrap next state w now0 now1 mt s).1.2) ->
  exists opt ck, Edns m = Some opt /\ List.filter is_cookie (Option opt) = [EDNS0_COOKIE ck] /\
    (Edns (Req state') = Some opt' -> first_cookie (Option opt') = Some ck ->
     SrcIP state' = SrcIP state -> IsValid (clientAddr state) = true ->
     inWindow (timestamp now2) (timestamp now1) = true ->
     in_status (inspect c state' now2) = statusValid).
Proof.
  intros H1 H2 Hin.
  destruct (inspect_client c state now0 H1 H2) as [Hl Hip].
  set (inp := inspect c state now0) in *.
  assert (Hm : exists m0, m = cookie_WriteMsg (writer_of c (Req state) inp now1) m0).
  { unfold cookie_ServeDNS in Hin. fold inp in Hin.
    rewrite !bool_decide_false in Hin by done.
    destruct (_ && _); cbn in Hin.
    - destruct Hin as [<-|[]]. eauto.
    - destruct (next _ _ _) as [s' out]. apply in_map_iff in Hin as (m0 & <- & _). eauto. }
  destruct Hm as [m0 ->].
  destruct (cookie_WriteMsg_spec (writer_of c (Req state) inp now1) m0) as (opt & Eo & Ef).
  { by rewrite writer_of_option. }
  rewrite writer_of_option in Ef. exists opt. eexists. split_and!; [done|exact Ef|].
  intros Eo' Ec Eip Hv Hw.
  assert (Eaddr : clientAddr state' = clientAddr state) by (unfold clientAddr; by rewrite Eip).
  rewrite (inspect_issued c state' opt' now2 (timestamp now1) (in_client inp) (generate (keys c)));
    [|exact Eo'| |exact Hl].
  - rewrite Eaddr, Hv. cbn [negb]. unfold secrets_check.
    rewrite verify_serverCookie by apply u32_range. by rewrite Hw.
  - rewrite Ec, Eaddr. by rewrite Hip.
Qed.

Lemma ServeDNS_cookie_comes_back_witness :
  let c := {| keys := {| verifyOnly := []; generate := bs "0123456789abcdef" |}; c_mode := modeEnforce |} in
  let ask ck := {| Req := query (bs "example.org.") TypeA [EDNS0_COOKIE ck];
                   SrcIP := bs "192.0.2.7"; Proto := bs "udp" |} in
  let first := ask (bs "0102030405060708") in
  let reply := (cookie_ServeDNS c id (fun w s _ => (s, write_one new_msg)) first tt 100 100
                  {| requests := ∅; badCookies := 0; formerrs := 0 |} tt).1.2 in
  exists m opt ck, written reply = [m] /\ Edns m = Some opt /\
    Rcode m = RcodeBadCookie /\
    List.filter is_cookie (Option opt) = [EDNS0_COOKIE ck] /\
    in_status (inspect c (ask ck) 200) = statusValid.
Proof.
  intros c ask first reply.
  set (mt := {| requests := ∅; badCookies := 0; formerrs := 0 |} : CookieMetrics).
  assert (Hs : in_status (inspect c first 100) = statusClientOnly) by (vm_compute; reflexivity).
  destruct (written reply) as [|m l] eqn:E; [vm_compute in E; discriminate|].
  destruct l; [|vm_compute in E; discriminate].
  exists m.
  destruct (ServeDNS_cookie_comes_back c id (fun w s _ => (s, write_one new_msg)) first
    (ask match first_cookie (default [] (Option <$> Edns m)) with Some x => x | None => [] end)
    tt 100 100 200 mt tt m
    {| UDPSize := 1232; OptTtl := 2 ^ 15;
       Option := [EDNS0_COOKIE match first_cookie (default [] (Option <$> Edns m)) with Some x => x | None => [] end] |})
    as (opt & ck & Eo & Ef & Hback).
  - rewrite Hs. discriminate.
  - rewrite Hs. discriminate.
  - change (In m (written reply)). rewrite E. by left.
  - exists opt, ck.
    assert (Em : Rcode m = RcodeBadCookie /\ first_cookie (Option opt) = Some ck).
    { assert (m = default new_msg (head (written reply))) as -> by (by rewrite E).
      cbn [fmap option_fmap option_map default] in *.
      clear -Eo Ef. revert Eo Ef. vm_compute. intros [= <-] [= <-]. done. }
    destruct Em as [Er Ec]. split_and!; [done..|].
    rewrite Eo in Hback. cbn [fmap option_fmap option_map default from_option] in Hback.
    unfold id in Hback. rewrite Ec in Hback.
    apply Hback; [done|cbn; done|done|vm_compute; reflexivity|vm_compute; reflexivity].
Defined.

Lemma cookie_WriteMsg_rcode `{L : MsgLib} `{!MsgLaws L} w m :
  Rcode (cookie_WriteMsg w m) = Rcode m.
Proof.
  unfold cookie_WriteMsg. destruct (Edns m) eqn:E; cbn; rewrite ?E; [done|].
  destruct (Edns (SetEdns0 _ _ _)); cbn; apply SetEdns0_rcode.
Qed.

(** The BADCOOKIE gate. The plugin refuses (and counts) exactly the
    requests that carry a well-formed COOKIE option without a valid server
    cookie, over UDP, in enforce mode: such a request never reaches the rest
    of the chain, whose state stays as it was, and the one message sent has
    rcode BADCOOKIE. Every other well-formed request gets the chain's own
    answer, one message for each the chain wrote and with the chain's code. *)
Theorem badcookie_gate `{L : MsgLib} `{!MsgLaws L} {W S}
    (c : CookiePlugin) (wrap : W -> W) (next : schain W S) (state : Request) (w : W) (now0 now1 : Z)
    (mt : CookieMetrics) (s : S) :
  let st := in_status (inspect c state now0) in
  let out := cookie_ServeDNS c wrap next state w now0 now1 mt s in
  (badCookies out.2 <> badCookies mt <->
     st <> statusNone /\ st <> statusMalformed /\ validated st = false /\
     c_mode c = modeEnforce /\ Proto state = bs "udp") /\
  (badCookies out.2 <> badCookies mt ->
     out.1.1 = s /\ exists m, written out.1.2 = [m] /\ Rcode m = RcodeBadCookie) /\
  (badCookies out.2 = badCookies mt -> st <> statusMalformed ->
     let inner := next (if bool_decide (st = statusNone) then w else wrap w) s (Req state) in
     out.1.1 = inner.1 /\ code out.1.2 = code inner.2 /\
     length (written out.1.2) = length (written inner.2)) /\
  (st = statusMalformed -> out.1.1 = s).
Proof.
  cbv zeta. unfold cookie_ServeDNS.
  destruct (bool_decide (_ = statusNone)) eqn:En.
  { apply bool_decide_eq_true in En. cbn. rewrite En. split_and!; [naive_solver..|done|done]. }
  apply bool_decide_eq_false in En.
  destruct (bool_decide (_ = statusMalformed)) eqn:Em.
  { apply bool_decide_eq_true in Em. cbn. rewrite Em. split_and!; [naive_solver..|done|done]. }
  apply bool_decide_eq_false in Em.
  destruct (negb (validated _) && _ && _) eqn:Eg.
  - apply andb_true_iff in Eg as [Eg Ep]. apply andb_true_iff in Eg as [Ev Ec].
    apply negb_true_iff in Ev. apply bool_decide_eq_true in Ec. bool_prop.
    cbn [fst snd badCookies count_request]. split_and!; [|split; [done|]|lia|done].
    + split; [done|]. intros _. lia.
    + eexists. split; [done|]. by rewrite cookie_WriteMsg_rcode, SetRcode_rcode.
  - destruct (next (wrap w) s (Req state)) as [s' o] eqn:Hn. cbn [fst snd badCookies count_request].
    split_and!; [|done| |done].
    + split; [done|]. intros (_ & _ & Hv & Hc & Hp). rewrite Hv, Hc, Hp in Eg. done.
    + intros _ _. split_and!; [done..|]. cbn. by rewrite length_map.
Qed.

(** ** Configuration ([cookie/setup.go]) *)

Definition maxVerifyOnly : nat := 4.

Record block := { b_file : bytes; b_cfg : config; b_haveSecret : bool }.

Definition zeroSecret : bytes := repeat Byte.x00 16.

Definition empty_block : block :=
  {| b_file := []; b_haveSecret := false;
     b_cfg := {| cfg_verifyOnly := []; cfg_mode := modePermissive; cfg_secret := zeroSecret |} |}.

(** [parseSecret]: 32 hex digits. *)
Definition parseSecret (s : bytes) : result ParseErr bytes :=
  match hex_decode s with
  | None => Err (PErr (bs "not hexadecimal"))
  | Some b => if (length b =? 16)%nat then Ok b
              else Err (PErr (bs "want 32 hex digits (16 bytes)"))
  end.

(** [block.property]: one [name value] line. *)
Definition block_property (b : block) (name value : bytes) : result ParseErr block :=
  let cfg := b_cfg b in
  if beqb name (bs "secret") then
    k ← parseSecret value;
    Ok {| b_file := b_file b; b_haveSecret := true;
          b_cfg := {| cfg_verifyOnly := cfg_verifyOnly cfg; cfg_mode := cfg_mode cfg;
                      cfg_secret := k |} |}
  else if beqb name (bs "secret_file") then
    Ok {| b_file := value; b_haveSecret := b_haveSecret b; b_cfg := cfg |}
  else if beqb name (bs "verify_secret") then
    k ← parseSecret value;
    check (negb (length (cfg_verifyOnly cfg) =? maxVerifyOnly)%nat)
          (PErr (bs "at most 4 verify_secret entries"));;
    Ok {| b_file := b_file b; b_haveSecret := b_haveSecret b;
          b_cfg := {| cfg_verifyOnly := cfg_verifyOnly cfg ++ [k]; cfg_mode := cfg_mode cfg;
                      cfg_secret := cfg_secret cfg |} |}
  else if beqb name (bs "mode") then
    m ← (if beqb value (bs "permissive") then Ok modePermissive
         else if beqb value (bs "enforce") then Ok modeEnforce
         else Err (PErr (bs "mode: want permissive or enforce")));
    Ok {| b_file := b_file b; b_haveSecret := b_haveSecret b;
          b_cfg := {| cfg_verifyOnly := cfg_verifyOnly cfg; cfg_mode := m;
                      cfg_secret := cfg_secret cfg |} |}
  else Err (PErr (bs "unknown property")).

Fixpoint has_duplicate (l : list bytes) : bool :=
  match l with
  | [] => false
  | x :: t => existsb (beqb x) t || has_duplicate t
  end.

Section Setup.
Context {D : Type} `{!Dispenser D}.
(** The world outside the process: the contents and mtime of a file,
    16 bytes of [crypto/rand], and the time. *)
Variable read_file : bytes -> option (bytes * Z).
Variable rand16 : option bytes.
Variable now : Z.

Definition readSecretFile (path : bytes) : result ParseErr (bytes * Z) :=
  match read_file path with
  | None => Err (PErr (bs "secret_file"))
  | Some (raw, mtime) => k ← parseSecret (TrimSpace raw); Ok (k, mtime)
  end.

Definition set_secret (cfg : config) (k : bytes) : config :=
  {| cfg_verifyOnly := cfg_verifyOnly cfg; cfg_mode := cfg_mode cfg; cfg_secret := k |}.

(** [block.finish]: the settled configuration and the installation time. *)
Definition finish (b : block) : result ParseErr (config * Z) :=
  if b_haveSecret b && negb (beqb (b_file b) []) then
    Err (PErr (bs "secret and secret_file are alternatives, not both"))
  else
    '(cfg, since) ←
      (if negb (beqb (b_file b) []) then
         '(k, mtime) ← readSecretFile (b_file b); Ok (set_secret (b_cfg b) k, mtime)
       else if negb (b_haveSecret b) then
         match cfg_verifyOnly (b_cfg b) with
         | _ :: _ => Err (PErr (bs "verify_secret without a secret"))
         | [] => match rand16 with
                 | Some k => Ok (set_secret (b_cfg b) k, now)
                 | None => Err (PErr (bs "generating a secret"))
                 end
         end
       else Ok (b_cfg b, now));
    if has_duplicate (cfg_secret cfg :: cfg_verifyOnly cfg)
    then Err (PErr (bs "the same secret is listed more than once"))
    else Ok (cfg, since).

(** The gauge [secret_age_seconds], in nanoseconds, of a secret installed at
    a Unix time in seconds. *)
Definition secret_age (secretSince now_ns : Z) : Z :=
  if secretSince =? 0 then 0 else now_ns - secretSince * 10 ^ 9.

Definition parse_line (d : D) (s : block * gset bytes)
  : result ParseErr (D * (block * gset bytes)) :=
  let '(b, seen) := s in
  let name := Val d in
  check (negb (bool_decide (name ∈ seen) && negb (beqb name (bs "verify_secret"))))
        (PErr (bs "duplicate"));;
  let '(args, d') := RemainingArgs d in
  match args with
  | [v] => b' ← block_property b name v; Ok (d', (b', {[name]} ∪ seen))
  | _ => Err ArgErr
  end.

Definition cookie_parse (d : D) : result ParseErr (config * Z) :=
  match Next d with
  | (false, _) => Err ArgErr
  | (true, d1) =>
      let '(args, d2) := RemainingArgs d1 in
      match args with
      | _ :: _ => Err ArgErr
      | [] =>
          '(d3, (b, _)) ← block_loop parse_line d2 (empty_block, ∅);
          match Next d3 with
          | (true, _) => Err (PErr (bs "the cookie plugin may be given once per server block"))
          | (false, _) => finish b
          end
      end
  end.

(** [setup]: the plugin, and what it stores in the process-wide
    [secretSince], which an error leaves as it was. *)
Definition cookie_setup (d : D) : result ParseErr (CookiePlugin * Z) :=
  '(cfg, since) ← cookie_parse d;
  Ok (newCookie cfg, since).
End Setup.

(** *** Lemmas *)

Lemma has_duplicate_NoDup l : has_duplicate l = false <-> NoDup l.
Proof.
  induction l as [|x t IH]; cbn.
  - split; [constructor|done].
  - rewrite orb_false_iff, NoDup_cons, IH. f_equiv.
    rewrite list_elem_of_In. split.
    + intros H Hin. rewrite <- not_true_iff_false, existsb_exists in H.
      apply H. exists x. split; [done|]. apply beqb_refl.
    + intros H. apply not_true_iff_false. rewrite existsb_exists.
      intros (y & Hy & <-%beqb_true). done.
Qed.

Lemma parseSecret_length s k : parseSecret s = Ok k -> length k = 16%nat.
Proof.
  unfold parseSecret. destruct (hex_decode s); [|done].
  destruct (_ =? _)%nat eqn:E; [|done]. apply Nat.eqb_eq in E. by intros [= <-].
Qed.

Definition block_ok (b : block) : Prop :=
  length (cfg_secret (b_cfg b)) = 16%nat /\
  Forall (fun k => length k = 16%nat) (cfg_verifyOnly (b_cfg b)) /\
  (length (cfg_verifyOnly (b_cfg b)) <= maxVerifyOnly)%nat.

Lemma block_property_ok b name value b' :
  block_ok b -> block_property b name value = Ok b' -> block_ok b'.
Proof.
  intros (H1 & H2 & H3). unfold block_property.
  repeat case_match; intros H'; inv_ok; try done;
    match goal with
    | H : parseSecret _ = Ok _ |- _ => apply parseSecret_length in H
    | _ => idtac
    end; unfold block_ok; cbn; split_and!; try done.
  - apply Forall_app. split; [done|]. by constructor.
  - rewrite length_app. cbn. unfold maxVerifyOnly in *. bool_prop.
    match goal with H : (_ =? _)%nat = false |- _ => apply Nat.eqb_neq in H end. lia.
Qed.

(** What a Corefile can configure. A configuration the [cookie] block
    accepts has a 16-byte generating secret, at most four verify-only secrets
    of 16 bytes, and no secret listed twice, whatever the Corefile, the
    secret file and the random source hold. *)
Theorem cookie_parse_safe {D} `{!Dispenser D} read_file rand16 now (d : D) cfg since :
  (forall k, rand16 = Some k -> length k = 16%nat) ->
  cookie_parse read_file rand16 now d = Ok (cfg, since) ->
  length (cfg_secret cfg) = 16%nat /\
  Forall (fun k => length k = 16%nat) (cfg_verifyOnly cfg) /\
  (length (cfg_verifyOnly cfg) <= 4)%nat /\
  NoDup (cfg_secret cfg :: cfg_verifyOnly cfg).
Proof.
  intros Hr. unfold cookie_parse.
  destruct (Next d) as [[] d1]; [|done]. destruct (RemainingArgs d1) as [[|??] d2]; [|done].
  intros H. apply bind_ok in H as ([d3 [b seen]] & Hloop & H).
  assert (Hb : block_ok b).
  { refine (loop_inv NextBlock parse_line (fun s => block_ok s.1) _ _ _ _ _ _ _ Hloop).
    - intros d0 [b0 s0] d0' [b0' s0'] Hb0. unfold parse_line.
      intros Hl. inv_ok. destruct (RemainingArgs d0) as [[|v [|??]] d0a]; try done.
      inv_ok. cbn in *. by eapply block_property_ok.
    - unfold block_ok, maxVerifyOnly. cbn. split_and!; [done|constructor|lia]. }
  destruct Hb as (Hs & Hv & Hn).
  destruct (Next d3) as [[] d4]; [done|]. unfold finish in H.
  destruct (b_haveSecret b && _); [done|].
  apply bind_ok in H as ([cfg' since'] & Hcfg & H).
  destruct (has_duplicate _) eqn:Hd; [done|]. injection H as -> ->.
  apply has_duplicate_NoDup in Hd.
  unfold readSecretFile, set_secret in Hcfg.
  repeat case_match; inv_ok; cbn in *; try done; split_and!; try done;
    repeat match goal with
    | H : _ * _ |- _ => destruct H
    | H : parseSecret _ = Ok _ |- _ => apply parseSecret_length in H
    end; inv_ok; cbn in *; try done; naive_solver.
Qed.

Lemma cookie_parse_safe_witness :
  exists cfg since, cookie_parse (fun _ => None) None 0
    (corefile [] [([], [(bs "secret", [bs "e5e973e5a6b2a43f48e7dc849e37bfcf"]);
                        (bs "mode", [bs "enforce"])])]) = Ok (cfg, since)
    /\ length (cfg_secret cfg) = 16%nat.
Proof.
  eexists _, _. split; [vm_compute; reflexivity|].
  refine (proj1 (cookie_parse_safe (fun _ => None) None 0
    (corefile [] [([], [(bs "secret", [bs "e5e973e5a6b2a43f48e7dc849e37bfcf"]);
                        (bs "mode", [bs "enforce"])])]) _ 0 _ _)).
  - done.
  - vm_compute. reflexivity.
Defined.
