(* ===== verification/Dnr.v ===== *)
(** * The RFC 9463 Encrypted DNS option ([radnr/pkg/dnr/dnr.go])

    The domain name type, validation, the encoder and the decoder of the
    Router Advertisement option, octet for octet.  Errors are one constructor
    per message of the source. *)

From S2P Require Import Prelude GoStrings Netip.

Definition OptionType : Z := 144.
Definition headerSize : Z := 2.
Definition octetUnit : Z := 8.
Definition maxLengthUnits : Z := 0xff.
Definition uint16Size : Z := 2.
Definition uint32Size : Z := 4.
Definition ipv6Size : Z := 16.
Definition maxLabelLen : Z := 63.
Definition maxNameLen : Z := 255.
Definition rootLabel : byte := Byte.x00.
Definition wireNameOverhead : Z := 2.

Inductive DnrErr :=
| EmptyADN | ADNTooLong | EmptyLabel | LabelTooLong
| NotIPv6 | FieldTooLong | OptionTooLarge
| TooShort | WrongType | BadLength | Truncated
| ADNOverrun | AddrLengthNotMultiple | AddrOverrun | SvcParamsOverrun
| LabelOverrun | DotInLabel | NotRootTerminated.

Definition byte_dot : byte := Byte.x2e.

(** ** Domain names *)

(** [DomainName]: the dotted form, or the empty zero value. *)
Record DomainName := { dn_s : bytes }.

Fixpoint check_labels (labels : list bytes) : result DnrErr unit :=
  match labels with
  | [] => Ok tt
  | l :: t => check (negb (beqb l [])) EmptyLabel;;
              check (negb (maxLabelLen <? zlen l)) LabelTooLong;;
              check_labels t
  end.

Definition ParseDomainName (name : bytes) : result DnrErr DomainName :=
  let name := trim_suffix name [byte_dot] in
  check (negb (beqb name [])) EmptyADN;;
  check (negb (maxNameLen <? zlen name + wireNameOverhead)) ADNTooLong;;
  check_labels (split_byte byte_dot name);;
  Ok {| dn_s := name |}.

(** [MustParseDomainName]; [None] is a panic. *)
Definition MustParseDomainName (name : bytes) : option DomainName :=
  match ParseDomainName name with Ok d => Some d | Err _ => None end.

Definition DomainName_String (d : DomainName) : bytes := dn_s d.
Definition IsZero (d : DomainName) : bool := beqb (dn_s d) [].

Definition DomainName_Validate (d : DomainName) : result DnrErr unit :=
  check (negb (beqb (dn_s d) [])) EmptyADN.

Fixpoint wire_labels (labels : list bytes) : bytes :=
  match labels with
  | [] => []
  | l :: t => z2b (zlen l) :: l ++ wire_labels t
  end.

(** [DomainName.wire]. *)
Definition wire (d : DomainName) : bytes :=
  wire_labels (split_byte byte_dot (dn_s d)) ++ [rootLabel].

(** ** The option *)

Record EncryptedDNS := {
  ADN : DomainName;
  Addrs : list Addr;
  SvcParams : bytes;
  ServicePriority : Z;
  Lifetime : Z
}.

Definition checkedUint16 (n : Z) : result DnrErr unit :=
  check (negb ((n <? 0) || (0xffff <? n))) FieldTooLong.

Definition wireSize (o : EncryptedDNS) : Z :=
  let body := uint16Size + uint32Size + uint16Size + zlen (dn_s (ADN o)) + wireNameOverhead
              + uint16Size + zlen (Addrs o) * ipv6Size + uint16Size + zlen (SvcParams o) in
  let total := headerSize + body in
  total + (octetUnit - total mod octetUnit) mod octetUnit.

Fixpoint check_addrs (addrs : list Addr) : result DnrErr unit :=
  match addrs with
  | [] => Ok tt
  | a :: t => check (negb (negb (Is6 a) || Is4In6 a || negb (beqb (Zone a) []))) NotIPv6;;
              check_addrs t
  end.

Definition Validate (o : EncryptedDNS) : result DnrErr unit :=
  DomainName_Validate (ADN o);;
  check_addrs (Addrs o);;
  checkedUint16 (zlen (Addrs o) * ipv6Size);;
  checkedUint16 (zlen (SvcParams o));;
  check (negb (maxLengthUnits <? wireSize o / octetUnit)) OptionTooLarge.

(** The fields of the option before padding. *)
Definition marshal_fields (o : EncryptedDNS) : bytes :=
  let adn := wire (ADN o) in
  [z2b OptionType; z2b (wireSize o / octetUnit)]
  ++ be_bytes 2 (ServicePriority o)
  ++ be_bytes 4 (Lifetime o)
  ++ be_bytes 2 (u16 (zlen adn)) ++ adn
  ++ be_bytes 2 (u16 (zlen (Addrs o) * ipv6Size)) ++ concat (As16 <$> Addrs o)
  ++ be_bytes 2 (u16 (zlen (SvcParams o))) ++ SvcParams o.

(** [Marshal]: a buffer of [total] zero octets, filled from the front; the
    last slice expression extends it over its whole capacity. *)
Definition Marshal (o : EncryptedDNS) : result DnrErr bytes :=
  Validate o;;
  let out := marshal_fields o in
  Ok (out ++ repeat Byte.x00 (Z.to_nat (wireSize o - zlen out))).

(** ** Decoding *)

(** [decodeADN]'s loop: each turn consumes at least the length octet, so as
    many turns as octets are enough. *)
Fixpoint decodeADN_loop (fuel : nat) (b name : bytes) : result DnrErr DomainName :=
  match b with
  | [] => Err NotRootTerminated
  | n :: b' =>
      if b2z n =? 0 then ParseDomainName name
      else if zlen b' <? b2z n then Err LabelOverrun
      else
        let label := take (Z.to_nat (b2z n)) b' in
        match index_byte label byte_dot with
        | Some _ => Err DotInLabel
        | None =>
            let name := (if 0 <? zlen name then name ++ [byte_dot] else name) ++ label in
            match fuel with
            | O => Err NotRootTerminated
            | S fuel' => decodeADN_loop fuel' (drop (Z.to_nat (b2z n)) b') name
            end
        end
  end.

Definition decodeADN (b : bytes) : result DnrErr DomainName := decodeADN_loop (length b) b [].

Definition parseADNField (p : bytes) (adnLen : Z) : result DnrErr (DomainName * bytes) :=
  check (negb (zlen p <? adnLen)) ADNOverrun;;
  name ← decodeADN (take (Z.to_nat adnLen) p);
  Ok (name, drop (Z.to_nat adnLen) p).

(** The address loop of [parseAddrs]: [n] addresses of 16 octets. *)
Fixpoint read_addrs (n : nat) (p : bytes) : list Addr :=
  match n with
  | O => []
  | S n' => AddrFrom16 (take 16 p) :: read_addrs n' (drop 16 p)
  end.

Definition parseAddrs (p : bytes) (addrLen : Z) : result DnrErr (list Addr * bytes) :=
  check (addrLen mod ipv6Size =? 0) AddrLengthNotMultiple;;
  check (negb (zlen p <? addrLen)) AddrOverrun;;
  Ok (read_addrs (Z.to_nat (addrLen / ipv6Size)) p, drop (Z.to_nat addrLen) p).

Definition parseSvcParams (p : bytes) (spLen : Z) : result DnrErr bytes :=
  check (negb (zlen p <? spLen)) SvcParamsOverrun;;
  if spLen =? 0 then Ok [] else Ok (take (Z.to_nat spLen) p).

Definition parseHeader (b : bytes) : result DnrErr bytes :=
  check (negb (zlen b <? octetUnit)) TooShort;;
  check (be_val (take 1 b) =? OptionType) WrongType;;
  let total := be_val (take 1 (drop 1 b)) * octetUnit in
  check (negb ((total =? 0) || (zlen b <? total))) BadLength;;
  Ok (drop 2 (take (Z.to_nat total) b)).

(** The [read16] closure: the value and the octets after it. *)
Definition read16 (p : bytes) : result DnrErr (Z * bytes) :=
  check (negb (zlen p <? uint16Size)) Truncated;;
  Ok (be_val (take 2 p), drop 2 p).

Definition read32 (p : bytes) : result DnrErr (Z * bytes) :=
  check (negb (zlen p <? uint32Size)) Truncated;;
  Ok (be_val (take 4 p), drop 4 p).

Definition Unmarshal (b : bytes) : result DnrErr EncryptedDNS :=
  p ← parseHeader b;
  '(prio, p) ← read16 p;
  '(life, p) ← read32 p;
  '(adnLen, p) ← read16 p;
  '(adn, p) ← parseADNField p adnLen;
  '(addrLen, p) ← read16 p;
  '(addrs, p) ← parseAddrs p addrLen;
  '(spLen, p) ← read16 p;
  sp ← parseSvcParams p spLen;
  let o := {| ADN := adn; Addrs := addrs; SvcParams := sp;
              ServicePriority := prio; Lifetime := life |} in
  Validate o;;
  Ok o.

(** ** Names: what [ParseDomainName] guarantees *)

Definition good_label (l : bytes) : Prop := l <> [] /\ zlen l <= maxLabelLen /\ byte_dot ∉ l.

Lemma check_labels_ok labels :
  check_labels labels = Ok tt <-> Forall (fun l => l <> [] /\ zlen l <= maxLabelLen) labels.
Proof.
  induction labels as [|l t IH]; cbn [check_labels].
  { split; [constructor|done]. }
  rewrite Forall_cons, <- IH. destruct (beqb l []) eqn:E1, (maxLabelLen <? zlen l) eqn:E2;
    cbn; bool_prop; naive_solver lia.
Qed.

(** The names the type can hold. *)
Definition valid_name (d : DomainName) : Prop :=
  zlen (dn_s d) + wireNameOverhead <= maxNameLen /\
  Forall good_label (split_byte byte_dot (dn_s d)).

Lemma good_labels_nonempty s : Forall good_label (split_byte byte_dot s) -> s <> [].
Proof. intros H ->. cbn in H. apply Forall_cons in H as [[H _] _]. done. Qed.

Lemma good_labels_no_trailing_dot s :
  Forall good_label (split_byte byte_dot s) -> trim_suffix s [byte_dot] = s.
Proof.
  intros H. unfold trim_suffix. destruct (has_suffix [byte_dot] s) eqn:E; [|done]. exfalso.
  apply has_suffix_spec in E as (t & ->). rewrite split_byte_snoc in H.
  apply Forall_app in H as [_ H]. apply Forall_cons in H as [[H _] _]. done.
Qed.

Lemma ParseDomainName_spec name d :
  ParseDomainName name = Ok d <-> dn_s d = trim_suffix name [byte_dot] /\ valid_name d.
Proof.
  unfold ParseDomainName, valid_name. split.
  - intros H. inv_ok. cbn. split; [done|]. bool_prop. split; [lia|].
    match goal with H : check_labels _ = Ok ?u |- _ => destruct u; apply check_labels_ok in H end.
    pose proof (split_byte_parts byte_dot (trim_suffix name [byte_dot])) as Hp.
    eapply Forall_impl; [apply Forall_and; split; [exact H1|exact Hp]|]. intros l [[??]?]. by split_and!.
  - intros (E & Hl & Hg). rewrite <- E.
    pose proof (good_labels_nonempty _ Hg) as Hn. apply beqb_false in Hn. rewrite Hn. cbn.
    replace (maxNameLen <? _) with false by (symmetry; apply Z.ltb_ge; lia). cbn.
    rewrite (proj2 (check_labels_ok _)).
    + cbn. by destruct d.
    + eapply Forall_impl; [exact Hg|]. intros l (?&?&?). done.
Qed.

Lemma ParseDomainName_valid d : valid_name d -> ParseDomainName (dn_s d) = Ok d.
Proof.
  intros H. apply ParseDomainName_spec. split; [|done].
  by rewrite good_labels_no_trailing_dot by apply H.
Qed.

(** ** Round trip of the name *)

Fixpoint join_from (name : bytes) (labels : list bytes) : bytes :=
  match labels with
  | [] => name
  | l :: t => join_from ((if 0 <? zlen name then name ++ [byte_dot] else name) ++ l) t
  end.

Lemma zlen_pos {A} (l : list A) : l <> [] -> 0 < zlen l.
Proof. destruct l; [done|]. rewrite zlen_cons. pose proof (zlen_nonneg l). lia. Qed.

Lemma join_from_nonempty name labels :
  name <> [] -> join_from name labels = name ++ concat ((cons byte_dot) <$> labels).
Proof.
  revert name. induction labels as [|l t IH]; intros name H; cbn; [by rewrite app_nil_r|].
  apply zlen_pos in H as Hz. apply Z.ltb_lt in Hz. rewrite Hz, IH by (by destruct name).
  by rewrite <- !app_assoc.
Qed.

Lemma join_concat l t : join [byte_dot] (l :: t) = l ++ concat ((cons byte_dot) <$> t).
Proof.
  revert l. induction t as [|m t IH]; intros l; [cbn; by rewrite app_nil_r|].
  change (join [byte_dot] (l :: m :: t)) with (l ++ [byte_dot] ++ join [byte_dot] (m :: t)).
  by rewrite IH.
Qed.

Lemma join_from_join labels :
  Forall good_label labels -> labels <> [] -> join_from [] labels = join [byte_dot] labels.
Proof.
  destruct labels as [|l t]; [done|]. intros [[H _] _]%Forall_cons _. cbn [join_from].
  change (0 <? zlen []) with false. cbn [app]. by rewrite join_from_nonempty, join_concat.
Qed.

Lemma decodeADN_labels labels name fuel :
  Forall good_label labels -> (length labels <= fuel)%nat ->
  decodeADN_loop fuel (wire_labels labels ++ [rootLabel]) name
  = ParseDomainName (join_from name labels).
Proof.
  intros H. revert name fuel. induction H as [|l t [Hn [Hl Hd]] Ht IH]; intros name fuel Hf.
  { by destruct fuel. }
  cbn [wire_labels app length] in *. destruct fuel as [|fuel]; [lia|].
  pose proof (zlen_pos _ Hn) as Hp. pose proof (zlen_nonneg l). unfold maxLabelLen in Hl.
  cbn [decodeADN_loop]. rewrite b2z_z2b_small by lia.
  rewrite (proj2 (Z.eqb_neq _ _)) by lia.
  rewrite <- app_assoc. replace (zlen (l ++ _) <? zlen l) with false.
  2:{ symmetry. apply Z.ltb_ge. rewrite zlen_app. pose proof (zlen_nonneg (wire_labels t ++ [rootLabel])). lia. }
  unfold zlen. rewrite Nat2Z.id, take_app_length, drop_app_length.
  rewrite (proj2 (index_byte_None l byte_dot)) by done. fold (zlen name). rewrite IH by lia. done.
Qed.

Lemma length_wire_labels labels : (length labels <= length (wire_labels labels))%nat.
Proof. induction labels as [|l t IH]; cbn; [lia|]. rewrite length_app. lia. Qed.

Lemma decodeADN_wire d : valid_name d -> decodeADN (wire d) = Ok d.
Proof.
  intros H. unfold decodeADN, wire. rewrite decodeADN_labels.
  - rewrite join_from_join; [|apply H|apply split_byte_nonnil].
    rewrite join_split. by apply ParseDomainName_valid.
  - apply H.
  - rewrite length_app. pose proof (length_wire_labels (split_byte byte_dot (dn_s d))). lia.
Qed.

(** The wire form is two octets longer than the dotted one. *)
Lemma zlen_wire d : zlen (wire d) = zlen (dn_s d) + wireNameOverhead.
Proof.
  unfold wire. rewrite zlen_app.
  assert (H : forall ls, ls <> [] -> zlen (wire_labels ls) = zlen (join [byte_dot] ls) + 1).
  { induction ls as [|l [|m t] IH]; intros Hn; [done| |].
    - cbn [wire_labels join]. rewrite zlen_cons, app_nil_r. lia.
    - change (wire_labels (l :: m :: t)) with (z2b (zlen l) :: l ++ wire_labels (m :: t)).
      change (join [byte_dot] (l :: m :: t)) with (l ++ [byte_dot] ++ join [byte_dot] (m :: t)).
      rewrite zlen_cons, !zlen_app, IH, (zlen_cons byte_dot []), zlen_nil by done. lia. }
  rewrite H by apply split_byte_nonnil. rewrite join_split, (zlen_cons rootLabel []), zlen_nil. unfold wireNameOverhead. lia.
Qed.

(** A decoded name is one [ParseDomainName] accepted. *)
Lemma decodeADN_valid b d : decodeADN b = Ok d -> valid_name d.
Proof.
  unfold decodeADN. generalize (length b) as fuel, (@nil byte) as name. intros fuel. revert b.
  induction fuel as [|fuel IH]; intros [|n b'] name; cbn [decodeADN_loop]; try done;
    (destruct (b2z n =? 0); [by intros [_ ?]%ParseDomainName_spec|]);
    (case_match; [done|]); (case_match; [done|]); [done|apply IH].
Qed.

(** ** Round trip of the option *)

(** What the Go types say of an [EncryptedDNS]. *)
Definition wf_option (o : EncryptedDNS) : Prop :=
  (dn_s (ADN o) = [] \/ valid_name (ADN o)) /\ is_u16 (ServicePriority o) /\ is_u32 (Lifetime o) /\
  Forall wf_addr (Addrs o).

Definition native6 (a : Addr) : Prop := Is6 a = true /\ Is4In6 a = false /\ Zone a = [].

Lemma check_addrs_ok addrs : check_addrs addrs = Ok tt <-> Forall native6 addrs.
Proof.
  induction addrs as [|a t IH]; cbn [check_addrs]; [split; [constructor|done]|].
  rewrite Forall_cons, <- IH. unfold native6.
  destruct (Is6 a), (Is4In6 a), (beqb (Zone a) []) eqn:E; cbn; bool_prop; naive_solver.
Qed.

Lemma unit_ok {E} (m : result E unit) u : m = Ok u <-> m = Ok tt.
Proof. by destruct u. Qed.

Lemma Validate_ok o :
  Validate o = Ok tt <->
  dn_s (ADN o) <> [] /\ Forall native6 (Addrs o) /\ zlen (Addrs o) * 16 <= 0xffff /\
  zlen (SvcParams o) <= 0xffff /\ wireSize o / 8 <= 255.
Proof.
  unfold Validate, DomainName_Validate, checkedUint16, ipv6Size, maxLengthUnits, octetUnit.
  pose proof (zlen_nonneg (Addrs o)). pose proof (zlen_nonneg (SvcParams o)).
  rewrite <- check_addrs_ok. split.
  - intros H'. inv_ok. match goal with H : check_addrs _ = Ok ?u |- _ => destruct u end.
    bool_prop. split_and!; try done; lia.
  - intros (H1 & H2 & H3 & H4 & H5). apply beqb_false in H1. rewrite H1, H2. cbn [check mbind result_bind negb].
    rewrite !(proj2 (Z.ltb_ge _ _)) by lia. done.
Qed.

Lemma zlen_concat_As16 addrs : zlen (concat (As16 <$> addrs)) = zlen addrs * ipv6Size.
Proof.
  induction addrs as [|a l IH]; [done|]. cbn [fmap list_fmap concat].
  rewrite zlen_app, zlen_cons, IH. unfold zlen at 1, ipv6Size. rewrite length_As16. lia.
Qed.

Lemma zlen_two (a b : byte) : zlen [a; b] = 2.
Proof. done. Qed.

Lemma wireSize_spec o :
  zlen (marshal_fields o) <= wireSize o /\ wireSize o mod 8 = 0 /\ 24 <= wireSize o \/ dn_s (ADN o) = [].
Proof.
  destruct (decide (dn_s (ADN o) = [])) as [|Hn]; [by right|left]. apply zlen_pos in Hn.
  unfold marshal_fields. rewrite !zlen_app, !zlen_be_bytes, zlen_wire.
  rewrite zlen_concat_As16, zlen_two. unfold wireSize, octetUnit.
  set (total := headerSize + _). unfold headerSize, uint16Size, uint32Size, ipv6Size, wireNameOverhead in *. pose proof (zlen_nonneg (Addrs o)). pose proof (zlen_nonneg (SvcParams o)).
  pose proof (Z.mod_pos_bound (8 - total mod 8) 8 ltac:(lia)).
  pose proof (Z.mod_pos_bound total 8 ltac:(lia)).
  assert (Hm : (total + (8 - total mod 8) mod 8) mod 8 = 0).
  { rewrite Z.add_mod_idemp_r by lia. rewrite (Z.div_mod total 8) at 1 by lia.
    replace (8 * (total / 8) + total mod 8 + (8 - total mod 8)) with ((total / 8 + 1) * 8) by lia.
    apply Z_mod_mult. }
  split_and!; [subst total; lia|done|].
  assert (17 <= total) by (subst total; lia). 
  assert (total <= total + (8 - total mod 8) mod 8) by lia.
  pose proof (Z.div_mod (total + (8 - total mod 8) mod 8) 8 ltac:(lia)). lia.
Qed.

Lemma read16_app v rest : is_u16 v -> read16 (be_bytes 2 v ++ rest) = Ok (v, rest).
Proof.
  intros H. unfold read16. rewrite zlen_app, zlen_be_bytes, (proj2 (Z.ltb_ge _ _)).
  2:{ pose proof (zlen_nonneg rest). unfold uint16Size. lia. }
  rewrite take_app_n, drop_app_n by apply length_be_bytes. by rewrite be_val_bytes_small.
Qed.

Lemma read32_app v rest : is_u32 v -> read32 (be_bytes 4 v ++ rest) = Ok (v, rest).
Proof.
  intros H. unfold read32. rewrite zlen_app, zlen_be_bytes, (proj2 (Z.ltb_ge _ _)).
  2:{ pose proof (zlen_nonneg rest). unfold uint32Size. lia. }
  rewrite take_app_n, drop_app_n by apply length_be_bytes. by rewrite be_val_bytes_small.
Qed.

Lemma zlen_take_app {A} (l rest : list A) : take (Z.to_nat (zlen l)) (l ++ rest) = l.
Proof. unfold zlen. rewrite Nat2Z.id. apply take_app_length. Qed.

Lemma zlen_drop_app {A} (l rest : list A) : drop (Z.to_nat (zlen l)) (l ++ rest) = rest.
Proof. unfold zlen. rewrite Nat2Z.id. apply drop_app_length. Qed.

Lemma zlen_app_ltb {A} (l rest : list A) : (zlen (l ++ rest) <? zlen l) = false.
Proof. apply Z.ltb_ge. rewrite zlen_app. pose proof (zlen_nonneg rest). lia. Qed.

Lemma parseADNField_app d rest :
  valid_name d -> parseADNField (wire d ++ rest) (zlen (wire d)) = Ok (d, rest).
Proof.
  intros H. unfold parseADNField. rewrite zlen_app_ltb. cbn [negb check mbind result_bind].
  by rewrite zlen_take_app, zlen_drop_app, decodeADN_wire.
Qed.

Lemma read_addrs_app addrs rest :
  Forall native6 addrs -> Forall wf_addr addrs ->
  read_addrs (length addrs) (concat (As16 <$> addrs) ++ rest) = addrs.
Proof.
  intros H. induction H as [|a l (H6 & H4 & Hz) Hl IH]; intros Hw; [done|].
  apply Forall_cons in Hw as [Ha Hw]. cbn [fmap list_fmap concat length read_addrs].
  rewrite <- app_assoc, take_app_n, drop_app_n by apply length_As16.
  rewrite AddrFrom16_As16 by done. f_equal. by apply IH.
Qed.

Lemma parseAddrs_app addrs rest :
  Forall native6 addrs -> Forall wf_addr addrs ->
  parseAddrs (concat (As16 <$> addrs) ++ rest) (zlen addrs * ipv6Size) = Ok (addrs, rest).
Proof.
  intros H Hw. unfold parseAddrs. rewrite Z_mod_mult. cbn [Z.eqb check mbind result_bind].
  rewrite <- zlen_concat_As16, zlen_app_ltb, zlen_drop_app, zlen_concat_As16.
  unfold ipv6Size. rewrite Z.div_mul by lia. unfold zlen. rewrite Nat2Z.id. cbn [negb check mbind result_bind].
  by rewrite read_addrs_app.
Qed.

Lemma parseSvcParams_app sp rest : parseSvcParams (sp ++ rest) (zlen sp) = Ok sp.
Proof.
  unfold parseSvcParams. rewrite zlen_app_ltb. cbn [negb check mbind result_bind].
  destruct (zlen sp =? 0) eqn:E; [|by rewrite zlen_take_app].
  destruct sp; [done|]. bool_prop. rewrite zlen_cons in E. pose proof (zlen_nonneg sp). lia.
Qed.

(** What [Marshal] emits after the two header octets. *)
Definition marshal_body (o : EncryptedDNS) : bytes :=
  be_bytes 2 (ServicePriority o) ++ be_bytes 4 (Lifetime o)
  ++ be_bytes 2 (u16 (zlen (wire (ADN o)))) ++ wire (ADN o)
  ++ be_bytes 2 (u16 (zlen (Addrs o) * ipv6Size)) ++ concat (As16 <$> Addrs o)
  ++ be_bytes 2 (u16 (zlen (SvcParams o))) ++ SvcParams o.

Lemma Marshal_ok o b :
  Marshal o = Ok b ->
  Validate o = Ok tt /\ zlen b = wireSize o /\
  b = [z2b OptionType; z2b (wireSize o / 8)] ++ marshal_body o
      ++ repeat Byte.x00 (Z.to_nat (wireSize o - zlen (marshal_fields o))).
Proof.
  unfold Marshal. intros H. apply bind_ok in H as ([] & Hv & H). cbv zeta in H.
  apply Ok_inj in H. subst b. split_and!; [done| |].
  - destruct (wireSize_spec o) as [(H1 & _)|H]; [|by apply Validate_ok in Hv as (? & _)].
    rewrite zlen_app. unfold zlen at 2. rewrite repeat_length, Z2Nat.id by lia. lia.
  - unfold marshal_body. set (n := wireSize o - zlen (marshal_fields o)).
    unfold marshal_fields, octetUnit. by rewrite <- !app_assoc.
Qed.

Lemma parseHeader_app units body rest :
  0 < units <= 255 -> zlen body = units * 8 - 2 ->
  parseHeader (([z2b OptionType; z2b units] ++ body) ++ rest) = Ok body.
Proof.
  intros Hu Hb. unfold parseHeader. set (h := [z2b OptionType; z2b units] ++ body).
  assert (Hh : zlen h = units * 8) by (unfold h; rewrite zlen_app, zlen_two; lia).
  pose proof (zlen_nonneg rest). rewrite zlen_app, Hh. unfold octetUnit.
  rewrite (proj2 (Z.ltb_ge (units * 8 + zlen rest) 8)) by lia. cbn [negb check mbind result_bind].
  assert (H0 : take 1 (h ++ rest) = [z2b OptionType]) by done.
  assert (H1 : take 1 (drop 1 (h ++ rest)) = [z2b units]) by done.
  assert (Hv : forall z, 0 <= z < 256 -> be_val [z2b z] = z).
  { intros z Hz. cbn [be_val]. rewrite b2z_z2b_small by done. change (256 ^ zlen []) with 1. lia. }
  rewrite H0, H1, (Hv OptionType), (Hv units) by (unfold OptionType; lia).
  rewrite Z.eqb_refl. cbn [check mbind result_bind].
  rewrite (proj2 (Z.eqb_neq (units * 8) 0)), (proj2 (Z.ltb_ge (units * 8 + zlen rest) (units * 8))) by lia.
  cbn [orb negb check mbind result_bind].
  rewrite <- Hh, zlen_take_app. done.
Qed.

Lemma Unmarshal_marshalled o b rest :
  wf_option o -> Marshal o = Ok b -> Unmarshal (b ++ rest) = Ok o.
Proof.
  intros (Hn & Hp & Hl & Ha) Hb. destruct (Marshal_ok o b Hb) as (Hv & Hz & ->).
  pose proof Hv as Hv'. apply Validate_ok in Hv' as (Hne & H6 & Hal & Hsl & Hu).
  destruct Hn as [|Hn]; [done|].
  destruct (wireSize_spec o) as [(Hf & Hm & H24)|]; [|done].
  unfold Unmarshal. rewrite parseHeader_app.
  2:{ pose proof (Z.div_mod (wireSize o) 8 ltac:(lia)). lia. }
  2:{ rewrite zlen_app, zlen_two in Hz.
      pose proof (Z.div_mod (wireSize o) 8 ltac:(lia)). lia. }
  cbn [mbind result_bind]. unfold marshal_body. rewrite <- !app_assoc.
  rewrite read16_app by done. cbn [mbind result_bind]. rewrite read32_app by done. cbn [mbind result_bind].
  rewrite read16_app by apply u16_range. cbn [mbind result_bind].
  rewrite (u16_small (zlen (wire (ADN o)))).
  2:{ rewrite zlen_wire. pose proof (zlen_nonneg (dn_s (ADN o))). destruct Hn as [Hn _].
      unfold is_u16, maxNameLen, wireNameOverhead in *. lia. }
  rewrite parseADNField_app by done. cbn [mbind result_bind].
  rewrite read16_app by apply u16_range. cbn [mbind result_bind].
  rewrite (u16_small (zlen (Addrs o) * ipv6Size)).
  2:{ pose proof (zlen_nonneg (Addrs o)). unfold is_u16, ipv6Size. lia. }
  rewrite parseAddrs_app by done. cbn [mbind result_bind].
  rewrite read16_app by apply u16_range. cbn [mbind result_bind].
  rewrite (u16_small (zlen (SvcParams o))).
  2:{ pose proof (zlen_nonneg (SvcParams o)). unfold is_u16. lia. }
  rewrite parseSvcParams_app. cbn [mbind result_bind].
  assert (Ho : {| ADN := ADN o; Addrs := Addrs o; SvcParams := SvcParams o;
                  ServicePriority := ServicePriority o; Lifetime := Lifetime o |} = o) by (by destruct o).
  rewrite Ho, Hv. done.
Qed.

Lemma be_val_take n p : 0 <= be_val (take n p) < 256 ^ Z.of_nat n.
Proof.
  pose proof (be_val_range (take n p)) as H. split; [lia|]. eapply Z.lt_le_trans; [apply H|].
  apply Z.pow_le_mono_r; [lia|]. unfold zlen. rewrite length_take. lia.
Qed.

Lemma read_addrs_wf n p : Forall wf_addr (read_addrs n p).
Proof.
  revert p. induction n as [|n IH]; intros p; cbn [read_addrs]; constructor; [|apply IH].
  exact (be_val_take 16 p).
Qed.

(** What a decoded option is. *)
Lemma Unmarshal_wf b o : Unmarshal b = Ok o -> Validate o = Ok tt /\ wf_option o.
Proof.
  unfold Unmarshal. intros H.
  repeat match goal with
  | H : (_ ≫= _) = Ok _ |- _ => apply bind_ok in H as (? & ? & H)
  | p : _ * _ |- _ => destruct p
  end.
  apply Ok_inj in H. subst o. match goal with H : Validate _ = Ok ?u |- _ => destruct u end.
  split; [done|]. unfold wf_option; cbn [ADN ServicePriority Lifetime Addrs].
  unfold read16, read32, parseADNField, parseAddrs in *. inv_ok.
  split_and!; [right; by eapply decodeADN_valid|exact (be_val_take 2 _)|exact (be_val_take 4 _)|apply read_addrs_wf].
Qed.

Lemma Marshal_header o b :
  wf_option o -> Marshal o = Ok b ->
  exists units, 0 < units <= 255 /\ b = [z2b OptionType; z2b units] ++ drop 2 b.
Proof.
  intros Hw Hb. destruct (Marshal_ok o b Hb) as (Hv & Hz & Eb). apply Validate_ok in Hv as (Hne & _ & _ & _ & Hu).
  destruct (wireSize_spec o) as [(_ & Hm & H24)|]; [|done].
  exists (wireSize o / 8). pose proof (Z.div_mod (wireSize o) 8 ltac:(lia)).
  split; [lia|]. rewrite Eb. done.
Qed.

(** ** Properties *)

(** C30: the option round-trips. An option whose fields are in their Go types'
    ranges is encoded exactly when [Validate] accepts it; the encoding is a
    whole number of 8-octet units, the number its Length octet says, at most
    255 of them; and [Unmarshal] gives the option back from it, whatever
    octets follow in the packet. *)
Theorem Marshal_Unmarshal (o : EncryptedDNS) :
  wf_option o ->
  (is_ok (Marshal o) = is_ok (Validate o)) /\
  forall b, Marshal o = Ok b ->
    (exists units, 0 < units <= 255 /\ zlen b = units * 8 /\
       take 2 b = [z2b OptionType; z2b units]) /\
    forall rest, Unmarshal (b ++ rest) = Ok o.
Proof.
  intros Hw. split; [unfold Marshal; by destruct (Validate o)|].
  intros b Hb. split; [|intros rest; by apply Unmarshal_marshalled].
  destruct (Marshal_ok o b Hb) as (Hv & Hz & Eb). apply Validate_ok in Hv as (Hne & _ & _ & _ & Hu).
  destruct (wireSize_spec o) as [(_ & Hm & H24)|]; [|done].
  exists (wireSize o / 8). pose proof (Z.div_mod (wireSize o) 8 ltac:(lia)).
  split_and!; [lia|lia|lia|]. by rewrite Eb.
Qed.

(** Only valid options are decoded, whatever the octets. What [Unmarshal]
    returns passes [Validate], names the resolver by a legal DNS name, and is
    encoded again to octets that decode to the same option. *)
Theorem Unmarshal_Marshal (b : bytes) (o : EncryptedDNS) :
  Unmarshal b = Ok o ->
  valid_name (ADN o) /\ Forall native6 (Addrs o) /\ Validate o = Ok tt /\
  exists b', Marshal o = Ok b' /\ Unmarshal b' = Ok o.
Proof.
  intros H. destruct (Unmarshal_wf b o H) as [Hv Hw].
  pose proof Hv as Hv'. apply Validate_ok in Hv' as (Hne & H6 & _).
  split_and!; [by destruct Hw as [[?|?] _]|done|done|].
  destruct (Marshal o) as [b'|e] eqn:E.
  - exists b'. split; [done|]. rewrite <- (app_nil_r b'). by apply Unmarshal_marshalled.
  - exfalso. unfold Marshal in E. by rewrite Hv in E.
Qed.

(** ** Witnesses *)

Definition ex_option : EncryptedDNS :=
  {| ADN := {| dn_s := bs "dns.example.com" |};
     Addrs := [Addr6 (0x20010db8 * 2 ^ 96 + 0x53) []];
     SvcParams := be_bytes 2 3 ++ be_bytes 2 2 ++ be_bytes 2 853;
     ServicePriority := 1; Lifetime := 3600 |}.

Definition ex_wire : bytes := match Marshal ex_option with Ok b => b | Err _ => [] end.

Lemma Marshal_Unmarshal_witness :
  Marshal ex_option = Ok ex_wire /\ zlen ex_wire = 56 /\ Unmarshal (ex_wire ++ bs "tail") = Ok ex_option.
Proof.
  split; [vm_compute; reflexivity|]. split; [vm_compute; reflexivity|].
  apply Marshal_Unmarshal.
  - split_and!; [right|cbn; unfold is_u16; lia|cbn; unfold is_u32; lia|repeat constructor; vm_compute; done].
    apply (ParseDomainName_spec (bs "dns.example.com")). vm_compute. reflexivity.
  - vm_compute. reflexivity.
Defined.

Lemma Unmarshal_Marshal_witness :
  exists o, Unmarshal ex_wire = Ok o /\ Validate o = Ok tt.
Proof.
  exists ex_option. split; [vm_compute; reflexivity|].
  apply (Unmarshal_Marshal ex_wire). vm_compute. reflexivity.
Defined.
