(* ===== verification/SvcParams.v ===== *)
(** * DNS SvcParams ([radnr/pkg/svcparams/svcparams.go])

    The RFC 9460 wire encoding of the parameters a DNR option carries, with a
    reader of that format as its specification. *)

From Stdlib Require Import Sorting.Sorted.
From S2P Require Import Prelude GoStrings Netip.

Definition keyALPN : Z := 1.
Definition keyPort : Z := 3.
Definition keyDohPath : Z := 7.
Definition uint16MaxLen : Z := 0xffff.

(** [Params]; [Forbidden] is the map's keys. *)
Record Params := { Forbidden : list bytes; DohPath : bytes; ALPN : list bytes; Port : Z }.

Inductive SvcErr := ForbiddenKey | UnsupportedKey | DohPathTooLong | EmptyALPN | ALPNTooLong | ValueTooLong.

(** [checkedUint16] and [checkedByte] give the value back at its width. *)
Definition svc_checkedUint16 (n : Z) : result SvcErr Z :=
  if (n <? 0) || (0xffff <? n) then Err ValueTooLong else Ok (u16 n).

Definition checkedByte (n : Z) : result SvcErr byte :=
  if (n <? 0) || (0xff <? n) then Err ALPNTooLong else Ok (z2b n).

Fixpoint encodeALPN (ids : list bytes) : result SvcErr bytes :=
  match ids with
  | [] => Ok []
  | id :: t =>
      check (negb (beqb id [])) EmptyALPN;;
      idLen ← checkedByte (zlen id);
      out ← encodeALPN t;
      Ok (idLen :: id ++ out)
  end.

(** [sort.Slice] by key; the keys are distinct, so stability is moot. *)
Fixpoint insert_kv (p : Z * bytes) (l : list (Z * bytes)) : list (Z * bytes) :=
  match l with
  | [] => [p]
  | q :: t => if p.1 <? q.1 then p :: l else q :: insert_kv p t
  end.

Definition sort_kv (l : list (Z * bytes)) : list (Z * bytes) := foldr insert_kv [] l.

Fixpoint emit (params : list (Z * bytes)) : result SvcErr bytes :=
  match params with
  | [] => Ok []
  | (key, val) :: t =>
      valLen ← svc_checkedUint16 (zlen val);
      out ← emit t;
      Ok (be_bytes 2 key ++ be_bytes 2 valLen ++ val ++ out)
  end.

Definition Encode (p : Params) : result SvcErr bytes :=
  match Forbidden p with
  | k :: _ => Err (if beqb k (bs "ipv4hint") || beqb k (bs "ipv6hint")
                   then ForbiddenKey else UnsupportedKey)
  | [] =>
      alpn ← (match ALPN p with [] => Ok [] | ids => val ← encodeALPN ids; Ok [(keyALPN, val)] end);
      let port := if Port p =? 0 then [] else [(keyPort, be_bytes 2 (Port p))] in
      doh ← (if beqb (DohPath p) [] then Ok []
             else if uint16MaxLen <? zlen (DohPath p) then Err DohPathTooLong
             else Ok [(keyDohPath, DohPath p)]);
      emit (sort_kv (alpn ++ port ++ doh))
  end.

(** ** The reader *)

Fixpoint read_params (fuel : nat) (b : bytes) : option (list (Z * bytes)) :=
  match b with
  | [] => Some []
  | _ =>
      match fuel with
      | O => None
      | S fuel' =>
          let n := Z.to_nat (be_val (take 2 (drop 2 b))) in
          if (length b <? 4 + n)%nat then None
          else rest ← read_params fuel' (drop (4 + n) b);
               Some ((be_val (take 2 b), take n (drop 4 b)) :: rest)
      end
  end.

Fixpoint read_alpn (fuel : nat) (b : bytes) : option (list bytes) :=
  match b with
  | [] => Some []
  | n :: t =>
      match fuel with
      | O => None
      | S fuel' =>
          let n := Z.to_nat (b2z n) in
          if (length t <? n)%nat then None
          else rest ← read_alpn fuel' (drop n t); Some (take n t :: rest)
      end
  end.

(** The parameters an encoding stands for. *)
Definition params_of (p : Params) (alpn : bytes) : list (Z * bytes) :=
  (match ALPN p with [] => [] | _ => [(keyALPN, alpn)] end)
  ++ (if Port p =? 0 then [] else [(keyPort, be_bytes 2 (Port p))])
  ++ (if beqb (DohPath p) [] then [] else [(keyDohPath, DohPath p)]).

(** *** Lemmas *)

Lemma encodeALPN_ok ids b :
  encodeALPN ids = Ok b ->
  Forall (fun id => id <> [] /\ zlen id <= 255) ids /\
  forall fuel, (length b <= fuel)%nat -> read_alpn fuel b = Some ids.
Proof.
  revert b. induction ids as [|id t IH]; intros b; cbn [encodeALPN].
  { intros [= <-]. split; [constructor|]. by intros []. }
  intros H. inv_ok. apply negb_true_iff, beqb_false in H.
  unfold checkedByte in *. destruct (_ || _) eqn:E; inv_ok. bool_prop.
  destruct (IH _ ltac:(eassumption)) as [HF Hr]. split; [by constructor|].
  intros [|fuel] Hf; cbn [length read_alpn] in *; [lia|].
  rewrite b2z_z2b_small by lia. unfold zlen. rewrite Nat2Z.id, length_app.
  rewrite (proj2 (Nat.ltb_ge _ _)) by lia. rewrite take_app_length, drop_app_length, Hr; [done|].
  rewrite length_app in Hf. lia.
Qed.

Lemma encodeALPN_total ids :
  is_ok (encodeALPN ids) = forallb (fun id => negb (beqb id []) && (zlen id <=? 255)) ids.
Proof.
  induction ids as [|id t IH]; [done|]. cbn [encodeALPN forallb].
  rewrite <- IH. destruct (beqb id []); cbn [check mbind result_bind negb andb is_ok]; [done|].
  unfold checkedByte. pose proof (zlen_nonneg id).
  rewrite (proj2 (Z.ltb_ge (zlen id) 0)), Z.leb_antisym by lia. cbn [orb].
  destruct (255 <? zlen id); cbn; [done|]. by destruct (encodeALPN t).
Qed.

Lemma sort_params_of p alpn : sort_kv (params_of p alpn) = params_of p alpn.
Proof.
  unfold params_of. destruct (ALPN p), (Port p =? 0), (beqb (DohPath p) []); reflexivity.
Qed.

Lemma params_ascending p alpn : StronglySorted Z.lt (params_of p alpn).*1.
Proof.
  unfold params_of. destruct (ALPN p), (Port p =? 0), (beqb (DohPath p) []);
    repeat constructor.
Qed.

Lemma emit_ok params b :
  Forall (fun kv => is_u16 kv.1) params -> emit params = Ok b ->
  Forall (fun kv => zlen kv.2 <= 0xffff) params /\
  forall fuel, (length b <= fuel)%nat -> read_params fuel b = Some params.
Proof.
  intros HF. revert b. induction HF as [|[k v] t Hk Ht IH]; intros b; cbn [emit].
  { intros [= <-]. split; [constructor|]. by intros []. }
  intros H. inv_ok_raw. unfold svc_checkedUint16 in *. destruct (_ || _) eqn:E; inv_ok_raw. bool_prop.
  destruct (IH _ ltac:(eassumption)) as [HF' Hr]. cbn [fst snd] in *.
  assert (Hu : is_u16 (zlen v)) by (pose proof (zlen_nonneg v); unfold is_u16; lia).
  split; [constructor; [cbn; lia|done]|]. intros fuel Hf. rewrite u16_small in * by done.
  match goal with H : emit t = Ok ?r |- _ => rename r into out end.
  remember (be_bytes 2 k ++ be_bytes 2 (zlen v) ++ v ++ out) as b eqn:Eb.
  assert (E4 : drop 4 b = v ++ out).
  { subst b. rewrite (app_assoc (be_bytes 2 k)). by apply drop_app_n. }
  assert (E2 : take 2 (drop 2 b) = be_bytes 2 (zlen v)).
  { subst b. rewrite drop_app_n by done. by apply take_app_n. }
  assert (E0 : take 2 b = be_bytes 2 k) by (subst b; by apply take_app_n).
  assert (Hlen : length b = (4 + length v + length out)%nat).
  { subst b. rewrite !length_app, !length_be_bytes. lia. }
  destruct fuel as [|fuel]; [lia|]. destruct b as [|c b']; [cbn in Hlen; lia|].
  cbn [read_params]. rewrite E2, be_val_bytes_small by done.
  unfold zlen. rewrite Nat2Z.id, (proj2 (Nat.ltb_ge _ _)) by lia.
  rewrite <- drop_drop, E4, drop_app_length, Hr by lia. cbn [mbind option_bind].
  by rewrite take_app_length, E0, be_val_bytes_small.
Qed.

(** The encoding fails exactly for a forbidden key, an alpn id that is empty
    or longer than 255 octets, or a value longer than its 16-bit length. *)
Definition encodable (p : Params) : bool :=
  match Forbidden p with
  | _ :: _ => false
  | [] =>
      forallb (fun id => negb (beqb id []) && (zlen id <=? 255)) (ALPN p)
      && (zlen (concat (ALPN p)) + zlen (ALPN p) <=? 0xffff)
      && (zlen (DohPath p) <=? 0xffff)
  end.

Lemma zlen_encodeALPN ids b : encodeALPN ids = Ok b -> zlen b = zlen (concat ids) + zlen ids.
Proof.
  revert b. induction ids as [|id t IH]; intros b; cbn [encodeALPN]; [by intros [= <-]|].
  intros H. inv_ok. cbn [concat]. rewrite !zlen_cons, !zlen_app.
  match goal with H : encodeALPN t = Ok ?o |- _ => rewrite (IH o H) end. lia.
Qed.

Lemma emit_total params :
  is_ok (emit params) = forallb (fun kv => zlen kv.2 <=? 0xffff) params.
Proof.
  induction params as [|[k v] t IH]; [done|]. cbn [emit forallb]. rewrite <- IH.
  unfold svc_checkedUint16. pose proof (zlen_nonneg v).
  rewrite (proj2 (Z.ltb_ge (zlen v) 0)) by lia. cbn [orb snd]. rewrite Z.leb_antisym.
  destruct (0xffff <? zlen v); cbn; [done|]. by destruct (emit t).
Qed.

(** [Encode], with its parameter list in one piece. *)
Lemma Encode_eq p :
  Encode p =
  match Forbidden p with
  | k :: _ => Err (if beqb k (bs "ipv4hint") || beqb k (bs "ipv6hint") then ForbiddenKey else UnsupportedKey)
  | [] =>
      alpn ← encodeALPN (ALPN p);
      if uint16MaxLen <? zlen (DohPath p) then Err DohPathTooLong else emit (params_of p alpn)
  end.
Proof.
  unfold Encode. destruct (Forbidden p); [|done].
  unfold params_of. destruct (ALPN p) as [|id ids]; cbn [encodeALPN mbind result_bind].
  - destruct (beqb (DohPath p) []) eqn:E; cbn [mbind result_bind].
    + bool_prop. rewrite E. cbn [zlen length]. by destruct (Port p =? 0).
    + destruct (uint16MaxLen <? zlen (DohPath p)); [done|]. by destruct (Port p =? 0).
  - destruct (encodeALPN (id :: ids)) as [b|e] eqn:Ea; cbn [encodeALPN] in Ea; rewrite ?Ea; cbn [mbind result_bind]; [|done].
    destruct (beqb (DohPath p) []) eqn:E; cbn [mbind result_bind].
    + bool_prop. rewrite E. cbn [zlen length]. by destruct (Port p =? 0).
    + destruct (uint16MaxLen <? zlen (DohPath p)); [done|]. by destruct (Port p =? 0).
Qed.

(** The SvcParams encoding is RFC 9460's. [Encode] succeeds exactly on
    encodable parameters; a reader of the wire format then finds the keys in
    strictly ascending order, with exactly the configured values: the alpn
    ids one by one, the port as two octets, the path verbatim, and nothing
    for a parameter left out. *)
Theorem Encode_exact (p : Params) :
  is_u16 (Port p) ->
  is_ok (Encode p) = encodable p /\
  forall b, Encode p = Ok b ->
    exists alpn, read_params (length b) b = Some (params_of p alpn) /\
      read_alpn (length alpn) alpn = Some (ALPN p) /\
      StronglySorted Z.lt (params_of p alpn).*1.
Proof.
  intros Hp. rewrite Encode_eq. unfold encodable. destruct (Forbidden p) as [|k ks]; [|done].
  pose proof (encodeALPN_total (ALPN p)) as Ht.
  destruct (encodeALPN (ALPN p)) as [alpn|e] eqn:Ea; cbn [mbind result_bind is_ok] in *.
  2:{ by rewrite <- Ht. }
  rewrite <- Ht. pose proof (zlen_encodeALPN _ _ Ea) as Hz. cbn [andb].
  assert (Hk : Forall (fun kv => is_u16 kv.1) (params_of p alpn)).
  { unfold params_of. rewrite !Forall_app. split_and!; case_match; repeat constructor; done. }
  rewrite <- Hz. split.
  - unfold uint16MaxLen. destruct (0xffff <? zlen (DohPath p)) eqn:Ed.
    { rewrite (proj2 (Z.leb_gt (zlen (DohPath p)) _)) by (by apply Z.ltb_lt). by rewrite andb_false_r. }
    rewrite emit_total. rewrite (proj2 (Z.leb_le (zlen (DohPath p)) _)) by (by apply Z.ltb_ge).
    rewrite andb_true_r. unfold params_of. rewrite !forallb_app.
    replace (forallb _ (if Port p =? 0 then [] else _)) with true by (by destruct (Port p =? 0)).
    replace (forallb _ (if beqb (DohPath p) [] then [] else _)) with true.
    2:{ destruct (beqb (DohPath p) []); [done|]. cbn. rewrite (proj2 (Z.leb_le _ _)); [done|]. by apply Z.ltb_ge. }
    rewrite !andb_true_r. destruct (ALPN p) as [|id ids].
    + cbn in Ea. injection Ea as <-. done.
    + cbn [forallb snd]. by rewrite andb_true_r.
  - intros b Hb. destruct (uint16MaxLen <? _); [done|]. exists alpn.
    destruct (emit_ok _ _ Hk Hb) as [_ Hr]. destruct (encodeALPN_ok _ _ Ea) as [_ Hra].
    split_and!; [by apply Hr|by apply Hra|apply params_ascending].
Qed.

Lemma Encode_exact_witness :
  let p := {| Forbidden := []; DohPath := bs "/dns-query{?dns}"; ALPN := [bs "dot"; bs "h2"]; Port := 853 |} in
  exists b, Encode p = Ok b /\
    exists alpn, read_params (length b) b = Some (params_of p alpn) /\
      read_alpn (length alpn) alpn = Some [bs "dot"; bs "h2"].
Proof.
  intros p. eexists. split; [vm_compute; reflexivity|].
  destruct (proj2 (Encode_exact p ltac:(cbn; unfold is_u16; lia)) _ ltac:(vm_compute; reflexivity))
    as (alpn & H1 & H2 & _).
  exists alpn. split; [exact H1|exact H2].
Defined.
