(* ===== verification/RadnrConfig.v ===== *)
(** * The [radnr] configuration ([radnr/internal/config/config.go],
    [radnr/setup.go])

    The daemon's configuration, the validation that keeps a second router
    advertiser from disrupting a LAN, and the Corefile block that fills it. *)

From S2P Require Import Prelude GoStrings Netip Caddy.

Record Config := {
  Interface : bytes;
  c_ADN : bytes;
  c_DohPath : bytes;
  UnicastTarget : bytes;
  c_Addrs : list bytes;
  c_ALPN : list bytes;
  AdvertisePrefixes : list bytes;
  c_Port : Z;
  RouterLifetime : Z;
  AdvertiseRDNSS : bool;
  AllowDefaultRouter : bool;
  DryRun : bool
}.

Definition zero_config : Config :=
  {| Interface := []; c_ADN := []; c_DohPath := []; UnicastTarget := []; c_Addrs := [];
     c_ALPN := []; AdvertisePrefixes := []; c_Port := 0; RouterLifetime := 0;
     AdvertiseRDNSS := false; AllowDefaultRouter := false; DryRun := false |}.

Inductive ConfErr :=
| NoInterface | NoADN | BadADN | NoAddrs | BadAddr | AddrNotIPv6 | EmptyALPNId
| DefaultRouter | PrefixesForbidden | BadUnicast.

(** [invalidLabelChar]: a byte outside [0-9A-Za-z-]. Every byte of a character
    beyond ASCII is outside it too, so matching bytes finds what the regular
    expression finds. *)
Definition ldh (b : byte) : bool :=
  is_digit b || is_upper b || is_lower b || bool_decide (b = Byte.x2d).

Fixpoint check_adn_labels (labels : list bytes) : result ConfErr unit :=
  match labels with
  | [] => Ok tt
  | l :: t => check (negb (beqb l [])) BadADN;;
              check (forallb ldh l) BadADN;;
              check_adn_labels t
  end.

Definition validateADN (name : bytes) : result ConfErr unit :=
  let name := trim_suffix name [Byte.x2e] in
  check (negb (beqb name [])) BadADN;;
  check_adn_labels (split_byte Byte.x2e name).

Fixpoint check_addr_list (addrs : list bytes) : result ConfErr unit :=
  match addrs with
  | [] => Ok tt
  | a :: t =>
      match ParseAddr a with
      | None => Err BadAddr
      | Some addr => check (negb (negb (Is6 addr) || Is4In6 addr)) AddrNotIPv6;; check_addr_list t
      end
  end.

Definition validateAddrs (addrs : list bytes) : result ConfErr unit :=
  match addrs with [] => Err NoAddrs | _ => check_addr_list addrs end.

Definition validateUnicastTarget (target : bytes) : result ConfErr unit :=
  if beqb target [] then Ok tt
  else match ParseAddr target with
       | None => Err BadUnicast
       | Some addr => check (negb (negb (Is6 addr) || Is4In6 addr)) BadUnicast
       end.

Definition Config_Validate (c : Config) : result ConfErr unit :=
  check (negb (beqb (Interface c) [])) NoInterface;;
  check (negb (beqb (c_ADN c) [])) NoADN;;
  validateADN (c_ADN c);;
  validateAddrs (c_Addrs c);;
  check (negb (existsb (beqb []) (c_ALPN c))) EmptyALPNId;;
  check (negb (negb (RouterLifetime c =? 0) && negb (AllowDefaultRouter c))) DefaultRouter;;
  check (match AdvertisePrefixes c with [] => true | _ => false end) PrefixesForbidden;;
  validateUnicastTarget (UnicastTarget c).

(** ** The Corefile block *)

Section Setup.
Context {D : Type} `{!Dispenser D}.

(** The shapes of the directives: one argument, one or more, or none. *)
Definition one_arg (d : D) (set : bytes -> result ParseErr Config) : result ParseErr (D * Config) :=
  '(v, d') ← arg1 d; c ← set v; Ok (d', c).

Definition many_args (d : D) (set : list bytes -> Config) : result ParseErr (D * Config) :=
  let '(args, d') := RemainingArgs d in
  match args with [] => Err ArgErr | _ => Ok (d', set args) end.

Definition no_arg (d : D) (c : Config) : result ParseErr (D * Config) :=
  match NextArg d with (true, _) => Err ArgErr | (false, d') => Ok (d', c) end.

Definition set_interface (c : Config) (v : bytes) : Config :=
  {| Interface := v; c_ADN := c_ADN c; c_DohPath := c_DohPath c; UnicastTarget := UnicastTarget c;
     c_Addrs := c_Addrs c; c_ALPN := c_ALPN c; AdvertisePrefixes := AdvertisePrefixes c;
     c_Port := c_Port c; RouterLifetime := RouterLifetime c; AdvertiseRDNSS := AdvertiseRDNSS c;
     AllowDefaultRouter := AllowDefaultRouter c; DryRun := DryRun c |}.
Definition set_adn (c : Config) (v : bytes) : Config :=
  {| Interface := Interface c; c_ADN := v; c_DohPath := c_DohPath c; UnicastTarget := UnicastTarget c;
     c_Addrs := c_Addrs c; c_ALPN := c_ALPN c; AdvertisePrefixes := AdvertisePrefixes c;
     c_Port := c_Port c; RouterLifetime := RouterLifetime c; AdvertiseRDNSS := AdvertiseRDNSS c;
     AllowDefaultRouter := AllowDefaultRouter c; DryRun := DryRun c |}.
Definition set_dohpath (c : Config) (v : bytes) : Config :=
  {| Interface := Interface c; c_ADN := c_ADN c; c_DohPath := v; UnicastTarget := UnicastTarget c;
     c_Addrs := c_Addrs c; c_ALPN := c_ALPN c; AdvertisePrefixes := AdvertisePrefixes c;
     c_Port := c_Port c; RouterLifetime := RouterLifetime c; AdvertiseRDNSS := AdvertiseRDNSS c;
     AllowDefaultRouter := AllowDefaultRouter c; DryRun := DryRun c |}.
Definition set_unicast (c : Config) (v : bytes) : Config :=
  {| Interface := Interface c; c_ADN := c_ADN c; c_DohPath := c_DohPath c; UnicastTarget := v;
     c_Addrs := c_Addrs c; c_ALPN := c_ALPN c; AdvertisePrefixes := AdvertisePrefixes c;
     c_Port := c_Port c; RouterLifetime := RouterLifetime c; AdvertiseRDNSS := AdvertiseRDNSS c;
     AllowDefaultRouter := AllowDefaultRouter c; DryRun := DryRun c |}.
Definition set_addrs (c : Config) (v : list bytes) : Config :=
  {| Interface := Interface c; c_ADN := c_ADN c; c_DohPath := c_DohPath c; UnicastTarget := UnicastTarget c;
     c_Addrs := v; c_ALPN := c_ALPN c; AdvertisePrefixes := AdvertisePrefixes c;
     c_Port := c_Port c; RouterLifetime := RouterLifetime c; AdvertiseRDNSS := AdvertiseRDNSS c;
     AllowDefaultRouter := AllowDefaultRouter c; DryRun := DryRun c |}.
Definition set_alpn (c : Config) (v : list bytes) : Config :=
  {| Interface := Interface c; c_ADN := c_ADN c; c_DohPath := c_DohPath c; UnicastTarget := UnicastTarget c;
     c_Addrs := c_Addrs c; c_ALPN := v; AdvertisePrefixes := AdvertisePrefixes c;
     c_Port := c_Port c; RouterLifetime := RouterLifetime c; AdvertiseRDNSS := AdvertiseRDNSS c;
     AllowDefaultRouter := AllowDefaultRouter c; DryRun := DryRun c |}.
Definition set_prefixes (c : Config) (v : list bytes) : Config :=
  {| Interface := Interface c; c_ADN := c_ADN c; c_DohPath := c_DohPath c; UnicastTarget := UnicastTarget c;
     c_Addrs := c_Addrs c; c_ALPN := c_ALPN c; AdvertisePrefixes := v;
     c_Port := c_Port c; RouterLifetime := RouterLifetime c; AdvertiseRDNSS := AdvertiseRDNSS c;
     AllowDefaultRouter := AllowDefaultRouter c; DryRun := DryRun c |}.
Definition set_port (c : Config) (v : Z) : Config :=
  {| Interface := Interface c; c_ADN := c_ADN c; c_DohPath := c_DohPath c; UnicastTarget := UnicastTarget c;
     c_Addrs := c_Addrs c; c_ALPN := c_ALPN c; AdvertisePrefixes := AdvertisePrefixes c;
     c_Port := v; RouterLifetime := RouterLifetime c; AdvertiseRDNSS := AdvertiseRDNSS c;
     AllowDefaultRouter := AllowDefaultRouter c; DryRun := DryRun c |}.
Definition set_lifetime (c : Config) (v : Z) : Config :=
  {| Interface := Interface c; c_ADN := c_ADN c; c_DohPath := c_DohPath c; UnicastTarget := UnicastTarget c;
     c_Addrs := c_Addrs c; c_ALPN := c_ALPN c; AdvertisePrefixes := AdvertisePrefixes c;
     c_Port := c_Port c; RouterLifetime := v; AdvertiseRDNSS := AdvertiseRDNSS c;
     AllowDefaultRouter := AllowDefaultRouter c; DryRun := DryRun c |}.
Definition set_flags (c : Config) (rdnss allow dry : bool) : Config :=
  {| Interface := Interface c; c_ADN := c_ADN c; c_DohPath := c_DohPath c; UnicastTarget := UnicastTarget c;
     c_Addrs := c_Addrs c; c_ALPN := c_ALPN c; AdvertisePrefixes := AdvertisePrefixes c;
     c_Port := c_Port c; RouterLifetime := RouterLifetime c; AdvertiseRDNSS := rdnss || AdvertiseRDNSS c;
     AllowDefaultRouter := allow || AllowDefaultRouter c; DryRun := dry || DryRun c |}.

Definition parse16 (v : bytes) : result ParseErr Z :=
  match parse_uint 16 v with Some n => Ok n | None => Err (PErr (bs "invalid number")) end.

Definition parseInterfaceDirective (d : D) (c : Config) := one_arg d (fun v => Ok (set_interface c v)).
Definition parseADNDirective (d : D) (c : Config) := one_arg d (fun v => Ok (set_adn c v)).
Definition parseAddrDirective (d : D) (c : Config) := many_args d (fun l => set_addrs c (c_Addrs c ++ l)).
Definition parseALPNDirective (d : D) (c : Config) := many_args d (fun l => set_alpn c l).
Definition parsePortDirective (d : D) (c : Config) := one_arg d (fun v => p ← parse16 v; Ok (set_port c p)).
Definition parseDohPathDirective (d : D) (c : Config) := one_arg d (fun v => Ok (set_dohpath c v)).
Definition parseUnicastDirective (d : D) (c : Config) := one_arg d (fun v => Ok (set_unicast c v)).
Definition parseRDNSSDirective (d : D) (c : Config) := no_arg d (set_flags c true false false).
Definition parseDryRunDirective (d : D) (c : Config) := no_arg d (set_flags c false false true).
Definition parseRouterLifetimeDirective (d : D) (c : Config) :=
  one_arg d (fun v => p ← parse16 v; Ok (set_lifetime c p)).
Definition parseAllowDefaultRouterDirective (d : D) (c : Config) := no_arg d (set_flags c false true false).
Definition parseAdvertisePrefixDirective (d : D) (c : Config) :=
  many_args d (fun l => set_prefixes c (AdvertisePrefixes c ++ l)).

Definition directiveParsers : list (bytes * (D -> Config -> result ParseErr (D * Config))) :=
  [(bs "interface", parseInterfaceDirective); (bs "adn", parseADNDirective); (bs "addr", parseAddrDirective);
   (bs "alpn", parseALPNDirective); (bs "port", parsePortDirective); (bs "dohpath", parseDohPathDirective);
   (bs "unicast", parseUnicastDirective); (bs "rdnss", parseRDNSSDirective); (bs "dry-run", parseDryRunDirective);
   (bs "router-lifetime", parseRouterLifetimeDirective); (bs "allow-default-router", parseAllowDefaultRouterDirective);
   (bs "advertise-prefix", parseAdvertisePrefixDirective)].

(** The body of [parse]'s inner loop: a lookup in [directiveParsers]. *)
Definition directive (d : D) (c : Config) : result ParseErr (D * Config) :=
  match List.find (fun e => beqb (Val d) e.1) directiveParsers with
  | Some (_, fn) => fn d c
  | None => Err (PErr (bs "unknown property"))
  end.

(** [parse]: every [radnr] line of the server block, into one configuration. *)
Definition radnr_parse (d : D) : result ParseErr (D * Config) :=
  next_loop (fun d c => block_loop directive d c) d zero_config.

(** The part of [setup] before the hooks are registered. *)
Definition radnr_setup (d : D) : result (ParseErr + ConfErr) Config :=
  match radnr_parse d with
  | Err e => Err (inl e)
  | Ok (_, c) => match Config_Validate c with Err e => Err (inr e) | Ok _ => Ok c end
  end.

End Setup.

(** *** Lemmas *)

(** The ranges the parser leaves the 16-bit fields in. *)
Definition wf_config (c : Config) : Prop := is_u16 (c_Port c) /\ is_u16 (RouterLifetime c).

Lemma parse16_u16 v n : parse16 v = Ok n -> is_u16 n.
Proof.
  unfold parse16, parse_uint. destruct v as [|b t]; [done|].
  destruct (parse_digits _ 0) as [m|] eqn:E; [|done]. destruct (m <? 2 ^ 16) eqn:Em; [|done].
  intros [= <-]. apply parse_digits_nonneg in E; [|lia]. bool_prop. done.
Qed.

Lemma one_arg_inv {D} `{!Dispenser D} (P : Config -> Prop) (d : D) set d' c' :
  (forall v c, set v = Ok c -> P c) -> one_arg d set = Ok (d', c') -> P c'.
Proof. intros HP H. unfold one_arg in H. inv_ok. destruct x. inv_ok. eauto. Qed.

Lemma many_args_inv {D} `{!Dispenser D} (P : Config -> Prop) (d : D) set d' c' :
  (forall l, P (set l)) -> many_args d set = Ok (d', c') -> P c'.
Proof. intros HP H. unfold many_args in H. destruct (RemainingArgs d) as [[|??] ?]; inv_ok; eauto. Qed.

Lemma no_arg_inv {D} `{!Dispenser D} (P : Config -> Prop) (d : D) c d' c' :
  P c -> no_arg d c = Ok (d', c') -> P c'.
Proof. intros HP H. unfold no_arg in H. destruct (NextArg d) as [[] ?]; inv_ok; eauto. Qed.

Lemma directive_wf {D} `{!Dispenser D} (d : D) c d' c' :
  wf_config c -> directive d c = Ok (d', c') -> wf_config c'.
Proof.
  intros [H1 H2]. unfold directive. destruct (List.find _ _) as [[name fn]|] eqn:Ef; [|done].
  apply find_some in Ef as [Hin _]. cbn in Hin.
  repeat destruct Hin as [[= _ <-]|Hin]; [..|done];
    first [apply one_arg_inv; intros v c0 Hv; inv_ok; try done | apply many_args_inv; done | apply no_arg_inv; done].
  - split; [by eapply parse16_u16|done].
  - split; [done|by eapply parse16_u16].
Qed.

Lemma radnr_parse_wf {D} `{!Dispenser D} (d : D) d' c :
  radnr_parse d = Ok (d', c) -> wf_config c.
Proof.
  intros H. refine (loop_inv Next _ wf_config _ _ _ _ _ _ _ H).
  - intros d1 c1 d2 c2 Hc Hl.
    refine (loop_inv NextBlock directive wf_config _ _ _ _ _ _ Hc Hl).
    intros d3 c3 d4 c4 Hc3. by apply directive_wf.
  - split; cbn; unfold is_u16; lia.
Qed.

Lemma check_addr_list_ok addrs :
  check_addr_list addrs = Ok tt <->
  Forall (fun a => exists ip, ParseAddr a = Some ip /\ Is6 ip = true /\ Is4In6 ip = false) addrs.
Proof.
  induction addrs as [|a t IH]; cbn [check_addr_list]; [split; [constructor|done]|].
  rewrite Forall_cons, <- IH. destruct (ParseAddr a) as [ip|].
  2:{ split; [done|]. by intros [(? & ? & _) _]. }
  destruct (Is6 ip) eqn:E6, (Is4In6 ip) eqn:E4; cbn [negb orb check mbind result_bind]; split; try done;
    try (intros [(ip' & [= <-] & ? & ?) ?]; congruence).
  - intros H. split; [by exists ip|done].
Qed.

Lemma Config_Validate_router c :
  Config_Validate c = Ok tt -> RouterLifetime c = 0 \/ AllowDefaultRouter c = true.
Proof.
  unfold Config_Validate. intros H. inv_ok. bool_prop.
  match goal with H : _ && _ = false |- _ => apply andb_false_iff in H as [H|H] end; bool_prop; auto.
Qed.

Lemma Config_Validate_addrs c :
  Config_Validate c = Ok tt ->
  Forall (fun a => exists ip, ParseAddr a = Some ip /\ Is6 ip = true /\ Is4In6 ip = false) (c_Addrs c).
Proof.
  unfold Config_Validate, validateAddrs. intros H. inv_ok. apply check_addr_list_ok.
  destruct (c_Addrs c); [done|]. match goal with H : check_addr_list _ = Ok ?u |- _ => by destruct u end.
Qed.

(** What [Validate] guarantees. *)
Lemma Config_Validate_safe (c : Config) :
  Config_Validate c = Ok tt ->
  (RouterLifetime c = 0 \/ AllowDefaultRouter c = true) /\
  AdvertisePrefixes c = [] /\ Interface c <> [] /\
  Forall (fun l => l <> [] /\ Forall (fun b => ldh b = true) l)
         (split_byte Byte.x2e (trim_suffix (c_ADN c) [Byte.x2e])) /\
  c_Addrs c <> [] /\ [] ∉ c_ALPN c /\
  Forall (fun a => exists ip, ParseAddr a = Some ip /\ Is6 ip = true /\ Is4In6 ip = false)
         (c_Addrs c ++ if beqb (UnicastTarget c) [] then [] else [UnicastTarget c]).
Proof.
  unfold Config_Validate, validateADN, validateAddrs, validateUnicastTarget.
  intros H. inv_ok. bool_prop.
  assert (Ha : c_Addrs c <> [] /\ check_addr_list (c_Addrs c) = Ok tt).
  { destruct (c_Addrs c); [done|]. split; [done|].
    match goal with H : check_addr_list _ = Ok ?u |- _ => by destruct u end. }
  destruct Ha as [Ha Hl]. apply check_addr_list_ok in Hl.
  split_and!; try done.
  - match goal with H : _ && _ = false |- _ => apply andb_false_iff in H as [H|H] end; bool_prop; auto.
  - by destruct (AdvertisePrefixes c).
  - match goal with H : check_adn_labels ?ls = Ok _ |- _ => revert H; generalize ls end.
    clear. induction l as [|l t IH]; intros H; [constructor|]. cbn [check_adn_labels] in H. inv_ok. bool_prop.
    constructor; [|by apply IH]. split; [done|]. by apply forallb_Forall_true.
  - intros Hin. match goal with H : existsb _ _ = false |- _ => rewrite <- not_true_iff_false, existsb_exists in H; apply H end.
    exists []. by rewrite <- list_elem_of_In.
  - apply Forall_app. split; [done|]. destruct (beqb (UnicastTarget c) []); [constructor|].
    destruct (ParseAddr (UnicastTarget c)) as [ip|] eqn:E; [|done]. inv_ok. bool_prop.
    constructor; [|constructor]. exists ip. bool_prop. done.
Qed.

Definition ex_config : Config :=
  {| Interface := bs "eth0"; c_ADN := bs "dns.example.com"; c_DohPath := bs "/dns-query{?dns}";
     UnicastTarget := []; c_Addrs := [bs "2001:db8::53"]; c_ALPN := [bs "dot"; bs "h2"];
     AdvertisePrefixes := []; c_Port := 853; RouterLifetime := 0; AdvertiseRDNSS := true;
     AllowDefaultRouter := false; DryRun := false |}.

(** *** Termination *)

Lemma one_arg_total {D} `{!Dispenser D} `{!DispenserLaws D} (d : D) set :
  (forall v, set v <> Err OutOfFuel) ->
  one_arg d set <> Err OutOfFuel /\
  forall d' c, one_arg d set = Ok (d', c) -> (size d' <= size d)%nat.
Proof.
  intros Hs. unfold one_arg. split.
  - apply bind_total; [unfold arg1; by destruct (NextArg d) as [[]]|]. intros [v d'] _.
    by apply bind_total.
  - intros d' c H. apply bind_ok in H as ([v d1] & Ha & H). apply bind_ok in H as (c' & _ & H).
    injection H as <- _. by eapply arg1_size.
Qed.

Lemma many_args_total {D} `{!Dispenser D} `{!DispenserLaws D} (d : D) set :
  many_args d set <> Err OutOfFuel /\
  forall d' c, many_args d set = Ok (d', c) -> (size d' <= size d)%nat.
Proof.
  unfold many_args. destruct (RemainingArgs d) as [[|??] d1] eqn:E; split; try done.
  intros d' c [= <- _]. by apply RemainingArgs_size in E.
Qed.

Lemma no_arg_total {D} `{!Dispenser D} `{!DispenserLaws D} (d : D) c0 :
  no_arg d c0 <> Err OutOfFuel /\
  forall d' c, no_arg d c0 = Ok (d', c) -> (size d' <= size d)%nat.
Proof.
  unfold no_arg. destruct (NextArg d) as [[] d1] eqn:E; split; try done.
  intros d' c [= <- _]. by apply NextArg_size in E.
Qed.

Lemma directive_total {D} `{!Dispenser D} `{!DispenserLaws D} (d : D) c :
  directive d c <> Err OutOfFuel /\
  forall d' c', directive d c = Ok (d', c') -> (size d' <= size d)%nat.
Proof.
  unfold directive. destruct (List.find _ _) as [[name fn]|] eqn:Ef; [|done].
  apply find_some in Ef as [Hin _]. cbn in Hin.
  repeat destruct Hin as [[= _ <-]|Hin]; [..|done];
    first [apply one_arg_total; intros v; try done; unfold parse16; by case_match
          | apply many_args_total | apply no_arg_total].
Qed.

Lemma radnr_parse_total {D} `{!Dispenser D} `{!DispenserLaws D} (d : D) :
  radnr_parse d <> Err OutOfFuel.
Proof.
  apply loop_fuel; [apply Next_size| | |lia].
  - intros d1 c1 d2 c2. apply loop_size; [apply NextBlock_size|].
    intros d3 c3 d4 c4. apply directive_total.
  - intros d1 c1. apply loop_fuel; [apply NextBlock_size| | |lia].
    + intros d3 c3 d4 c4. apply directive_total.
    + intros d3 c3. apply directive_total.
Qed.

(** C31: what a Corefile can make of [radnr]. Parsing always ends, with a
    configuration or one of the parser's own errors. An accepted
    configuration does not make this host a default router without the
    explicit opt-in, advertises no prefix, and has an interface, a name of
    letter-digit-hyphen labels and at least one native IPv6 resolver address;
    a unicast target, if any, is native IPv6 too, and the port and the
    lifetime are 16-bit numbers. *)
Theorem radnr_setup_safe {D} `{!Dispenser D} `{!DispenserLaws D} (d : D) :
  radnr_setup d <> Err (inl OutOfFuel) /\
  forall c, radnr_setup d = Ok c ->
  is_u16 (c_Port c) /\ is_u16 (RouterLifetime c) /\
  (RouterLifetime c = 0 \/ AllowDefaultRouter c = true) /\
  AdvertisePrefixes c = [] /\ Interface c <> [] /\
  Forall (fun l => l <> [] /\ Forall (fun b => ldh b = true) l)
         (split_byte Byte.x2e (trim_suffix (c_ADN c) [Byte.x2e])) /\
  c_Addrs c <> [] /\ [] ∉ c_ALPN c /\
  Forall (fun a => exists ip, ParseAddr a = Some ip /\ Is6 ip = true /\ Is4In6 ip = false)
         (c_Addrs c ++ if beqb (UnicastTarget c) [] then [] else [UnicastTarget c]).
Proof.
  unfold radnr_setup. pose proof (radnr_parse_total d) as Ht.
  destruct (radnr_parse d) as [[d' c0]|e] eqn:Ep.
  2:{ split; [|done]. intros [= ->]. by apply Ht. }
  split; [by destruct (Config_Validate c0)|]. intros c.
  destruct (Config_Validate c0) as [[]|] eqn:Ev; [|done]. intros [= <-].
  apply radnr_parse_wf in Ep as [??]. split_and!; [done|done|by apply Config_Validate_safe..].
Qed.

Lemma radnr_setup_safe_witness :
  exists c, radnr_setup (corefile []
    [([], [(bs "interface", [bs "eth0"]); (bs "adn", [bs "dns.example.com"]);
           (bs "addr", [bs "2001:db8::53"]); (bs "alpn", [bs "dot"; bs "h2"]); (bs "rdnss", [])])]) = Ok c
    /\ (RouterLifetime c = 0 \/ AllowDefaultRouter c = true).
Proof.
  eexists. split; [vm_compute; reflexivity|].
  refine (proj1 (proj2 (proj2 (proj2 (radnr_setup_safe (corefile []
    [([], [(bs "interface", [bs "eth0"]); (bs "adn", [bs "dns.example.com"]);
           (bs "addr", [bs "2001:db8::53"]); (bs "alpn", [bs "dot"; bs "h2"]); (bs "rdnss", [])])])) _ _)))).
  vm_compute. reflexivity.
Defined.
