(* ===== verification/Advertiser.v ===== *)
(** * The Router Advertisement sender ([radnr/internal/advertiser/advertiser.go])

    Building the advertisement, checking solicitations, and the interval
    timer that every advertisement goes through.  Time is in nanoseconds, as
    Go's [time.Duration]; each reading of the clock is an argument, so that
    the code's several readings in one step may differ. *)

From S2P Require Import Prelude GoStrings Netip Dnr SvcParams RadnrConfig.

Definition second : Z := 1000000000.
Definition minDelayBetweenRAs : Z := 3 * second.
Definition maxRADelay : Z := second / 2.

(** [raDelay]; [rand.Int63n n] is a number below [n], here the remainder of
    what the source gives. *)
Definition raDelay (Int63 : Z) : Z := if maxRADelay <=? 0 then 0 else Int63 mod maxRADelay.

Lemma raDelay_range r : 0 <= raDelay r < maxRADelay.
Proof. unfold raDelay. change (maxRADelay <=? 0) with false. cbv iota. by apply Z.mod_pos_bound. Qed.
Definition defaultLifetime : Z := 3600.
Definition minIntervalRatioDivisor : Z := 3.

(** What this repository uses of [mdlayher/ndp]'s messages. *)
Inductive NdpOption :=
| RawOption (type length : Z) (value : bytes)
| RecursiveDNSServer (lifetime : Z) (servers : list Addr)
| LinkLayerAddress (source : bool) (addr : bytes)
| PrefixInformation (prefix : bytes)
| OtherOption (type : Z).

Record RouterAdvertisement := {
  CurrentHopLimit : Z;
  ManagedConfiguration : bool;
  OtherConfiguration : bool;
  ra_RouterLifetime : Z;
  Options : list NdpOption
}.

(** [Panicked] is a panic of [netip.MustParseAddr], which [BuildRA_safe]
    excludes. *)
Inductive BuildErr :=
| ConfigErr (e : ConfErr) | SvcParamsErr (e : SvcErr) | ADNErr (e : DnrErr) | OptionErr (e : DnrErr)
| Panicked.

Definition lift {E A} (f : E -> BuildErr) (r : result E A) : result BuildErr A :=
  match r with Ok a => Ok a | Err e => Err (f e) end.

Fixpoint must_parse_all (addrs : list bytes) : result BuildErr (list Addr) :=
  match addrs with
  | [] => Ok []
  | a :: t => match ParseAddr a with
              | None => Err Panicked
              | Some ip => l ← must_parse_all t; Ok (ip :: l)
              end
  end.

Definition BuildRA (c : Config) : result BuildErr RouterAdvertisement :=
  lift ConfigErr (Config_Validate c);;
  sp ← lift SvcParamsErr (Encode {| Forbidden := []; DohPath := c_DohPath c; ALPN := c_ALPN c; Port := c_Port c |});
  addrs ← must_parse_all (c_Addrs c);
  adn ← lift ADNErr (ParseDomainName (c_ADN c));
  raw ← lift OptionErr (Marshal {| ServicePriority := 1; Lifetime := defaultLifetime; ADN := adn;
                                   Addrs := addrs; SvcParams := sp |});
  Ok {| CurrentHopLimit := 0; ManagedConfiguration := false; OtherConfiguration := false;
        ra_RouterLifetime := RouterLifetime c * second;
        Options := RawOption OptionType (be_val (take 1 (drop 1 raw))) (drop 2 raw)
                   :: (if AdvertiseRDNSS c then [RecursiveDNSServer (3600 * second) addrs] else []) |}.

(** ** Intervals *)

(** [nextInterval], with [r] the draw of [rand.Int63n]. *)
Definition nextInterval (maxInterval r : Z) : Z :=
  let minInterval := Z.max (maxInterval / minIntervalRatioDivisor) minDelayBetweenRAs in
  if maxInterval <=? minInterval then maxInterval else minInterval + r.

(** The range [rand.Int63n] draws from. *)
Definition interval_draw (maxInterval r : Z) : Prop :=
  0 <= r < maxInterval - Z.max (maxInterval / minIntervalRatioDivisor) minDelayBetweenRAs
  \/ maxInterval <= Z.max (maxInterval / minIntervalRatioDivisor) minDelayBetweenRAs.

(** ** Solicitations *)

Definition ndp_HopLimit : Z := 255.

(** [validSolicitation]: the message's options, the hop limit the control
    message carries ([None]: no control message), and the source. *)
Definition validSolicitation (options : list NdpOption) (hopLimit : option Z) (from : Addr) : bool :=
  match hopLimit with
  | None => false
  | Some h =>
      if negb (h =? ndp_HopLimit) then false
      else if IsUnspecified from then
        negb (existsb (fun o => match o with LinkLayerAddress src _ => src | _ => false end) options)
      else true
  end.

(** ** The interval timer *)

Record raSchedule := { next : Z; lastSent : Z }.

(** [at]: the timer is re-armed for [when]. *)
Definition sched_at (s : raSchedule) (when : Z) : raSchedule := {| next := when; lastSent := lastSent s |}.

Definition held (s : raSchedule) (now : Z) : Z * bool :=
  let earliest := lastSent s + minDelayBetweenRAs in (earliest, now <? earliest).

(** [onTimer]: the schedule after, and the time an advertisement was sent if
    one was. [now1] is read by [held], [now2] by [send], [now3] to re-arm. *)
Definition onTimer (s : raSchedule) (now1 now2 now3 interval : Z) : raSchedule * option Z :=
  let '(earliest, h) := held s now1 in
  if h then (sched_at s earliest, None)
  else ({| next := now3 + interval; lastSent := now2 |}, Some now2).

(** [onSolicitation]: [now1] is read first, [now2] by [held]. *)
Definition onSolicitation (s : raSchedule) (now1 now2 delay : Z) : raSchedule :=
  let '(earliest, h) := held s now2 in
  let at_ := if h then earliest + delay else now1 + delay in
  if at_ <? next s then sched_at s at_ else s.

(** The state of [Run]'s loop: its schedule, the clock after the last step,
    and the times of the advertisements sent, latest first. *)
Record RunState := { sched : raSchedule; clock : Z; sent : list Z }.

Definition run_timer (st : RunState) (now1 now2 now3 interval : Z) : RunState :=
  let '(s, o) := onTimer (sched st) now1 now2 now3 interval in
  {| sched := s; clock := now3; sent := match o with Some t => t :: sent st | None => sent st end |}.

Definition run_solicitation (st : RunState) (now1 now2 delay : Z) : RunState :=
  {| sched := onSolicitation (sched st) now1 now2 delay; clock := now2; sent := sent st |}.

(** [Run] sends a first advertisement at [t0] and then arms the timer. *)
Definition run_start (t0 t1 interval : Z) : RunState :=
  {| sched := {| next := t1 + interval; lastSent := t0 |}; clock := t1; sent := [t0] |}.

(** One turn of the loop's [select], for an advertiser whose interval is
    [maxInterval]: the timer may fire at any time (one armed for earlier may
    already be in flight), a solicitation may arrive at any time. *)
Inductive run_step (maxInterval : Z) : RunState -> RunState -> Prop :=
| step_timer st now1 now2 now3 r :
    clock st <= now1 -> now1 <= now2 -> now2 <= now3 -> interval_draw maxInterval r ->
    run_step maxInterval st (run_timer st now1 now2 now3 (nextInterval maxInterval r))
| step_solicitation st now1 now2 delay :
    clock st <= now1 -> now1 <= now2 -> 0 <= delay < maxRADelay ->
    run_step maxInterval st (run_solicitation st now1 now2 delay).

Inductive run_reachable (maxInterval : Z) : RunState -> Prop :=
| run_init t0 t1 r :
    t0 <= t1 -> interval_draw maxInterval r ->
    run_reachable maxInterval (run_start t0 t1 (nextInterval maxInterval r))
| run_more st st' :
    run_reachable maxInterval st -> run_step maxInterval st st' -> run_reachable maxInterval st'.

(** *** Lemmas *)

Lemma nextInterval_range maxInterval r :
  0 <= maxInterval -> interval_draw maxInterval r ->
  nextInterval maxInterval r <= maxInterval /\
  (minDelayBetweenRAs <= maxInterval ->
   Z.max (maxInterval / minIntervalRatioDivisor) minDelayBetweenRAs <= nextInterval maxInterval r).
Proof.
  intros Hm Hd. unfold nextInterval, interval_draw in *.
  assert (maxInterval / minIntervalRatioDivisor <= maxInterval).
  { unfold minIntervalRatioDivisor. apply Z.div_le_upper_bound; lia. }
  set (m := Z.max _ _) in *. destruct (maxInterval <=? m) eqn:E; bool_prop.
  - split; [lia|]. intros. subst m. lia.
  - split; lia.
Qed.

(** Every two neighbours in [l] are at least [d] apart, latest first. *)
Definition spaced (d : Z) (l : list Z) : Prop :=
  forall i a b, l !! i = Some a -> l !! S i = Some b -> b + d <= a.

Lemma spaced_cons d a b l : spaced d (b :: l) -> b + d <= a -> spaced d (a :: b :: l).
Proof. intros H Hab [|i] x y Hx Hy; [cbn in *; congruence|]. exact (H i x y Hx Hy). Qed.

(** What every reachable state of the loop has. *)
Definition run_ok (maxInterval : Z) (st : RunState) : Prop :=
  spaced minDelayBetweenRAs (sent st) /\ head (sent st) = Some (lastSent (sched st)) /\
  lastSent (sched st) <= clock st /\
  next (sched st) <= clock st + Z.max maxInterval minDelayBetweenRAs.

Lemma held_spec s now e h :
  held s now = (e, h) ->
  e = lastSent s + minDelayBetweenRAs /\ (h = true -> now < e) /\ (h = false -> e <= now).
Proof. intros [= <- <-]. split_and!; [done| |]; intros H; bool_prop; lia. Qed.

Lemma run_step_ok maxInterval st st' :
  0 <= maxInterval -> run_step maxInterval st st' -> run_ok maxInterval st -> run_ok maxInterval st'.
Proof.
  intros Hm Hs (H1 & H2 & H3 & H4). assert (0 < minDelayBetweenRAs) by (unfold minDelayBetweenRAs, second; lia).
  destruct Hs as [st now1 now2 now3 r T1 T2 T3 Hr | st now1 now2 delay T1 T2 Hd].
  - destruct (nextInterval_range _ _ Hm Hr) as [Hn _]. unfold run_timer, onTimer.
    destruct (held (sched st) now1) as [e h] eqn:Eh. apply held_spec in Eh as (-> & Eh1 & Eh2).
    destruct h; unfold run_ok; cbn [sched clock sent sched_at lastSent next].
    + specialize (Eh1 eq_refl). split_and!; [done|done|lia|lia].
    + specialize (Eh2 eq_refl). split_and!; [|done|lia|lia].
      destruct (sent st) as [|b l]; [done|]. injection H2 as ->. apply spaced_cons; [done|lia].
  - unfold run_solicitation, onSolicitation.
    destruct (held (sched st) now2) as [e h] eqn:Eh.
    unfold run_ok; cbn [sched clock sent]. case_match; bool_prop; cbn [sched_at lastSent next];
      split_and!; try done; lia.
Qed.

Lemma run_reachable_ok maxInterval st :
  0 <= maxInterval -> run_reachable maxInterval st -> run_ok maxInterval st.
Proof.
  intros Hm. induction 1 as [t0 t1 r T Hr|st st' _ IH Hs]; [|by eapply run_step_ok].
  destruct (nextInterval_range _ _ Hm Hr) as [Hn _]. unfold run_ok, run_start; cbn.
  split_and!; [|done|lia|lia]. by intros [|i] a b Ha Hb.
Qed.

(** C11: the advertiser keeps RFC 4861's timing, whatever triggers an
    advertisement and however steps interleave. In every reachable state any
    two consecutive advertisements are at least MIN_DELAY_BETWEEN_RAS apart,
    and the timer is armed for at most an interval (or that delay) ahead, so
    advertising never stalls. A solicitation is answered no later than
    MAX_RA_DELAY_TIME after it, or after the rate limit ends, and never puts
    the timer off; and a timer held back by the rate limit only waits for the
    limit to end. *)
Theorem run_timing (maxInterval : Z) (st : RunState) :
  0 <= maxInterval -> run_reachable maxInterval st ->
  spaced minDelayBetweenRAs (sent st) /\
  next (sched st) <= clock st + Z.max maxInterval minDelayBetweenRAs /\
  (forall now1 now2 delay, now1 <= now2 -> 0 <= delay < maxRADelay ->
     let s := onSolicitation (sched st) now1 now2 delay in
     next s <= next (sched st) /\
     next s < Z.max now2 (lastSent (sched st) + minDelayBetweenRAs) + maxRADelay) /\
  (forall now1 now2 now3 interval, now1 <= now2 ->
     match onTimer (sched st) now1 now2 now3 interval with
     | (s, Some t) => t = now2 /\ lastSent (sched st) + minDelayBetweenRAs <= t
     | (s, None) => next s = lastSent (sched st) + minDelayBetweenRAs /\ now1 < next s
     end).
Proof.
  intros Hm Hr. destruct (run_reachable_ok _ _ Hm Hr) as (H1 & H2 & H3 & H4).
  split_and!; [done|done| |].
  - intros now1 now2 delay Hn Hd. cbv zeta. unfold onSolicitation.
    destruct (held (sched st) now2) as [e h] eqn:Eh. apply held_spec in Eh as (-> & Eh1 & Eh2).
    destruct h; case_match; bool_prop; cbn [sched_at next];
      try specialize (Eh1 eq_refl); try specialize (Eh2 eq_refl); lia.
  - intros now1 now2 now3 interval Hn. unfold onTimer.
    destruct (held (sched st) now1) as [e h] eqn:Eh. apply held_spec in Eh as (-> & Eh1 & Eh2).
    destruct h; cbn [sched_at next]; [|split; [done|]; specialize (Eh2 eq_refl); lia].
    split; [done|]. by apply Eh1.
Qed.

(** The plugin's own interval (thirty seconds), as [setup.go] sets it. *)
Definition advInterval : Z := 30 * second.

Lemma run_timing_witness :
  spaced minDelayBetweenRAs
    (sent (run_timer (run_solicitation (run_start 0 0 (nextInterval advInterval 0)) second second 1000)
             (4 * second) (4 * second) (4 * second) (nextInterval advInterval 7))).
Proof.
  apply (run_timing advInterval).
  - unfold advInterval, second. lia.
  - assert (Hd : forall r, 0 <= r < 20 * second -> interval_draw advInterval r).
    { intros r Hr. left.
      change (Z.max (advInterval / minIntervalRatioDivisor) minDelayBetweenRAs) with 10000000000.
      change advInterval with 30000000000. unfold second in Hr. lia. }
    apply (run_more _ (run_solicitation (run_start 0 0 (nextInterval advInterval 0)) second second 1000)).
    + apply (run_more _ (run_start 0 0 (nextInterval advInterval 0))).
      * apply (run_init advInterval 0 0 0); [lia|]. apply Hd. unfold second. lia.
      * apply step_solicitation; [unfold run_start, clock, second; lia|lia|split; [lia|reflexivity]].
    + apply (step_timer advInterval); [change (second <= 4 * second); unfold second; lia|lia|lia|].
      apply Hd. unfold second. lia.
Defined.

(** ** The advertisement *)

Lemma must_parse_all_ok addrs l :
  must_parse_all addrs = Ok l -> Forall2 (fun a ip => ParseAddr a = Some ip) addrs l.
Proof.
  revert l. induction addrs as [|a t IH]; intros l; cbn [must_parse_all]; [by intros [= <-]|].
  destruct (ParseAddr a) as [ip|] eqn:E; [|done]. intros H. inv_ok. constructor; [done|]. by apply IH.
Qed.

Lemma must_parse_all_total addrs :
  Forall (fun a => exists ip, ParseAddr a = Some ip /\ Is6 ip = true /\ Is4In6 ip = false) addrs ->
  exists l, must_parse_all addrs = Ok l.
Proof.
  induction 1 as [|a t (ip & E & _) _ [l IH]]; cbn [must_parse_all]; [by exists []|].
  rewrite E, IH. by exists (ip :: l).
Qed.

(** C32: the advertisement is safe and says what was configured. Building it
    never panics. Whatever is built makes the host a default router only by
    the explicit opt-in, carries no prefix, and carries the Encrypted DNS
    option whose octets, as they go out on the wire, decode to the configured
    resolver: name, addresses and SvcParams; besides it at most an RDNSS
    option with the same addresses. *)
Theorem BuildRA_safe (c : Config) :
  wf_config c ->
  BuildRA c <> Err Panicked /\
  forall ra, BuildRA c = Ok ra ->
    (ra_RouterLifetime ra = 0 \/ AllowDefaultRouter c = true) /\
    exists addrs sp len value,
      Forall2 (fun a ip => ParseAddr a = Some ip) (c_Addrs c) addrs /\
      Encode {| Forbidden := []; DohPath := c_DohPath c; ALPN := c_ALPN c; Port := c_Port c |} = Ok sp /\
      Options ra = RawOption OptionType len value
                   :: (if AdvertiseRDNSS c then [RecursiveDNSServer (3600 * second) addrs] else []) /\
      Unmarshal ([z2b OptionType; z2b len] ++ value)
      = Ok {| ADN := {| dn_s := trim_suffix (c_ADN c) [byte_dot] |}; Addrs := addrs; SvcParams := sp;
              ServicePriority := 1; Lifetime := defaultLifetime |}.
Proof.
  intros [Hport Hlife]. unfold BuildRA.
  destruct (Config_Validate c) as [[]|e] eqn:Ev; [|done]. cbn [lift mbind result_bind].
  assert (Hs : (RouterLifetime c = 0 \/ AllowDefaultRouter c = true) /\
    Forall (fun a => exists ip, ParseAddr a = Some ip /\ Is6 ip = true /\ Is4In6 ip = false) (c_Addrs c)).
  { split; [by apply Config_Validate_router|by apply Config_Validate_addrs]. }
  destruct Hs as [Hr Ha]. destruct (must_parse_all_total _ Ha) as [addrs Hp].
  destruct (Encode _) as [sp|e] eqn:Es; [|done]. cbn [lift mbind result_bind]. rewrite Hp. cbn [mbind result_bind].
  destruct (ParseDomainName (c_ADN c)) as [adn|e] eqn:En; [|done]. cbn [lift mbind result_bind].
  set (o := {| ADN := adn; Addrs := _; SvcParams := _; ServicePriority := _; Lifetime := _ |}).
  destruct (Marshal o) as [raw|e] eqn:Em; [|done]. cbn [lift mbind result_bind]. split; [done|].
  intros ra Hra. apply Ok_inj in Hra. subst ra. cbn [ra_RouterLifetime Options]. split.
  { destruct Hr as [->|Hr]; [left; done|by right]. }
  apply must_parse_all_ok in Hp. apply ParseDomainName_spec in En as [En Hn].
  assert (Hw : wf_option o).
  { split_and!; [by right|cbn; unfold is_u16; lia|cbn; unfold is_u32, defaultLifetime; lia|].
    cbn. clear -Hp. induction Hp as [|a ip l l' E _ IH]; constructor; [|done]. by eapply ParseAddr_wf. }
  destruct (Marshal_header o raw Hw Em) as (units & Hu & Eb).
  exists addrs, sp, units, (drop 2 raw).
  assert (Eu : be_val (take 1 (drop 1 raw)) = units).
  { assert (take 1 (drop 1 raw) = [z2b units]) as -> by (by rewrite Eb).
    cbn [be_val]. rewrite b2z_z2b_small by lia. change (256 ^ zlen []) with 1. lia. }
  rewrite Eu. split_and!; [done|done|done|].
  rewrite <- Eb. rewrite <- (app_nil_r raw). rewrite (Unmarshal_marshalled o raw []) by done.
  unfold o. do 2 f_equal. destruct adn. by f_equal.
Qed.

Lemma BuildRA_safe_witness :
  exists ra, BuildRA ex_config = Ok ra /\ (ra_RouterLifetime ra = 0 \/ AllowDefaultRouter ex_config = true).
Proof.
  eexists. split; [vm_compute; reflexivity|].
  apply (BuildRA_safe ex_config); [split; cbn; unfold is_u16; lia|]. vm_compute. reflexivity.
Defined.

(** A solicitation is heard exactly when it cannot have been forwarded and,
    from the unspecified address, names no source link layer. *)
Lemma validSolicitation_spec options hopLimit from :
  validSolicitation options hopLimit from = true <->
  hopLimit = Some 255 /\
  (IsUnspecified from = true -> forall a, LinkLayerAddress true a ∉ options).
Proof.
  unfold validSolicitation, ndp_HopLimit. destruct hopLimit as [h|]; [|naive_solver].
  destruct (h =? 255) eqn:Eh; bool_prop; cbn [negb].
  2:{ split; [done|]. by intros [[= ->] _]. }
  subst h. destruct (IsUnspecified from); [|naive_solver].
  rewrite negb_true_iff, <- not_true_iff_false, existsb_exists. split.
  - intros H. split; [done|]. intros _ a Ha. apply H. exists (LinkLayerAddress true a).
    by rewrite <- list_elem_of_In.
  - intros [_ H] (o & Ho & E). rewrite <- list_elem_of_In in Ho.
    destruct o as [| | [] a | |]; try done. by apply (H eq_refl a).
Qed.
