(* ===== verification/Lifecycle.v ===== *)
(** * Background loops across Corefile reloads

    [radnr/radnr.go] and [sni_tls/reload.go] keep the same kind of registry:
    the loops this process has started and not yet stopped, each with the
    caddy instance that started it, because caddy can drop an instance
    without calling its shutdown hooks.  The registry, [adopt] and
    [OnShutdown] are modelled once here, over a store of plugin objects; both
    plugins' theorems are instances.  Handles are pointers: numbers never
    handed out twice.  Each operation holds the registry's mutex throughout,
    so operations are atomic steps. *)

From S2P Require Import Prelude.

(** The plugin object: the instance it belongs to and its running loop. *)
Record Node := { owner : Z; running : option nat }.

Record Registry := {
  registered : gmap nat Z;       (* handle to the owner that started it *)
  cancelled : gset nat;          (* handles whose context was cancelled *)
  next_handle : nat
}.

(** The entries [adopt] stops: the node's own loop, and every loop of
    another instance. *)
Definition stale (n : Node) (h : nat) (o : Z) : bool :=
  bool_decide (running n = Some h) || negb (o =? owner n).

Definition adopt (n : Node) (g : Registry) : Node * Registry :=
  let h := next_handle g in
  let kept := filter (fun ho => stale n ho.1 ho.2 = false) (registered g) in
  let stopped := dom (filter (fun ho => stale n ho.1 ho.2 = true) (registered g)) in
  ({| owner := owner n; running := Some h |},
   {| registered := <[h := owner n]> kept;
      cancelled := stopped ∪ cancelled g;
      next_handle := S h |}).

Definition OnShutdown (n : Node) (g : Registry) : Node * Registry :=
  match running n with
  | None => (n, g)
  | Some h => ({| owner := owner n; running := None |},
               {| registered := delete h (registered g);
                  cancelled := {[h]} ∪ cancelled g;
                  next_handle := next_handle g |})
  end.

(** A loop runs once its context exists and until it is cancelled: what it
    does in between, and that it ends, is [RadnrRun]'s for radnr. *)
Definition live (g : Registry) (h : nat) : Prop := (h < next_handle g)%nat /\ h ∉ cancelled g.

(** The process: the registry and every plugin object any instance made. *)
Record Process := { nodes : gmap Z Node; reg : Registry }.

(** A startup hook that got as far as [adopt], and a shutdown hook.  A startup
    that fails before it, as radnr's can, leaves the process as it is
    ([Restart.hook], [Radnr.radnr_OnStartup]). *)
Definition start_node (i : Z) (n : Node) (p : Process) : Process :=
  let '(n', g') := adopt n (reg p) in {| nodes := <[i := n']> (nodes p); reg := g' |}.

Definition stop_node (i : Z) (n : Node) (p : Process) : Process :=
  let '(n', g') := OnShutdown n (reg p) in {| nodes := <[i := n']> (nodes p); reg := g' |}.

(** What caddy may do, in any order: set up an object for an instance, start
    or stop one. *)
Inductive proc_step : Process -> Process -> Prop :=
| proc_setup p i o :
    nodes p !! i = None ->
    proc_step p {| nodes := <[i := {| owner := o; running := None |}]> (nodes p); reg := reg p |}
| proc_start p i n : nodes p !! i = Some n -> proc_step p (start_node i n p)
| proc_stop p i n : nodes p !! i = Some n -> proc_step p (stop_node i n p).

Definition empty_process : Process :=
  {| nodes := ∅; reg := {| registered := ∅; cancelled := ∅; next_handle := 0 |} |}.

(** The registry is exactly the live loops, each of them the running loop of
    one object of the instance that started it. *)
Record proc_ok (p : Process) : Prop := {
  ok_live : forall h, live (reg p) h <-> h ∈ dom (registered (reg p));
  ok_held : forall h o, registered (reg p) !! h = Some o ->
            exists i n, nodes p !! i = Some n /\ running n = Some h /\ owner n = o;
  ok_cancelled : forall h, h ∈ cancelled (reg p) -> (h < next_handle (reg p))%nat;
  ok_running : forall i n h, nodes p !! i = Some n -> running n = Some h -> (h < next_handle (reg p))%nat;
  ok_distinct : forall i j n m h, nodes p !! i = Some n -> nodes p !! j = Some m ->
            running n = Some h -> running m = Some h -> i = j
}.

(** *** Lemmas *)

Lemma adopt_registered n g h o :
  registered (adopt n g).2 !! h = Some o <->
  h = next_handle g /\ o = owner n \/
  h <> next_handle g /\ registered g !! h = Some o /\ stale n h o = false.
Proof.
  cbn. rewrite lookup_insert_Some, map_lookup_filter_Some. naive_solver.
Qed.

Lemma adopt_cancelled n g h :
  h ∈ cancelled (adopt n g).2 <->
  h ∈ cancelled g \/ exists o, registered g !! h = Some o /\ stale n h o = true.
Proof.
  cbn. rewrite elem_of_union, elem_of_dom. unfold is_Some.
  setoid_rewrite map_lookup_filter_Some. naive_solver.
Qed.

Lemma stale_false n h o : stale n h o = false <-> running n <> Some h /\ o = owner n.
Proof.
  unfold stale. rewrite orb_false_iff, bool_decide_eq_false, negb_false_iff, Z.eqb_eq. done.
Qed.

Lemma start_ok i n p : proc_ok p -> nodes p !! i = Some n -> proc_ok (start_node i n p).
Proof.
  intros [Hl Hh Hc Hr Hd] Hi. unfold start_node.
  pose proof (adopt_registered n (reg p)) as Ar. pose proof (adopt_cancelled n (reg p)) as Ac.
  destruct (adopt n (reg p)) as [n' g'] eqn:Ea. cbn [snd] in Ar, Ac.
  assert (En : n' = {| owner := owner n; running := Some (next_handle (reg p)) |}) by (unfold adopt in Ea; congruence).
  assert (Eg : next_handle g' = S (next_handle (reg p))) by (unfold adopt in Ea; injection Ea as _ <-; done).
  assert (Hfresh : forall h o, registered (reg p) !! h = Some o -> (h < next_handle (reg p))%nat).
  { intros h o Ho. apply Hl. by eapply elem_of_dom_2. }
  split; cbn [nodes reg].
  - intros h. unfold live. rewrite Eg, elem_of_dom, Ac. unfold is_Some. setoid_rewrite Ar.
    specialize (Hl h). unfold live in Hl. rewrite elem_of_dom in Hl. unfold is_Some in Hl.
    destruct (decide (h = next_handle (reg p))) as [->|Hne].
    + split; [eauto|]. intros _. split; [lia|]. intros [Hx|(o & Ho & _)].
      * apply Hc in Hx. lia.
      * apply Hfresh in Ho. lia.
    + split.
      * intros [H1 H2]. destruct (proj1 Hl ltac:(split; [lia|naive_solver])) as [o Ho]. exists o. right.
        destruct (stale n h o) eqn:Es; naive_solver.
      * intros (o & [[? _]|(_ & Ho & Es)]); [done|]. destruct (proj2 Hl ltac:(eauto)) as [H1 H2].
        split; [lia|]. intros [?|(o' & Ho' & Es')]; [done|]. congruence.
  - intros h o [[-> ->]|(Hne & Ho & [Hn ->]%stale_false)]%Ar.
    + exists i, n'. rewrite lookup_insert_eq, En. done.
    + destruct (Hh h _ Ho) as (j & m & Hj & Hm & Hom). exists j, m.
      rewrite lookup_insert_ne by (intros ->; congruence). done.
  - intros h [Hx|(o & Ho & _)]%Ac; rewrite Eg; [apply Hc in Hx|apply Hfresh in Ho]; lia.
  - intros j m h Hj Hm. rewrite Eg. apply lookup_insert_Some in Hj as [[<- <-]|[_ Hj]].
    + rewrite En in Hm. injection Hm as <-. lia.
    + pose proof (Hr j m h Hj Hm). lia.
  - intros j k m1 m2 h Hj Hk H1 H2.
    apply lookup_insert_Some in Hj as [[<- <-]|[Hne1 Hj]], Hk as [[<- <-]|[Hne2 Hk]]; [done| | |].
    + rewrite En in H1. injection H1 as <-. pose proof (Hr k m2 _ Hk H2). lia.
    + rewrite En in H2. injection H2 as <-. pose proof (Hr j m1 _ Hj H1). lia.
    + by eapply Hd.
Qed.

Lemma stop_ok i n p : proc_ok p -> nodes p !! i = Some n -> proc_ok (stop_node i n p).
Proof.
  intros [Hl Hh Hc Hr Hd] Hi. unfold stop_node, OnShutdown.
  destruct (running n) as [h0|] eqn:E0.
  2:{ rewrite (insert_id (nodes p)) by done. by split. }
  split; cbn [nodes reg registered cancelled next_handle].
  - intros h. specialize (Hl h). unfold live in *. cbn [cancelled next_handle].
    rewrite dom_delete, elem_of_union, elem_of_difference, elem_of_singleton. naive_solver.
  - intros h o [Hne Ho]%lookup_delete_Some. destruct (Hh h o Ho) as (j & m & Hj & Hm & Hom).
    exists j, m. rewrite lookup_insert_ne; [done|]. intros <-. congruence.
  - intros h [->%elem_of_singleton|Hx]%elem_of_union; [|by apply Hc]. by eapply Hr.
  - intros j m h [[<- <-]|[_ Hj]]%lookup_insert_Some Hm; [done|]. by eapply Hr.
  - intros j k m1 m2 h Hj Hk H1 H2.
    apply lookup_insert_Some in Hj as [[<- <-]|[Hne1 Hj]], Hk as [[<- <-]|[Hne2 Hk]]; try done.
    by eapply Hd.
Qed.

Lemma proc_step_ok p p' : proc_step p p' -> proc_ok p -> proc_ok p'.
Proof.
  intros [p0 i o Hi|p0 i n Hi|p0 i n Hi] H; [|by apply start_ok|by apply stop_ok].
  destruct H as [Hl Hh Hc Hr Hd]. split; cbn [nodes reg]; [done| |done| |].
  - intros h o' Ho. destruct (Hh h o' Ho) as (j & m & Hj & Hm). exists j, m.
    rewrite lookup_insert_ne; [done|]. congruence.
  - intros j m h [[<- <-]|[_ Hj]]%lookup_insert_Some Hm; [done|]. by eapply Hr.
  - intros j k m1 m2 h Hj Hk H1 H2.
    apply lookup_insert_Some in Hj as [[<- <-]|[_ Hj]], Hk as [[<- <-]|[_ Hk]]; try done.
    by eapply Hd.
Qed.

Lemma empty_ok : proc_ok empty_process.
Proof.
  split; cbn; try done; try (intros; by rewrite lookup_empty in *).
  intros h. unfold live. cbn. split; [lia|]. intros []%elem_of_empty.
Qed.

Lemma reachable_ok p : rtc proc_step empty_process p -> proc_ok p.
Proof.
  intros H. assert (Hg : forall q, rtc proc_step q p -> proc_ok q -> proc_ok p).
  { clear H. induction 1 as [|q1 q2 q3 Hs _ IH]; [done|]. intros Hq. apply IH. by eapply proc_step_ok. }
  apply (Hg _ H empty_ok).
Qed.

(** Whatever ran before, after a start only loops of that instance run, and
    of the started object exactly the new one. *)
Lemma start_only_owner i n p h :
  proc_ok p -> nodes p !! i = Some n -> live (reg (start_node i n p)) h ->
  (exists j m, nodes (start_node i n p) !! j = Some m /\ running m = Some h /\ owner m = owner n) /\
  (running n = Some h -> False).
Proof.
  intros H Hi Hl. pose proof (start_ok i n p H Hi) as H'.
  apply (ok_live _ H'), elem_of_dom in Hl as [o Ho].
  destruct (ok_held _ H' h o Ho) as (j & m & Hj & Hm & Hom).
  unfold start_node in Ho. pose proof (adopt_registered n (reg p) h o) as Ar.
  destruct (adopt n (reg p)) as [n' g'] eqn:Ea. cbn [snd reg] in *.
  apply Ar in Ho as [[-> ->]|(Hne & Ho & [Hn ->]%stale_false)].
  - split; [by exists j, m|]. intros Hx. pose proof (ok_running _ H i n _ Hi Hx). lia.
  - split; [by exists j, m|done].
Qed.

Lemma stop_not_live i n p h :
  nodes p !! i = Some n -> running n = Some h -> ~ live (reg (stop_node i n p)) h.
Proof.
  intros Hi Hr [_ Hn]. apply Hn. unfold stop_node, OnShutdown. rewrite Hr. cbn. set_solver.
Qed.

(** The loops that run after a start: the object's new one, and those that
    ran and are held by another object of the same instance. *)
Lemma start_live i n p :
  proc_ok p -> nodes p !! i = Some n ->
  exists h0, running (adopt n (reg p)).1 = Some h0 /\ ~ live (reg p) h0 /\
    forall h, live (adopt n (reg p)).2 h <->
      running (adopt n (reg p)).1 = Some h \/
      live (reg p) h /\ exists j m, j <> i /\ nodes p !! j = Some m /\ running m = Some h /\ owner m = owner n.
Proof.
  intros H Hi. exists (next_handle (reg p)). split; [done|]. split; [intros [? _]; lia|]. intros h.
  pose proof (start_ok i n p H Hi) as H'. pose proof (ok_live _ H' h) as Hl.
  unfold start_node in Hl. pose proof (adopt_registered n (reg p) h) as Ar.
  assert (En : running (adopt n (reg p)).1 = Some (next_handle (reg p))) by done. rewrite En.
  destruct (adopt n (reg p)) as [n' g']. cbn [reg fst snd] in *. rewrite Hl, elem_of_dom. unfold is_Some.
  setoid_rewrite Ar. split.
  - intros (o & [[-> _]|(Hne & Ho & [Hr ->]%stale_false)]); [by left|]. right. split.
    + apply (ok_live _ H). by eapply elem_of_dom_2.
    + destruct (ok_held _ H h _ Ho) as (j & m & Hj & Hm & Hom). exists j, m. split; [|done]. intros ->. congruence.
  - intros [[= <-]|[Hlv (j & m & Hji & Hj & Hm & Hom)]]; [eauto|]. exists (owner n). right.
    pose proof (ok_running _ H j m h Hj Hm). apply (ok_live _ H), elem_of_dom in Hlv as [o Ho].
    destruct (ok_held _ H h o Ho) as (k & m' & Hk & Hm' & <-).
    assert (k = j) as -> by (by eapply (ok_distinct _ H)). assert (m' = m) as -> by congruence.
    split; [lia|]. rewrite <- Hom. split; [done|]. apply stale_false. split; [|done].
    intros Hr. apply Hji. by eapply (ok_distinct _ H).
Qed.

(** The loops that run after a stop: those that ran, less the object's own. *)
Lemma stop_live i n p :
  proc_ok p -> nodes p !! i = Some n ->
  running (OnShutdown n (reg p)).1 = None /\
  forall h, live (OnShutdown n (reg p)).2 h <-> live (reg p) h /\ running n <> Some h.
Proof.
  intros H Hi. unfold OnShutdown. destruct (running n) as [h0|] eqn:E; [|split; [done|by intros h; split; [|intros [? _]]]].
  split; [done|]. intros h. unfold live. cbn. rewrite elem_of_union, elem_of_singleton. naive_solver.
Qed.
