(* ===== verification/Radnr.v ===== *)
(** * The [radnr] plugin ([radnr/radnr.go], [radnr/conn.go])

    Starting and stopping the advertiser over the registry of [Lifecycle.v],
    and the reading side: which packets reach the advertiser as
    solicitations.  Sockets, the ndp library's parser and goroutines are the
    environment: opening a socket succeeds or not, a conn yields a stream of
    packets. *)

From S2P Require Import Prelude GoStrings Netip RadnrConfig Advertiser Lifecycle.

Inductive StartErr := InvalidConfig (e : ConfErr) | DialFailed.

(** The conn of a started advertiser: [nopConn] for a dry run. *)
Inductive ConnKind := nopConn | ndpConn | injected.

(** [dial]; [listen] says whether [listenFn] opens a transport on an
    interface. *)
Definition dial (listen : bytes -> bool) (cfg : Config) : result StartErr ConnKind :=
  if DryRun cfg then Ok nopConn
  else if listen (Interface cfg) then Ok ndpConn else Err DialFailed.

(** [OnStartup] of the object [i] with state [n]; [runner] is the one tests
    inject. The socket is open before any loop is stopped. *)
Definition radnr_OnStartup (listen : bytes -> bool) (cfg : Config) (runner : bool)
    (i : Z) (n : Node) (p : Process) : result StartErr (ConnKind * Process) :=
  match Config_Validate cfg with
  | Err e => Err (InvalidConfig e)
  | Ok _ =>
      k ← (if runner then Ok injected else dial listen cfg);
      Ok (k, start_node i n p)
  end.

Definition radnr_OnShutdown (i : Z) (n : Node) (p : Process) : Process := stop_node i n p.

(** ** Reading solicitations *)

Inductive NdpMessage := RouterSolicitation (options : list NdpOption) | OtherMessage.

(** A packet as the socket delivers it: the ICMPv6 message, the hop limit of
    its control message, and its source. *)
Record Packet := { pk_data : bytes; pk_hopLimit : option Z; pk_from : Addr }.

Section Reading.
(** [ndp.ParseMessage]. *)
Variable ParseMessage : bytes -> option NdpMessage.

Definition parseNDP (b : bytes) : option NdpMessage :=
  match b with
  | _ :: c :: _ => if negb (b2z c =? 0) then None else ParseMessage b
  | _ => None
  end.

(** [routerConn.ReadFrom]: the next message, and the packets after it;
    [None] when the conn is closed. *)
Fixpoint ReadFrom (stream : list Packet) : option (NdpMessage * Packet * list Packet) :=
  match stream with
  | [] => None
  | pk :: rest => match parseNDP (pk_data pk) with
                  | Some m => Some (m, pk, rest)
                  | None => ReadFrom rest
                  end
  end.

(** [readSolicitations]: the sources it sends on its channel, in order; one
    turn consumes at least a packet. *)
Fixpoint readSolicitations (fuel : nat) (stream : list Packet) : list Addr :=
  match fuel with
  | O => []
  | S fuel' =>
      match ReadFrom stream with
      | None => []
      | Some (m, pk, rest) =>
          match m with
          | RouterSolicitation options =>
              if negb (validSolicitation options (pk_hopLimit pk) (pk_from pk))
              then readSolicitations fuel' rest
              else pk_from pk :: readSolicitations fuel' rest
          | OtherMessage => readSolicitations fuel' rest
          end
      end
  end.

(** RFC 4861's validity of a Router Solicitation, as one predicate. *)
Definition heard (pk : Packet) : bool :=
  match parseNDP (pk_data pk) with
  | Some (RouterSolicitation options) => validSolicitation options (pk_hopLimit pk) (pk_from pk)
  | _ => false
  end.

Lemma ReadFrom_spec stream :
  match ReadFrom stream with
  | None => List.filter heard stream = []
  | Some (m, pk, rest) =>
      parseNDP (pk_data pk) = Some m /\ (length rest < length stream)%nat /\
      List.filter heard stream = List.filter heard (pk :: rest)
  end.
Proof.
  induction stream as [|pk rest IH]; cbn [ReadFrom]; [done|].
  destruct (parseNDP (pk_data pk)) as [m|] eqn:E; [split_and!; [done|cbn; lia|done]|].
  destruct (ReadFrom rest) as [[[m pk'] rest']|].
  - destruct IH as (H1 & H2 & H3). split_and!; [done|cbn; lia|]. cbn. unfold heard at 1. by rewrite E.
  - cbn. unfold heard at 1. by rewrite E.
Qed.

(** The advertiser answers exactly the valid solicitations, once each and
    in order: an ICMPv6 message with code 0 that parses as a Router
    Solicitation, arrived with hop limit 255, and from the unspecified
    address only without a source link-layer option. *)
Theorem readSolicitations_exact (stream : list Packet) :
  readSolicitations (S (length stream)) stream = pk_from <$> List.filter heard stream /\
  forall pk, heard pk = true ->
    pk_hopLimit pk = Some 255 /\
    (exists t rest, pk_data pk = t :: Byte.x00 :: rest) /\
    exists options, ParseMessage (pk_data pk) = Some (RouterSolicitation options) /\
      (IsUnspecified (pk_from pk) = true -> forall a, LinkLayerAddress true a ∉ options).
Proof.
  split.
  - assert (H : forall fuel stream, (length stream < fuel)%nat ->
      readSolicitations fuel stream = pk_from <$> List.filter heard stream).
    { clear stream. induction fuel as [|fuel IH]; intros stream Hf; [lia|]. cbn [readSolicitations].
      pose proof (ReadFrom_spec stream) as Hr. destruct (ReadFrom stream) as [[[m pk] rest]|]; [|by rewrite Hr].
      destruct Hr as (Hp & Hl & ->). cbn [List.filter]. unfold heard at 1. rewrite Hp.
      destruct m; [|apply IH; lia]. destruct (validSolicitation _ _ _); cbn; rewrite IH by lia; done. }
    apply H. lia.
  - intros pk Hpk. unfold heard, parseNDP in Hpk.
    destruct (pk_data pk) as [|t [|c rest]] eqn:Ed; try done.
    destruct (b2z c =? 0) eqn:Ec; cbn [negb] in Hpk; [|done]. apply Z.eqb_eq in Ec.
    assert (c = Byte.x00) as -> by (apply b2z_inj; done).
    destruct (ParseMessage _) as [[options|]|] eqn:Em; try done.
    apply validSolicitation_spec in Hpk as [Hh Hs].
    split_and!; [done|by exists t, rest|exists options; by split].
Qed.
End Reading.

(** ** The lifecycle *)

Inductive radnr_step : Process -> Process -> Prop :=
| radnr_setup p i o : nodes p !! i = None ->
    radnr_step p {| nodes := <[i := {| owner := o; running := None |}]> (nodes p); reg := reg p |}
| radnr_startup p i n listen cfg runner k p' : nodes p !! i = Some n ->
    radnr_OnStartup listen cfg runner i n p = Ok (k, p') -> radnr_step p p'
| radnr_shutdown p i n : nodes p !! i = Some n -> radnr_step p (radnr_OnShutdown i n p).

Lemma radnr_OnStartup_start listen cfg runner i n p k p' :
  radnr_OnStartup listen cfg runner i n p = Ok (k, p') ->
  Config_Validate cfg = Ok tt /\ p' = start_node i n p /\
  (k = nopConn -> DryRun cfg = true) /\ (runner = false -> DryRun cfg = true -> k = nopConn).
Proof.
  unfold radnr_OnStartup, dial. destruct (Config_Validate cfg) as [[]|]; [|done].
  destruct runner; cbn; [by intros [= <- <-]|].
  destruct (DryRun cfg); cbn; [by intros [= <- <-]|]. destruct (listen _); cbn; [|done]. by intros [= <- <-].
Qed.

Lemma radnr_step_proc p p' : radnr_step p p' -> proc_step p p'.
Proof.
  intros [p0 i o H|p0 i n listen cfg runner k p1 H Hs|p0 i n H].
  - by constructor.
  - apply radnr_OnStartup_start in Hs as (_ & -> & _). by constructor.
  - by constructor.
Qed.

(** No orphan advertiser outlives a reload. In any sequence of setups,
    startups (failed ones included: they change nothing) and shutdowns over
    any instances, the loops that run are exactly the registered ones, each
    of them the running loop of one object of the instance that started it,
    so it can be stopped. A startup with a valid configuration leaves running
    only loops of its own instance, among them one new loop of this object
    and not its old one; a shutdown stops the object's loop. *)
Theorem radnr_no_orphans (p : Process) :
  rtc radnr_step empty_process p ->
  (forall h, live (reg p) h <->
     exists i n, nodes p !! i = Some n /\ running n = Some h /\ registered (reg p) !! h = Some (owner n)) /\
  (forall listen cfg runner i n k p', nodes p !! i = Some n ->
     radnr_OnStartup listen cfg runner i n p = Ok (k, p') ->
     Config_Validate cfg = Ok tt /\
     (exists n', nodes p' !! i = Some n' /\ running n' = Some (next_handle (reg p)) /\
                 live (reg p') (next_handle (reg p))) /\
     forall h, live (reg p') h ->
       (exists j m, nodes p' !! j = Some m /\ running m = Some h /\ owner m = owner n) /\
       running n <> Some h) /\
  (forall i n h, nodes p !! i = Some n -> running n = Some h ->
     ~ live (reg (radnr_OnShutdown i n p)) h).
Proof.
  intros Hr. assert (H : proc_ok p).
  { apply reachable_ok. clear -Hr. induction Hr as [|p1 p2 p3 Hs _ IH]; [constructor|].
    econstructor; [by apply radnr_step_proc|done]. }
  split_and!.
  - intros h. rewrite (ok_live _ H), elem_of_dom. split.
    + intros [o Ho]. destruct (ok_held _ H h o Ho) as (i & n & Hi & Hn & <-). by exists i, n.
    + intros (i & n & _ & _ & Ho). by exists (owner n).
  - intros listen cfg runner i n k p' Hi Hs. apply radnr_OnStartup_start in Hs as (Hv & -> & _).
    pose proof (start_ok i n p H Hi) as H'. split_and!; [done| |].
    + eexists. split_and!; [apply lookup_insert_eq|done|].
      apply (ok_live _ H'), elem_of_dom. exists (owner n). unfold start_node. cbn.
      apply lookup_insert_eq.
    + intros h Hl. destruct (start_only_owner i n p h H Hi Hl) as [? ?]. done.
  - intros i n h Hi Hn. by apply stop_not_live.
Qed.

Definition ex_startup (i : Z) (n : Node) (p : Process) : Process :=
  match radnr_OnStartup (fun _ => true) ex_config false i n p with Ok (_, p') => p' | Err _ => p end.

(** One object, set up and started: its loop runs and is registered. *)
Lemma radnr_no_orphans_witness :
  let old := {| owner := 1; running := None |} in
  let p0 := {| nodes := {[0 := old]}; reg := reg empty_process |} in
  let p1 := ex_startup 0 old p0 in
  exists i n, nodes p1 !! i = Some n /\ running n = Some O /\ registered (reg p1) !! O = Some (owner n).
Proof.
  intros old p0 p1. apply (radnr_no_orphans p1).
  - apply (rtc_l _ _ p0).
    + apply (radnr_setup empty_process 0 1). reflexivity.
    + apply rtc_once. apply (radnr_startup p0 0 old (fun _ => true) ex_config false ndpConn); [reflexivity|].
      vm_compute. reflexivity.
  - split; [vm_compute; lia|]. vm_compute. discriminate.
Defined.

Lemma readSolicitations_exact_witness :
  let rs := {| pk_data := [Byte.x85; Byte.x00]; pk_hopLimit := Some 255; pk_from := Addr6 1 [] |} in
  let far := {| pk_data := [Byte.x85; Byte.x00]; pk_hopLimit := Some 64; pk_from := Addr6 2 [] |} in
  readSolicitations (fun _ => Some (RouterSolicitation [])) 3 [far; rs] = [Addr6 1 []].
Proof.
  intros rs far.
  exact (proj1 (readSolicitations_exact (fun _ => Some (RouterSolicitation [])) [far; rs])).
Defined.
