(* ===== verification/Restart.v ===== *)
(** * Caddy's restarts, and the loops they leave running

    [radnr/setup.go] and [sni_tls/setup.go] register the same four hooks.
    Caddy runs them as [verification/tla/PluginLifecycle.tla] sets out.  A
    restart runs the old instance's [OnRestart] hooks until one fails; only
    when all of them ran does it set up the new instance and run its
    [OnStartup] hooks, until one fails; and if anything failed the new instance
    is dropped without a word and every [OnRestartFailed] hook of the old one
    runs, errors of theirs being logged.  An instance may have several plugin
    objects, one for each block of its Corefile.

    What a start needs from outside differs: [sni_tls]'s cannot fail, and
    [radnr]'s validates its configuration and opens a socket first.  [Plugin]
    is the interface the restarts are proved against, with an instance for
    each. *)

From S2P Require Import Prelude GoStrings RadnrConfig Lifecycle Radnr.

(** ** The plugins *)

(** A plugin's [OnStartup]: the process after it, or nothing if it returns an
    error; [starts] says which, for what is outside at the time. *)
Class Plugin := {
  Env : Type;
  plugin_OnStartup : Env -> Z -> Node -> Process -> option Process;
  starts : Env -> Z -> bool
}.

(** A start that fails changes nothing; one that succeeds is the registry's. *)
Class PluginLaws `{Plugin} : Prop := {
  OnStartup_law env i n p :
    plugin_OnStartup env i n p = if starts env i then Some (start_node i n p) else None
}.

(** [sni_tls/reload.go]: [liveStore.OnStartup] has no failing path. *)
#[global] Instance sni_plugin : Plugin := {
  Env := unit;
  plugin_OnStartup _ i n p := Some (start_node i n p);
  starts _ _ := true
}.
#[global] Instance sni_laws : PluginLaws (H := sni_plugin).
Proof. by split. Qed.

(** [radnr/radnr.go]: the configuration of each object, whether a test
    injected its runner, and on which interfaces a socket can be opened now. *)
Record RadnrEnv := { re_cfg : Z -> Config; re_runner : Z -> bool; re_listen : bytes -> bool }.

Definition radnr_starts (e : RadnrEnv) (i : Z) : bool :=
  match Config_Validate (re_cfg e i) with
  | Ok _ => re_runner e i || DryRun (re_cfg e i) || re_listen e (Interface (re_cfg e i))
  | Err _ => false
  end.

#[global] Instance radnr_plugin : Plugin := {
  Env := RadnrEnv;
  plugin_OnStartup e i n p :=
    match radnr_OnStartup (re_listen e) (re_cfg e i) (re_runner e i) i n p with
    | Ok (_, p') => Some p'
    | Err _ => None
    end;
  starts := radnr_starts
}.
#[global] Instance radnr_laws : PluginLaws (H := radnr_plugin).
Proof.
  split. intros e i n p. cbn. unfold radnr_OnStartup, dial, radnr_starts.
  destruct (Config_Validate _); [|done]. destruct (re_runner e i); [done|]. cbn.
  destruct (DryRun _); [done|]. cbn. by destruct (re_listen _ _).
Qed.

(** ** Hooks and events *)

(** The hooks of one object, by the event that runs them. *)
Inductive Event := Startup | RestartEvent | FinalShutdown | RestartFailed.

(** [setup], for each object of a new instance. *)
Definition setup1 (o : Z) (p : Process) (i : Z) : Process :=
  {| nodes := <[i := {| owner := o; running := None |}]> (nodes p); reg := reg p |}.
Definition setup_objects (o : Z) (ids : list Z) (p : Process) : Process := foldl (setup1 o) p ids.

(** An instance new to the process, with objects new to it. *)
Definition fresh (o : Z) (ids : list Z) (p : Process) : Prop :=
  NoDup ids /\ (forall i, i ∈ ids -> nodes p !! i = None) /\ (forall i n, nodes p !! i = Some n -> owner n <> o).

(** The object's loop runs. *)
Definition runs (p : Process) (i : Z) : Prop :=
  exists n h, nodes p !! i = Some n /\ running n = Some h /\ live (reg p) h.

Section Restarts.
Context {Pl : Plugin} {PL : PluginLaws (H := Pl)}.

Definition hook (env : Env) (e : Event) (i : Z) (n : Node) (p : Process) : Process :=
  match e with
  | Startup | RestartFailed => default p (plugin_OnStartup env i n p)
  | RestartEvent | FinalShutdown => stop_node i n p
  end.

(** An event, for the objects in order. *)
Definition fire1 (env : Env) (e : Event) (p : Process) (i : Z) : Process :=
  match nodes p !! i with Some n => hook env e i n p | None => p end.
Definition fire (env : Env) (e : Event) (ids : list Z) (p : Process) : Process := foldl (fire1 env e) p ids.

(** ** What is expected of a restart

    The live instance, its objects, those of them that should have a loop, and
    whether nothing but those loops should run. *)
Record Expected := { ex_live : Z; ex_ids : list Z; ex_up : gset Z; ex_clean : bool }.

Definition starting (env : Env) (ids : list Z) : gset Z := list_to_set (filter (fun i => starts env i = true) ids).

(** The first instance: caddy exits if one of its hooks fails. *)
Definition first (o : Z) (ids : list Z) : Expected :=
  {| ex_live := o; ex_ids := ids; ex_up := list_to_set ids; ex_clean := true |}.
(** A restart that succeeds: a loop for each object of the new instance and
    nothing else, whatever ran before (but if it has no object of the plugin,
    none of its hooks can take stray loops down). *)
Definition after_success (x : Expected) (o : Z) (ids : list Z) : Expected :=
  {| ex_live := o; ex_ids := ids; ex_up := list_to_set ids; ex_clean := bool_decide (ids <> []) || ex_clean x |}.
(** An [OnRestart] hook failed after those of [stopped] ran: loops of objects
    whose [OnRestartFailed] succeeds are new, those of the others are as the
    [OnRestart] hooks left them. *)
Definition after_refusal (x : Expected) (env : Env) (stopped : list Z) : Expected :=
  {| ex_live := ex_live x; ex_ids := ex_ids x;
     ex_up := starting env (ex_ids x) ∪ (ex_up x ∖ list_to_set stopped);
     ex_clean := existsb (starts env) (ex_ids x) || ex_clean x |}.
(** The new instance failed after its objects [started] had started: the live
    one's objects run again where [OnRestartFailed] succeeds, and one success
    takes the dropped instance's loops down. *)
Definition after_drop (x : Expected) (env : Env) (started : list Z) : Expected :=
  {| ex_live := ex_live x; ex_ids := ex_ids x; ex_up := starting env (ex_ids x);
     ex_clean := existsb (starts env) (ex_ids x) || (ex_clean x && bool_decide (started = [])) |}.

(** One restart. What is outside may differ from one hook's round to the next. *)
Inductive attempt : Expected * Process -> Expected * Process -> Prop :=
| restarted env x p o ids :
    fresh o ids p -> (forall i, i ∈ ids -> starts env i = true) ->
    attempt (x, p) (after_success x o ids,
                    fire env Startup ids (setup_objects o ids (fire env RestartEvent (ex_ids x) p)))
| refused env x p stopped :
    stopped `prefix_of` ex_ids x ->
    attempt (x, p) (after_refusal x env stopped,
                    fire env RestartFailed (ex_ids x) (fire env RestartEvent stopped p))
| dropped env env' x p o ids started :
    fresh o ids p -> o <> ex_live x -> started `prefix_of` ids -> (forall i, i ∈ started -> starts env i = true) ->
    attempt (x, p) (after_drop x env' started,
                    fire env' RestartFailed (ex_ids x)
                      (fire env Startup started (setup_objects o ids (fire env RestartEvent (ex_ids x) p)))).

(** The process once the first instance has started. *)
Definition first_start (env : Env) (o : Z) (ids : list Z) : Process :=
  fire env Startup ids (setup_objects o ids empty_process).

(** The process does what is expected. *)
Record meets (x : Expected) (p : Process) : Prop := {
  me_ok : proc_ok p;
  me_nodup : NoDup (ex_ids x);
  me_objects : forall i, i ∈ ex_ids x <-> owner <$> nodes p !! i = Some (ex_live x);
  me_sub : forall i, i ∈ ex_up x -> i ∈ ex_ids x;
  me_up : forall i, i ∈ ex_ids x -> runs p i <-> i ∈ ex_up x;
  me_clean : ex_clean x = true -> forall i, runs p i -> i ∈ ex_ids x
}.

(** ** Lemmas *)

(** *** Hooks on one object *)

Lemma hook_start env e i n p :
  e = Startup \/ e = RestartFailed -> hook env e i n p = if starts env i then start_node i n p else p.
Proof. intros [-> | ->]; cbn; rewrite OnStartup_law; by destruct (starts env i). Qed.

Lemma hook_ok env e i n p : proc_ok p -> nodes p !! i = Some n -> proc_ok (hook env e i n p).
Proof.
  intros H Hi. destruct e; [|by apply stop_ok|by apply stop_ok|]; rewrite hook_start by auto;
    destruct (starts env i); auto using start_ok.
Qed.

Lemma fire_cons env e i ids p : fire env e (i :: ids) p = fire env e ids (fire1 env e p i).
Proof. done. Qed.

Lemma fire1_ok env e i p : proc_ok p -> proc_ok (fire1 env e p i).
Proof. intros H. unfold fire1. destruct (nodes p !! i) as [n|] eqn:Hi; [by apply hook_ok|done]. Qed.

Lemma fire_ok env e ids p : proc_ok p -> proc_ok (fire env e ids p).
Proof. revert p. induction ids as [|i ids IH]; intros p H; [done|]. rewrite fire_cons. by apply IH, fire1_ok. Qed.

(** Starting and stopping change neither the objects nor their owners. *)
Lemma start_owner i n p j : nodes p !! i = Some n -> owner <$> nodes (start_node i n p) !! j = owner <$> nodes p !! j.
Proof.
  intros Hi. unfold start_node, adopt. cbn. destruct (decide (i = j)) as [<-|Hne];
    [by rewrite lookup_insert_eq, Hi|by rewrite lookup_insert_ne].
Qed.

Lemma stop_owner i n p j : nodes p !! i = Some n -> owner <$> nodes (stop_node i n p) !! j = owner <$> nodes p !! j.
Proof.
  intros Hi. unfold stop_node, OnShutdown. destruct (running n); cbn; (destruct (decide (i = j)) as [<-|Hne];
    [by rewrite lookup_insert_eq, Hi|by rewrite lookup_insert_ne]).
Qed.

Lemma fire1_owner env e p i j : owner <$> nodes (fire1 env e p i) !! j = owner <$> nodes p !! j.
Proof.
  unfold fire1. destruct (nodes p !! i) as [n|] eqn:Hi; [|done].
  destruct e; try (by apply stop_owner); rewrite hook_start by auto;
    (destruct (starts env i); [by apply start_owner|done]).
Qed.

Lemma fire_owner env e ids p j : owner <$> nodes (fire env e ids p) !! j = owner <$> nodes p !! j.
Proof. revert p. induction ids as [|i ids IH]; intros p; [done|]. by rewrite fire_cons, IH, fire1_owner. Qed.

Lemma owner_fmap p i o : owner <$> nodes p !! i = Some o <-> exists n, nodes p !! i = Some n /\ owner n = o.
Proof. rewrite fmap_Some. naive_solver. Qed.

(** *** Which objects run, step by step *)

(** A start takes down every loop of another instance and the object's own,
    and the object runs. *)
Lemma runs_start i n p j :
  proc_ok p -> nodes p !! i = Some n ->
  runs (start_node i n p) j <-> j = i \/ (runs p j /\ owner <$> nodes p !! j = Some (owner n)).
Proof.
  intros H Hi. pose proof (start_ok i n p H Hi) as H'. unfold runs.
  setoid_rewrite (ok_live _ H'). setoid_rewrite (ok_live _ H). setoid_rewrite elem_of_dom. unfold is_Some, start_node.
  pose proof (adopt_registered n (reg p)) as Ar. destruct (adopt n (reg p)) as [n' g'] eqn:Ea. cbn [snd] in Ar. cbn [nodes reg].
  setoid_rewrite Ar.
  assert (En : n' = {| owner := owner n; running := Some (next_handle (reg p)) |}) by (unfold adopt in Ea; congruence).
  split.
  - intros (m & h & Hm & Hr & o & Ho). apply lookup_insert_Some in Hm as [[<- _]|[Hne Hm]]; [by left|]. right.
    destruct Ho as [[-> _]|(_ & Ho & [_ ->]%stale_false)]; [pose proof (ok_running _ H j m _ Hm Hr); lia|].
    split; [by exists m, h; eauto|]. destruct (ok_held _ H h _ Ho) as (k & mk & Hk & Hrk & Hok).
    rewrite (ok_distinct _ H j k m mk h Hm Hk Hr Hrk). rewrite Hk. cbn. by rewrite Hok.
  - intros [->|[(m & h & Hm & Hr & o & Ho) Hown]].
    + exists n', (next_handle (reg p)). rewrite lookup_insert_eq, En. split_and!; [done|done|]. exists (owner n). by left.
    + destruct (decide (i = j)) as [<-|Hne].
      * exists n', (next_handle (reg p)). rewrite lookup_insert_eq, En. split_and!; [done|done|]. exists (owner n). by left.
      * exists m, h. rewrite lookup_insert_ne by done. split_and!; [done|done|]. exists o. right.
        destruct (ok_held _ H h _ Ho) as (k & mk & Hk & Hrk & Hok).
        pose proof (ok_distinct _ H j k m mk h Hm Hk Hr Hrk) as <-. rewrite Hk in Hown. injection Hown as Hown.
        split_and!; [pose proof (ok_running _ H j m h Hm Hr); lia|done|]. apply stale_false. split; [|congruence].
        intros Hx. apply Hne. exact (ok_distinct _ H i j n m h Hi Hm Hx Hr).
Qed.

Lemma runs_stop i n p j :
  proc_ok p -> nodes p !! i = Some n -> runs (stop_node i n p) j <-> runs p j /\ j <> i.
Proof.
  intros H Hi. unfold runs, stop_node, OnShutdown. destruct (running n) as [h0|] eqn:E0; cbn [nodes reg].
  - unfold live. cbn [cancelled next_handle]. split.
    + intros (m & h & Hm & Hr & Hlt & Hc). apply lookup_insert_Some in Hm as [[<- <-]|[Hne Hm]]; [done|].
      split; [|done]. exists m, h. split_and!; [done|done|done|set_solver].
    + intros [(m & h & Hm & Hr & Hlt & Hc) Hne]. exists m, h. rewrite lookup_insert_ne by done.
      split_and!; [done|done|done|]. intros [->%elem_of_singleton|?]%elem_of_union; [|done].
      apply Hne. exact (ok_distinct _ H j i m n h0 Hm Hi Hr E0).
  - rewrite (insert_id (nodes p)) by done. split; [|by intros [? _]]. intros Hx. split; [done|]. intros ->.
    destruct Hx as (m & h & Hm & Hr & _). congruence.
Qed.

Lemma runs_fire_stop env e ids p j :
  e = RestartEvent \/ e = FinalShutdown -> proc_ok p -> runs (fire env e ids p) j <-> runs p j /\ j ∉ ids.
Proof.
  intros He. revert p. induction ids as [|i ids IH]; intros p H; [by split; [intros ?; split; [|apply not_elem_of_nil]|intros []]|].
  rewrite fire_cons, IH by (by apply fire1_ok). rewrite not_elem_of_cons.
  assert (Hone : runs (fire1 env e p i) j <-> runs p j /\ j <> i).
  { unfold fire1. destruct (nodes p !! i) as [n|] eqn:Hi.
    - destruct He as [-> | ->]; by apply runs_stop.
    - split; [|by intros []]. intros Hx. split; [done|]. intros ->. destruct Hx as (m & h & Hm & _). congruence. }
  rewrite Hone. naive_solver.
Qed.

Lemma runs_fire_start env e ids p o j :
  e = Startup \/ e = RestartFailed -> proc_ok p -> (forall i, i ∈ ids -> owner <$> nodes p !! i = Some o) ->
  runs (fire env e ids p) j <->
  (j ∈ ids /\ starts env j = true) \/
  (runs p j /\ (owner <$> nodes p !! j = Some o \/ existsb (starts env) ids = false)).
Proof.
  intros He. revert p. induction ids as [|i ids IH]; intros p H Hids.
  - cbn [fire foldl existsb]. rewrite elem_of_nil. naive_solver.
  - rewrite fire_cons, IH; [|by apply fire1_ok|intros k Hk; rewrite fire1_owner; apply Hids; by right].
    rewrite fire1_owner, elem_of_cons. cbn [existsb].
    destruct (proj1 (owner_fmap _ _ _) (Hids i ltac:(by left))) as (n & Hi & Hn).
    assert (Hone : runs (fire1 env e p i) j <->
      (j = i /\ starts env i = true) \/ (runs p j /\ (owner <$> nodes p !! j = Some o \/ starts env i = false))).
    { unfold fire1. rewrite Hi, hook_start by done. destruct (starts env i); [|naive_solver].
      rewrite runs_start by done. rewrite Hn. naive_solver. }
    rewrite Hone, orb_false_iff. pose proof (Hids i ltac:(by left)). split.
    + intros [[Hj Hs]|[[[-> Hs]|[Hr Ho]] Ho']]; [left; auto|left; auto|]. right. split; [done|].
      destruct Ho as [?|?]; [by left|]. destruct Ho' as [?|?]; [by left|by right].
    + intros [[[->|Hj] Hs]|[Hr Ho]]; [|left; auto|].
      * right. split; [by left|]. by left.
      * right. split; [right; split; [done|]|]; destruct Ho as [?|[? ?]]; auto.
Qed.

Lemma setup_nodes o ids p j :
  nodes (setup_objects o ids p) !! j = if decide (j ∈ ids) then Some {| owner := o; running := None |} else nodes p !! j.
Proof.
  revert p. induction ids as [|i ids IH]; intros p; [done|].
  change (setup_objects o (i :: ids) p) with (setup_objects o ids (setup1 o p i)). rewrite IH. cbn.
  destruct (decide (j ∈ ids)) as [Hj|Hj], (decide (j ∈ i :: ids)) as [Hj'|Hj']; try done.
  - destruct Hj'. by right.
  - apply elem_of_cons in Hj' as [->|]; [by rewrite lookup_insert_eq|done].
  - rewrite lookup_insert_ne; [done|]. intros ->. destruct Hj'. by left.
Qed.

Lemma setup_reg o ids p : reg (setup_objects o ids p) = reg p.
Proof. revert p. induction ids as [|i ids IH]; intros p; [done|].
  change (setup_objects o (i :: ids) p) with (setup_objects o ids (setup1 o p i)). by rewrite IH. Qed.

Lemma setup_objects_ok o ids p : NoDup ids -> (forall i, i ∈ ids -> nodes p !! i = None) -> proc_ok p -> proc_ok (setup_objects o ids p).
Proof.
  revert p. induction ids as [|i ids IH]; intros p Hd Hf H; [done|]. apply NoDup_cons in Hd as [Hi Hd]. apply IH; [done| |].
  - intros j Hj. cbn. rewrite lookup_insert_ne; [|by intros ->]. apply Hf. by right.
  - refine (proc_step_ok p _ (proc_setup p i o _) H). apply Hf. by left.
Qed.

Lemma runs_setup o ids p j : (forall i, i ∈ ids -> nodes p !! i = None) -> runs (setup_objects o ids p) j <-> runs p j.
Proof.
  intros Hf. unfold runs. rewrite setup_reg, setup_nodes. destruct (decide (j ∈ ids)) as [Hj|Hj]; [|done].
  rewrite (Hf j Hj). naive_solver.
Qed.

(** *** A restart meets what is expected of it *)

(** The new instance set up, after the old one's [OnRestart] hooks. *)
Section New.
Variables (env : Env) (o : Z) (ids stopped : list Z) (p : Process).
Hypotheses (Hok : proc_ok p) (Hfresh : fresh o ids p).
Let p2 := setup_objects o ids (fire env RestartEvent stopped p).

Lemma new_unknown i : i ∈ ids -> nodes (fire env RestartEvent stopped p) !! i = None.
Proof.
  intros Hi. pose proof (fire_owner env RestartEvent stopped p i) as E. destruct Hfresh as (_ & Hn & _).
  rewrite (Hn i Hi) in E. cbn in E. by destruct (nodes (fire env RestartEvent stopped p) !! i).
Qed.

Lemma new_ok : proc_ok p2.
Proof. apply setup_objects_ok; [apply Hfresh|apply new_unknown|by apply fire_ok]. Qed.

Lemma new_owner j : owner <$> nodes p2 !! j = if decide (j ∈ ids) then Some o else owner <$> nodes p !! j.
Proof. unfold p2. rewrite setup_nodes. destruct (decide _); [done|]. apply fire_owner. Qed.

Lemma new_runs j : runs p2 j <-> runs p j /\ j ∉ stopped.
Proof. unfold p2. rewrite runs_setup by apply new_unknown. apply runs_fire_stop; auto. Qed.

Lemma new_objects j : owner <$> nodes p2 !! j = Some o <-> j ∈ ids.
Proof.
  rewrite new_owner. destruct (decide (j ∈ ids)); [done|]. split; [|done].
  intros Hx. destruct (proj1 (owner_fmap _ _ _) Hx) as (m & Hm & Hmo). destruct Hfresh as (_ & _ & Hno).
  by destruct (Hno _ _ Hm).
Qed.
End New.

Lemma elem_starting env ids i : i ∈ starting env ids <-> i ∈ ids /\ starts env i = true.
Proof. unfold starting. rewrite elem_of_list_to_set, list_elem_of_filter. tauto. Qed.

Lemma success_meets env x p o ids :
  meets x p -> fresh o ids p -> (forall i, i ∈ ids -> starts env i = true) ->
  meets (after_success x o ids) (fire env Startup ids (setup_objects o ids (fire env RestartEvent (ex_ids x) p))).
Proof.
  intros [Hok Hd Ho Hsub Hup Hcl] Hf Hs. set (p2 := setup_objects o ids _).
  assert (H2 : proc_ok p2) by (by apply new_ok).
  assert (Hobj : forall i, i ∈ ids <-> owner <$> nodes p2 !! i = Some o) by (intros i; unfold p2; by rewrite new_objects).
  assert (Hr : forall j, runs (fire env Startup ids p2) j <->
    (j ∈ ids /\ starts env j = true) \/ (runs p2 j /\ (owner <$> nodes p2 !! j = Some o \/ existsb (starts env) ids = false))).
  { intros j. apply runs_fire_start; [by left|done|]. intros i. apply Hobj. }
  split; cbn [ex_live ex_ids ex_up ex_clean after_success].
  - by apply fire_ok.
  - apply Hf.
  - intros i. by rewrite fire_owner, Hobj.
  - intros i. by rewrite elem_of_list_to_set.
  - intros i Hi. rewrite Hr, elem_of_list_to_set. split; [done|]. intros _. left. auto.
  - intros Hc i [[Hi _]|[Hri [Hoi|Hno]]]%Hr; [done|by apply Hobj|]. exfalso.
    unfold p2 in Hri. apply new_runs in Hri as [Hri Hni]; [|done|done].
    destruct ids as [|k ids]; [cbn in Hc; by apply Hni, Hcl|].
    cbn [existsb] in Hno. rewrite (Hs k) in Hno by left. done.
Qed.

Lemma refusal_meets env x p stopped :
  meets x p -> stopped `prefix_of` ex_ids x ->
  meets (after_refusal x env stopped) (fire env RestartFailed (ex_ids x) (fire env RestartEvent stopped p)).
Proof.
  intros [Hok Hd Ho Hsub Hup Hcl] Hst. set (p1 := fire env RestartEvent stopped p).
  assert (H1 : proc_ok p1) by (by apply fire_ok).
  assert (Hobj : forall i, i ∈ ex_ids x <-> owner <$> nodes p1 !! i = Some (ex_live x)) by (intros i; unfold p1; by rewrite fire_owner, Ho).
  assert (Hr1 : forall j, runs p1 j <-> runs p j /\ j ∉ stopped) by (intros j; apply runs_fire_stop; auto).
  assert (Hr : forall j, runs (fire env RestartFailed (ex_ids x) p1) j <->
    (j ∈ ex_ids x /\ starts env j = true) \/
    (runs p1 j /\ (owner <$> nodes p1 !! j = Some (ex_live x) \/ existsb (starts env) (ex_ids x) = false))).
  { intros j. apply runs_fire_start; [by right|done|]. intros i. apply Hobj. }
  split; cbn [ex_live ex_ids ex_up ex_clean after_refusal].
  - by apply fire_ok.
  - done.
  - intros i. by rewrite fire_owner, Hobj.
  - intros i [[? _]%elem_starting|[? _]%elem_of_difference]%elem_of_union; auto.
  - intros i Hi. rewrite Hr, Hr1, elem_of_union, elem_of_difference, elem_starting, elem_of_list_to_set, <- Hobj, (Hup i Hi). naive_solver.
  - intros Hc i [[Hi _]|[Hri [Hoi|Hno]]]%Hr; [done|by apply Hobj|]. rewrite Hno in Hc. apply Hcl; [done|]. by apply Hr1.
Qed.

Lemma drop_meets env env' x p o ids started :
  meets x p -> fresh o ids p -> o <> ex_live x -> started `prefix_of` ids -> (forall i, i ∈ started -> starts env i = true) ->
  meets (after_drop x env' started)
    (fire env' RestartFailed (ex_ids x) (fire env Startup started (setup_objects o ids (fire env RestartEvent (ex_ids x) p)))).
Proof.
  intros [Hok Hd Ho Hsub Hup Hcl] Hf Hne [rest Hpre] Hs. set (p2 := setup_objects o ids _).
  assert (H2 : proc_ok p2) by (by apply new_ok).
  assert (Hobj2 : forall i, owner <$> nodes p2 !! i = Some o <-> i ∈ ids) by (intros i; unfold p2; by apply new_objects).
  assert (Hst : forall i, i ∈ started -> i ∈ ids) by (intros i Hi; rewrite Hpre, elem_of_app; by left).
  set (p3 := fire env Startup started p2). assert (H3 : proc_ok p3) by (by apply fire_ok).
  assert (Hr3 : forall j, runs p3 j <-> (j ∈ started /\ starts env j = true) \/
    (runs p2 j /\ (owner <$> nodes p2 !! j = Some o \/ existsb (starts env) started = false))).
  { intros j. apply runs_fire_start; [by left|done|]. intros i Hi. by apply Hobj2, Hst. }
  assert (Hr2 : forall j, runs p2 j <-> runs p j /\ j ∉ ex_ids x) by (intros j; unfold p2; by apply new_runs).
  assert (Hdis : forall i, i ∈ ids -> i ∉ ex_ids x).
  { intros i Hi Hx. apply Ho, owner_fmap in Hx as (n & Hn & _). destruct Hf as (_ & Hf & _). by rewrite Hf in Hn. }
  assert (Hobj : forall i, i ∈ ex_ids x <-> owner <$> nodes p3 !! i = Some (ex_live x)).
  { intros i. unfold p3, p2. rewrite fire_owner, new_owner, Ho by done. destruct (decide (i ∈ ids)) as [Hi|Hi]; [|done].
    rewrite <- Ho. split; [by intros ?%(Hdis i Hi)|congruence]. }
  assert (Hr : forall j, runs (fire env' RestartFailed (ex_ids x) p3) j <->
    (j ∈ ex_ids x /\ starts env' j = true) \/
    (runs p3 j /\ (owner <$> nodes p3 !! j = Some (ex_live x) \/ existsb (starts env') (ex_ids x) = false))).
  { intros j. apply runs_fire_start; [by right|done|]. intros i. apply Hobj. }
  split; cbn [ex_live ex_ids ex_up ex_clean after_drop].
  - by apply fire_ok.
  - done.
  - intros i. by rewrite fire_owner, Hobj.
  - intros i [? _]%elem_starting. done.
  - intros i Hi. rewrite Hr, Hr3, Hr2, elem_starting. split; [|tauto].
    intros [?|[[[Hx _]|[[_ Hx] _]] _]]; [done| |done]. by destruct (Hdis i (Hst i Hx)).
  - intros Hc i [[Hi _]|[Hri [Hoi|Hno]]]%Hr; [done|by apply Hobj|]. rewrite Hno in Hc. cbn in Hc.
    apply andb_true_iff in Hc as [Hc ->%bool_decide_eq_true]. apply Hr3 in Hri as [[Hx _]|[Hx _]].
    + by apply not_elem_of_nil in Hx.
    + apply Hr2 in Hx as [Hx _]. by apply Hcl.
Qed.

Lemma attempt_meets s s' : attempt s s' -> meets s.1 s.2 -> meets s'.1 s'.2.
Proof. intros Hat. destruct Hat; intros Hm; [by apply success_meets|by apply refusal_meets|by apply drop_meets]. Qed.

Lemma first_meets env o ids :
  fresh o ids empty_process -> (forall i, i ∈ ids -> starts env i = true) -> meets (first o ids) (first_start env o ids).
Proof.
  intros Hf Hs. set (x0 := {| ex_live := o - 1; ex_ids := []; ex_up := ∅; ex_clean := true |}).
  assert (Hno : forall i, ~ runs empty_process i) by (intros i (n & h & H & _); cbn in H; by rewrite lookup_empty in H).
  assert (H0 : meets x0 empty_process).
  { split; cbn; [apply empty_ok|by apply NoDup_nil| |set_solver|by intros i []%not_elem_of_nil|by intros _ i []%Hno].
    intros i. rewrite lookup_empty. split; [by intros []%not_elem_of_nil|done]. }
  pose proof (success_meets env x0 empty_process o ids H0 Hf Hs) as H. unfold after_success, x0 in H. cbn in H.
  rewrite orb_true_r in H. exact H.
Qed.

Lemma reached_meets env o ids x p :
  fresh o ids empty_process -> (forall i, i ∈ ids -> starts env i = true) ->
  rtc attempt (first o ids, first_start env o ids) (x, p) -> meets x p.
Proof.
  intros Hf Hs Hrun. remember (first o ids, first_start env o ids) as s0 eqn:E. remember (x, p) as s1 eqn:E1.
  assert (H : meets s0.1 s0.2) by (subst s0; by apply first_meets).
  assert (H' : meets s1.1 s1.2); [|by subst s1]. clear E E1.
  induction Hrun as [|a b c Hst _ IH]; [done|]. apply IH. by eapply attempt_meets.
Qed.

(** ** Properties *)

(** C21: what runs after any series of restarts is what [Expected] keeps track
    of, for a plugin whose [OnStartup] may fail (as [radnr]'s does when its
    configuration or its socket is bad) or not ([sni_tls]): whether each
    restart succeeded, was refused by an [OnRestart] hook part of the way, or
    failed after some objects of the new instance had started, with
    [OnRestartFailed] hooks that succeed for some objects and fail for others.
    Every loop that runs is the loop of exactly one object; an object of the
    live instance has a loop exactly when it is expected to; nothing else runs
    while the state is expected to be clean, which a successful restart with
    an object of the plugin always makes it, and so does one
    [OnRestartFailed] that succeeds; and a final shutdown stops every loop of
    the live instance, which is every loop if the state is clean.  The cases
    in which it is not are those of [dropped_orphans]. *)
Theorem restarts_settle (env : Env) (o : Z) (ids : list Z) (x : Expected) (p : Process) :
  fresh o ids empty_process -> (forall i, i ∈ ids -> starts env i = true) ->
  rtc attempt (first o ids, first_start env o ids) (x, p) ->
  (forall h, live (reg p) h -> exists i n, nodes p !! i = Some n /\ running n = Some h /\
     forall j m, nodes p !! j = Some m -> running m = Some h -> j = i) /\
  (forall i, i ∈ ex_ids x -> runs p i <-> i ∈ ex_up x) /\
  (ex_clean x = true -> forall i, runs p i -> i ∈ ex_up x) /\
  (forall env' i, i ∈ ex_ids x -> ~ runs (fire env' FinalShutdown (ex_ids x) p) i) /\
  (ex_clean x = true -> forall env' h, ~ live (reg (fire env' FinalShutdown (ex_ids x) p)) h).
Proof.
  intros Hf Hs Hrun. destruct (reached_meets _ _ _ _ _ Hf Hs Hrun) as [Hok Hd Ho Hsub Hup Hcl].
  assert (Hloop : forall q h, proc_ok q -> live (reg q) h -> exists i n, nodes q !! i = Some n /\ running n = Some h).
  { intros q h Hq Hl. apply (ok_live _ Hq), elem_of_dom in Hl as [w Hw]. destruct (ok_held _ Hq h w Hw) as (i & n & ? & ? & _).
    by exists i, n. }
  split_and!; [| done | | |].
  - intros h Hl. destruct (Hloop p h Hok Hl) as (i & n & Hi & Hn). exists i, n. split_and!; [done|done|].
    intros j m Hj Hm. exact (ok_distinct _ Hok j i m n h Hj Hi Hm Hn).
  - intros Hc i Hr. apply Hup; [|done]. by apply Hcl.
  - intros env' i Hi Hr. by apply (runs_fire_stop env' FinalShutdown) in Hr as [_ Hr]; auto.
  - intros Hc env' h Hl. pose proof (fire_ok env' FinalShutdown (ex_ids x) p Hok) as Hk.
    destruct (Hloop _ h Hk Hl) as (i & n & Hi & Hn).
    assert (Hr : runs (fire env' FinalShutdown (ex_ids x) p) i) by (by exists n, h).
    apply runs_fire_stop in Hr as [Hr Hni]; [|by right|done]. by apply Hni, Hcl.
Qed.

(** A loop nobody can stop. If no [OnRestartFailed] hook of the live instance
    succeeds, because it has no object of the plugin or because none of them
    can start again, a restart that fails after objects of the new instance
    have started leaves all their loops running, none of the live instance's,
    and no hook will run that could stop them but a later start's. *)
Theorem dropped_orphans env env' x p (o : Z) (ids started : list Z) (i : Z) :
  meets x p -> fresh o ids p -> o <> ex_live x -> started `prefix_of` ids ->
  (forall j, j ∈ started -> starts env j = true) -> (forall j, j ∈ ex_ids x -> starts env' j = false) -> i ∈ started ->
  let p' := fire env' RestartFailed (ex_ids x)
              (fire env Startup started (setup_objects o ids (fire env RestartEvent (ex_ids x) p))) in
  attempt (x, p) (after_drop x env' started, p') /\
  runs p' i /\ i ∉ ex_ids x /\ (forall j, j ∈ ex_ids x -> ~ runs p' j) /\
  runs (fire env' FinalShutdown (ex_ids x) p') i.
Proof.
  intros Hm Hf Hne Hpre Hs Hno Hi p'. assert (Hat : attempt (x, p) (after_drop x env' started, p')) by (by apply dropped).
  pose proof (attempt_meets _ _ Hat Hm) as Hm'. cbn [fst snd] in Hm'. destruct Hm as [Hok Hd Ho _ _ _].
  set (p2 := setup_objects o ids (fire env RestartEvent (ex_ids x) p)) in *.
  assert (H2 : proc_ok p2) by (by apply new_ok).
  destruct Hpre as [rest Hpre]. assert (Hin : forall j, j ∈ started -> j ∈ ids) by (intros j Hj; rewrite Hpre, elem_of_app; by left).
  assert (Hni : i ∉ ex_ids x).
  { intros Hx. apply Ho, owner_fmap in Hx as (n & Hn & _). destruct Hf as (_ & Hn' & _). by rewrite Hn' in Hn by auto. }
  assert (Hex : existsb (starts env') (ex_ids x) = false).
  { apply not_true_iff_false. intros (j & Hj & Hsj)%existsb_exists. rewrite <- list_elem_of_In in Hj. rewrite Hno in Hsj; done. }
  assert (Hr3 : runs (fire env Startup started p2) i).
  { apply (runs_fire_start env Startup started p2 o i); [by left|done| |left; auto]. intros j Hj. apply new_objects; auto. }
  assert (Hr : runs p' i).
  { apply (runs_fire_start env' RestartFailed (ex_ids x) _ (ex_live x) i); [by right|by apply fire_ok| |right; auto].
    intros j Hj. rewrite fire_owner. unfold p2. rewrite new_owner by done. apply Ho in Hj as Hj'.
    destruct (decide (j ∈ ids)) as [Hji|]; [|done]. apply owner_fmap in Hj' as (n & Hn & _).
    destruct Hf as (_ & Hn' & _). by rewrite Hn' in Hn. }
  split_and!; [done|done|done| |].
  - intros j Hj Hrj. apply (me_up _ _ Hm' j Hj) in Hrj. apply elem_starting in Hrj as [_ Hsj]. rewrite Hno in Hsj; done.
  - apply runs_fire_stop; [by right|apply (me_ok _ _ Hm')|done].
Qed.
End Restarts.

(** Two [radnr] blocks on two interfaces; the second can be down. *)
Definition ex_env (down : bool) : RadnrEnv :=
  {| re_cfg := fun i => set_interface ex_config (if i =? 2 then bs "eth1" else bs "eth0");
     re_runner := fun _ => false;
     re_listen := fun name => negb (down && beqb name (bs "eth1")) |}.

Lemma fresh_first ids o : NoDup ids -> fresh o ids empty_process.
Proof. intros H. split; [done|]. split; [done|]. intros i n Hn. cbn in Hn. by rewrite lookup_empty in Hn. Qed.

(** After the first start the objects are those of the first instance. *)
Lemma fresh_next `{PluginLaws} env o ids o' ids' :
  NoDup ids' -> o' <> o -> (forall i, i ∈ ids' -> i ∉ ids) -> fresh o' ids' (first_start env o ids).
Proof.
  intros Hd Hne Hdis.
  assert (E : forall i, owner <$> nodes (first_start env o ids) !! i = if decide (i ∈ ids) then Some o else None).
  { intros i. unfold first_start. rewrite fire_owner, setup_nodes. by destruct (decide (i ∈ ids)). }
  split; [done|]. split.
  - intros i Hi. specialize (E i). rewrite decide_False in E by auto. by destruct (nodes _ !! i).
  - intros i n Hn. specialize (E i). rewrite Hn in E. destruct (decide _); [|done]. injection E as ->. congruence.
Qed.

Lemma ex_starts i : radnr_starts (ex_env false) i = true.
Proof.
  assert (H : forall b : bool, let c := set_interface ex_config (if b then bs "eth1" else bs "eth0") in
    match Config_Validate c with Ok _ => false || DryRun c || true | Err _ => false end = true) by (intros []; by vm_compute).
  exact (H (i =? 2)).
Qed.

(** Two blocks; a restart fails once the new instance's first object has
    started, and meanwhile the second block's interface went down: the first
    one's loop is back, the second one's is not, and nothing else runs. *)
Lemma restarts_settle_witness :
  let p := fire (Pl := radnr_plugin) (ex_env true) RestartFailed [1; 2]
             (fire (Pl := radnr_plugin) (ex_env false) Startup [3]
               (setup_objects 20 [3; 4] (fire (Pl := radnr_plugin) (ex_env false) RestartEvent [1; 2]
                 (first_start (Pl := radnr_plugin) (ex_env false) 10 [1; 2])))) in
  runs p 1 /\ ~ runs p 2 /\ (forall i, runs p i -> i = 1) /\
  forall h, ~ live (reg (fire (Pl := radnr_plugin) (ex_env true) FinalShutdown [1; 2] p)) h.
Proof.
  intros p.
  assert (Hf : fresh 10 [1; 2] empty_process) by (apply fresh_first; by apply (bool_decide_unpack _)).
  assert (Hs : forall (ids : list Z) i, i ∈ ids -> starts (Plugin := radnr_plugin) (ex_env false) i = true).
  { intros ids i _. apply ex_starts. }
  set (x := after_drop (Pl := radnr_plugin) (first 10 [1; 2]) (ex_env true) [3]).
  assert (Hr : rtc (attempt (Pl := radnr_plugin))
    (first 10 [1; 2], first_start (Pl := radnr_plugin) (ex_env false) 10 [1; 2]) (x, p)).
  { apply rtc_once. apply (dropped (Pl := radnr_plugin) (ex_env false) (ex_env true) (first 10 [1; 2]) _ 20 [3; 4] [3]).
    - apply fresh_next; [by apply (bool_decide_unpack _); vm_compute|done|]. intros i Hi Hi'.
      apply elem_of_cons in Hi as [->|Hi%list_elem_of_singleton]; [|subst i];
        (revert Hi'; by apply (bool_decide_unpack (_ ∉ _))).
    - done.
    - by exists [4].
    - apply Hs. }
  destruct (restarts_settle (Pl := radnr_plugin) (ex_env false) 10 [1; 2] x p Hf (Hs _) Hr) as (_ & Hup & Hcl & _ & Hfin).
  assert (Eup : forall i, i ∈ ex_up x <-> i = 1).
  { intros i. assert (E : ex_up x = {[1]}) by (by vm_compute). rewrite E. apply elem_of_singleton. }
  split_and!.
  - apply Hup; [by left|]. by apply Eup.
  - intros Hr2. apply Hup in Hr2; [|by right; left]. by apply Eup in Hr2.
  - intros i Hi. apply Eup. apply Hcl; [by vm_compute|done].
  - intros h. apply Hfin. by vm_compute.
Defined.

(** The same restart when the only block's interface went down: the dropped
    instance's advertiser runs on, and the live one's does not. *)
Lemma dropped_orphans_witness :
  let p := fire (Pl := radnr_plugin) (ex_env true) RestartFailed [2]
             (fire (Pl := radnr_plugin) (ex_env false) Startup [3]
               (setup_objects 20 [3] (fire (Pl := radnr_plugin) (ex_env false) RestartEvent [2]
                 (first_start (Pl := radnr_plugin) (ex_env false) 10 [2])))) in
  runs p 3 /\ ~ runs p 2.
Proof.
  intros p. assert (Hs : forall i, starts (Plugin := radnr_plugin) (ex_env false) i = true).
  { apply ex_starts. }
  destruct (dropped_orphans (Pl := radnr_plugin) (ex_env false) (ex_env true) (first 10 [2])
    (first_start (Pl := radnr_plugin) (ex_env false) 10 [2]) 20 [3] [3] 3) as (_ & H3 & _ & H2 & _).
  - apply first_meets; [|auto]. apply fresh_first. by apply NoDup_singleton.
  - apply fresh_next; [by apply NoDup_singleton|done|]. by intros i ->%list_elem_of_singleton ?%list_elem_of_singleton.
  - done.
  - by exists [].
  - auto.
  - intros j ->%list_elem_of_singleton. by vm_compute.
  - by left.
  - split; [exact H3|]. apply H2. by left.
Defined.
