(* ===== verification/RadnrRun.v ===== *)
(** * The advertiser's goroutines ([radnr/internal/advertiser/advertiser.go],
    [radnr/conn.go], [radnr/radnr.go])

    [Run] and the reader it starts, as two interleaved processes over one
    conn and one context: the unbuffered channel the reader offers sources
    on, the close that unblocks its read, and the wait for it on the way out.
    The schedule inside the loop is [Advertiser.RunState], so its timing
    theorem holds of the whole.  Opening the socket and making it a router's
    come first. *)

From S2P Require Import Prelude GoStrings Netip Dnr SvcParams RadnrConfig Advertiser Radnr.

(** ** The socket *)

(** The network: interfaces by name, a socket on one, and whether it joins a
    group and reports hop limits. *)
Class NetLib := {
  Interface_ : Type;
  Socket : Type;
  InterfaceByName : bytes -> option Interface_;
  ndp_Listen : Interface_ -> option Socket;
  JoinGroup : Socket -> Addr -> bool;
  SetControlMessage_HopLimit : Socket -> bool;
  MTU : Interface_ -> Z
}.

Definition allRouters : option Addr := ParseAddr (bs "ff02::2").
Definition minIPv6MTU : Z := 1280.

Inductive ListenErr := NoInterface | NoSocket | NoGroup | NoHopLimit.

Section Socket.
Context `{N : !NetLib}.

Definition becomeRouter (c : Socket) : result ListenErr unit :=
  check (match allRouters with Some g => JoinGroup c g | None => false end) NoGroup;;
  check (SetControlMessage_HopLimit c) NoHopLimit.

(** [dialNDP]: the conn, or the error and the socket that was closed again. *)
Definition dialNDP (ifi : Interface_) : result (ListenErr * option Socket) (Socket * Z) :=
  match ndp_Listen ifi with
  | None => Err (NoSocket, None)
  | Some c => match becomeRouter c with
              | Err e => Err (e, Some c)
              | Ok _ => Ok (c, MTU ifi)
              end
  end.

Definition ndpListen (name : bytes) : result (ListenErr * option Socket) (Socket * Z) :=
  match InterfaceByName name with
  | None => Err (NoInterface, None)
  | Some ifi => dialNDP ifi
  end.

(** The octets one read of the conn can take. *)
Definition read_buffer (mtu : Z) : Z := Z.max mtu minIPv6MTU.

(** A conn that is handed out hears the all-routers group and reports hop
    limits; a socket that cannot is closed. *)
Lemma ndpListen_router name :
  match ndpListen name with
  | Ok (c, _) => (exists g, allRouters = Some g /\ JoinGroup c g = true) /\ SetControlMessage_HopLimit c = true
  | Err (e, opened) => (exists ifi, InterfaceByName name = Some ifi /\ ndp_Listen ifi = opened) \/ opened = None
  end.
Proof.
  unfold ndpListen, dialNDP. destruct (InterfaceByName name) as [ifi|]; [|by right].
  destruct (ndp_Listen ifi) as [c|] eqn:E; [|by right].
  unfold becomeRouter. destruct allRouters as [g|] eqn:Eg; [|left; by exists ifi].
  destruct (JoinGroup c g) eqn:Ej; [|left; by exists ifi]. cbn [check mbind result_bind].
  destruct (SetControlMessage_HopLimit c) eqn:Es; [|left; by exists ifi]. cbn. split; [by exists g|done].
Qed.
End Socket.

(** ** [Run] *)

Definition allNodes : option Addr := ParseAddr (bs "ff02::1").

(** What [Run] prepares: the advertisement and where it goes. *)
Definition run_prepare (cfg : Config) : result BuildErr (RouterAdvertisement * Addr) :=
  ra ← BuildRA cfg;
  match (if beqb (UnicastTarget cfg) [] then allNodes else ParseAddr (UnicastTarget cfg)) with
  | None => Err Panicked
  | Some dst => Ok (ra, dst)
  end.

(** A configuration that passes validation but has no advertisement: [OnStartup]
    succeeds, [Run] returns at once, and the conn it was given stays open. *)
Example prepare_can_fail :
  let cfg := {| Interface := bs "eth0"; c_ADN := bs "dns.example.com"; c_DohPath := []; UnicastTarget := [];
                c_Addrs := [bs "2001:db8::53"]; c_ALPN := [repeat Byte.x61 256]; AdvertisePrefixes := []; c_Port := 853;
                RouterLifetime := 0; AdvertiseRDNSS := true; AllowDefaultRouter := false; DryRun := false |} in
  Config_Validate cfg = Ok tt /\ exists e, run_prepare cfg = Err e /\ e <> Panicked.
Proof. split; [vm_compute; reflexivity|]. eexists. split; [vm_compute; reflexivity|discriminate]. Qed.

(** Building the advertisement panics for no configuration, and the two
    [MustParseAddr] of [Run] for none that passed [BuildRA]'s validation. *)
Lemma run_prepare_no_panic cfg : run_prepare cfg <> Err Panicked.
Proof.
  unfold run_prepare, BuildRA. destruct (Config_Validate cfg) as [[]|e] eqn:Ev; [|done].
  cbn [lift mbind result_bind]. apply Config_Validate_safe in Ev as (_ & _ & _ & _ & _ & _ & Ha).
  apply Forall_app in Ha as [Ha Hu]. destruct (must_parse_all_total _ Ha) as [addrs Hp].
  destruct (Encode _); [|done]. cbn [lift mbind result_bind]. rewrite Hp. cbn [mbind result_bind].
  destruct (ParseDomainName _); [|done]. cbn [lift mbind result_bind].
  destruct (Marshal _); [|done]. cbn [lift mbind result_bind].
  destruct (beqb (UnicastTarget cfg) []); [by vm_compute|].
  apply Forall_cons in Hu as [(ip & -> & _) _]. done.
Qed.

(** What [Run] returns: [BuildRA]'s error, or the context's. *)
Inductive RunErr := BuildFailed (e : BuildErr) | RunCancelled.

(** Where [Run] is: before [BuildRA], before its first look at the context,
    in the loop, waiting for the reader, or returned.  [m] is the
    advertisement and the destination its [send] closes over. *)
Inductive RunPC :=
| Entering | Starting (m : RouterAdvertisement * Addr) | Looping (m : RouterAdvertisement * Addr) (st : RunState)
| Joining | Returned (err : RunErr).
(** Where the reader is: not started, in [ReadFrom], offering a source on the
    channel, or gone with [rsDone] closed. *)
Inductive ReaderPC := NoReader | Reading | Offering (from : Addr) | ReaderDone.

Record World := mkWorld {
  pc : RunPC;
  rd : ReaderPC;
  ctxDone : bool;              (* the context was cancelled *)
  connClosed : bool;
  writes : list (RouterAdvertisement * Addr)   (* handed to [Conn.WriteTo], latest first *)
}.

Definition initial : World := mkWorld Entering NoReader false false [].

(** The arms of the two goroutines, and what the environment does to them. *)
Inductive Label :=
| LCancel | LMessage | LReadError
| LEnter | LFirst | LTimer | LSolicited | LStop | LJoin
| LUnblocked | LWithdraw.

(** What the Go scheduler must run sooner or later: every arm that needs
    nothing from outside. Timers, messages, errors of an open conn and the
    cancellation come when they come, or never. *)
Definition scheduled (l : Label) : bool :=
  match l with LEnter | LFirst | LStop | LJoin | LUnblocked | LWithdraw => true | _ => false end.

Section Run.
(** The configuration, the interval, and whether the conn is [nopConn]. *)
Variables (cfg : Config) (maxInterval : Z) (nop : bool).

(** [send]. *)
Definition send (m : RouterAdvertisement * Addr) (w : list (RouterAdvertisement * Addr)) :=
  if DryRun cfg then w else m :: w.

(** One message in [readSolicitations]. *)
Definition on_message (m : NdpMessage) (hopLimit : option Z) (from : Addr) : ReaderPC :=
  match m with
  | RouterSolicitation options => if validSolicitation options hopLimit from then Offering from else Reading
  | OtherMessage => Reading
  end.

Inductive world_step : Label -> World -> World -> Prop :=
(* the context *)
| w_cancel p r c ws : world_step LCancel (mkWorld p r false c ws) (mkWorld p r true c ws)
(* [Run]: [BuildRA] and the destination, or its error with the conn left as it is *)
| w_build_error r x c ws e :
    run_prepare cfg = Err e ->
    world_step LEnter (mkWorld Entering r x c ws) (mkWorld (Returned (BuildFailed e)) r x c ws)
| w_prepared r x c ws m :
    run_prepare cfg = Ok m -> world_step LEnter (mkWorld Entering r x c ws) (mkWorld (Starting m) r x c ws)
(* the first select *)
| w_stillborn m r c ws :
    world_step LFirst (mkWorld (Starting m) r true c ws) (mkWorld (Returned RunCancelled) r true true ws)
| w_start m t0 t1 d c ws :
    t0 <= t1 -> interval_draw maxInterval d ->
    world_step LFirst (mkWorld (Starting m) NoReader false c ws)
      (mkWorld (Looping m (run_start t0 t1 (nextInterval maxInterval d))) Reading false c (send m ws))
(* the loop's three arms, then the wait *)
| w_timer m st r x c ws now1 now2 now3 d :
    clock st <= now1 -> now1 <= now2 -> now2 <= now3 -> interval_draw maxInterval d ->
    world_step LTimer (mkWorld (Looping m st) r x c ws)
               (mkWorld (Looping m (run_timer st now1 now2 now3 (nextInterval maxInterval d))) r x c
                  (match (onTimer (sched st) now1 now2 now3 (nextInterval maxInterval d)).2 with
                   | Some _ => send m ws | None => ws end))
| w_solicited m st from x c ws now1 now2 delay :
    clock st <= now1 -> now1 <= now2 -> 0 <= delay < maxRADelay ->
    world_step LSolicited (mkWorld (Looping m st) (Offering from) x c ws)
               (mkWorld (Looping m (run_solicitation st now1 now2 delay)) Reading x c ws)
| w_stop m st r c ws : world_step LStop (mkWorld (Looping m st) r true c ws) (mkWorld Joining r true true ws)
| w_join x c ws :
    world_step LJoin (mkWorld Joining ReaderDone x c ws) (mkWorld (Returned RunCancelled) ReaderDone x c ws)
(* the reader: a message, an error of an open conn, the close that unblocks it, a cancelled offer *)
| w_message p x ws m hopLimit from :
    nop = false ->
    world_step LMessage (mkWorld p Reading x false ws) (mkWorld p (on_message m hopLimit from) x false ws)
| w_error p x ws :
    nop = false -> world_step LReadError (mkWorld p Reading x false ws) (mkWorld p ReaderDone x false ws)
| w_unblocked p x ws : world_step LUnblocked (mkWorld p Reading x true ws) (mkWorld p ReaderDone x true ws)
| w_withdraw p from c ws :
    world_step LWithdraw (mkWorld p (Offering from) true c ws) (mkWorld p ReaderDone true c ws).

Definition any_step (w w' : World) : Prop := exists l, world_step l w w'.
Definition reachable (w : World) : Prop := rtc any_step initial w.
Definition returned (w : World) : Prop := exists err, pc w = Returned err.

(** Whatever is scheduled, [Run] returns: it has, or some step is possible
    and after every possible one it does. *)
Inductive finishes : World -> Prop :=
| finished w : returned w -> finishes w
| finishing w : (exists w', any_step w w') -> (forall w', any_step w w' -> finishes w') -> finishes w.

(** ** Infinite executions *)

Definition enabled (l : Label) (w : World) : Prop := exists w', world_step l w w'.

(** An execution: at each instant one arm runs, or nothing does. *)
Definition execution (run : nat -> World) (lab : nat -> option Label) : Prop :=
  forall n, match lab n with
            | Some l => world_step l (run n) (run (S n))
            | None => run (S n) = run n
            end.

(** Again and again the arm is taken or cannot be: it is not passed over for
    ever while it is ready. *)
Definition weakly_fair (run : nat -> World) (lab : nat -> option Label) (l : Label) : Prop :=
  forall n, exists k, (n <= k)%nat /\ (lab k = Some l \/ ~ enabled l (run k)).

Definition fair_execution (run : nat -> World) (lab : nat -> option Label) : Prop :=
  execution run lab /\ forall l, scheduled l = true -> weakly_fair run lab l.

(** A state that holds until the arm [l] runs, and in which [l] is ready, is
    left: the rule for one step of a liveness argument. *)
Lemma leads_to run lab l (P Q : World -> Prop) :
  fair_execution run lab -> scheduled l = true ->
  (forall w l' w', P w -> world_step l' w w' -> P w' \/ Q w') ->
  (forall w, P w -> enabled l w) ->
  (forall w w', P w -> world_step l w w' -> Q w') ->
  forall n, P (run n) -> exists k, (n <= k)%nat /\ Q (run k).
Proof.
  intros [Hx Hf] Hl Hstay Hen Hgo n Hn. destruct (Hf l Hl n) as (k & Hk & Hor).
  assert (H : P (run k) \/ exists j, (n <= j)%nat /\ Q (run j)).
  { clear Hor. induction Hk as [|k Hk IH]; [by left|]. destruct IH as [IH|IH]; [|by right].
    pose proof (Hx k) as Hs. destruct (lab k) as [l'|]; [|rewrite Hs; by left].
    destruct (Hstay _ _ _ IH Hs) as [?|?]; [by left|]. right. exists (S k). split; [lia|done]. }
  destruct H as [H|H]; [|done]. destruct Hor as [E|E]; [|by destruct E; apply Hen].
  pose proof (Hx k) as Hs. rewrite E in Hs. exists (S k). split; [lia|]. by eapply Hgo.
Qed.

(** The reader lives exactly as long as [Run] needs it to. *)
Definition world_ok (w : World) : Prop :=
  Forall (fun a => run_prepare cfg = Ok a) (writes w) /\ (DryRun cfg = true -> writes w = []) /\
  match pc w with
  | Entering => rd w = NoReader /\ writes w = [] /\ connClosed w = false
  | Starting m => rd w = NoReader /\ writes w = [] /\ run_prepare cfg = Ok m
  | Looping m st => rd w <> NoReader /\ run_reachable maxInterval st /\ run_prepare cfg = Ok m /\
                    (DryRun cfg = false -> length (writes w) = length (sent st))
  | Joining => rd w <> NoReader /\ ctxDone w = true /\ connClosed w = true
  | Returned (BuildFailed e) => run_prepare cfg = Err e /\ rd w = NoReader /\ connClosed w = false /\ writes w = []
  | Returned RunCancelled => ctxDone w = true /\ connClosed w = true /\ (rd w = NoReader \/ rd w = ReaderDone)
  end.

Lemma send_ok m ws :
  run_prepare cfg = Ok m -> Forall (fun a => run_prepare cfg = Ok a) ws -> (DryRun cfg = true -> ws = []) ->
  Forall (fun a => run_prepare cfg = Ok a) (send m ws) /\ (DryRun cfg = true -> send m ws = []) /\
  (DryRun cfg = false -> length (send m ws) = S (length ws)).
Proof. unfold send. intros H0 H1 H2. destruct (DryRun cfg); split_and!; try done; by constructor. Qed.

Lemma on_message_reader m h from : on_message m h from <> NoReader.
Proof. destruct m; cbn; [by destruct (validSolicitation _ _ _)|done]. Qed.

(** Steps of the reader and of the context keep what [world_ok] says of [Run]. *)
Lemma world_step_ok l w w' : world_step l w w' -> world_ok w -> world_ok w'.
Proof.
  unfold world_ok.
  intros [p r c ws|r x c ws e He|r x c ws m Hm|m r c ws|m t0 t1 d c ws Ht Hd|m st r x c ws now1 now2 now3 d H1 H2 H3 Hd
         |m st from x c ws now1 now2 delay H1 H2 Hd|m st r c ws|x c ws|p x ws m h from Hn|p x ws Hn|p x ws|p from c ws];
    cbn [pc rd ctxDone connClosed writes]; intros (Hw & Hdry & H).
  - split_and!; [done|done|]. destruct p as [| | | |[]]; naive_solver.
  - destruct H as (-> & -> & ->). done.
  - destruct H as (-> & -> & ->). done.
  - destruct H as (-> & -> & _). split_and!; auto.
  - destruct H as (_ & -> & Hm). destruct (send_ok m [] Hm ltac:(constructor) ltac:(done)) as (S1 & S2 & S3).
    split_and!; [done|done|done|by constructor|done|done].
  - destruct H as (Hr & Hs & Hm & Hlen). destruct (send_ok m ws Hm Hw Hdry) as (S1 & S2 & S3).
    assert (Hrun : run_reachable maxInterval (run_timer st now1 now2 now3 (nextInterval maxInterval d)))
      by (eapply run_more; [exact Hs|by constructor]).
    unfold run_timer in *. destruct (onTimer _ _ _ _ _) as [s [t|]]; cbn [snd sent] in *; split_and!; try done.
    intros E. cbn. by rewrite S3, Hlen.
  - destruct H as (Hr & Hs & Hm & Hlen). split_and!; [done|done|done| |done|done].
    eapply run_more; [exact Hs|by constructor].
  - split_and!; naive_solver.
  - split_and!; [done|done|naive_solver..].
  - split_and!; [done|done|]. pose proof (on_message_reader m h from). destruct p as [| | | |[]]; naive_solver.
  - split_and!; [done|done|]. destruct p as [| | | |[]]; naive_solver.
  - split_and!; [done|done|]. destruct p as [| | | |[]]; naive_solver.
  - split_and!; [done|done|]. destruct p as [| | | |[]]; naive_solver.
Qed.

Lemma world_reachable_ok w : reachable w -> world_ok w.
Proof.
  assert (H0 : world_ok initial) by (unfold world_ok; cbn; split_and!; done).
  unfold reachable. revert H0. generalize initial as w0. induction 2 as [|w1 w2 w3 [l Hs] _ IH]; [done|].
  apply IH. by eapply world_step_ok.
Qed.

Lemma step_cancelled l w w' : world_step l w w' -> ctxDone w = true -> ctxDone w' = true.
Proof. by destruct 1. Qed.

(** Once the reader is gone, only the join is left. *)
Lemma joining_finishes x c ws : finishes (mkWorld Joining ReaderDone true c ws) /\
  (c = true -> x <> NoReader -> finishes (mkWorld Joining x true c ws)).
Proof.
  assert (Hdone : finishes (mkWorld Joining ReaderDone true c ws)).
  { apply finishing; [eexists; eexists; apply w_join|]. intros w' [l Hs]. inversion Hs; subst.
    apply finished. by eexists. }
  split; [done|]. intros -> Hx. destruct x as [| |from|]; [done| | |done].
  - apply finishing; [eexists; eexists; apply w_unblocked|]. intros w' [l Hs]. by inversion Hs; subst.
  - apply finishing; [eexists; eexists; apply w_withdraw|]. intros w' [l Hs]. by inversion Hs; subst.
Qed.

Lemma starting_finishes m c ws : finishes (mkWorld (Starting m) NoReader true c ws).
Proof.
  apply finishing; [eexists; eexists; apply w_stillborn|]. intros w' [l Hs]. inversion Hs; subst.
  apply finished. by eexists.
Qed.

Lemma entering_finishes c ws : finishes (mkWorld Entering NoReader true c ws).
Proof.
  apply finishing.
  - destruct (run_prepare cfg) as [m|e] eqn:E; eexists; eexists; [by apply w_prepared|by apply w_build_error].
  - intros w' [l Hs]. inversion Hs; subst; [|apply starting_finishes]. apply finished. by eexists.
Qed.

(** ** A fair execution returns once cancelled *)

Lemma execution_ok run lab : execution run lab -> world_ok (run O) -> forall n, world_ok (run n).
Proof.
  intros Hx H0. induction n as [|n IH]; [done|]. pose proof (Hx n) as Hs.
  destruct (lab n); [by eapply world_step_ok|by rewrite Hs].
Qed.

(** The cancelled states, by where [Run] and its reader are. *)
Definition at_pc (P : RunPC -> ReaderPC -> Prop) (w : World) : Prop :=
  world_ok w /\ ctxDone w = true /\ P (pc w) (rd w).

Lemma at_pc_step P l w w' :
  at_pc P w -> world_step l w w' -> P (pc w') (rd w') -> at_pc P w'.
Proof. intros (H & Hc & _) Hs HP. split_and!; [by eapply world_step_ok|by eapply step_cancelled|done]. Qed.

Ltac staged w Hs :=
  destruct w as [? ? ? ? ?]; unfold at_pc in *; cbn [pc rd ctxDone connClosed writes] in *;
  destruct_and?; subst; inversion Hs; subst; clear Hs; cbn [pc rd ctxDone connClosed writes] in *.

Section Fair.
Variables (run : nat -> World) (lab : nat -> option Label).
Hypothesis Hfair : fair_execution run lab.

Lemma join_returns n :
  at_pc (fun p r => p = Joining /\ r = ReaderDone) (run n) -> exists k, (n <= k)%nat /\ returned (run k).
Proof.
  apply (leads_to run lab LJoin); [done|done| | |].
  - intros w l w' Hw Hs. right. staged w Hs; try done. by eexists.
  - intros w (Hw & Hx & Hp & Hr). destruct w. cbn in *. subst. eexists. apply w_join.
  - intros w w' Hw Hs. staged w Hs. by eexists.
Qed.

Lemma reader_leaves n :
  at_pc (fun p r => p = Joining) (run n) ->
  exists k, (n <= k)%nat /\ at_pc (fun p r => p = Joining /\ r = ReaderDone) (run k).
Proof.
  intros Hn. pose proof Hn as (Hok & Hc & Hp). pose proof Hok as (_ & _ & H). rewrite Hp in H.
  destruct H as (Hr & _ & Hcl). destruct (rd (run n)) as [| |from|] eqn:Er; [done| | |].
  - revert Hn. intros _. assert (H : at_pc (fun p r => p = Joining /\ r = Reading) (run n)) by done. revert H.
    apply (leads_to run lab LUnblocked); [done|done| | |].
    + intros w l w' Hw Hs. pose proof (world_step_ok _ _ _ Hs (proj1 Hw)). right.
      pose proof (step_cancelled _ _ _ Hs (proj1 (proj2 Hw))).
      destruct Hw as ((_ & _ & Ho) & Hx & Ep & Er'). rewrite Ep in Ho. destruct Ho as (_ & _ & Ho).
      staged w Hs; try done.
    + intros w ((_ & _ & Ho) & Hx & Ep & Er'). rewrite Ep in Ho. destruct w. cbn in *. destruct_and?. subst.
      eexists. apply w_unblocked.
    + intros w w' Hw Hs. pose proof (world_step_ok _ _ _ Hs (proj1 Hw)). staged w Hs. done.
  - assert (H : at_pc (fun p r => p = Joining /\ r = Offering from) (run n)) by done. revert H.
    apply (leads_to run lab LWithdraw); [done|done| | |].
    + intros w l w' Hw Hs. pose proof (world_step_ok _ _ _ Hs (proj1 Hw)). right. staged w Hs; try done.
    + intros w (_ & Hx & Ep & Er'). destruct w. cbn in *. subst. eexists. apply w_withdraw.
    + intros w w' Hw Hs. pose proof (world_step_ok _ _ _ Hs (proj1 Hw)). staged w Hs. done.
  - exists n. done.
Qed.

Lemma loop_leaves m st n :
  at_pc (fun p _ => p = Looping m st) (run n) -> exists k, (n <= k)%nat /\ at_pc (fun p r => p = Joining) (run k).
Proof.
  intros Hn. assert (H : at_pc (fun p r => exists m st, p = Looping m st) (run n)).
  { destruct Hn as (? & ? & ?). split_and!; eauto. }
  revert H. apply (leads_to run lab LStop); [done|done| | |].
  - intros w l w' Hw Hs. pose proof (at_pc_step _ _ _ w' Hw Hs) as Hst.
    pose proof (world_step_ok _ _ _ Hs (proj1 Hw)). destruct Hw as (Hok & Hx & m' & st' & Ep).
    staged w Hs; try done; try solve [left; apply Hst; eauto]. by right.
  - intros w (_ & Hx & m' & st' & Ep). destruct w. cbn in *. subst. eexists. apply w_stop.
  - intros w w' (Hok & Hx & m' & st' & Ep) Hs. pose proof (world_step_ok _ _ _ Hs Hok). staged w Hs. done.
Qed.

Lemma start_returns m n :
  at_pc (fun p _ => p = Starting m) (run n) -> exists k, (n <= k)%nat /\ returned (run k).
Proof.
  intros Hn. assert (H : at_pc (fun p r => p = Starting m /\ r = NoReader) (run n)).
  { pose proof Hn as ((_ & _ & H) & _ & Ep). rewrite Ep in H. destruct H as (Hr & _). destruct Hn as (? & ? & ?). done. }
  revert H. apply (leads_to run lab LFirst); [done|done| | |].
  - intros w l w' Hw Hs. right. staged w Hs; try done. by eexists.
  - intros w (_ & Hx & Ep & _). destruct w. cbn in *. subst. eexists. apply w_stillborn.
  - intros w w' Hw Hs. staged w Hs. by eexists.
Qed.

Lemma enter_leaves n :
  at_pc (fun p _ => p = Entering) (run n) ->
  exists k, (n <= k)%nat /\ (returned (run k) \/ exists m, at_pc (fun p _ => p = Starting m) (run k)).
Proof.
  intros Hn. assert (H : at_pc (fun p r => p = Entering /\ r = NoReader) (run n)).
  { pose proof Hn as ((_ & _ & H) & _ & Ep). rewrite Ep in H. destruct H as (Hr & _). destruct Hn as (? & ? & ?). done. }
  revert H.
  apply (leads_to run lab LEnter _ (fun w => returned w \/ exists m, at_pc (fun p _ => p = Starting m) w)); [done|done| | |].
  - intros w l w' Hw Hs. right. pose proof (world_step_ok _ _ _ Hs (proj1 Hw)). staged w Hs; try done.
    + left. by eexists.
    + right. by exists m.
  - intros w (_ & Hx & Ep & _). destruct w. cbn in *. subst.
    destruct (run_prepare cfg) as [m|e] eqn:E; eexists; [by apply w_prepared|by apply w_build_error].
  - intros w w' Hw Hs. pose proof (world_step_ok _ _ _ Hs (proj1 Hw)). staged w Hs.
    + left. by eexists.
    + right. by exists m.
Qed.

Lemma cancelled_returns n :
  world_ok (run n) -> ctxDone (run n) = true -> exists k, (n <= k)%nat /\ returned (run k).
Proof.
  intros Hok Hc. destruct (pc (run n)) as [|m|m st| |err] eqn:Ep.
  - destruct (enter_leaves n) as (k & Hk & [Hr|(m & Hm)]); [done|by exists k|].
    destruct (start_returns m k Hm) as (k' & ? & ?). exists k'. split; [lia|done].
  - by apply (start_returns m).
  - destruct (loop_leaves m st n) as (k & Hk & Hj); [done|]. destruct (reader_leaves k Hj) as (k1 & ? & Hd).
    destruct (join_returns k1 Hd) as (k2 & ? & ?). exists k2. split; [lia|done].
  - destruct (reader_leaves n) as (k1 & ? & Hd); [done|].
    destruct (join_returns k1 Hd) as (k2 & ? & ?). exists k2. split; [lia|done].
  - exists n. split; [done|by exists err].
Qed.
End Fair.

(** C12: the advertiser stops when told to and takes its reader along, for
    the configuration [Run] was given.  In every state that any interleaving
    of [Run], its reader, messages, errors and the cancellation of the context
    can reach: (1) everything written is the advertisement [BuildRA] makes of
    the configuration, to the destination the configuration names, and nothing
    is written in a dry run; (2) in the loop the schedule is one that
    [run_reachable] bounds, with one write for each advertisement it counts;
    (3) when [Run] has returned no reader is left and no goroutine has a step,
    and either the advertisement could not be built, which leaves the conn
    open and nothing written, or the context was cancelled and the conn is
    closed.  Once the context is cancelled (4) outside the loop [Run] returns
    whatever is scheduled, within finitely many steps and never stuck, and (5)
    from anywhere, the loop included, every infinite execution reaches the
    return in which the goroutines' arms are not passed over for ever while
    they are ready. *)
Theorem run_shuts_down w :
  reachable w ->
  ((forall ra d, (ra, d) ∈ writes w ->
      BuildRA cfg = Ok ra /\
      (if beqb (UnicastTarget cfg) [] then allNodes else ParseAddr (UnicastTarget cfg)) = Some d) /\
   (DryRun cfg = true -> writes w = [])) /\
  (forall m st, pc w = Looping m st ->
     run_reachable maxInterval st /\ (DryRun cfg = false -> length (writes w) = length (sent st))) /\
  (forall err, pc w = Returned err ->
     (rd w = NoReader \/ rd w = ReaderDone) /\
     (forall l w', world_step l w w' -> l = LCancel /\ pc w' = pc w /\ rd w' = rd w /\ connClosed w' = connClosed w) /\
     match err with
     | BuildFailed e => run_prepare cfg = Err e /\ e <> Panicked /\ connClosed w = false /\ writes w = []
     | RunCancelled => ctxDone w = true /\ connClosed w = true
     end) /\
  (ctxDone w = true -> (forall m st, pc w <> Looping m st) -> finishes w) /\
  (forall (run : nat -> World) (lab : nat -> option Label) n, fair_execution run lab -> run O = w -> ctxDone (run n) = true ->
     exists k, (n <= k)%nat /\ returned (run k)).
Proof.
  intros Hr. apply world_reachable_ok in Hr as Hok. pose proof Hok as (Hw & Hdry & H). split_and!; [|done| | | |].
  - intros ra d Hin. rewrite Forall_forall in Hw. specialize (Hw _ Hin). clear -Hw. revert Hw. unfold run_prepare.
    destruct (BuildRA cfg) as [ra'|e]; [|done]. cbn [mbind result_bind].
    destruct (if beqb (UnicastTarget cfg) [] then allNodes else _) as [d'|]; [|done]. by intros [= -> ->].
  - intros m st Ep. rewrite Ep in H. destruct H as (_ & ? & _ & ?). done.
  - intros err Ep. destruct w as [p r x c ws]. cbn [pc rd ctxDone connClosed writes] in *. subst p.
    assert (Hrd : r = NoReader \/ r = ReaderDone) by (destruct err; naive_solver). split_and!; [done| |].
    + intros l w' Hs. inversion Hs; subst; try done; by destruct Hrd.
    + destruct err as [e|]; [|naive_solver]. destruct H as (He & _ & -> & ->). split_and!; try done.
      intros ->. by apply (run_prepare_no_panic cfg).
  - intros Hx Hnl. destruct w as [p r x c ws]. cbn [pc rd ctxDone connClosed writes] in *. subst x.
    destruct p as [|m|m st| |err].
    + destruct H as (-> & _). apply entering_finishes.
    + destruct H as (-> & _). apply starting_finishes.
    + by destruct (Hnl m st).
    + destruct H as (Hrd & _ & ->). by apply joining_finishes.
    + apply finished. by eexists.
  - intros run lab n Hf E Hc. subst w. apply (cancelled_returns run lab Hf); [|done].
    by apply (execution_ok run lab (proj1 Hf)).
Qed.
End Run.

(** A dry run through its whole life: built, started, cancelled in the loop
    while its reader blocks, unblocked by the close, joined. *)
Lemma run_shuts_down_witness :
  let cfg := {| Interface := bs "eth0"; c_ADN := bs "dns.example.com"; c_DohPath := []; UnicastTarget := [];
                c_Addrs := [bs "2001:db8::53"]; c_ALPN := [bs "dot"]; AdvertisePrefixes := []; c_Port := 853;
                RouterLifetime := 0; AdvertiseRDNSS := true; AllowDefaultRouter := false; DryRun := true |} in
  exists m, run_prepare cfg = Ok m /\
  let s := run_start 0 0 (nextInterval (200 * second) 0) in
  let run (n : nat) := match n with
    | 0%nat => initial
    | 1%nat => mkWorld (Starting m) NoReader false false []
    | 2%nat => mkWorld (Looping m s) Reading false false []
    | 3%nat => mkWorld (Looping m s) Reading true false []
    | 4%nat => mkWorld Joining Reading true true []
    | 5%nat => mkWorld Joining ReaderDone true true []
    | _ => mkWorld (Returned RunCancelled) ReaderDone true true []
    end in
  exists k, (3 <= k)%nat /\ returned (run k).
Proof.
  intros cfg.
  destruct (run_prepare cfg) as [m|e] eqn:Hm; [|exfalso; vm_compute in Hm; discriminate].
  exists m. split; [done|]. intros s run.
  set (lab := fun n : nat => match n with
    | 0%nat => Some LEnter | 1%nat => Some LFirst | 2%nat => Some LCancel | 3%nat => Some LStop
    | 4%nat => Some LUnblocked | 5%nat => Some LJoin | _ => None end).
  refine (proj2 (proj2 (proj2 (proj2 (run_shuts_down cfg (200 * second) true initial (rtc_refl _ _))))) run lab 3%nat _ eq_refl eq_refl).
  split.
  - intros n. destruct n as [|n]; [by apply w_prepared|].
    destruct n as [|n].
    { apply (w_start cfg (200 * second) true m 0 0 0); [lia|]. left. split; [lia|vm_compute; reflexivity]. }
    do 4 (destruct n as [|n]; [cbn; constructor|]). done.
  - intros l _ n. exists (n + 6)%nat. split; [lia|]. right. rewrite Nat.add_comm. intros [w' Hs]. inversion Hs.
Defined.
