(* ===== verification/SniTls.v ===== *)
(** * Certificate selection by SNI ([sni_tls/sni_tls.go])

    The certificate store, its loading from files and the
    [tls.Config.GetCertificate] callback.  What Go's TLS and X.509 packages
    make of files is the environment: [LoadX509KeyPair] over the current
    files, [ParseCertificate] over a chain's first element. *)

From S2P Require Import Prelude GoStrings.

(** The fields of an [x509.Certificate] and a [tls.Certificate] the plugin
    reads. *)
Record LeafCert := { DNSNames : list bytes; IPAddresses : list bytes }.
Record Certificate := { chain_der : list bytes; Leaf : option LeafCert }.

Inductive noSNIPolicy := noSNIAsUnmatched | noSNIRefuse | noSNIFallback | noSNICertificate.

#[global] Instance noSNIPolicy_eq_dec : EqDecision noSNIPolicy.
Proof. solve_decision. Defined.

Record certStore := {
  byName : gmap bytes Certificate;
  bySuffix : option (gmap bytes Certificate);
  fallback : option Certificate;
  noSNICert : option Certificate;
  noSNI : noSNIPolicy;
  strict : bool
}.

Record storeConfig := {
  sc_noSNIPair : bytes * bytes;
  sc_pairs : list (bytes * bytes);
  sc_noSNI : noSNIPolicy;
  sc_strict : bool
}.

Definition files (c : storeConfig) : list (bytes * bytes) :=
  if negb (bool_decide (sc_noSNI c = noSNICertificate)) then sc_pairs c
  else sc_pairs c ++ [sc_noSNIPair c].

(** ** The handshake *)

(** [tls.ClientHelloInfo]: [hello_conn] is [None] for a nil Conn, then the
    network of its local address, [None] for a nil address. *)
Record ClientHello := { ServerName : bytes; hello_conn : option (option bytes) }.

Definition alertMissingExtension : Z := 109.

(** The callback's result: a certificate (Go's nil is [None]) or a TLS alert
    error. *)
Abbreviation answer := (result Z (option Certificate)).

Definition overQUIC (hello : ClientHello) : bool :=
  match hello_conn hello with
  | None => false
  | Some None => false
  | Some (Some network) => beqb network (bs "udp")
  end.

Definition refuseNoSNI (hello : ClientHello) : answer :=
  if overQUIC hello then Err alertMissingExtension else Ok None.

(** [asciiLower]: the prefix without an upper-case letter is kept, the rest
    folded byte by byte. *)
Fixpoint asciiLower (s : bytes) : bytes :=
  match s with
  | [] => []
  | c :: t => if negb ((65 <=? b2z c) && (b2z c <=? 90)) then c :: asciiLower t
              else (fun c => if (65 <=? b2z c) && (b2z c <=? 90) then z2b (b2z c + 32) else c) <$> s
  end.

Definition byte_dot : byte := Byte.x2e.
Definition byte_star : byte := Byte.x2a.

Definition validPresentedName (name : bytes) : bool :=
  match count_byte name byte_star with
  | O => true
  | S O => has_prefix (bs "*.") name && (zlen (bs "*.") <? zlen name)
  | _ => false
  end.

Definition wildcardOf (name : bytes) : option bytes :=
  match index_byte name byte_dot with
  | None => None
  | Some O => None
  | Some i => Some (byte_star :: drop i name)
  end.

Definition wildcardFor (s : certStore) (name : bytes) : option Certificate :=
  match bySuffix s with
  | Some m =>
      match index_byte name byte_dot with
      | None => None
      | Some O => None
      | Some i => m !! drop i name
      end
  | None => match wildcardOf name with None => None | Some w => byName s !! w end
  end.

(** The last two statements of [GetCertificate]. *)
Definition unmatched (s : certStore) : answer := if strict s then Ok None else Ok (fallback s).

Definition GetCertificate (s : certStore) (hello : ClientHello) : answer :=
  if beqb (ServerName hello) [] then
    match noSNI s with
    | noSNIRefuse => refuseNoSNI hello
    | noSNIFallback => Ok (fallback s)
    | noSNICertificate => match noSNICert s with None => refuseNoSNI hello | Some c => Ok (Some c) end
    | noSNIAsUnmatched => if strict s then refuseNoSNI hello else unmatched s
    end
  else
    let name := asciiLower (ServerName hello) in
    match byName s !! name with
    | Some c => Ok (Some c)
    | None => match wildcardFor s name with Some c => Ok (Some c) | None => unmatched s end
    end.

(** ** Loading *)

Inductive LoadErr := FileMissing | BrokenPair | NoCertificate | BrokenLeaf | NoNames | AllMissing.

#[global] Instance LoadErr_eq_dec : EqDecision LoadErr.
Proof. solve_decision. Defined.

(** [isMissingFile]. *)
Definition isMissingFile (e : LoadErr) : bool := bool_decide (e = FileMissing).

Section Loading.
(** [tls.LoadX509KeyPair] over the files as they are ([FileMissing] or
    [BrokenPair] on failure), and [x509.ParseCertificate]. *)
Variable LoadX509KeyPair : bytes -> bytes -> result LoadErr (list bytes).
Variable ParseCertificate : bytes -> option LeafCert.

Definition loadAnyCert (certFile keyFile : bytes) : result LoadErr Certificate :=
  ders ← LoadX509KeyPair certFile keyFile;
  match ders with
  | [] => Err NoCertificate
  | d :: _ => match ParseCertificate d with
              | None => Err BrokenLeaf
              | Some leaf => Ok {| chain_der := ders; Leaf := Some leaf |}
              end
  end.

(** The names [loadCert] keys a certificate on. *)
Definition san_names (leaf : LeafCert) : list bytes :=
  asciiLower <$> List.filter validPresentedName (DNSNames leaf).

Definition loadCert (certFile keyFile : bytes) : result LoadErr (Certificate * list bytes) :=
  ders ← LoadX509KeyPair certFile keyFile;
  match ders with
  | [] => Err NoCertificate
  | d :: _ => match ParseCertificate d with
              | None => Err BrokenLeaf
              | Some leaf =>
                  match san_names leaf with
                  | [] => Err NoNames
                  | names => Ok ({| chain_der := ders; Leaf := Some leaf |}, names)
                  end
              end
  end.

Definition set_maps (s : certStore) (n : gmap bytes Certificate) (x : option (gmap bytes Certificate))
  : certStore :=
  {| byName := n; bySuffix := x; fallback := fallback s; noSNICert := noSNICert s;
     noSNI := noSNI s; strict := strict s |}.

Definition set_fallback (s : certStore) (c : Certificate) : certStore :=
  {| byName := byName s; bySuffix := bySuffix s;
     fallback := match fallback s with None => Some c | f => f end;
     noSNICert := noSNICert s; noSNI := noSNI s; strict := strict s |}.

(** One name of a loaded certificate. *)
Definition add_name (c : Certificate) (s : certStore) (name : bytes) : certStore :=
  let n := <[name := c]> (byName s) in
  match cut_prefix [byte_star] name with
  | Some suffix => set_maps s n ((fun x => <[suffix := c]> x) <$> bySuffix s)
  | None => set_maps s n (bySuffix s)
  end.

(** The loop of [buildCertStore] over the pairs: the store, and how many
    pairs were missing. *)
Fixpoint load_pairs (pairs : list (bytes * bytes)) (s : certStore) (missing : nat)
  : result LoadErr (certStore * nat) :=
  match pairs with
  | [] => Ok (s, missing)
  | p :: rest =>
      match loadCert p.1 p.2 with
      | Err e => if isMissingFile e then load_pairs rest s (S missing) else Err e
      | Ok (cert, names) => load_pairs rest (foldl (add_name cert) (set_fallback s cert) names) missing
      end
  end.

Definition loadNoSNI (cfg : storeConfig) (s : certStore) : result LoadErr certStore :=
  match sc_noSNI cfg with
  | noSNICertificate =>
      match loadAnyCert (sc_noSNIPair cfg).1 (sc_noSNIPair cfg).2 with
      | Err e => if negb (isMissingFile e) then Err e else Ok s
      | Ok cert => Ok {| byName := byName s; bySuffix := bySuffix s; fallback := fallback s;
                         noSNICert := Some cert; noSNI := noSNI s; strict := strict s |}
      end
  | _ => Ok s
  end.

Definition empty_store (cfg : storeConfig) : certStore :=
  {| byName := ∅; bySuffix := Some ∅; fallback := None; noSNICert := None;
     noSNI := sc_noSNI cfg; strict := sc_strict cfg |}.

Definition buildCertStore (cfg : storeConfig) : result LoadErr certStore :=
  '(s, missing) ← load_pairs (sc_pairs cfg) (empty_store cfg) 0;
  if match fallback s with None => true | Some _ => false end
     && (0 <? zlen (sc_pairs cfg)) && (missing =? length (sc_pairs cfg))%nat
  then Err AllMissing
  else loadNoSNI cfg s.

(** *** Lemmas *)

(** The certificates a store was loaded with, by name: [c] comes from one of
    the pairs and is keyed on [n]. *)
Definition loaded_for (pairs : list (bytes * bytes)) (n : bytes) (c : Certificate) : Prop :=
  exists p names, p ∈ pairs /\ loadCert p.1 p.2 = Ok (c, names) /\ n ∈ names.

(** The suffix index holds the wildcards, under the rest of the name. *)
Definition index_ok (s : certStore) : Prop :=
  exists m, bySuffix s = Some m /\ forall x, m !! x = byName s !! (byte_star :: x).

Lemma cut_star_spec name suffix :
  cut_prefix [byte_star] name = Some suffix <-> name = byte_star :: suffix.
Proof. rewrite cut_prefix_spec. done. Qed.

Lemma add_name_spec c s name :
  byName (add_name c s name) = <[name := c]> (byName s) /\
  fallback (add_name c s name) = fallback s /\ noSNI (add_name c s name) = noSNI s /\
  strict (add_name c s name) = strict s /\ noSNICert (add_name c s name) = noSNICert s /\
  (index_ok s -> index_ok (add_name c s name)).
Proof.
  unfold add_name. destruct (cut_prefix [byte_star] name) as [suffix|] eqn:E; cbn; split_and!; try done.
  - apply cut_star_spec in E as ->. intros (m & Hm & Hx). eexists. cbn. rewrite Hm. split; [done|].
    intros x. destruct (decide (x = suffix)) as [->|Hn]; [by rewrite !lookup_insert_eq|].
    rewrite !lookup_insert_ne by congruence. apply Hx.
  - intros (m & Hm & Hx). exists m. cbn. split; [done|]. intros x. rewrite lookup_insert_ne; [apply Hx|].
    intros ->. assert (cut_prefix [byte_star] (byte_star :: x) = Some x) by (by apply cut_star_spec). congruence.
Qed.

Lemma add_names_spec c names s :
  (forall n d, byName (foldl (add_name c) s names) !! n = Some d ->
     byName s !! n = Some d \/ d = c /\ n ∈ names) /\
  (forall n, n ∈ names -> byName (foldl (add_name c) s names) !! n = Some c) /\
  (forall n, n ∉ names -> byName (foldl (add_name c) s names) !! n = byName s !! n) /\
  fallback (foldl (add_name c) s names) = fallback s /\ noSNI (foldl (add_name c) s names) = noSNI s /\
  strict (foldl (add_name c) s names) = strict s /\ noSNICert (foldl (add_name c) s names) = noSNICert s /\
  (index_ok s -> index_ok (foldl (add_name c) s names)).
Proof.
  revert s. induction names as [|x t IH]; intros s; cbn [foldl].
  { split_and!; try done; [by left|by intros n []%elem_of_nil]. }
  destruct (add_name_spec c s x) as (E1 & E2 & E3 & E4 & E5 & E6).
  destruct (IH (add_name c s x)) as (I1 & I2 & I3 & I4 & I5 & I6 & I7 & I8).
  split_and!; try congruence; [| | |auto].
  - intros n d Hd. apply I1 in Hd as [Hd|[-> Hn]]; [|right; split; [done|by right]].
    rewrite E1 in Hd. apply lookup_insert_Some in Hd as [[<- <-]|[_ Hd]]; [right; split; [done|by left]|by left].
  - intros n Hn. destruct (decide (n ∈ t)) as [Ht|Ht]; [by apply I2|].
    apply elem_of_cons in Hn as [->|?]; [|done]. rewrite I3, E1 by done. apply lookup_insert_eq.
  - intros n Hn. apply not_elem_of_cons in Hn as [Hx Ht]. rewrite I3, E1 by done.
    by rewrite lookup_insert_ne.
Qed.

Lemma load_pairs_inv pairs all s missing s' missing' :
  (forall p, p ∈ pairs -> p ∈ all) -> load_pairs pairs s missing = Ok (s', missing') ->
  index_ok s -> (forall n c, byName s !! n = Some c -> loaded_for all n c) ->
  index_ok s' /\ (forall n c, byName s' !! n = Some c -> loaded_for all n c) /\
  noSNI s' = noSNI s /\ strict s' = strict s /\ noSNICert s' = noSNICert s /\
  (forall n, byName s' !! n = None -> byName s !! n = None).
Proof.
  revert s missing. induction pairs as [|p rest IH]; intros s missing Hall H Hi Hb; cbn [load_pairs] in H.
  { injection H as <- _. done. }
  assert (Hrest : forall q, q ∈ rest -> q ∈ all) by (intros q Hq; apply Hall; by right).
  destruct (loadCert p.1 p.2) as [[c names]|e] eqn:El.
  - destruct (add_names_spec c names (set_fallback s c)) as (A1 & A2 & A3 & A4 & A5 & A6 & A7 & A8).
    apply IH in H as (H1 & H2 & H3 & H4 & H5 & H6); [| done | apply A8; exact Hi |].
    + rewrite H3, H4, H5, A5, A6, A7. split_and!; try done. intros n Hn. apply H6 in Hn.
      destruct (decide (n ∈ names)); [by rewrite A2 in Hn|by rewrite A3 in Hn].
    + intros n d Hd. apply A1 in Hd as [Hd|[-> Hn]]; [by apply Hb|].
      exists p, names. split_and!; [apply Hall; left|done|done].
  - destruct (isMissingFile e); [|done]. by apply IH in H.
Qed.

Lemma loadNoSNI_spec cfg s s' :
  loadNoSNI cfg s = Ok s' ->
  byName s' = byName s /\ bySuffix s' = bySuffix s /\ fallback s' = fallback s /\
  noSNI s' = noSNI s /\ strict s' = strict s /\
  noSNICert s' = (if bool_decide (sc_noSNI cfg = noSNICertificate) then
                    match loadAnyCert (sc_noSNIPair cfg).1 (sc_noSNIPair cfg).2 with
                    | Ok c => Some c | Err _ => noSNICert s end
                  else noSNICert s).
Proof.
  unfold loadNoSNI. destruct (sc_noSNI cfg); try (by intros [= <-]).
  rewrite bool_decide_eq_true_2 by done.
  destruct (loadAnyCert _ _) as [c|e]; [by intros [= <-]|]. destruct (isMissingFile e); [|done]. by intros [= <-].
Qed.

Lemma build_inv cfg s :
  buildCertStore cfg = Ok s ->
  index_ok s /\ (forall n c, byName s !! n = Some c -> loaded_for (sc_pairs cfg) n c) /\
  noSNI s = sc_noSNI cfg /\ strict s = sc_strict cfg.
Proof.
  unfold buildCertStore. intros H. apply bind_ok in H as ([s1 missing] & Hl & H).
  apply (load_pairs_inv _ (sc_pairs cfg)) in Hl as (H1 & H2 & H3 & H4 & _ & _); [|done| |].
  - destruct (_ && _); [done|]. apply loadNoSNI_spec in H as (E1 & E2 & _ & E4 & E5 & _).
    unfold index_ok. rewrite E1, E2, E4, E5. done.
  - exists ∅. split; [done|]. intros x. by rewrite !lookup_empty.
  - intros n c Hn. cbn [empty_store byName] in Hn. by rewrite lookup_empty in Hn.
Qed.

End Loading.

Lemma asciiLower_spec s : asciiLower s = lower s.
Proof.
  assert (Hb : forall c, (if (65 <=? b2z c) && (b2z c <=? 90) then z2b (b2z c + 32) else c) = lower_byte c).
  { intros c. by destruct c. }
  induction s as [|c t IH]; [done|]. cbn [asciiLower lower map].
  destruct ((65 <=? b2z c) && (b2z c <=? 90)) eqn:E; cbn [negb].
  - apply list_eq. intros i. rewrite list_lookup_fmap.
    change (lower_byte c :: map lower_byte t) with (lower_byte <$> (c :: t)). rewrite list_lookup_fmap.
    destruct ((c :: t) !! i); [|done]. cbn. by rewrite Hb.
  - specialize (Hb c). rewrite E in Hb. rewrite <- Hb. f_equal. exact IH.
Qed.

(** ** What a built store serves *)

Section Serving.
Variable LoadX509KeyPair : bytes -> bytes -> result LoadErr (list bytes).
Variable ParseCertificate : bytes -> option LeafCert.
Abbreviation load := (loadCert LoadX509KeyPair ParseCertificate).
Abbreviation build := (buildCertStore LoadX509KeyPair ParseCertificate).

(** RFC 9525's match of a presented DNS name, a wildcard standing for one
    whole label, both already folded. *)
Definition presented_match (n name : bytes) : Prop :=
  n = name \/
  exists label rest, label <> [] /\ byte_dot ∉ label /\
    name = label ++ byte_dot :: rest /\ n = byte_star :: byte_dot :: rest.

Lemma wildcardOf_spec name w :
  wildcardOf name = Some w <->
  exists label rest, label <> [] /\ byte_dot ∉ label /\
    name = label ++ byte_dot :: rest /\ w = byte_star :: byte_dot :: rest.
Proof.
  unfold wildcardOf. split.
  - destruct (index_byte name byte_dot) as [i|] eqn:E; [|done].
    apply index_byte_spec in E as (l & r & -> & <- & Hn).
    destruct l as [|b l]; [done|]. cbn [length]. intros [= <-]. exists (b :: l), r.
    split_and!; [done..|]. f_equal. exact (drop_app_length (b :: l) (byte_dot :: r)).
  - intros (label & rest & Hl & Hd & -> & ->). rewrite index_byte_app by done.
    destruct label as [|b label]; [done|]. cbn [length]. do 2 f_equal.
    exact (drop_app_length (b :: label) (byte_dot :: rest)).
Qed.

Lemma wildcardFor_spec s name :
  index_ok s -> wildcardFor s name = (w ← wildcardOf name; byName s !! w).
Proof.
  intros (m & Hm & Hx). unfold wildcardFor, wildcardOf. rewrite Hm.
  destruct (index_byte name byte_dot) as [[|i]|]; [done| |done]. cbn. apply Hx.
Qed.

(** The suffix index is only an optimisation. In every store built from
    files, looking a name's wildcard up by its suffix gives what looking the
    wildcard form up by name gives, so a name matched neither way is matched
    by no loaded certificate. *)
Theorem wildcard_index_exact (cfg : storeConfig) (s : certStore) (name : bytes) :
  build cfg = Ok s ->
  wildcardFor s name
  = wildcardFor {| byName := byName s; bySuffix := None; fallback := fallback s;
                   noSNICert := noSNICert s; noSNI := noSNI s; strict := strict s |} name /\
  (byName s !! asciiLower name = None -> wildcardFor s (asciiLower name) = None ->
   forall n, is_Some (byName s !! n) -> ~ presented_match n (asciiLower name)).
Proof.
  intros H. apply build_inv in H as (Hi & _ & _ & _). split.
  - rewrite wildcardFor_spec by done. unfold wildcardFor; cbn. by destruct (wildcardOf name).
  - intros H1 H2 n [c Hn] [->|Hw]; [congruence|]. apply wildcardOf_spec in Hw.
    rewrite wildcardFor_spec in H2 by done. rewrite Hw in H2. cbn in H2. congruence.
Qed.

(** A store's answer to a name, without its fallback. *)
Definition lookup_name (s : certStore) (name : bytes) : option Certificate :=
  match byName s !! name with Some c => Some c | None => w ← wildcardOf name; byName s !! w end.

Lemma lookup_name_match s name c :
  lookup_name s name = Some c ->
  exists n, byName s !! n = Some c /\ presented_match n name.
Proof.
  unfold lookup_name. destruct (byName s !! name) as [d|] eqn:E.
  - intros [= <-]. exists name. split; [done|by left].
  - intros H. apply bind_Some in H as (w & Hw & Hc). exists w. split; [done|].
    right. by apply wildcardOf_spec.
Qed.

Lemma lookup_name_None s name n :
  lookup_name s name = None -> is_Some (byName s !! n) -> ~ presented_match n name.
Proof.
  unfold lookup_name. intros H [c Hn]. destruct (byName s !! name) eqn:E; [done|].
  intros [->|Hw%wildcardOf_spec]; [congruence|]. rewrite Hw in H. cbn in H. congruence.
Qed.

Lemma GetCertificate_named s hello :
  index_ok s -> ServerName hello <> [] ->
  GetCertificate s hello = match lookup_name s (lower (ServerName hello)) with
                           | Some c => Ok (Some c) | None => unmatched s end.
Proof.
  intros Hi Hn. apply beqb_false in Hn. unfold GetCertificate, lookup_name.
  rewrite Hn, asciiLower_spec, wildcardFor_spec by done. by case_match.
Qed.

(** *** Which certificate carries a name *)

(** A name a client may match (RFC 9525, section 6.3): without a star, or a
    star for the whole leftmost label. *)
Definition matchable (m : bytes) : Prop :=
  byte_star ∉ m \/
  exists rest, rest <> [] /\ byte_star ∉ rest /\ m = byte_star :: byte_dot :: rest.

Lemma validPresentedName_spec m : validPresentedName m = true <-> matchable m.
Proof.
  assert (Hp : forall r, count_byte (byte_star :: byte_dot :: r) byte_star = S (count_byte r byte_star)) by done.
  unfold validPresentedName, matchable. split.
  - destruct (count_byte m byte_star) as [|[|n]] eqn:E; [intros _; left; by apply count_byte_0| |done].
    intros [H Hl]%andb_true_iff. right. apply has_prefix_spec in H as [r ->].
    change (bs "*." ++ r) with (byte_star :: byte_dot :: r) in *. rewrite Hp in E. exists r. split_and!.
    + by intros ->.
    + apply count_byte_0. congruence.
    + done.
  - intros [->%count_byte_0|(r & Hr & Hs%count_byte_0 & ->)]; [done|]. rewrite Hp, Hs. apply andb_true_iff.
    split; [apply has_prefix_spec; by exists r|]. destruct r; [done|]. apply Z.ltb_lt.
    unfold zlen. cbn. lia.
Qed.

(** The pair's files load, to a chain whose first certificate lists [n], in
    some case, among its DNS names; [c] is that chain with that leaf. *)
Definition carries (p : bytes * bytes) (n : bytes) (c : Certificate) : Prop :=
  exists leaf d m, LoadX509KeyPair p.1 p.2 = Ok (chain_der c) /\ Leaf c = Some leaf /\
    head (chain_der c) = Some d /\ ParseCertificate d = Some leaf /\
    m ∈ DNSNames leaf /\ matchable m /\ n = lower m.

(** [c] is the certificate of the last configured pair that carries [n]. *)
Definition carried (pairs : list (bytes * bytes)) (n : bytes) (c : Certificate) : Prop :=
  exists before p after, pairs = before ++ p :: after /\ carries p n c /\
    forall q d, q ∈ after -> ~ carries q n d.

Definition uncarried (pairs : list (bytes * bytes)) (n : bytes) : Prop :=
  forall p c, p ∈ pairs -> ~ carries p n c.

Lemma san_names_spec leaf n :
  n ∈ san_names leaf <-> exists m, m ∈ DNSNames leaf /\ matchable m /\ n = lower m.
Proof.
  unfold san_names. rewrite list_elem_of_fmap. setoid_rewrite list_elem_of_In at 1.
  setoid_rewrite filter_In. setoid_rewrite <- list_elem_of_In. setoid_rewrite validPresentedName_spec.
  setoid_rewrite asciiLower_spec. naive_solver.
Qed.

Lemma loadCert_carries p n c :
  (exists names, load p.1 p.2 = Ok (c, names) /\ n ∈ names) <-> carries p n c.
Proof.
  unfold loadCert, carries. split.
  - intros (names & H & Hn). apply bind_ok in H as (ders & Hd & H). destruct ders as [|d ds]; [done|].
    destruct (ParseCertificate d) as [leaf|] eqn:El; [|done].
    destruct (san_names leaf) as [|x t] eqn:Es; [done|]. injection H as <- <-.
    rewrite <- Es in Hn. apply san_names_spec in Hn as (m & Hm). by exists leaf, d, m.
  - intros (leaf & d & m & Hd & Hl & Hh & Hp & Hm). exists (san_names leaf).
    assert (Hn : n ∈ san_names leaf) by (apply san_names_spec; by exists m).
    split; [|done]. rewrite Hd. destruct c as [ders lf]. cbn in *. subst lf.
    destruct ders as [|d' ds]; [done|]. injection Hh as ->. cbn. rewrite Hp.
    destruct (san_names leaf); [by apply elem_of_nil in Hn|done].
Qed.

(** A name is served from the last pair that carries it. *)
Lemma load_pairs_last pairs s m s' m' n :
  load_pairs LoadX509KeyPair ParseCertificate pairs s m = Ok (s', m') ->
  (exists c, byName s' !! n = Some c /\ carried pairs n c) \/
  byName s' !! n = byName s !! n /\ uncarried pairs n.
Proof.
  revert s m. induction pairs as [|p rest IH]; intros s m H; cbn [load_pairs] in H.
  { injection H as <- _. right. split; [done|]. by intros p c Hp%elem_of_nil. }
  assert (Hrest : (exists c, byName s' !! n = Some c /\ carried rest n c) ->
    exists c, byName s' !! n = Some c /\ carried (p :: rest) n c).
  { intros (c & Hc & b & q & a & -> & Hq). exists c. split; [done|]. by exists (p :: b), q, a. }
  assert (Hnot : uncarried rest n -> (forall c, ~ carries p n c) -> uncarried (p :: rest) n).
  { intros Hu Hp q c [->|Hq]%elem_of_cons; [apply Hp|by apply Hu]. }
  destruct (load p.1 p.2) as [[c names]|e] eqn:El.
  - destruct (add_names_spec c names (set_fallback s c)) as (_ & A2 & A3 & _).
    apply IH in H as [H|[H Hu]]; [left; by apply Hrest|].
    destruct (decide (n ∈ names)) as [Hn|Hn].
    + left. exists c. rewrite H, A2 by done. split; [done|]. exists [], p, rest. split_and!; [done| |exact (fun q d => Hu q d)].
      apply loadCert_carries. by exists names.
    + right. rewrite H, A3 by done. split; [done|]. apply Hnot; [done|].
      intros d Hd. apply loadCert_carries in Hd as (names' & E & Hn'). congruence.
  - destruct (isMissingFile e); [|done]. apply IH in H as [H|[H Hu]]; [left; by apply Hrest|].
    right. split; [done|]. apply Hnot; [done|]. intros d Hd. apply loadCert_carries in Hd as (names' & E & _).
    congruence.
Qed.

Lemma build_carried cfg s n :
  build cfg = Ok s ->
  (exists c, byName s !! n = Some c /\ carried (sc_pairs cfg) n c) \/
  byName s !! n = None /\ uncarried (sc_pairs cfg) n.
Proof.
  unfold buildCertStore. intros H. apply bind_ok in H as ([s1 missing] & Hl & H).
  apply (load_pairs_last _ _ _ _ _ n) in Hl. destruct (_ && _); [done|].
  apply loadNoSNI_spec in H as (E & _). rewrite E. cbn [empty_store byName] in Hl.
  by rewrite lookup_empty in Hl.
Qed.

Lemma carried_uncarried pairs n c : carried pairs n c -> uncarried pairs n -> False.
Proof. intros (b & p & a & -> & Hc & _) Hu. apply (Hu p c); [|done]. apply elem_of_app. right. left. Qed.

Lemma carries_unique p n c d : carries p n c -> carries p n d -> c = d.
Proof. intros (? & H1 & _)%loadCert_carries (? & H2 & _)%loadCert_carries. congruence. Qed.

Lemma carried_cons p rest n c :
  carried (p :: rest) n c <-> carried rest n c \/ carries p n c /\ uncarried rest n.
Proof.
  split.
  - intros ([|q b] & p' & a & H & Hc & Hn); injection H as <- ->; [by right; split; [|intros q d; apply Hn]|].
    left. by exists b, p', a.
  - intros [(b & q & a & -> & H)|[Hc Hu]]; [by exists (p :: b), q, a|].
    exists [], p, rest. split_and!; [done|done|exact (fun q d => Hu q d)].
Qed.

Lemma carried_unique pairs n c d : carried pairs n c -> carried pairs n d -> c = d.
Proof.
  induction pairs as [|p rest IH]; [by intros ([|??] & ? & ? & [=] & _)|].
  rewrite !carried_cons. intros [Hc|[Hc Hu]] [Hd|[Hd Hv]]; [by apply IH| | |by eapply carries_unique].
  - by destruct (carried_uncarried rest n c Hc Hv).
  - by destruct (carried_uncarried rest n d Hd Hu).
Qed.

Lemma build_lookup cfg s n c : build cfg = Ok s -> (byName s !! n = Some c <-> carried (sc_pairs cfg) n c).
Proof.
  intros Hb. destruct (build_carried cfg s n Hb) as [(d & Hd & Hc)|[Hn Hu]].
  - rewrite Hd. split; [by intros [= <-]|]. intros Hx. f_equal. by eapply carried_unique.
  - rewrite Hn. split; [done|]. intros Hx. by destruct (carried_uncarried _ n c Hx Hu).
Qed.

Lemma build_lookup_None cfg s n : build cfg = Ok s -> (byName s !! n = None <-> uncarried (sc_pairs cfg) n).
Proof.
  intros Hb. destruct (build_carried cfg s n Hb) as [(d & Hd & Hc)|[Hn Hu]]; [|done].
  rewrite Hd. split; [done|]. intros Hu. by destruct (carried_uncarried _ n d Hc Hu).
Qed.

(** C10: a name gets the certificate that carries it. For a ClientHello with
    SNI, its ASCII case folded, a store built from the configured pairs
    answers: the certificate of the last pair that carries the name itself;
    when none does, that of the last pair that carries the wildcard for the
    name's first label, if it has one; when none does either, nothing in
    strict mode and the fallback otherwise. Every DNS name of every pair that
    loads counts, less those with a misplaced star. So strict mode serves a
    certificate exactly when a configured pair carries a name matching the
    SNI, and never one that does not. *)
Theorem sni_selects_named (cfg : storeConfig) (s : certStore) (hello : ClientHello) :
  build cfg = Ok s -> ServerName hello <> [] ->
  let name := lower (ServerName hello) in
  let served := GetCertificate s hello in
  (forall c, carried (sc_pairs cfg) name c -> served = Ok (Some c)) /\
  (forall label rest c,
     uncarried (sc_pairs cfg) name -> label <> [] -> byte_dot ∉ label -> name = label ++ byte_dot :: rest ->
     carried (sc_pairs cfg) (byte_star :: byte_dot :: rest) c -> served = Ok (Some c)) /\
  ((forall n, presented_match n name -> uncarried (sc_pairs cfg) n) ->
     served = Ok (if sc_strict cfg then None else fallback s)) /\
  (sc_strict cfg = true ->
     ((exists c, served = Ok (Some c)) <->
      exists p n c, p ∈ sc_pairs cfg /\ carries p n c /\ presented_match n name) /\
     forall c, served = Ok (Some c) ->
       exists p n, p ∈ sc_pairs cfg /\ carries p n c /\ presented_match n name).
Proof.
  intros Hb Hne name served. subst served. pose proof (build_inv _ _ _ _ Hb) as (Hi & _ & _ & Hs).
  rewrite (GetCertificate_named s hello Hi Hne). fold name. unfold unmatched. rewrite Hs.
  assert (Hsound : forall c, lookup_name s name = Some c ->
    exists p n, p ∈ sc_pairs cfg /\ carries p n c /\ presented_match n name).
  { intros c (n & Hn & Hm)%lookup_name_match.
    apply (build_lookup cfg s n c Hb) in Hn as (b & p & a & -> & Hc & _). exists p, n. split_and!; [|done..].
    apply elem_of_app. right. left. }
  split_and!.
  - intros c Hc%(build_lookup cfg s name c Hb). unfold lookup_name. by rewrite Hc.
  - intros label rest c Hu Hl Hd Hname Hc%(build_lookup cfg s _ c Hb).
    apply (build_lookup_None cfg s name Hb) in Hu. unfold lookup_name. rewrite Hu.
    assert (Hw : wildcardOf name = Some (byte_star :: byte_dot :: rest)) by (apply wildcardOf_spec; by exists label, rest).
    rewrite Hw. cbn. by rewrite Hc.
  - intros Hu. destruct (lookup_name s name) as [c|] eqn:E; [|by destruct (sc_strict cfg)].
    destruct (Hsound c eq_refl) as (p & n & Hp & Hc & Hm). by destruct (Hu n Hm p c Hp).
  - intros ->. split; [split|].
    + intros [c H]. destruct (lookup_name s name) as [d|] eqn:E; [|done].
      destruct (Hsound d eq_refl) as (p & n & H1 & H2 & H3). by exists p, n, d.
    + intros (p & n & c & Hp & Hc & Hm). destruct (lookup_name s name) as [d|] eqn:E; [by exists d|].
      destruct (byName s !! n) as [d|] eqn:En; [by destruct (lookup_name_None s name n E ltac:(by eexists))|].
      apply (build_lookup_None cfg s n Hb) in En. by destruct (En p c Hp).
    + intros c H. destruct (lookup_name s name) as [d|] eqn:E; [|done]. injection H as ->. by apply Hsound.
Qed.

(** A ClientHello without SNI gets exactly what the [no_sni] option says.
    [refuse] never serves a certificate, [fallback] always the fallback,
    [cert] the configured certificate, refusing while its files are missing;
    by default a strict store refuses and another serves the fallback. A
    refusal is an alert over QUIC and silent otherwise. *)
Theorem no_sni_policy (cfg : storeConfig) (s : certStore) (hello : ClientHello) :
  build cfg = Ok s -> ServerName hello = [] ->
  GetCertificate s hello =
    match sc_noSNI cfg with
    | noSNIRefuse => refuseNoSNI hello
    | noSNIFallback => Ok (fallback s)
    | noSNICertificate =>
        match loadAnyCert LoadX509KeyPair ParseCertificate (sc_noSNIPair cfg).1 (sc_noSNIPair cfg).2 with
        | Ok c => Ok (Some c)
        | Err _ => refuseNoSNI hello
        end
    | noSNIAsUnmatched => if sc_strict cfg then refuseNoSNI hello else Ok (fallback s)
    end /\
  refuseNoSNI hello = (if overQUIC hello then Err 109 else Ok None) /\
  (overQUIC hello = true <-> hello_conn hello = Some (Some (bs "udp"))).
Proof.
  intros Hb Hn. pose proof Hb as Hb'. apply build_inv in Hb' as (_ & _ & Hp & Hs). split_and!; [|done|].
  - unfold GetCertificate, unmatched. rewrite Hn, beqb_refl, Hp, Hs.
    unfold buildCertStore in Hb. apply bind_ok in Hb as ([s1 missing] & Hl & Hb).
    apply (load_pairs_inv _ _ _ (sc_pairs cfg)) in Hl as (_ & _ & _ & _ & Hc & _); [|done| |].
    + destruct (_ && _); [done|]. apply loadNoSNI_spec in Hb as (_ & _ & _ & _ & _ & Hno).
      cbn in Hc. rewrite Hc in Hno.
      destruct (sc_noSNI cfg); try done; [by destruct (sc_strict cfg)|].
      rewrite bool_decide_eq_true_2 in Hno by done. rewrite Hno. by destruct (loadAnyCert _ _ _ _).
    + exists ∅. split; [done|]. intros x. by rewrite !lookup_empty.
    + intros n c Hx. cbn [empty_store byName] in Hx. by rewrite lookup_empty in Hx.
  - unfold overQUIC. destruct (hello_conn hello) as [[net|]|]; try (split; [done|by intros [=]]).
    rewrite beqb_true. split; [by intros ->|by intros [= ->]].
Qed.
End Serving.

(** A pair of certificates for the witnesses: [a.pem] loads, [b.pem] is
    missing. *)
Definition ex_load (certFile keyFile : bytes) : result LoadErr (list bytes) :=
  if beqb certFile (bs "a.pem") then Ok [bs "A"]
  else if beqb certFile (bs "c.pem") then Ok [bs "C"] else Err FileMissing.

Definition ex_parse (der : bytes) : option LeafCert :=
  if beqb der (bs "A") then
    Some {| DNSNames := [bs "*.Example.net"; bs "dns.example.org"; bs "x*y"]; IPAddresses := [] |}
  else if beqb der (bs "C") then
    Some {| DNSNames := [bs "ddr.example.org"]; IPAddresses := [bs "192.0.2.1"] |}
  else None.

Definition ex_cfg : storeConfig :=
  {| sc_noSNIPair := (bs "n.pem", bs "n.key");
     sc_pairs := [(bs "b.pem", bs "b.key"); (bs "a.pem", bs "a.key"); (bs "c.pem", bs "c.key")];
     sc_noSNI := noSNICertificate; sc_strict := true |}.

Definition ex_cert : Certificate :=
  {| chain_der := [bs "A"];
     Leaf := Some {| DNSNames := [bs "*.Example.net"; bs "dns.example.org"; bs "x*y"]; IPAddresses := [] |} |}.

Definition ex_store : certStore :=
  match buildCertStore ex_load ex_parse ex_cfg with Ok s => s | Err _ => empty_store ex_cfg end.

Lemma ex_builds : buildCertStore ex_load ex_parse ex_cfg = Ok ex_store.
Proof. vm_compute. reflexivity. Qed.

Lemma wildcard_index_exact_witness :
  wildcardFor ex_store (bs "dns.example.net") = Some ex_cert /\
  is_Some (byName ex_store !! bs "*.example.net") /\
  ~ presented_match (bs "*.example.net") (bs "a.b.example.net").
Proof.
  split; [vm_compute; reflexivity|]. split; [vm_compute; by eexists|].
  refine (proj2 (wildcard_index_exact ex_load ex_parse ex_cfg ex_store (bs "a.b.example.net") ex_builds)
                _ _ (bs "*.example.net") _); [vm_compute; reflexivity..|vm_compute; by eexists].
Defined.

Lemma sni_selects_named_witness :
  let hello := {| ServerName := bs "DNS.example.NET"; hello_conn := None |} in
  carries ex_load ex_parse (bs "a.pem", bs "a.key") (bs "*.example.net") ex_cert /\
  GetCertificate ex_store hello = Ok (Some ex_cert).
Proof.
  cbv zeta.
  assert (Ha : carries ex_load ex_parse (bs "a.pem", bs "a.key") (bs "*.example.net") ex_cert).
  { apply loadCert_carries. exists [bs "*.example.net"; bs "dns.example.org"]. split; [vm_compute; reflexivity|left]. }
  assert (Hno : forall p c n, p ∈ sc_pairs ex_cfg -> carries ex_load ex_parse p n c ->
    n = bs "ddr.example.org" \/ p = (bs "a.pem", bs "a.key") /\ (n = bs "*.example.net" \/ n = bs "dns.example.org")).
  { intros p c n Hp (names & H & Hn)%loadCert_carries. apply list_elem_of_In in Hp.
    destruct Hp as [<-|[<-|[<-|[]]]]; vm_compute in H; [done| |]; injection H as _ <-; apply list_elem_of_In in Hn; cbn in Hn.
    - right. split; [done|]. destruct Hn as [<-|[<-|[]]]; auto.
    - destruct Hn as [<-|[]]. by left. }
  split; [exact Ha|].
  refine (proj1 (proj2 (sni_selects_named ex_load ex_parse ex_cfg ex_store
    {| ServerName := bs "DNS.example.NET"; hello_conn := None |} ex_builds _)) (bs "dns") (bs "example.net") ex_cert _ _ _ _ _);
    [vm_compute; done| |done| |vm_compute; reflexivity|].
  - intros p c Hp Hc. by destruct (Hno p c _ Hp Hc) as [?|[_ [?|?]]].
  - vm_compute. intros H%list_elem_of_In. cbn in H. naive_solver.
  - exists [(bs "b.pem", bs "b.key")], (bs "a.pem", bs "a.key"), [(bs "c.pem", bs "c.key")].
    split; [reflexivity|]. split; [exact Ha|]. intros q d Hq Hc.
    destruct (Hno q d _ ltac:(right; right; exact Hq) Hc) as [?|[-> _]]; [done|].
    by apply list_elem_of_singleton in Hq.
Defined.

Lemma no_sni_policy_witness :
  GetCertificate ex_store {| ServerName := []; hello_conn := Some (Some (bs "udp")) |} = Err 109.
Proof.
  refine (eq_trans (proj1 (no_sni_policy ex_load ex_parse ex_cfg ex_store
    {| ServerName := []; hello_conn := Some (Some (bs "udp")) |} ex_builds eq_refl)) _).
  vm_compute. reflexivity.
Defined.

(** ** Which files make a store *)

Section Tolerance.
Variable LoadX509KeyPair : bytes -> bytes -> result LoadErr (list bytes).
Variable ParseCertificate : bytes -> option LeafCert.
Abbreviation load := (loadCert LoadX509KeyPair ParseCertificate).
Abbreviation build := (buildCertStore LoadX509KeyPair ParseCertificate).

(** A pair loads, is missing, or is broken. *)
Definition pair_loads (p : bytes * bytes) : Prop := exists x, load p.1 p.2 = Ok x.
Definition pair_missing (p : bytes * bytes) : Prop := load p.1 p.2 = Err FileMissing.

(** The first certificate that loads. *)
Fixpoint first_loaded (pairs : list (bytes * bytes)) : option Certificate :=
  match pairs with
  | [] => None
  | p :: rest => match load p.1 p.2 with Ok (c, _) => Some c | Err _ => first_loaded rest end
  end.

Lemma add_names_fallback c names s : fallback (foldl (add_name c) s names) = fallback s.
Proof. apply add_names_spec. Qed.

Lemma load_pairs_exact pairs s m :
  (is_ok (load_pairs LoadX509KeyPair ParseCertificate pairs s m) = true <->
   Forall (fun p => pair_loads p \/ pair_missing p) pairs) /\
  forall s' m', load_pairs LoadX509KeyPair ParseCertificate pairs s m = Ok (s', m') ->
    fallback s' = match fallback s with Some c => Some c | None => first_loaded pairs end /\
    (m <= m' <= m + length pairs)%nat /\
    ((m' < m + length pairs)%nat <-> Exists pair_loads pairs).
Proof.
  revert s m. induction pairs as [|p rest IH]; intros s m; cbn [load_pairs first_loaded].
  { split; [by split; constructor|]. intros s1 m1 [= <- <-]. rewrite Exists_nil. cbn [length].
    split; [by destruct (fallback s)|]. split; [lia|]. split; [lia|done]. }
  rewrite Forall_cons. setoid_rewrite Exists_cons.
  destruct (load p.1 p.2) as [[c names]|e] eqn:E.
  - destruct (IH (foldl (add_name c) (set_fallback s c) names) m) as [H1 H2]. split.
    + rewrite H1. split; [intros H; split; [left; by eexists|done]|by intros [_ ?]].
    + intros s' m' H. destruct (H2 s' m' H) as (F & Hm & Hx).
      rewrite F, add_names_fallback. cbn [set_fallback fallback length].
      split; [by destruct (fallback s)|]. split; [lia|].
      split; [intros _; left; by eexists|intros _; lia].
  - destruct (isMissingFile e) eqn:Ee.
    + unfold isMissingFile in Ee. apply bool_decide_eq_true in Ee as ->.
      destruct (IH s (S m)) as [H1 H2]. split; [rewrite H1; split; [intros H; split; [by right|done]|by intros [_ ?]]|].
      intros s' m' H. destruct (H2 s' m' H) as (F & Hm & Hx). cbn [length].
      split; [done|]. split; [lia|]. split.
      * intros Hl. right. apply Hx. lia.
      * intros [[x Hp]|Hr]; [congruence|]. apply Hx in Hr. lia.
    + split; [|done]. cbn. split; [done|]. intros [[[x Hp]|Hp] _]; [congruence|].
      unfold pair_missing in Hp. rewrite E in Hp. by injection Hp as ->.
Qed.

Lemma first_loaded_spec pairs : is_Some (first_loaded pairs) <-> Exists pair_loads pairs.
Proof.
  induction pairs as [|p t IH]; cbn [first_loaded].
  { rewrite Exists_nil. split; [by intros [? [=]]|done]. }
  rewrite Exists_cons. destruct (load p.1 p.2) as [[c n]|e] eqn:E.
  - split; [intros _; left; by eexists|by eexists].
  - rewrite IH. split; [by right|]. intros [[x Hp]|?]; [congruence|done].
Qed.

Lemma loadNoSNI_ok cfg s :
  is_ok (loadNoSNI LoadX509KeyPair ParseCertificate cfg s) = true <->
  (sc_noSNI cfg = noSNICertificate ->
   let r := loadAnyCert LoadX509KeyPair ParseCertificate (sc_noSNIPair cfg).1 (sc_noSNIPair cfg).2 in
   is_ok r = true \/ r = Err FileMissing).
Proof.
  unfold loadNoSNI. destruct (sc_noSNI cfg); try (split; [intros _; done|done]).
  cbv zeta. destruct (loadAnyCert _ _ _ _) as [c|e]; [split; [by left|done]|].
  unfold isMissingFile. destruct (decide (e = FileMissing)) as [->|Hn].
  - split; [by right|done].
  - rewrite bool_decide_eq_false_2 by done. cbn. split; [done|].
    intros H. destruct (H eq_refl) as [?|[= ?]]; done.
Qed.

(** A missing pair is tolerated and a broken one never is. A store is
    built exactly when every configured pair loads or is missing, at least
    one loads if any is configured, and the no-SNI pair, if the policy has
    one, loads or is missing; its fallback is the first pair that loads. *)
Theorem build_tolerant (cfg : storeConfig) :
  (is_ok (build cfg) = true <->
   Forall (fun p => pair_loads p \/ pair_missing p) (sc_pairs cfg) /\
   (sc_pairs cfg = [] \/ Exists pair_loads (sc_pairs cfg)) /\
   (sc_noSNI cfg = noSNICertificate ->
    let r := loadAnyCert LoadX509KeyPair ParseCertificate (sc_noSNIPair cfg).1 (sc_noSNIPair cfg).2 in
    is_ok r = true \/ r = Err FileMissing)) /\
  forall s, build cfg = Ok s ->
    fallback s = first_loaded (sc_pairs cfg) /\
    (sc_pairs cfg <> [] -> is_Some (fallback s)).
Proof.
  destruct (load_pairs_exact (sc_pairs cfg) (empty_store cfg) 0) as [H1 H2].
  unfold buildCertStore.
  destruct (load_pairs _ _ (sc_pairs cfg) (empty_store cfg) 0) as [[s1 m]|e] eqn:El.
  2:{ cbn. split; [|done]. split; [done|]. intros [Hf _]. by apply H1 in Hf. }
  destruct (H2 s1 m eq_refl) as (Hf & Hm & Hx). cbn [empty_store fallback] in Hf.
  assert (Hall : length (sc_pairs cfg) = m -> first_loaded (sc_pairs cfg) = None).
  { intros Hl. apply eq_None_not_Some. rewrite first_loaded_spec, <- Hx. lia. }
  cbn [mbind result_bind]. rewrite Hf.
  assert (H1' : Forall (fun p => pair_loads p \/ pair_missing p) (sc_pairs cfg)) by (by apply H1).
  destruct (decide (length (sc_pairs cfg) = m)) as [Hl|Hl].
  - rewrite (Hall Hl). rewrite (proj2 (Nat.eqb_eq _ _)) by lia.
    destruct (sc_pairs cfg) as [|p t] eqn:Ep.
    + change (0 <? zlen []) with false. cbn [andb]. rewrite loadNoSNI_ok. split; [split; [intros H; split_and!; [constructor|by left|done]|by intros (_ & _ & ?)]|]. intros s Hs. apply loadNoSNI_spec in Hs as (_ & _ & E & _).
      rewrite E, Hf. done.
    + unfold zlen. cbn [length]. rewrite (proj2 (Z.ltb_lt _ _)) by lia. cbn [andb Nat.eqb is_ok]. split; [|done].
      split; [done|]. intros (_ & [?|He] & _); [done|]. apply Hx in He. cbn [length] in *. lia.
  - assert (He : Exists pair_loads (sc_pairs cfg)) by (apply Hx; lia).
    destruct (proj2 (first_loaded_spec _) He) as [c Hc]. rewrite Hc. cbn [andb]. rewrite loadNoSNI_ok. split; [split; [intros H; split_and!; [done|by right|done]|by intros (_ & _ & ?)]|].
    intros s Hs. apply loadNoSNI_spec in Hs as (_ & _ & E & _). rewrite E, Hf, Hc. split; [done|by eexists].
Qed.
End Tolerance.

Lemma build_tolerant_witness :
  fallback ex_store = first_loaded ex_load ex_parse (sc_pairs ex_cfg).
Proof. exact (proj1 (proj2 (build_tolerant ex_load ex_parse ex_cfg) ex_store ex_builds)). Defined.
