(* ===== verification/SniReload.v ===== *)
(** * Certificate reload and setup of [sni_tls] ([sni_tls/reload.go],
    [sni_tls/setup.go])

    The store in use behind an atomic pointer, the poll that rebuilds it when
    the files' digest changed, the poll loops' lifecycle (the registry of
    [Lifecycle]) and the Corefile setup.  A poll holds [reloadMu], so polls
    are atomic to one another; the files are not under it, and every file a
    poll reads is read at an instant of its own. *)

From S2P Require Import Prelude GoStrings Caddy Lifecycle SniTls.

(** What [os.ReadFile] gives for a path: contents, [FileMissing], or another
    error. *)
Definition FS : Type := bytes -> result LoadErr bytes.

Record liveStore := {
  current : certStore;
  digest : bytes;
  poller : Node;                 (* the owner and running fields *)
  cfg : storeConfig
}.

Definition newLiveStore (c : storeConfig) (initial : certStore) (initialDigest : bytes) (o : Z)
  : liveStore :=
  {| current := initial; digest := initialDigest; poller := {| owner := o; running := None |}; cfg := c |}.

Definition live_GetCertificate (l : liveStore) (hello : ClientHello) : result Z (option Certificate) :=
  GetCertificate (current l) hello.

(** [digestPairs]: each configured file, in order. *)
Definition file_chunk (fs : FS) (path : bytes) : bytes :=
  match fs path with
  | Err _ => bs "sni_tls:missing:" ++ path
  | Ok b => b
  end.

Definition set_poller (l : liveStore) (n : Node) : liveStore :=
  {| current := current l; digest := digest l; poller := n; cfg := cfg l |}.

Definition live_OnStartup (l : liveStore) (pollers : Registry) : liveStore * Registry :=
  let '(n, g) := adopt (poller l) pollers in (set_poller l n, g).

Definition live_OnShutdown (l : liveStore) (pollers : Registry) : liveStore * Registry :=
  let '(n, g) := OnShutdown (poller l) pollers in (set_poller l n, g).

(** ** The Corefile *)

Section Setup.
Context {D : Type} `{!Dispenser D}.

Definition zero_storeConfig : storeConfig :=
  {| sc_noSNIPair := ([], []); sc_pairs := []; sc_noSNI := noSNIAsUnmatched; sc_strict := false |}.

Definition parseNoSNI (d : D) (c : storeConfig) : result ParseErr (D * storeConfig) :=
  if negb (bool_decide (sc_noSNI c = noSNIAsUnmatched)) then Err (PErr (bs "no_sni given more than once")) else
  let '(args, d') := RemainingArgs d in
  let set policy pair :=
    Ok (d', {| sc_noSNIPair := pair; sc_pairs := sc_pairs c; sc_noSNI := policy; sc_strict := sc_strict c |}) in
  match args with
  | [a] => if beqb a (bs "refuse") then set noSNIRefuse (sc_noSNIPair c)
           else if beqb a (bs "fallback") then set noSNIFallback (sc_noSNIPair c)
           else Err (PErr (bs "no_sni takes refuse, fallback, or cert"))
  | [a; cert; key] => if beqb a (bs "cert") then set noSNICertificate (cert, key)
                      else Err (PErr (bs "no_sni takes refuse, fallback, or cert"))
  | _ => Err (PErr (bs "no_sni takes refuse, fallback, or cert"))
  end.

(** One option line of the block, the dispenser at its name. *)
Definition block_option (d : D) (c : storeConfig) : result ParseErr (D * storeConfig) :=
  if beqb (Val d) (bs "strict") then
    let '(args, d') := RemainingArgs d in
    match args with
    | [] => Ok (d', {| sc_noSNIPair := sc_noSNIPair c; sc_pairs := sc_pairs c; sc_noSNI := sc_noSNI c;
                       sc_strict := true |})
    | _ => Err ArgErr
    end
  else if beqb (Val d) (bs "no_sni") then parseNoSNI d c
  else Err (PErr (bs "unknown sni_tls option")).

(** The loop tests [NextBlock] after its body. *)
Definition parseBlockOptions (d : D) (c : storeConfig) : result ParseErr (D * storeConfig) :=
  '(d', c') ← block_option d c; block_loop block_option d' c'.

Definition config_line (d : D) (c : storeConfig) : result ParseErr (D * storeConfig) :=
  let '(args, d1) := RemainingArgs d in
  match args with
  | [cert; key] => Ok (d1, {| sc_noSNIPair := sc_noSNIPair c; sc_pairs := sc_pairs c ++ [(cert, key)];
                              sc_noSNI := sc_noSNI c; sc_strict := sc_strict c |})
  | [] => match NextBlock d1 with
          | (false, _) => Err ArgErr
          | (true, d2) => parseBlockOptions d2 c
          end
  | _ => Err ArgErr
  end.

Definition parseConfig (d : D) : result ParseErr storeConfig :=
  '(_, c) ← next_loop config_line d zero_storeConfig;
  match sc_pairs c with [] => Err ArgErr | _ => Ok c end.
End Setup.

(** ** Reloading *)

Section Reload.
(** [tls.X509KeyPair] on the PEM texts, [x509.ParseCertificate], and SHA-256. *)
Variable X509KeyPair : bytes -> bytes -> result LoadErr (list bytes).
Variable ParseCertificate : bytes -> option LeafCert.
Variable Sum256 : bytes -> bytes.

(** [tls.LoadX509KeyPair]: the certificate file is read, then the key's. *)
Definition LoadX509KeyPair (fs : FS) (certFile keyFile : bytes) : result LoadErr (list bytes) :=
  c ← fs certFile; k ← fs keyFile; X509KeyPair c k.

Definition build_from (fs : FS) (c : storeConfig) : result LoadErr certStore :=
  buildCertStore (LoadX509KeyPair fs) ParseCertificate c.

Definition digestPairs (fs : FS) (pairs : list (bytes * bytes)) : bytes :=
  Sum256 (foldl (fun h p => foldl (fun h path => h ++ file_chunk fs path) h [p.1; p.2]) [] pairs).

(** [reloadOnce], the digest's reads seeing [fd] and the rebuild's [fb]. *)
Definition reloadOnce (fd fb : FS) (l : liveStore) : liveStore :=
  let newDigest := digestPairs fd (files (cfg l)) in
  if beqb newDigest (digest l) then l
  else match build_from fb (cfg l) with
       | Err _ => l
       | Ok store => {| current := store; digest := newDigest; poller := poller l; cfg := cfg l |}
       end.

(** [setup]: the initial load reads [fb], the digest after it [fd]. *)
Inductive SetupErr := AlreadyConfigured | BadCorefile (e : ParseErr) | BadFiles (e : LoadErr).

Definition sni_setup {D} `{!Dispenser D} (tlsConfigured : bool) (o : Z) (fb fd : FS) (d : D)
  : result SetupErr liveStore :=
  if tlsConfigured then Err AlreadyConfigured else
  match parseConfig d with
  | Err e => Err (BadCorefile e)
  | Ok c => match build_from fb c with
            | Err e => Err (BadFiles e)
            | Ok store => Ok (newLiveStore c store (digestPairs fd (files c)) o)
            end
  end.
End Reload.

(** ** Parsing *)

Section Parsing.
Context {D : Type} `{!Dispenser D} `{!DispenserLaws D}.

(** The no-SNI pair is only there with its policy. *)
Definition conf_wf (c : storeConfig) : Prop :=
  sc_noSNI c <> noSNICertificate -> sc_noSNIPair c = ([], []).

Lemma parseNoSNI_spec (d : D) c :
  parseNoSNI d c <> Err OutOfFuel /\
  forall d' c', parseNoSNI d c = Ok (d', c') ->
    (size d' <= size d)%nat /\ sc_noSNI c = noSNIAsUnmatched /\ sc_noSNI c' <> noSNIAsUnmatched /\
    sc_pairs c' = sc_pairs c /\ sc_strict c' = sc_strict c /\ (conf_wf c -> conf_wf c').
Proof.
  unfold parseNoSNI. destruct (bool_decide (sc_noSNI c = noSNIAsUnmatched)) eqn:E; cbn [negb]; [|done].
  apply bool_decide_eq_true in E. destruct (RemainingArgs d) as [args d1] eqn:Ea.
  apply RemainingArgs_size in Ea. unfold conf_wf. rewrite E.
  split; repeat case_match; try done; intros d' c' [= <- <-]; cbn; naive_solver.
Qed.

Lemma block_option_spec (d : D) c :
  block_option d c <> Err OutOfFuel /\
  forall d' c', block_option d c = Ok (d', c') ->
    (size d' <= size d)%nat /\ sc_pairs c' = sc_pairs c /\ (conf_wf c -> conf_wf c').
Proof.
  unfold block_option. destruct (beqb (Val d) (bs "strict")).
  - destruct (RemainingArgs d) as [[|??] d1] eqn:E; split; try done.
    apply RemainingArgs_size in E. intros d' c' [= <- <-]. split_and!; [done|done|exact id].
  - destruct (beqb (Val d) (bs "no_sni")); [|done]. destruct (parseNoSNI_spec d c) as [H1 H2].
    split; [done|]. intros d' c' H. apply H2 in H. naive_solver.
Qed.

Lemma parseBlockOptions_spec (d : D) c :
  parseBlockOptions d c <> Err OutOfFuel /\
  forall d' c', parseBlockOptions d c = Ok (d', c') ->
    (size d' <= size d)%nat /\ sc_pairs c' = sc_pairs c /\ (conf_wf c -> conf_wf c').
Proof.
  unfold parseBlockOptions. split.
  - apply bind_total; [apply block_option_spec|]. intros [d1 c1] _.
    apply loop_fuel; [apply NextBlock_size| | |lia].
    + intros d2 c2 d3 c3 H. by apply block_option_spec in H as [? _].
    + intros d2 c2. apply block_option_spec.
  - intros d' c' H. apply bind_ok in H as ([d1 c1] & H1 & H). apply block_option_spec in H1 as (A1 & A2 & A3).
    pose proof (loop_size _ _ _ _ _ _ _ NextBlock_size
                  (fun d s d' s' E => proj1 (proj2 (block_option_spec d s) d' s' E)) H) as Hs.
    apply (loop_inv _ _ (fun x => sc_pairs x = sc_pairs c1 /\ (conf_wf c1 -> conf_wf x))) in H; [|..].
    + split; [lia|]. naive_solver congruence.
    + intros d2 c2 d3 c3 [I1 I2] E. apply block_option_spec in E as (_ & E1 & E2). split; [congruence|auto].
    + done.
Qed.

Lemma config_line_spec (d : D) c :
  config_line d c <> Err OutOfFuel /\
  forall d' c', config_line d c = Ok (d', c') -> (size d' <= size d)%nat /\ (conf_wf c -> conf_wf c').
Proof.
  unfold config_line. destruct (RemainingArgs d) as [args d1] eqn:Ea. apply RemainingArgs_size in Ea.
  destruct args as [|a [|b [|? ?]]]; [|done| |done].
  - destruct (NextBlock d1) as [[] d2] eqn:En; [|done]. apply NextBlock_size in En as [En _].
    destruct (parseBlockOptions_spec d2 c) as [H1 H2]. split; [done|]. intros d' c' H.
    apply H2 in H as (? & _ & ?). split; [lia|done].
  - split; [done|]. intros d' c' [= <- <-]. split; [done|exact id].
Qed.

Lemma parseConfig_spec (d : D) :
  parseConfig d <> Err OutOfFuel /\
  forall c, parseConfig d = Ok c -> sc_pairs c <> [] /\ conf_wf c.
Proof.
  unfold parseConfig. split.
  - apply bind_total.
    + apply loop_fuel; [apply Next_size| | |lia].
      * intros d2 c2 d3 c3 H. by apply config_line_spec in H as [? _].
      * intros d2 c2. apply config_line_spec.
    + intros [d1 c1] _. by destruct (sc_pairs c1).
  - intros c H. apply bind_ok in H as ([d1 c1] & Hl & H).
    apply (loop_inv _ _ conf_wf) in Hl; [|..].
    + destruct (sc_pairs c1) eqn:E; [done|]. injection H as <-. by rewrite E.
    + intros d2 c2 d3 c3 I E. apply config_line_spec in E as [_ E]. auto.
    + done.
Qed.
End Parsing.

(** ** What a reload leaves in place *)

Section Reloading.
Variable X509KeyPair : bytes -> bytes -> result LoadErr (list bytes).
Variable ParseCertificate : bytes -> option LeafCert.
Variable Sum256 : bytes -> bytes.
Abbreviation build := (build_from X509KeyPair ParseCertificate).
Abbreviation digest_of := (digestPairs Sum256).
Abbreviation reload := (reloadOnce X509KeyPair ParseCertificate Sum256).
Abbreviation setup := (sni_setup X509KeyPair ParseCertificate Sum256).

(** The paths a configuration names: each pair's two, and the no-SNI pair's
    with its policy.  Two reads agree if they see the same at each. *)
Definition pair_paths (p : bytes * bytes) : list bytes := [p.1; p.2].
Definition paths (c : storeConfig) : list bytes :=
  concat (pair_paths <$> sc_pairs c) ++
  (if bool_decide (sc_noSNI c = noSNICertificate) then pair_paths (sc_noSNIPair c) else []).
Definition agree (c : storeConfig) (fs fs' : FS) : Prop := forall p, p ∈ paths c -> fs p = fs' p.

Lemma paths_files c : paths c = concat (pair_paths <$> files c).
Proof.
  unfold paths, files. destruct (bool_decide _); cbn [negb]; [|by rewrite app_nil_r].
  by rewrite fmap_app, concat_app.
Qed.

Lemma paths_pair c (p : bytes * bytes) : p ∈ files c -> p.1 ∈ paths c /\ p.2 ∈ paths c.
Proof.
  intros H. rewrite paths_files. split; rewrite list_elem_of_In, in_concat; exists [p.1; p.2];
    (split; [|by cbn; auto]); apply list_elem_of_In, list_elem_of_fmap; by exists p.
Qed.

Lemma files_pairs c p : p ∈ sc_pairs c -> p ∈ files c.
Proof. unfold files. intros H. case_match; [done|]. apply elem_of_app. by left. Qed.

Lemma files_noSNI c : sc_noSNI c = noSNICertificate -> sc_noSNIPair c ∈ files c.
Proof.
  unfold files. intros ->. rewrite bool_decide_eq_true_2 by done. cbn. apply elem_of_app. right. constructor.
Qed.

Lemma load_agree c fs fs' p :
  agree c fs fs' -> p ∈ files c -> LoadX509KeyPair X509KeyPair fs p.1 p.2 = LoadX509KeyPair X509KeyPair fs' p.1 p.2.
Proof. intros H Hp. apply paths_pair in Hp as [H1 H2]. unfold LoadX509KeyPair. by rewrite (H _ H1), (H _ H2). Qed.

Lemma load_pairs_agree c fs fs' pairs s m :
  agree c fs fs' -> (forall p, p ∈ pairs -> p ∈ files c) ->
  load_pairs (LoadX509KeyPair X509KeyPair fs) ParseCertificate pairs s m
  = load_pairs (LoadX509KeyPair X509KeyPair fs') ParseCertificate pairs s m.
Proof.
  intros H. revert s m. induction pairs as [|p t IH]; intros s m Hp; [done|]. cbn [load_pairs].
  unfold loadCert. rewrite (load_agree c fs fs' p H) by (apply Hp; left).
  assert (Ht : forall q, q ∈ t -> q ∈ files c) by (intros q Hq; apply Hp; by right).
  do 2 case_match; simplify_eq; try done; by apply IH.
Qed.

Lemma build_agree c fs fs' : agree c fs fs' -> build fs c = build fs' c.
Proof.
  intros H. unfold build_from, buildCertStore. rewrite (load_pairs_agree c fs fs') by (done || apply files_pairs).
  destruct (load_pairs _ _ _ _ _) as [[s m]|e]; [|done]. cbn. case_match; [done|].
  unfold loadNoSNI. destruct (sc_noSNI c) eqn:E; try done. unfold loadAnyCert.
  by rewrite (load_agree c fs fs' _ H (files_noSNI c E)).
Qed.

(** What a digest is taken over: each path's contents, in order, or for a
    path that cannot be read a marker naming it. *)
Definition reading (fs : FS) (path : bytes) : bytes :=
  match fs path with Ok b => b | Err _ => bs "sni_tls:missing:" ++ path end.
Definition hashed (fs : FS) (c : storeConfig) : bytes := concat (reading fs <$> paths c).

Lemma digest_hashed fs c : digest_of fs (files c) = Sum256 (hashed fs c).
Proof.
  unfold digestPairs, hashed. f_equal. rewrite paths_files.
  transitivity ([] ++ concat (reading fs <$> concat (pair_paths <$> files c))); [|done].
  generalize (@nil byte). induction (files c) as [|p t IH]; intros h; [cbn; by rewrite app_nil_r|].
  cbn [foldl fmap list_fmap concat]. rewrite IH. change (file_chunk fs) with (reading fs).
  rewrite fmap_app, concat_app. cbn. by rewrite app_nil_r, <- !app_assoc.
Qed.

Lemma hashed_agree c fs fs' : agree c fs fs' -> hashed fs c = hashed fs' c.
Proof.
  intros H. unfold hashed. f_equal. apply list_fmap_ext. intros i p Hp. unfold reading.
  by rewrite (H p) by (by eapply list_elem_of_lookup_2).
Qed.

Lemma reload_cases fd fb l :
  reload fd fb l = l \/
  exists s, build fb (cfg l) = Ok s /\
    reload fd fb l = {| current := s; digest := digest_of fd (files (cfg l)); poller := poller l; cfg := cfg l |}.
Proof.
  unfold reloadOnce. case_match; [by left|]. destruct (build fb (cfg l)) as [s|e]; [right; by exists s|by left].
Qed.

(** *** The process *)

Record sni_system := { stores : gmap Z liveStore; pollers : Registry }.

(** Any interleaving of setups, startups, shutdowns and polls, also of a loop
    already cancelled (its last poll may still be running), over any files. *)
Inductive sni_step : sni_system -> sni_system -> Prop :=
| step_setup {D} `{!Dispenser D} `{!DispenserLaws D} y i o fb fd (d : D) l :
    stores y !! i = None -> setup false o fb fd d = Ok l ->
    sni_step y {| stores := <[i := l]> (stores y); pollers := pollers y |}
| step_startup y i l l' g :
    stores y !! i = Some l -> live_OnStartup l (pollers y) = (l', g) ->
    sni_step y {| stores := <[i := l']> (stores y); pollers := g |}
| step_shutdown y i l l' g :
    stores y !! i = Some l -> live_OnShutdown l (pollers y) = (l', g) ->
    sni_step y {| stores := <[i := l']> (stores y); pollers := g |}
| step_poll y i l fd fb :
    stores y !! i = Some l ->
    sni_step y {| stores := <[i := reload fd fb l]> (stores y); pollers := pollers y |}.

Definition empty_system : sni_system := {| stores := ∅; pollers := reg empty_process |}.

(** The registry's view of the system. *)
Definition process_of (y : sni_system) : Process := {| nodes := poller <$> stores y; reg := pollers y |}.

(** The store in use was built, in full, from configured files, and has a
    certificate to fall back on. *)
Definition store_ok (l : liveStore) : Prop :=
  (exists fs, build fs (cfg l) = Ok (current l)) /\ sc_pairs (cfg l) <> [].

Lemma setup_ok {D} `{!Dispenser D} `{!DispenserLaws D} conf o fb fd (d : D) l :
  setup conf o fb fd d = Ok l ->
  conf = false /\ parseConfig d = Ok (cfg l) /\ store_ok l /\ build fb (cfg l) = Ok (current l) /\
  digest l = digest_of fd (files (cfg l)) /\ poller l = {| owner := o; running := None |}.
Proof.
  unfold sni_setup. destruct conf; [done|]. destruct (parseConfig d) as [c|] eqn:Ep; [|done].
  destruct (build fb c) as [s|] eqn:Eb; [|done]. intros [= <-]. unfold store_ok. cbn.
  apply parseConfig_spec in Ep as [? _]. eauto 10.
Qed.

Lemma reload_ok fd fb l : store_ok l -> store_ok (reload fd fb l) /\ poller (reload fd fb l) = poller l.
Proof.
  intros [? ?]. destruct (reload_cases fd fb l) as [->|(s & Hb & ->)]; [done|]. unfold store_ok. cbn. eauto.
Qed.

Definition system_ok (y : sni_system) : Prop :=
  (forall i l, stores y !! i = Some l -> store_ok l) /\ proc_ok (process_of y).

Lemma sni_step_ok y y' : sni_step y y' -> system_ok y -> system_ok y'.
Proof.
  intros Hs [H1 H2]. split.
  - intros j m. destruct Hs as [D ? ? y i o fb fd d l Hi Hs|y i l l' g Hi Hs|y i l l' g Hi Hs|y i l fd fb Hi];
      cbn [stores]; intros [[<- <-]|[_ Hj]]%lookup_insert_Some; eauto.
    + by apply setup_ok in Hs as (_ & _ & ? & _).
    + unfold live_OnStartup in Hs. injection Hs as <- <-. by apply (H1 i l).
    + unfold live_OnShutdown in Hs. destruct (OnShutdown (poller l) (pollers y)).
      injection Hs as <- <-. by apply (H1 i l).
    + eapply reload_ok, H1, Hi.
  - destruct Hs as [D ? ? y i o fb fd d l Hi Hs|y i l l' g Hi Hs|y i l l' g Hi Hs|y i l fd fb Hi];
      unfold process_of in *; cbn [stores pollers nodes reg] in *; rewrite fmap_insert.
    + apply setup_ok in Hs as (_ & _ & _ & _ & _ & ->).
      refine (proc_step_ok _ _ (proc_setup {| nodes := poller <$> stores y; reg := pollers y |} i o _) H2).
      cbn. by rewrite lookup_fmap, Hi.
    + assert (Hp : (poller <$> stores y) !! i = Some (poller l)) by (by rewrite lookup_fmap, Hi).
      pose proof (start_ok i (poller l) _ H2 Hp) as H3. unfold start_node in H3. unfold live_OnStartup in Hs.
      cbn [reg nodes] in H3. destruct (adopt (poller l) (pollers y)). by injection Hs as <- <-.
    + assert (Hp : (poller <$> stores y) !! i = Some (poller l)) by (by rewrite lookup_fmap, Hi).
      pose proof (stop_ok i (poller l) _ H2 Hp) as H3. unfold stop_node in H3. unfold live_OnShutdown in Hs.
      cbn [reg nodes] in H3. destruct (OnShutdown (poller l) (pollers y)). by injection Hs as <- <-.
    + rewrite (proj2 (reload_ok fd fb l (H1 i l Hi))), insert_id; [done|]. by rewrite lookup_fmap, Hi.
Qed.

Lemma sni_reachable_ok y : rtc sni_step empty_system y -> system_ok y.
Proof.
  intros H. assert (Hg : forall z, rtc sni_step z y -> system_ok z -> system_ok y).
  { clear H. induction 1 as [|z1 z2 z3 Hs _ IH]; [done|]. intros Hz. apply IH. by eapply sni_step_ok. }
  apply (Hg _ H). split; [intros i l Hl; cbn in Hl; by rewrite lookup_empty in Hl|].
  unfold process_of. cbn [empty_system stores pollers]. rewrite fmap_empty. apply empty_ok.
Qed.

(** C33: a reload never blanks a listener, and a start leaves only its
    instance's loops. In any interleaving of setups, startups, shutdowns and
    polls, with any files at each read, every store ever in use was built in
    full from the configured files of some read and has a fallback
    certificate; a poll either keeps the store and its digest or replaces
    both, the store by one built from what it read. The loops that run are
    exactly the registered ones, each held by one store. After a startup of a
    store exactly these run: the store's new loop, and the loops that ran and
    are held by another store of the same instance; so its own previous loop
    and every loop of another instance, dropped or not, is stopped. After a
    shutdown exactly the loops run that ran, without the store's own. *)
Theorem sni_system_safe (y : sni_system) :
  rtc sni_step empty_system y ->
  (forall i l, stores y !! i = Some l ->
     (exists fs, build fs (cfg l) = Ok (current l)) /\ is_Some (fallback (current l)) /\
     forall fd fb, reload fd fb l = l \/
       build fb (cfg l) = Ok (current (reload fd fb l)) /\
       digest (reload fd fb l) = digest_of fd (files (cfg l)) /\ digest (reload fd fb l) <> digest l) /\
  (forall h, live (pollers y) h <->
     exists i l, stores y !! i = Some l /\ running (poller l) = Some h /\
                 registered (pollers y) !! h = Some (owner (poller l))) /\
  (forall i l l' g, stores y !! i = Some l -> live_OnStartup l (pollers y) = (l', g) ->
     (exists h, running (poller l') = Some h /\ ~ live (pollers y) h) /\
     forall h, live g h <->
       running (poller l') = Some h \/
       live (pollers y) h /\ exists j m, j <> i /\ stores y !! j = Some m /\
         running (poller m) = Some h /\ owner (poller m) = owner (poller l)) /\
  (forall i l l' g, stores y !! i = Some l -> live_OnShutdown l (pollers y) = (l', g) ->
     running (poller l') = None /\
     forall h, live g h <-> live (pollers y) h /\ running (poller l) <> Some h).
Proof.
  intros H. apply sni_reachable_ok in H as [Hs Hp].
  assert (Hn : forall j m, stores y !! j = Some m -> nodes (process_of y) !! j = Some (poller m)).
  { intros j m Hj. cbn. by rewrite lookup_fmap, Hj. }
  assert (Hheld : forall j n, nodes (process_of y) !! j = Some n -> exists m, stores y !! j = Some m /\ n = poller m).
  { intros j n Hj. cbn in Hj. rewrite lookup_fmap in Hj. destruct (stores y !! j) as [m|]; [|done].
    injection Hj as <-. by exists m. }
  split_and!.
  - intros i l Hi. destruct (Hs i l Hi) as [(fs & Hb) Hne]. split; [by exists fs|]. split.
    + by apply (build_tolerant _ _ (cfg l)) in Hb as [_ Hf]; apply Hf.
    + intros fd fb. unfold reloadOnce. destruct (beqb _ _) eqn:Eb; [by left|]. apply beqb_false in Eb.
      destruct (build fb (cfg l)) as [s|] eqn:E; [|by left]. right. done.
  - intros h. rewrite (ok_live _ Hp), elem_of_dom. split.
    + intros [o Ho]. destruct (ok_held _ Hp h o Ho) as (i & n & (l & Hi & ->)%Hheld & Hr & <-). by exists i, l.
    + intros (i & l & _ & _ & Ho). by exists (owner (poller l)).
  - intros i l l' g Hi Hst. unfold live_OnStartup in Hst.
    pose proof (start_live i (poller l) _ Hp (Hn i l Hi)) as (h0 & E0 & Hnew & Hl).
    change (reg (process_of y)) with (pollers y) in *.
    destruct (adopt (poller l) (pollers y)) as [n' g']. injection Hst as <- <-. cbn [fst snd] in *.
    split; [by exists h0|]. intros h. cbn [set_poller poller]. rewrite Hl. split; (intros [?|[Hlv (j & m & Hx)]]; [by left|right; split; [done|]]).
    + destruct Hx as (Hji & (k & Hk & ->)%Hheld & Hx). by exists j, k.
    + destruct Hx as (Hji & Hk%Hn & Hx). by exists j, (poller m).
  - intros i l l' g Hi Hst. unfold live_OnShutdown in Hst.
    pose proof (stop_live i (poller l) _ Hp (Hn i l Hi)) as (E0 & Hl).
    change (reg (process_of y)) with (pollers y) in *.
    destruct (OnShutdown (poller l) (pollers y)) as [n' g']. injection Hst as <- <-. done.
Qed.

(** *** Rotation *)

(** The files over time, and a poll: when it read each path for the digest
    and for the rebuild. *)
Variable files_at : nat -> FS.
Record poll := { read_digest : bytes -> nat; read_build : bytes -> nat }.
Definition view (at_time : bytes -> nat) : FS := fun p => files_at (at_time p) p.

Definition poll_once (l : liveStore) (q : poll) : liveStore :=
  reload (view (read_digest q)) (view (read_build q)) l.
Definition poll_all (l : liveStore) (qs : list poll) : liveStore := foldl poll_once l qs.

(** A poll reads for the digest first. *)
Definition in_order (q : poll) : Prop := forall p, (read_digest q p <= read_build q p)%nat.
Definition after (T : nat) (q : poll) : Prop :=
  forall p, (T <= read_digest q p)%nat /\ (T <= read_build q p)%nat.

(** From [T] on the configured files stay as they are. *)
Definition settled (c : storeConfig) (T : nat) : Prop :=
  forall t p, (T <= t)%nat -> p ∈ paths c -> files_at t p = files_at T p.
(** A file that changed does not come back to what it was. *)
Definition no_return (c : storeConfig) : Prop :=
  forall p t1 t2 t3, p ∈ paths c -> (t1 <= t2 <= t3)%nat ->
    files_at t1 p = files_at t3 p -> files_at t2 p = files_at t1 p.
(** SHA-256 does not collide on the texts the files can give. *)
Definition collision_free (c : storeConfig) : Prop :=
  forall r1 r2, Sum256 (hashed (view r1) c) = Sum256 (hashed (view r2) c) ->
    hashed (view r1) c = hashed (view r2) c.
(** The texts are concatenated without a frame, so a boundary between two
    files must show in the files themselves: of two readings of a path, over
    time, neither starts with the other unless it is the same outcome. *)
Definition delimited (c : storeConfig) : Prop :=
  forall p t1 t2 x y, p ∈ paths c ->
    reading (files_at t1) p ++ x = reading (files_at t2) p ++ y -> files_at t1 p = files_at t2 p.

Lemma hashed_inj c r1 r2 :
  delimited c -> hashed (view r1) c = hashed (view r2) c -> agree c (view r1) (view r2).
Proof.
  unfold delimited, hashed, agree. induction (paths c) as [|p t IH]; intros Hd He q Hq; [by apply elem_of_nil in Hq|].
  cbn [fmap list_fmap concat] in He.
  assert (Hp : view r1 p = view r2 p) by (apply (Hd p (r1 p) (r2 p) _ _ ltac:(left) He)).
  apply elem_of_cons in Hq as [->|Hq]; [done|].
  assert (Hr : reading (view r1) p = reading (view r2) p) by (unfold reading; by rewrite Hp).
  rewrite Hr in He. apply app_inv_head in He. apply IH; [|done|done].
  intros p' t1 t2 x y Hp'. apply Hd. by right.
Qed.

(** The digest was read no later than the files the store was built from, or
    they did not change in between. *)
Definition synced (l : liveStore) : Prop :=
  exists rd rb, digest l = digest_of (view rd) (files (cfg l)) /\ build (view rb) (cfg l) = Ok (current l) /\
    forall p, p ∈ paths (cfg l) -> (rd p <= rb p)%nat \/ view rd p = view rb p.

Lemma poll_cfg l q : cfg (poll_once l q) = cfg l.
Proof. unfold poll_once. by destruct (reload_cases (view (read_digest q)) (view (read_build q)) l) as [->|(s & _ & ->)]. Qed.

Lemma poll_all_cfg qs l : cfg (poll_all l qs) = cfg l.
Proof.
  revert l. induction qs as [|q qs IH]; intros l; [done|]. cbn [poll_all foldl].
  change (foldl poll_once (poll_once l q) qs) with (poll_all (poll_once l q) qs). by rewrite IH, poll_cfg.
Qed.

Lemma poll_synced l q : in_order q -> synced l -> synced (poll_once l q).
Proof.
  intros Ho Hs. unfold poll_once.
  destruct (reload_cases (view (read_digest q)) (view (read_build q)) l) as [->|(s & Hb & ->)]; [done|].
  exists (read_digest q), (read_build q). cbn. split_and!; [done|done|]. intros p _. left. apply Ho.
Qed.

Lemma poll_all_synced qs l : Forall in_order qs -> synced l -> synced (poll_all l qs).
Proof.
  intros H. revert l. induction H as [|q qs Hq _ IH]; intros l Hl; [done|]. cbn. apply IH. by apply poll_synced.
Qed.

(** Reads after everything settled all see the same files. *)
Lemma settled_view c T r : settled c T -> (forall p, (T <= r p)%nat) -> agree c (view r) (files_at T).
Proof. intros H Hr p Hp. unfold view. by apply H. Qed.

Lemma poll_settles l q T s :
  let c := cfg l in settled c T -> no_return c -> collision_free c -> delimited c -> synced l -> after T q ->
  build (files_at T) c = Ok s -> current (poll_once l q) = s.
Proof.
  intros c Ht Hr Hc Hdl (rd & rb & Hd & Hb & Ho) Ha Hs. subst c.
  assert (Hd' := settled_view (cfg l) T (read_digest q) Ht (fun p => proj1 (Ha p))).
  assert (Hb' := settled_view (cfg l) T (read_build q) Ht (fun p => proj2 (Ha p))).
  unfold poll_once, reloadOnce. destruct (beqb _ _) eqn:E.
  - apply beqb_true in E. rewrite Hd, !digest_hashed in E. apply Hc, (hashed_inj _ _ _ Hdl) in E.
    rewrite <- (build_agree (cfg l) (view rb) (files_at T)) in Hs; [congruence|].
    intros p Hp. rewrite <- (Hd' p Hp), (E p Hp).
    destruct (Ho p Hp) as [Hle|?]; [|done].
    assert (Hx : files_at (rd p) p = files_at T p) by (rewrite <- (Hd' p Hp); symmetry; exact (E p Hp)).
    unfold view. destruct (decide (rb p <= T)%nat) as [Hl|Hl].
    + apply (Hr p (rd p) (rb p) T Hp); [lia|done].
    + rewrite (Ht (rb p) p) by (lia || done). congruence.
  - rewrite (build_agree (cfg l) _ _ Hb'), Hs. done.
Qed.

(** C5: certificates rotate. Whatever the files did, once they stop changing,
    to contents that load, the first poll that reads them installs exactly
    the store they give, and no later poll takes it away. It is assumed that
    no file changed between setup's initial load and the digest taken after
    it ([setup_rotation_missed] is what happens otherwise), that a file that
    changed does not come back to contents it had, that SHA-256 does not
    collide on the texts read, and that no version of a file starts with
    another version of it, an unreadable file counting as its marker, since
    the texts are hashed without a frame ([unframed_rotation_missed]). *)
Theorem rotation_converges {D} `{!Dispenser D} `{!DispenserLaws D} (d : D) (o : Z) (l : liveStore)
    (rb rd : bytes -> nat) (T : nat) (before later : list poll) (q : poll) (s : certStore) :
  setup false o (view rb) (view rd) d = Ok l ->
  agree (cfg l) (view rd) (view rb) ->
  settled (cfg l) T -> no_return (cfg l) -> collision_free (cfg l) -> delimited (cfg l) ->
  Forall in_order (before ++ q :: later) -> after T q -> Forall (after T) later ->
  build (files_at T) (cfg l) = Ok s ->
  current (poll_all l (before ++ q :: later)) = s.
Proof.
  intros Hl Hag Ht Hr Hc Hdl Hord Hq Hlater Hs. apply setup_ok in Hl as (_ & _ & _ & Hb & Hd & _).
  assert (Hsy : synced l) by (exists rd, rb; split_and!; [done|done|by right; apply Hag]).
  apply Forall_app in Hord as [Hbef [Hqo Hlo]%Forall_cons].
  unfold poll_all. rewrite foldl_app. cbn [foldl]. set (l1 := foldl poll_once l before).
  assert (H1 : synced l1 /\ cfg l1 = cfg l).
  { split; [by apply poll_all_synced|apply poll_all_cfg]. }
  destruct H1 as [H1 E1]. rewrite <- E1 in *.
  assert (H2 : synced (poll_once l1 q) /\ current (poll_once l1 q) = s).
  { split; [by apply poll_synced|by eapply poll_settles]. }
  revert H2. generalize (poll_once l1 q) (poll_cfg l1 q). clear Hq Hqo.
  induction Hlater as [|q' later Hq' _ IH]; intros l2 E2 [H2 E3]; [done|].
  apply Forall_cons in Hlo as [Hq'o Hlo]. cbn [foldl]. apply IH; [done|by rewrite poll_cfg|].
  rewrite <- E2 in *. split; [by apply poll_synced|by eapply poll_settles].
Qed.

(** A rotation during setup is missed. [setup] takes the digest after the
    initial load: if the files change between the two and then stay, every
    later poll finds its digest unchanged, and the old store stays in use
    however long the process runs. *)
Theorem setup_rotation_missed {D} `{!Dispenser D} `{!DispenserLaws D} (d : D) (o : Z) (l : liveStore)
    (rb rd : bytes -> nat) (T : nat) (qs : list poll) :
  setup false o (view rb) (view rd) d = Ok l ->
  settled (cfg l) T -> (forall p, (T <= rd p)%nat) -> Forall (after T) qs ->
  build (view rb) (cfg l) = Ok (current (poll_all l qs)).
Proof.
  intros Hl Ht Hrd Hq. apply setup_ok in Hl as (_ & _ & _ & Hb & Hd & _).
  cut (poll_all l qs = l); [by intros ->|].
  induction Hq as [|q qs Hq _ IH]; [done|]. cbn [poll_all foldl].
  cut (poll_once l q = l); [by intros ->|]. unfold poll_once, reloadOnce.
  rewrite Hd, !digest_hashed, (hashed_agree (cfg l) (view (read_digest q)) (view rd)), beqb_refl; [done|].
  intros p Hp. rewrite (settled_view (cfg l) T _ Ht (fun p => proj1 (Hq p)) p Hp).
  by rewrite (settled_view (cfg l) T _ Ht Hrd p Hp).
Qed.

(** A rotation that moves bytes across the boundary of two files is missed.
    The digest is over the files' contents one after the other, so readings
    that differ only in where one file ends and the next begins have the same
    digest whatever the hash, and the poll keeps the store. *)
Lemma unframed_rotation_missed (l : liveStore) (fs fd fb : FS) :
  digest l = digest_of fs (files (cfg l)) -> hashed fs (cfg l) = hashed fd (cfg l) -> reload fd fb l = l.
Proof. intros Hd Hh. unfold reloadOnce. by rewrite Hd, !digest_hashed, Hh, beqb_refl. Qed.
End Reloading.

(** ** An instance: one pair, rotated at time 5. *)

Definition ex_files (t : nat) : FS := fun p =>
  if beqb p (bs "a.pem") then Ok (if (t <? 5)%nat then bs "A" else bs "C")
  else if beqb p (bs "a.key") then Ok (bs "K") else Err FileMissing.

Definition ex_pair (cert key : bytes) : result LoadErr (list bytes) := Ok [cert].
Definition ex_sum (b : bytes) : bytes := b.
Definition ex_corefile : Corefile :=
  corefile [] [([bs "a.pem"; bs "a.key"], []); ([], [(bs "strict", []); (bs "no_sni", [bs "refuse"])])].

Definition ex_conf : storeConfig :=
  {| sc_noSNIPair := ([], []); sc_pairs := [(bs "a.pem", bs "a.key")]; sc_noSNI := noSNIRefuse;
     sc_strict := true |}.

Definition ex_store_at (t : nat) : certStore :=
  match build_from ex_pair ex_parse (ex_files t) ex_conf with Ok s => s | Err _ => empty_store ex_conf end.

Definition ex_live (b d : nat) : liveStore :=
  newLiveStore ex_conf (ex_store_at b) (digestPairs ex_sum (ex_files d) (files ex_conf)) 1.

Lemma ex_setup b d :
  sni_setup ex_pair ex_parse ex_sum false 1 (view ex_files (fun _ => b)) (view ex_files (fun _ => d)) ex_corefile
  = Ok (ex_live b d).
Proof.
  unfold view, ex_live, ex_store_at, ex_files.
  destruct (b <? 5)%nat, (d <? 5)%nat; vm_compute; reflexivity.
Qed.

Lemma ex_paths p : p ∈ paths ex_conf -> p = bs "a.pem" \/ p = bs "a.key".
Proof.
  intros H. apply list_elem_of_In in H. cbn in H. destruct H as [<-|[<-|[]]]; auto.
Qed.

Lemma ex_settled : settled ex_files ex_conf 5.
Proof.
  intros t p Ht Hp. apply ex_paths in Hp as [-> | ->]; unfold ex_files; cbn [beqb]; [|done].
  by rewrite (proj2 (Nat.ltb_ge t 5)) by lia.
Qed.

Lemma ex_no_return : no_return ex_files ex_conf.
Proof.
  intros p t1 t2 t3 Hp Ht. apply ex_paths in Hp as [-> | ->]; [|done]. unfold ex_files.
  change (beqb (bs "a.pem") (bs "a.pem")) with true. cbv iota.
  destruct (Nat.ltb_spec t1 5), (Nat.ltb_spec t2 5), (Nat.ltb_spec t3 5); try done; try lia.
Qed.

Lemma ex_collision_free : collision_free ex_sum ex_files ex_conf.
Proof. by intros r1 r2. Qed.

Lemma ex_delimited : delimited ex_files ex_conf.
Proof.
  intros p t1 t2 x y Hp. apply ex_paths in Hp as [-> | ->]; [|done]. unfold reading, ex_files.
  change (beqb (bs "a.pem") (bs "a.pem")) with true. cbv iota.
  by destruct (t1 <? 5)%nat, (t2 <? 5)%nat.
Qed.

(** The intermediate ["I"] moves from the start of the key file to the end of
    the certificate file: the store those files give changes, for a loader
    that keeps what the certificate file holds, the digest does not. *)
Definition ex_moved (moved : bool) : FS := fun p =>
  if beqb p (bs "a.pem") then Ok (if moved then bs "AI" else bs "A")
  else if beqb p (bs "a.key") then Ok (if moved then bs "K" else bs "IK") else Err FileMissing.

Definition ex_chain (cert key : bytes) : result LoadErr (list bytes) := Ok ((fun b => [b]) <$> cert).

Lemma unframed_rotation_missed_example (sum : bytes -> bytes) :
  let l := newLiveStore ex_conf
             (match build_from ex_chain ex_parse (ex_moved false) ex_conf with Ok s => s | Err _ => ex_store_at 0 end)
             (digestPairs sum (ex_moved false) (files ex_conf)) 1 in
  (exists s, build_from ex_chain ex_parse (ex_moved true) ex_conf = Ok s /\
             chain_der <$> fallback s <> chain_der <$> fallback (current l)) /\
  reloadOnce ex_chain ex_parse sum (ex_moved true) (ex_moved true) l = l.
Proof.
  intros l. split; [eexists; split; [vm_compute; reflexivity|vm_compute; done]|].
  apply (unframed_rotation_missed ex_chain ex_parse sum l (ex_moved false)); reflexivity.
Qed.

Lemma sni_system_safe_witness :
  let l := ex_live 0 0 in
  is_Some (fallback (current l)) /\
  exists fs, build_from ex_pair ex_parse fs (cfg l) = Ok (current l).
Proof.
  intros l.
  pose (y := {| stores := <[0%Z := l]> (stores empty_system); pollers := pollers empty_system |}).
  assert (H : rtc (sni_step ex_pair ex_parse ex_sum) empty_system y).
  { apply rtc_once. apply (step_setup _ _ _ empty_system 0 1 _ _ ex_corefile l eq_refl (ex_setup 0 0)). }
  destruct (proj1 (sni_system_safe ex_pair ex_parse ex_sum y H) 0 l (lookup_insert_eq _ _ _)) as (H1 & H2 & _).
  done.
Defined.

Definition poll_at (t : nat) : poll := {| read_digest := fun _ => t; read_build := fun _ => t |}.

Lemma rotation_converges_witness :
  current (poll_all ex_pair ex_parse ex_sum ex_files (ex_live 0 0) [poll_at 3; poll_at 6; poll_at 7])
  = ex_store_at 5.
Proof.
  refine (rotation_converges ex_pair ex_parse ex_sum ex_files ex_corefile 1 (ex_live 0 0)
            (fun _ => O) (fun _ => O) 5 [poll_at 3] [poll_at 7] (poll_at 6) (ex_store_at 5)
            (ex_setup 0 0) _ ex_settled ex_no_return ex_collision_free ex_delimited _ _ _ _).
  - by intros p _.
  - repeat constructor.
  - intros p. cbn. lia.
  - constructor; [intros p; cbn; lia|constructor].
  - vm_compute. reflexivity.
Defined.

(** The store loaded at 4 is still in use, although the files at 5 give
    another. *)
Lemma setup_rotation_missed_witness :
  build_from ex_pair ex_parse (view ex_files (fun _ => 4%nat)) ex_conf
  = Ok (current (poll_all ex_pair ex_parse ex_sum ex_files (ex_live 4 5) [poll_at 6; poll_at 600])) /\
  bool_decide ((map_to_list (byName (ex_store_at 4))).*1 = (map_to_list (byName (ex_store_at 5))).*1) = false.
Proof.
  split; [|vm_compute; reflexivity].
  refine (setup_rotation_missed ex_pair ex_parse ex_sum ex_files ex_corefile 1 (ex_live 4 5)
            (fun _ => 4%nat) (fun _ => 5%nat) 5 [poll_at 6; poll_at 600] (ex_setup 4 5) ex_settled _ _).
  - intros _. lia.
  - repeat constructor; cbn; lia.
Defined.
