(* ===== verification/ProbeLabels.v ===== *)
(** * The probe zone's query grammar ([probe/labels.go])

    Modifier sets as bits of a [uint16], the parser that takes the name below
    the zone apart from the right, and the renderer. *)

From S2P Require Import Prelude GoStrings.

(** ** Modifiers *)

Definition ModUnsigned : Z := 1.
Definition ModBadSig : Z := 2.
Definition ModExpiredSig : Z := 4.
Definition ModFutureSig : Z := 8.
Definition ModTruncate : Z := 16.
Definition ModNXDOMAIN : Z := 32.
Definition ModServfail : Z := 64.
Definition ModNXNAME : Z := 128.
Definition ModBig : Z := 256.

Definition modifierNames : list (bytes * Z) :=
  [(bs "unsigned", ModUnsigned); (bs "badsig", ModBadSig); (bs "expiredsig", ModExpiredSig);
   (bs "futuresig", ModFutureSig); (bs "truncate", ModTruncate); (bs "nxdomain", ModNXDOMAIN);
   (bs "nxname", ModNXNAME); (bs "servfail", ModServfail); (bs "big", ModBig)].

(** The map read at a key. *)
Fixpoint find_name (n : bytes) (l : list (bytes * Z)) : option Z :=
  match l with
  | [] => None
  | (k, v) :: t => if beqb n k then Some v else find_name n t
  end.

Definition modifierOrder : list bytes :=
  [bs "unsigned"; bs "badsig"; bs "expiredsig"; bs "futuresig"; bs "truncate"; bs "nxdomain";
   bs "nxname"; bs "servfail"; bs "big"].

Definition conflicts : list Z :=
  [Z.lor ModUnsigned (Z.lor ModBadSig (Z.lor ModExpiredSig ModFutureSig));
   Z.lor ModNXDOMAIN (Z.lor ModNXNAME ModServfail)].

Definition Has (m want : Z) : bool := Z.land m want =? want.

(** A name of [modifierOrder] is in the map; Go's zero value stands for one
    that is not. *)
Definition modifier_of (name : bytes) : Z :=
  match find_name name modifierNames with Some m => m | None => 0 end.

Definition renderModifier (m : Z) : bytes :=
  if m =? 0 then bs "none"
  else join (bs ",") (List.filter (fun name => Has m (modifier_of name)) modifierOrder).

Definition modStrings : list bytes := renderModifier <$> (Z.of_nat <$> seq 0 512).

Definition Modifier_String (m : Z) : bytes :=
  match (if m <? zlen modStrings then modStrings !! Z.to_nat m else None) with
  | Some s => s
  | None => renderModifier m
  end.

Inductive QueryErr := BadModifierBits | ConflictingModifiers | BadTokenLength | BadTokenByte.

Fixpoint check_conflicts (m : Z) (groups : list Z) : result QueryErr unit :=
  match groups with
  | [] => Ok tt
  | g :: t => let bits := Z.land m g in
              if negb (bits =? 0) && negb (bits =? Z.land bits (u16 (- bits)))
              then Err ConflictingModifiers else check_conflicts m t
  end.

Definition Modifier_Validate (m : Z) : result QueryErr unit :=
  if negb (Z.shiftr m (zlen modifierOrder) =? 0) then Err BadModifierBits else check_conflicts m conflicts.

(** ** Queries *)

Record Query := { Token : bytes; Mods : Z }.

Definition minTokenLen : Z := 8.
Definition maxTokenLen : Z := 32.

(** The bytes both [Validate] and [parseToken] accept. *)
Definition hex_byte (c : byte) : bool :=
  ((48 <=? b2z c) && (b2z c <=? 57)) || ((97 <=? b2z c) && (b2z c <=? 102)).

Definition Query_Validate (q : Query) : result QueryErr unit :=
  if (zlen (Token q) <? minTokenLen) || (maxTokenLen <? zlen (Token q)) then Err BadTokenLength
  else if negb (forallb hex_byte (Token q)) then Err BadTokenByte
  else Modifier_Validate (Mods q).

Definition Sub (q : Query) : bytes :=
  concat ((fun name => if Has (Mods q) (modifier_of name) then bs "_" ++ name ++ bs "." else []) <$> modifierOrder)
  ++ Token q.

(** [toLowerASCII]: the prefix without an upper-case letter is kept. *)
Definition fold_upper (c : byte) : byte :=
  if (65 <=? b2z c) && (b2z c <=? 90) then z2b (b2z c + 32) else c.

Fixpoint toLowerASCII (s : bytes) : bytes :=
  match s with
  | [] => []
  | c :: t => if negb ((65 <=? b2z c) && (b2z c <=? 90)) then c :: toLowerASCII t else fold_upper <$> s
  end.

Definition maxModifierLabel : Z := 16.

Definition lookupModifier (name : bytes) : option Z :=
  if maxModifierLabel <? zlen name then None else find_name (fold_upper <$> name) modifierNames.

Definition parseToken (l : bytes) : option bytes :=
  if (zlen l <? minTokenLen) || (maxTokenLen <? zlen l) then None
  else let lower := toLowerASCII l in if forallb hex_byte lower then Some lower else None.

Definition ldot : byte := Byte.x2e.

(** The loop over the modifier labels. Each turn takes at least one byte off
    [mods], so as many turns as it has bytes are enough. *)
Fixpoint parse_mods (fuel : nat) (mods : bytes) (set : Z) : option Z :=
  match mods with
  | [] => Some set
  | _ :: _ =>
      match fuel with
      | O => None
      | S fuel' =>
          let '(l, mods') := match index_byte mods ldot with
                             | Some i => (take i mods, drop (S i) mods)
                             | None => (mods, [])
                             end in
          name ← cut_prefix (bs "_") l;
          m ← lookupModifier name;
          if Has set m then None else parse_mods fuel' mods' (Z.lor set m)
      end
  end.

Definition ParseQuery (sub : bytes) : option Query :=
  let sub := trim_suffix sub (bs ".") in
  if beqb sub [] then None else
  let '(mods, tokenLabel) := match last_index_byte sub ldot with
                             | Some i => (take i sub, drop (S i) sub)
                             | None => ([], sub)
                             end in
  token ← parseToken tokenLabel;
  set ← parse_mods (length mods) mods 0;
  match Modifier_Validate set with
  | Err _ => None
  | Ok _ => Some {| Token := token; Mods := set |}
  end.

Example parse_two : ParseQuery (bs "_BadSig._truncate.DEADbeef.") = Some {| Token := bs "deadbeef"; Mods := 18 |}.
Proof. vm_compute. reflexivity. Qed.

(** ** Lemmas *)

Lemma fold_upper_lower c : fold_upper c = lower_byte c.
Proof. by destruct c. Qed.

Lemma fold_upper_map s : fold_upper <$> s = lower s.
Proof. induction s as [|c t IH]; [done|]. cbn [fmap list_fmap]. by rewrite IH, fold_upper_lower. Qed.

Lemma toLowerASCII_spec s : toLowerASCII s = lower s.
Proof.
  induction s as [|c t IH]; [done|]. cbn [toLowerASCII]. rewrite fold_upper_map.
  destruct ((65 <=? b2z c) && (b2z c <=? 90)) eqn:E; cbn [negb]; [done|].
  rewrite IH, lower_cons. f_equal. rewrite <- fold_upper_lower. unfold fold_upper. by rewrite E.
Qed.

Lemma parseToken_lower l : parseToken (lower l) = parseToken l.
Proof. unfold parseToken, zlen. rewrite length_lower, !toLowerASCII_spec, lower_idem. done. Qed.

Lemma lookupModifier_lower n : lookupModifier (lower n) = lookupModifier n.
Proof. unfold lookupModifier, zlen. by rewrite length_lower, !fold_upper_map, lower_idem. Qed.

(** *** The map and the bits *)

Lemma find_name_spec n v :
  find_name n modifierNames = Some v <-> (n, v) ∈ modifierNames.
Proof.
  assert (H : forall l, NoDup l.*1 -> find_name n l = Some v <-> (n, v) ∈ l).
  { clear. induction l as [|[k w] t IH]; cbn; [by rewrite elem_of_nil|].
    intros [Hk Ht]%NoDup_cons. rewrite elem_of_cons. destruct (beqb n k) eqn:E.
    - apply beqb_true in E as ->. split; [by intros [= ->]; left|].
      intros [[= ->]|Hin]; [done|]. destruct Hk. apply list_elem_of_fmap. by exists (k, v).
    - apply beqb_false in E. rewrite IH by done. split; [by right|]. by intros [[= -> _]|?]. }
  apply H. vm_compute. repeat (constructor; [set_solver|]). constructor.
Qed.

(** Every name's modifier is one bit of nine, and every bit has one name. *)
Lemma names_bits : forall n b, (n, b) ∈ modifierNames -> exists k, 0 <= k < 9 /\ b = 2 ^ k.
Proof.
  intros n b H. apply list_elem_of_In in H. cbn in H.
  repeat (destruct H as [[= <- <-]|H];
    [first [exists 0; done|exists 1; done|exists 2; done|exists 3; done|exists 4; done
           |exists 5; done|exists 6; done|exists 7; done|exists 8; done]|]). done.
Qed.

Lemma bits_name k : 0 <= k < 9 -> exists n, (n, 2 ^ k) ∈ modifierNames.
Proof.
  intros H. assert (Hk : In k [0; 1; 2; 3; 4; 5; 6; 7; 8]) by (cbn; lia).
  assert (Ha : forallb (fun k => existsb (fun x => x.2 =? 2 ^ k) modifierNames) [0; 1; 2; 3; 4; 5; 6; 7; 8] = true)
    by (vm_compute; reflexivity).
  rewrite forallb_forall in Ha. apply Ha, existsb_exists in Hk as ([n b] & Hin & He). cbn in He.
  apply Z.eqb_eq in He as ->. exists n. by apply list_elem_of_In.
Qed.

Lemma names_functional n1 n2 b : (n1, b) ∈ modifierNames -> (n2, b) ∈ modifierNames -> n1 = n2.
Proof.
  intros H1 H2. apply list_elem_of_In in H1, H2.
  assert (Ha : forallb (fun x => forallb (fun y => implb (x.2 =? y.2) (beqb x.1 y.1)) modifierNames) modifierNames = true)
    by (vm_compute; reflexivity).
  rewrite forallb_forall in Ha. apply Ha in H1. rewrite forallb_forall in H1. apply H1 in H2.
  cbn [fst snd] in H2. rewrite Z.eqb_refl in H2. by apply beqb_true in H2.
Qed.

Lemma Has_bit m k : 0 <= k -> Has m (2 ^ k) = Z.testbit m k.
Proof.
  intros Hk. unfold Has. destruct (Z.testbit m k) eqn:E.
  - apply Z.eqb_eq, Z.bits_inj'. intros j Hj. rewrite Z.land_spec, Z.pow2_bits_eqb by done.
    destruct (Z.eqb_spec k j) as [->|]; [by rewrite E|by rewrite andb_false_r].
  - apply Z.eqb_neq. intros H. pose proof (f_equal (fun z => Z.testbit z k) H) as Hb. cbn beta in Hb.
    rewrite Z.land_spec, E, Z.pow2_bits_true in Hb by done. done.
Qed.

Lemma Has_lor m b b' n n' :
  (n, b) ∈ modifierNames -> (n', b') ∈ modifierNames ->
  Has (Z.lor m b) b' = Has m b' || (b' =? b).
Proof.
  intros H1 H2. apply names_bits in H1 as (k & Hk & ->), H2 as (k' & Hk' & ->).
  rewrite !Has_bit, Z.lor_spec, Z.pow2_bits_eqb by lia. f_equal.
  destruct (Z.eqb_spec k k') as [->|Hn]; [by rewrite Z.eqb_refl|].
  symmetry. apply Z.eqb_neq. intros H. apply Z.pow_inj_r in H; lia.
Qed.

Lemma Modifier_Validate_range m : is_ok (Modifier_Validate m) = true -> 0 <= m < 512.
Proof.
  unfold Modifier_Validate. destruct (Z.shiftr m (zlen modifierOrder) =? 0) eqn:E; [|done].
  apply Z.eqb_eq in E. change (zlen modifierOrder) with 9 in E.
  rewrite Z.shiftr_div_pow2 in E by lia. change (2 ^ 9) with 512 in E. intros _.
  apply Z.div_small_iff in E; lia.
Qed.

(** The labels of a modifier set, in canonical order. *)
Definition mod_labels (m : Z) : list bytes :=
  (fun name => bs "_" ++ name) <$> List.filter (fun name => Has m (modifier_of name)) modifierOrder.

Lemma modifierOrder_names n : n ∈ modifierOrder <-> exists b, (n, b) ∈ modifierNames /\ modifier_of n = b.
Proof.
  rewrite !list_elem_of_In. setoid_rewrite list_elem_of_In. split.
  - intros H. cbn in H. repeat (destruct H as [<-|H]; [eexists; split; [|reflexivity]; cbn; tauto|]). done.
  - intros (b & H & _). cbn in H. repeat (destruct H as [[= <- <-]|H]; [cbn; tauto|]). done.
Qed.

Lemma elem_of_mod_labels l m :
  l ∈ mod_labels m <-> exists n b, (n, b) ∈ modifierNames /\ l = bs "_" ++ n /\ Has m b = true.
Proof.
  unfold mod_labels. rewrite list_elem_of_fmap. setoid_rewrite list_elem_of_In. setoid_rewrite filter_In. split.
  - intros (n & -> & [Hn Hh]). rewrite <- list_elem_of_In in Hn. apply modifierOrder_names in Hn as (b & Hb & <-).
    exists n, (modifier_of n). rewrite <- list_elem_of_In. done.
  - intros (n & b & Hb & -> & Hh). rewrite <- list_elem_of_In in Hb. exists n. split; [done|].
    assert (Ho : n ∈ modifierOrder /\ modifier_of n = b).
    { unfold modifier_of. rewrite (proj2 (find_name_spec n b) Hb). split; [|done].
      apply modifierOrder_names. exists b. split; [done|]. unfold modifier_of.
      by rewrite (proj2 (find_name_spec n b) Hb). }
    rewrite <- list_elem_of_In. destruct Ho as [? ->]. done.
Qed.

Lemma NoDup_mod_labels m : NoDup (mod_labels m).
Proof.
  apply NoDup_fmap_2; [intros x y H; by injection H|]. apply NoDup_ListNoDup, List.NoDup_filter, NoDup_ListNoDup.
  vm_compute. repeat (constructor; [set_solver|]). constructor.
Qed.

Lemma mod_labels_inj m m' :
  0 <= m < 512 -> 0 <= m' < 512 -> mod_labels m ≡ₚ mod_labels m' -> m = m'.
Proof.
  intros H1 H2 Hp. apply Z.bits_inj'. intros k Hk. destruct (Z_lt_le_dec k 9) as [Hl|Hl].
  - destruct (bits_name k) as [n Hn]; [lia|]. rewrite <- !Has_bit by done.
    assert (Hi : forall x y, mod_labels x ≡ₚ mod_labels y -> Has x (2 ^ k) = true -> Has y (2 ^ k) = true).
    { intros x y Hxy Hx. assert (Hm : bs "_" ++ n ∈ mod_labels y).
      { rewrite <- Hxy. apply elem_of_mod_labels. by exists n, (2 ^ k). }
      apply elem_of_mod_labels in Hm as (n' & b & Hb & He & Hh). apply app_inv_head in He as ->.
      pose proof (proj2 (find_name_spec _ _) Hb). pose proof (proj2 (find_name_spec _ _) Hn). congruence. }
    destruct (Has m (2 ^ k)) eqn:E1, (Has m' (2 ^ k)) eqn:E2; try done.
    + by rewrite (Hi m m' Hp E1) in E2.
    + by rewrite (Hi m' m (symmetry Hp) E2) in E1.
  - assert (Hz : forall x, 0 <= x < 512 -> Z.testbit x k = false).
    { intros x Hx. rewrite Z.testbit_false, Z.div_small; [done| |done]. split; [lia|].
      apply (Z.lt_le_trans _ (2 ^ 9)); [lia|]. apply Z.pow_le_mono_r; lia. }
    by rewrite !Hz.
Qed.

(** *** The loop over the labels *)

(** A label as a name holds it: not empty, no dot. *)
Definition label_ok (l : bytes) : Prop := l <> [] /\ ldot ∉ l.

Definition add_label (l : bytes) (set : Z) : option Z :=
  name ← cut_prefix (bs "_") l; m ← lookupModifier name; if Has set m then None else Some (Z.lor set m).

Fixpoint add_labels (ls : list bytes) (set : Z) : option Z :=
  match ls with [] => Some set | l :: t => set' ← add_label l set; add_labels t set' end.

Lemma lookupModifier_spec name m :
  lookupModifier name = Some m <-> (lower name, m) ∈ modifierNames.
Proof.
  unfold lookupModifier. rewrite fold_upper_map. destruct (maxModifierLabel <? zlen name) eqn:E.
  - split; [done|]. intros H. apply list_elem_of_In in H. apply Z.ltb_lt in E. unfold zlen in E.
    rewrite <- length_lower in E. unfold maxModifierLabel in E. exfalso. revert E. generalize (lower name) H.
    clear. intros n H. cbn in H. repeat (destruct H as [[= <- _]|H]; [cbn; lia|]). done.
  - apply find_name_spec.
Qed.

Lemma cut_underscore l name :
  cut_prefix (bs "_") l = Some name <-> l = bs "_" ++ name.
Proof. apply cut_prefix_spec. Qed.

Lemma add_label_spec l set set' :
  add_label l set = Some set' <->
  exists name m, (name, m) ∈ modifierNames /\ lower l = bs "_" ++ name /\ Has set m = false /\ set' = Z.lor set m.
Proof.
  unfold add_label. rewrite bind_Some. setoid_rewrite bind_Some. setoid_rewrite cut_underscore. split.
  - intros (n & -> & m & Hm & H). apply lookupModifier_spec in Hm.
    destruct (Has set m) eqn:E; [done|]. injection H as <-. exists (lower n), m. by rewrite lower_app.
  - intros (n & m & Hm & Hl & Hh & ->). destruct l as [|c t]; [done|]. rewrite lower_cons in Hl.
    injection Hl as Hc Ht. assert (c = Byte.x5f) as -> by (revert Hc; by destruct c).
    exists t. split; [done|]. exists m. rewrite Hh. split; [|done]. apply lookupModifier_spec. by rewrite Ht.
Qed.

Lemma add_label_labels l set set' :
  add_label l set = Some set' -> mod_labels set' ≡ₚ lower l :: mod_labels set.
Proof.
  intros (n & m & Hm & Hl & Hh & ->)%add_label_spec. apply NoDup_Permutation.
  - apply NoDup_mod_labels.
  - apply NoDup_cons. split; [|apply NoDup_mod_labels]. rewrite Hl, elem_of_mod_labels.
    intros (n' & b & Hb & He & Hx). apply app_inv_head in He as ->.
    apply find_name_spec in Hm, Hb. congruence.
  - intros x. rewrite elem_of_cons, !elem_of_mod_labels. split.
    + intros (n' & b & Hb & -> & Hx). rewrite (Has_lor set m b n n') in Hx by done.
      apply orb_true_iff in Hx as [Hx|Hx]; [right; by exists n', b|]. left. apply Z.eqb_eq in Hx as ->.
      rewrite Hl. by rewrite (names_functional n' n m).
    + intros [->|(n' & b & Hb & -> & Hx)].
      * exists n, m. rewrite (Has_lor set m m n n), Z.eqb_refl, orb_true_r by done. done.
      * exists n', b. rewrite (Has_lor set m b n n'), Hx by done. done.
Qed.

Lemma add_label_range l set set' : add_label l set = Some set' -> 0 <= set < 512 -> 0 <= set' < 512.
Proof.
  intros (n & m & Hm & _ & _ & ->)%add_label_spec Hs. apply names_bits in Hm as (k & Hk & ->).
  assert (H0 : 0 <= Z.lor set (2 ^ k)) by (apply Z.lor_nonneg; lia). split; [done|].
  destruct (Z.eq_dec (Z.lor set (2 ^ k)) 0) as [->|Hn]; [done|].
  change 512 with (2 ^ 9). apply Z.log2_lt_pow2; [lia|]. rewrite Z.log2_lor, Z.log2_pow2 by lia.
  destruct (Z.eq_dec set 0) as [->|]; [cbn; lia|].
  assert (Z.log2 set < 9) by (apply Z.log2_lt_pow2; lia). lia.
Qed.

Lemma add_labels_labels ls set set' :
  0 <= set < 512 -> add_labels ls set = Some set' ->
  mod_labels set' ≡ₚ (lower <$> ls) ++ mod_labels set /\ 0 <= set' < 512.
Proof.
  revert set. induction ls as [|l t IH]; intros set Hr H; cbn in H; [by injection H as <-|].
  destruct (add_label l set) as [s1|] eqn:E; [|done]. cbn in H.
  pose proof (add_label_range _ _ _ E Hr) as Hr1. apply IH in H as [H ?]; [|done]. split; [|done].
  rewrite H, (add_label_labels l set s1 E). cbn. by rewrite Permutation_middle.
Qed.

Lemma add_labels_total ls set :
  NoDup (lower <$> ls) -> (forall l, l ∈ ls -> exists n m, (n, m) ∈ modifierNames /\ lower l = bs "_" ++ n) ->
  (forall l, l ∈ ls -> lower l ∉ mod_labels set) -> is_Some (add_labels ls set).
Proof.
  revert set. induction ls as [|l t IH]; intros set Hd Hk Hn; cbn; [by eexists|].
  apply NoDup_cons in Hd as [Hl Hd]. destruct (Hk l ltac:(left)) as (n & m & Hm & He).
  assert (E : add_label l set = Some (Z.lor set m)).
  { apply add_label_spec. exists n, m. split_and!; [done|done| |done].
    apply not_true_iff_false. intros Hh. destruct (Hn l ltac:(left)). apply elem_of_mod_labels. by exists n, m. }
  rewrite E. cbn. apply IH; [done|intros x Hx; apply Hk; by right|]. intros x Hx.
  rewrite (add_label_labels l set _ E), not_elem_of_cons. split; [|apply Hn; by right].
  intros Hxl. apply Hl. rewrite <- Hxl. apply list_elem_of_fmap. by exists x.
Qed.

(** *** Cutting a name at its dots *)

Lemma parse_mods_labels ls fuel set :
  Forall label_ok ls -> (length (join (bs ".") ls) <= fuel)%nat ->
  parse_mods fuel (join (bs ".") ls) set = add_labels ls set.
Proof.
  intros H. revert fuel set. induction H as [|l t [Hl Hd] Ht IH]; intros fuel set Hf; [by destruct fuel|].
  destruct t as [|l2 t].
  - cbn [join] in *. destruct l as [|c l]; [done|]. destruct fuel as [|fuel]; [cbn in Hf; lia|].
    cbn [parse_mods add_labels]. rewrite (proj2 (index_byte_None (c :: l) ldot) Hd).
    unfold add_label. destruct (cut_prefix _ _) as [n|]; [|done]. cbn.
    destruct (lookupModifier n) as [m|]; [|done]. cbn. destruct (Has set m); [done|]. by destruct fuel.
  - set (r := join (bs ".") (l2 :: t)) in *. change (join (bs ".") (l :: l2 :: t)) with (l ++ ldot :: r) in *.
    rewrite length_app in Hf. cbn [length] in Hf. destruct fuel as [|fuel]; [destruct l; cbn in Hf; lia|].
    destruct l as [|c l]; [done|]. change ((c :: l) ++ ldot :: r) with (c :: (l ++ ldot :: r)).
    cbn [parse_mods]. change (c :: (l ++ ldot :: r)) with ((c :: l) ++ ldot :: r).
    rewrite index_byte_app, take_app_length by done.
    replace (drop (S (length (c :: l))) ((c :: l) ++ ldot :: r)) with r
      by (change (ldot :: r) with ([ldot] ++ r); rewrite app_assoc, drop_app_n; [done|rewrite length_app; cbn; lia]).
    cbn [add_labels]. unfold add_label. destruct (cut_prefix _ _) as [n|]; [|done]. cbn [mbind option_bind].
    destruct (lookupModifier n) as [m|]; [|done]. cbn [mbind option_bind]. destruct (Has set m); [done|].
    apply IH. fold r. cbn [length] in Hf. lia.
Qed.

Lemma trim_dot_snoc s : trim_suffix (s ++ bs ".") (bs ".") = s.
Proof. apply trim_suffix_app. Qed.

Lemma ParseQuery_labels ls t :
  Forall label_ok ls -> label_ok t ->
  ParseQuery (join (bs ".") (ls ++ [t])) =
    (token ← parseToken t; set ← add_labels ls 0;
     match Modifier_Validate set with Err _ => None | Ok _ => Some {| Token := token; Mods := set |} end) /\
  ParseQuery (join (bs ".") (ls ++ [t]) ++ bs ".") = ParseQuery (join (bs ".") (ls ++ [t])).
Proof.
  change (bs ".") with [ldot]. intros Hls [Ht Hd]. unfold ParseQuery at 2 3. rewrite trim_dot_snoc.
  assert (Htr : trim_suffix (join [ldot] (ls ++ [t])) [ldot] = join [ldot] (ls ++ [t])).
  { apply trim_suffix_join; [by destruct ls|]. apply Forall_app. split; [exact Hls|by constructor]. }
  change (bs ".") with [ldot]. split; [|unfold ParseQuery; change (bs ".") with [ldot]; by rewrite Htr].
  unfold ParseQuery. change (bs ".") with [ldot]. rewrite Htr.
  destruct ls as [|l r].
  - cbn [app join]. rewrite (proj2 (last_index_byte_None t ldot) Hd).
    rewrite (proj2 (beqb_false t [])) by done. done.
  - rewrite join_snoc by done. rewrite last_index_byte_app by done.
    rewrite (proj2 (beqb_false _ [])) by (by destruct (join [ldot] (l :: r))).
    rewrite take_app_length.
    replace (drop (S (length (join [ldot] (l :: r)))) (join [ldot] (l :: r) ++ ldot :: t)) with t
      by (change (ldot :: t) with ([ldot] ++ t); rewrite app_assoc, drop_app_n; [done|rewrite length_app; cbn; lia]).
    rewrite parse_mods_labels by done. done.
Qed.

Lemma parseToken_spec l token :
  parseToken l = Some token <->
  token = lower l /\ minTokenLen <= zlen token <= maxTokenLen /\ forallb hex_byte token = true.
Proof.
  unfold parseToken. rewrite toLowerASCII_spec.
  assert (Hl : zlen l = zlen (lower l)) by (unfold zlen; by rewrite length_lower). rewrite Hl. split.
  - destruct (_ || _) eqn:E; [done|]. apply orb_false_iff in E as [E1 E2]. apply Z.ltb_ge in E1, E2.
    destruct (forallb hex_byte (lower l)) eqn:Eh; [|done]. intros [= <-]. done.
  - intros (-> & [H1 H2] & ->). apply Z.ltb_ge in H1, H2. by rewrite H1, H2.
Qed.

Lemma Query_Validate_spec q :
  Query_Validate q = Ok tt <->
  (minTokenLen <= zlen (Token q) <= maxTokenLen /\ forallb hex_byte (Token q) = true) /\
  Modifier_Validate (Mods q) = Ok tt.
Proof.
  unfold Query_Validate. split.
  - destruct (_ || _) eqn:E; [done|]. apply orb_false_iff in E as [E1 E2]. apply Z.ltb_ge in E1, E2.
    destruct (forallb hex_byte (Token q)); [|done]. done.
  - intros [[[H1 H2] ->] H]. apply Z.ltb_ge in H1, H2. by rewrite H1, H2.
Qed.

Lemma Sub_labels q : Sub q = join (bs ".") (mod_labels (Mods q) ++ [Token q]).
Proof.
  unfold Sub, mod_labels. induction modifierOrder as [|n t IH]; [done|]. cbn [fmap list_fmap concat List.filter].
  destruct (Has (Mods q) (modifier_of n)); [|exact IH]. cbn [fmap list_fmap app].
  rewrite <- app_assoc, IH. clear. set (r := mod_labels (Mods q)).
  destruct (((fun name => bs "_" ++ name) <$> List.filter (fun name => Has (Mods q) (modifier_of name)) t)); cbn;
    by rewrite <- ?app_assoc.
Qed.

Lemma mod_labels_ok m : Forall label_ok (mod_labels m) /\ lower <$> mod_labels m = mod_labels m.
Proof.
  assert (H : forall l, l ∈ mod_labels m -> label_ok l /\ lower l = l).
  { intros l (n & b & Hb & -> & _)%elem_of_mod_labels. apply list_elem_of_In in Hb. cbn in Hb.
    repeat (destruct Hb as [[= <- _]|Hb]; [split; [split; [done|by apply index_byte_None]|done]|]). done. }
  split; [apply Forall_forall; intros l Hl; by apply H|].
  induction (mod_labels m) as [|l t IH]; [done|]. cbn. f_equal; [apply H; left|].
  apply IH. intros x Hx. apply H. by right.
Qed.

Lemma hex_bytes_lower s : forallb hex_byte s = true -> lower s = s /\ ldot ∉ s.
Proof.
  induction s as [|c t IH]; cbn; [by split; [|apply not_elem_of_nil]|].
  intros [Hc Ht]%andb_true_iff. destruct (IH Ht) as [E Hn]. rewrite not_elem_of_cons. split_and!; [|by intros <-|done].
  f_equal; [|exact E]. revert Hc. by destruct c.
Qed.

Lemma ParseQuery_spec ls t q :
  Forall label_ok ls -> label_ok t ->
  ParseQuery (join (bs ".") (ls ++ [t])) = Some q <->
  Query_Validate q = Ok tt /\ lower t = Token q /\ (lower <$> ls) ≡ₚ mod_labels (Mods q).
Proof.
  intros Hls Ht. rewrite (proj1 (ParseQuery_labels ls t Hls Ht)), Query_Validate_spec.
  rewrite bind_Some. setoid_rewrite bind_Some. setoid_rewrite parseToken_spec. split.
  - intros (token & (-> & Hw) & set & Ha & H). destruct (Modifier_Validate set) as [[]|] eqn:Ev; [|done].
    injection H as <-. cbn [Token Mods]. apply add_labels_labels in Ha as [Ha _]; [|lia].
    rewrite app_nil_r in Ha. done.
  - intros ([[Hw Hh] Hv] & He & Hp). exists (Token q). split; [by rewrite <- He in *|].
    assert (Hr : 0 <= Mods q < 512) by (apply Modifier_Validate_range; by rewrite Hv).
    destruct (add_labels_total ls 0) as [s Hs].
    + rewrite Hp. apply NoDup_mod_labels.
    + intros l Hl. assert (Hx : lower l ∈ lower <$> ls) by (apply list_elem_of_fmap; by exists l).
      rewrite Hp in Hx. apply elem_of_mod_labels in Hx as (n & b & ? & ? & _). by exists n, b.
    + intros l _ Hx. apply elem_of_mod_labels in Hx as (n & b & Hb & _ & Hx).
      apply names_bits in Hb as (k & Hk & ->). rewrite Has_bit, Z.bits_0 in Hx by lia. done.
    + exists s. split; [done|]. apply add_labels_labels in Hs as [Hs Hsr]; [|lia]. rewrite app_nil_r, Hp in Hs.
      rewrite (mod_labels_inj s (Mods q) Hsr Hr Hs), Hv. by destruct q.
Qed.

Lemma Token_ok q : Query_Validate q = Ok tt -> label_ok (Token q) /\ lower (Token q) = Token q.
Proof.
  intros Hw. apply Query_Validate_spec in Hw as [[[Hl _] Hh] _].
  pose proof (hex_bytes_lower (Token q) Hh) as [Ht1 Ht2].
  split; [|done]. split; [by intros E; rewrite E in Hl|done].
Qed.

Lemma ParseQuery_Sub q : Query_Validate q = Ok tt -> ParseQuery (Sub q) = Some q.
Proof.
  intros Hv. rewrite Sub_labels. pose proof (mod_labels_ok (Mods q)) as [Hm1 Hm2].
  destruct (Token_ok q Hv) as [Ht1 Ht2]. apply ParseQuery_spec; [done|done|by rewrite Hm2].
Qed.

(** C34: the grammar, exactly. For a name of non-empty labels, with or without
    a final dot, [ParseQuery] gives a query exactly when the query is valid,
    its token is the last label and its modifiers are the other labels, in
    any order and any letter case, none of them twice. So it accepts what
    [Sub] renders for a valid query, with that query. *)
Theorem ParseQuery_exact (ls : list bytes) (t : bytes) (q : Query) :
  Forall label_ok ls -> label_ok t ->
  (ParseQuery (join (bs ".") (ls ++ [t])) = Some q <->
   Query_Validate q = Ok tt /\ lower t = Token q /\ (lower <$> ls) ≡ₚ mod_labels (Mods q)) /\
  ParseQuery (join (bs ".") (ls ++ [t]) ++ bs ".") = ParseQuery (join (bs ".") (ls ++ [t])) /\
  (Query_Validate q = Ok tt -> ParseQuery (Sub q) = Some q).
Proof.
  intros Hls Ht. split; [by apply ParseQuery_spec|]. split; [by apply ParseQuery_labels|apply ParseQuery_Sub].
Qed.

Lemma ParseQuery_exact_witness :
  ParseQuery (bs "_TRUNCATE._BadSig.DeadBeef") = Some {| Token := bs "deadbeef"; Mods := 18 |} /\
  ParseQuery (Sub {| Token := bs "deadbeef"; Mods := 18 |}) = Some {| Token := bs "deadbeef"; Mods := 18 |}.
Proof.
  assert (H1 : Forall label_ok [bs "_TRUNCATE"; bs "_BadSig"])
    by (repeat constructor; (done || by apply index_byte_None)).
  assert (H2 : label_ok (bs "DeadBeef")) by (split; [done|by apply index_byte_None]).
  destruct (ParseQuery_exact _ _ {| Token := bs "deadbeef"; Mods := 18 |} H1 H2) as (He & _ & Hs).
  split; [|by apply Hs]. apply He. split; [done|]. split; [done|].
  change (lower <$> [bs "_TRUNCATE"; bs "_BadSig"]) with [bs "_truncate"; bs "_badsig"].
  replace (mod_labels (Mods {| Token := bs "deadbeef"; Mods := 18 |})) with [bs "_badsig"; bs "_truncate"]
    by (vm_compute; reflexivity). constructor.
Defined.
