(* ===== verification/ProbeKeyTag.v ===== *)
(** * DNSSEC key tag signals ([probe/keytag.go])

    RFC 8145's two forms: the [_ta-] query name and the edns-key-tag option,
    decoded strictly. *)

From stdpp Require Import sorting.
From S2P Require Import Prelude GoStrings Dns ProbeLabels.

Definition keyTagPrefix : bytes := bs "_ta-".
Definition keyTagHexDigits : Z := 4.
Definition maxKeyTagsPerQuery : Z := 16.
Definition hyphen : byte := Byte.x2d.

Inductive KeyTagErr := ErrNotKeyTagQuery | ErrBadKeyTagQuery.

(** [strconv.ParseUint(s, 16, 16)]; [None] is an error. *)
Fixpoint parse_hex (s : bytes) (acc : Z) : option Z :=
  match s with
  | [] => Some acc
  | b :: t => match unhex b with Some x => parse_hex t (16 * acc + x) | None => None end
  end.

Definition parse_uint16_hex (s : bytes) : option Z :=
  match s with
  | [] => None
  | _ => match parse_hex s 0 with Some n => if n <? 2 ^ 16 then Some n else None | None => None end
  end.

Fixpoint parse_tags (parts : list bytes) : result KeyTagErr (list Z) :=
  match parts with
  | [] => Ok []
  | p :: t => if negb (zlen p =? keyTagHexDigits) then Err ErrBadKeyTagQuery
              else match parse_uint16_hex p with
                   | None => Err ErrBadKeyTagQuery
                   | Some n => tags ← parse_tags t; Ok (n :: tags)
                   end
  end.

Definition ParseKeyTagQuery (sub : bytes) : result KeyTagErr (list Z) :=
  let label := sub in
  match index_byte label ldot with
  | Some _ => Err ErrNotKeyTagQuery
  | None =>
      if negb (has_prefix keyTagPrefix (toLowerASCII label)) then Err ErrNotKeyTagQuery else
      let rest := drop (length keyTagPrefix) label in
      if beqb rest [] then Err ErrBadKeyTagQuery else
      let parts := split_byte hyphen rest in
      if maxKeyTagsPerQuery <? zlen parts then Err ErrBadKeyTagQuery else parse_tags parts
  end.

(** [sort.SliceIsSorted] with [<]: no element is less than the one before. *)
Fixpoint KeyTagsSorted (tags : list Z) : bool :=
  match tags with
  | a :: ((b :: _) as t) => negb (b <? a) && KeyTagsSorted t
  | _ => true
  end.

(** [%04x] of a [uint16]. *)
Definition hex4 (n : Z) : bytes := hex_encode (be_bytes 2 n).

Definition FormatKeyTagQuery (tags : list Z) : bytes :=
  keyTagPrefix ++ join [hyphen] (hex4 <$> merge_sort Z.le tags).

Definition ednsKeyTagOption : Z := 14.

Fixpoint be16s (data : bytes) : list Z :=
  match data with a :: b :: t => be_val [a; b] :: be16s t | _ => [] end.

Definition parseEDNSKeyTags (data : bytes) : option (list Z) :=
  if (zlen data =? 0) || negb (zlen data mod 2 =? 0) then None
  else if maxKeyTagsPerQuery <? zlen data / 2 then None
  else Some (be16s data).

Definition ednsKeyTags (opt : OPT) : list Z :=
  concat ((fun o => match o with
                    | EDNS0_LOCAL code data =>
                        if code =? ednsKeyTagOption
                        then match parseEDNSKeyTags data with Some more => more | None => [] end
                        else []
                    | _ => []
                    end) <$> Option opt).

Definition hasKeyTag (tags : list Z) (want : Z) : bool := existsb (Z.eqb want) tags.

(** ** Lemmas *)

Definition hex_values : list Z := [0;1;2;3;4;5;6;7;8;9;10;11;12;13;14;15].

(** [unhex] and [hex_digit] agree on every byte, by evaluation. *)
Lemma unhex_table b :
  match unhex b with Some x => (0 <=? x) && (x <? 16) | None => true end
  && forallb (fun x => Bool.eqb (bool_decide (unhex b = Some x)) (bool_decide (lower_byte b = hex_digit x))) hex_values
  = true.
Proof. by destruct b; vm_compute. Qed.

Lemma unhex_spec b x : unhex b = Some x <-> 0 <= x < 16 /\ lower_byte b = hex_digit x.
Proof.
  pose proof (unhex_table b) as [Hr Ht]%andb_prop. rewrite forallb_forall in Ht.
  assert (Hx : 0 <= x < 16 -> unhex b = Some x <-> lower_byte b = hex_digit x).
  { intros Hx. assert (Hin : In x hex_values) by (cbn; lia). apply Ht, Bool.eqb_prop in Hin.
    rewrite <- (bool_decide_eq_true (unhex b = Some x)), Hin. apply bool_decide_eq_true. }
  split.
  - intros E. rewrite E in Hr. bool_prop. split; [done|]. by apply Hx.
  - intros [H1 H2]. by apply Hx.
Qed.

Lemma be_val2 a b : be_val [a; b] = 256 * b2z a + b2z b.
Proof.
  cbn [be_val]. unfold zlen. cbn [length]. change (256 ^ Z.of_nat 1) with 256.
  change (256 ^ Z.of_nat 0) with 1. lia.
Qed.

Lemma hex4_digits x y z w :
  0 <= x < 16 -> 0 <= y < 16 -> 0 <= z < 16 -> 0 <= w < 16 ->
  hex4 (16 * (16 * (16 * x + y) + z) + w) = [hex_digit x; hex_digit y; hex_digit z; hex_digit w].
Proof.
  intros Hx Hy Hz Hw. unfold hex4. set (n := 16 * (16 * (16 * x + y) + z) + w).
  assert (Hb : be_bytes 2 n = [z2b (16 * x + y); z2b (16 * z + w)]).
  { transitivity (be_bytes 2 (be_val [z2b (16 * x + y); z2b (16 * z + w)])).
    - f_equal. rewrite be_val2, !b2z_z2b_small by lia. unfold n. lia.
    - exact (be_bytes_val [_; _]). }
  rewrite Hb. cbn [hex_encode]. rewrite !b2z_z2b_small by lia.
  assert (E : forall a b, 0 <= b < 16 -> (16 * a + b) / 16 = a /\ (16 * a + b) mod 16 = b).
  { intros a b Hb'. split; [symmetry; apply (Z.div_unique _ _ _ b); lia|symmetry; apply (Z.mod_unique _ _ a); lia]. }
  destruct (E x y Hy) as [-> ->], (E z w Hw) as [-> ->]. done.
Qed.

Lemma u16_digits n : is_u16 n ->
  exists x y z w, 0 <= x < 16 /\ 0 <= y < 16 /\ 0 <= z < 16 /\ 0 <= w < 16 /\
    n = 16 * (16 * (16 * x + y) + z) + w.
Proof.
  unfold is_u16. intros H. change (2 ^ 16) with 65536 in H.
  exists (n / 16 / 16 / 16), (n / 16 / 16 mod 16), (n / 16 mod 16), (n mod 16).
  pose proof (Z.div_mod n 16 ltac:(lia)). pose proof (Z.mod_pos_bound n 16 ltac:(lia)).
  pose proof (Z.div_mod (n / 16) 16 ltac:(lia)). pose proof (Z.mod_pos_bound (n / 16) 16 ltac:(lia)).
  pose proof (Z.div_mod (n / 16 / 16) 16 ltac:(lia)). pose proof (Z.mod_pos_bound (n / 16 / 16) 16 ltac:(lia)).
  lia.
Qed.

Lemma parse_hex4 p n :
  (length p = 4)%nat -> parse_uint16_hex p = Some n <-> is_u16 n /\ lower p = hex4 n.
Proof.
  destruct p as [|a [|b [|c [|d [|]]]]]; try done. intros _. unfold parse_uint16_hex. cbn [parse_hex]. split.
  - destruct (unhex a) as [x|] eqn:Ea; [|done]. destruct (unhex b) as [y|] eqn:Eb; [|done].
    destruct (unhex c) as [z|] eqn:Ec; [|done]. destruct (unhex d) as [w|] eqn:Ed; [|done].
    apply unhex_spec in Ea as [? Ea], Eb as [? Eb], Ec as [? Ec], Ed as [? Ed].
    destruct (_ <? 2 ^ 16) eqn:El; [|done]. intros Hn. apply Some_inj in Hn. split.
    + unfold is_u16. apply Z.ltb_lt in El. lia.
    + rewrite <- Hn. cbn [lower map]. rewrite Ea, Eb, Ec, Ed.
      replace (16 * 0 + x) with x by lia. by rewrite hex4_digits.
  - intros [Hn Hl]. destruct (u16_digits n Hn) as (x & y & z & w & Hx & Hy & Hz & Hw & ->).
    rewrite hex4_digits in Hl by done. cbn [lower map] in Hl. injection Hl as Ha Hb Hc Hd.
    rewrite (proj2 (unhex_spec a x)), (proj2 (unhex_spec b y)), (proj2 (unhex_spec c z)), (proj2 (unhex_spec d w)) by done.
    replace (16 * 0 + x) with x by lia. unfold is_u16 in Hn. by rewrite (proj2 (Z.ltb_lt _ _)) by lia.
Qed.

Lemma hex4_hyphen n : hyphen ∉ hex4 n.
Proof.
  assert (H : forall l, hyphen ∉ hex_encode l).
  { induction l as [|b t IH]; cbn [hex_encode]; [apply not_elem_of_nil|].
    rewrite !not_elem_of_cons. split_and!; [..|done]; clear; by destruct b. }
  apply H.
Qed.

Lemma parse_tags_spec parts tags :
  parse_tags parts = Ok tags <-> Forall is_u16 tags /\ lower <$> parts = hex4 <$> tags.
Proof.
  revert tags. induction parts as [|p t IH]; intros tags; cbn [parse_tags].
  - split; [intros [= <-]; done|]. intros [_ H]. by destruct tags.
  - destruct (zlen p =? keyTagHexDigits) eqn:El; cbn [negb].
    + apply Z.eqb_eq in El. assert (Hp : (length p = 4)%nat) by (unfold zlen, keyTagHexDigits in El; lia).
      destruct (parse_uint16_hex p) as [n|] eqn:En.
      * pose proof (proj1 (parse_hex4 p n Hp) En) as [Hn Hl]. split.
        -- intros H. apply bind_ok in H as (ts & H & Hts). injection Hts as <-. apply IH in H as [H1 H2].
           split; [by constructor|]. cbn. by rewrite Hl, H2.
        -- intros [H1 H2]. destruct tags as [|n' ts]; [done|]. cbn in H2. injection H2 as H2 H3.
           apply Forall_cons in H1 as [Hn' H1].
           assert (n' = n) as -> by (rewrite (proj2 (parse_hex4 p n' Hp) (conj Hn' H2)) in En; congruence).
           by rewrite (proj2 (IH ts) (conj H1 H3)).
      * split; [done|]. intros [H1 H2]. destruct tags as [|n' ts]; [done|]. cbn in H2. injection H2 as H2 _.
        apply Forall_cons in H1 as [Hn' _]. by rewrite (proj2 (parse_hex4 p n' Hp) (conj Hn' H2)) in En.
    + split; [done|]. intros [_ H2]. destruct tags as [|n ts]; [done|]. cbn [fmap list_fmap] in H2. injection H2 as H2 _.
      apply Z.eqb_neq in El. apply (f_equal (@length byte)) in H2. rewrite length_lower in H2.
      change (length (hex4 n)) with 4%nat in H2. unfold zlen, keyTagHexDigits in El. lia.
Qed.

Lemma KeyTagsSorted_spec tags : KeyTagsSorted tags = true <-> Sorted Z.le tags.
Proof.
  induction tags as [|a [|b t] IH]; [split; [constructor|done]|split; [by repeat constructor|done]|].
  change (negb (b <? a) && KeyTagsSorted (b :: t) = true <-> Sorted Z.le (a :: b :: t)).
  rewrite andb_true_iff, IH, negb_true_iff, Z.ltb_ge. split.
  - intros [H1 H2]. constructor; [done|by constructor].
  - intros H. inversion H as [|? ? H1 H2]; subst. by inversion H2; subst.
Qed.

Lemma prefix_lower sub :
  has_prefix keyTagPrefix (toLowerASCII sub) = true ->
  exists pre rest, sub = pre ++ rest /\ length pre = 4%nat /\ lower pre = keyTagPrefix /\
                   drop (length keyTagPrefix) sub = rest.
Proof.
  rewrite toLowerASCII_spec, has_prefix_spec. intros [t Ht]. exists (take 4 sub), (drop 4 sub).
  assert (Hl : (4 <= length sub)%nat) by (rewrite <- length_lower, Ht, length_app; cbn; lia).
  split_and!; [by rewrite take_drop|rewrite length_take; lia| |done].
  rewrite <- (take_drop 4 sub), lower_app in Ht. apply (f_equal (take 4)) in Ht.
  by rewrite !take_app_n in Ht by (rewrite ?length_lower, ?length_take; cbn [length]; done || lia).
Qed.

Lemma ParseKeyTagQuery_inv sub tags :
  ParseKeyTagQuery sub = Ok tags ->
  1 <= zlen tags <= 16 /\ Forall is_u16 tags /\ lower sub = bs "_ta-" ++ join [hyphen] (hex4 <$> tags).
Proof.
  unfold ParseKeyTagQuery. destruct (index_byte sub ldot); [done|].
  destruct (has_prefix keyTagPrefix (toLowerASCII sub)) eqn:Ep; [|done].
  apply prefix_lower in Ep as (pre & rest & -> & _ & Hpre & ->). cbn [negb].
  destruct (beqb rest []); [done|].
  destruct (maxKeyTagsPerQuery <? zlen (split_byte hyphen rest)) eqn:Em; [done|]. intros H.
  apply parse_tags_spec in H as [Hu Hh]. apply Z.ltb_ge in Em.
  assert (El : length (split_byte hyphen rest) = length tags).
  { apply (f_equal (@length bytes)) in Hh. by rewrite !length_fmap in Hh. }
  pose proof (split_byte_nonnil hyphen rest) as Hn. split_and!; [|..|done|].
  - unfold zlen. rewrite <- El. destruct (split_byte hyphen rest); [done|]. cbn [length]. lia.
  - unfold zlen, maxKeyTagsPerQuery in *. lia.
  - rewrite lower_app, Hpre. f_equal. rewrite <- (join_split hyphen rest), lower_join by done. by rewrite Hh.
Qed.

Lemma hex4s_no_hyphen tags : Forall (fun p => hyphen ∉ p) (hex4 <$> tags).
Proof. apply Forall_fmap, Forall_true. intros n. apply hex4_hyphen. Qed.

Lemma no_dot_tags tags : ldot ∉ join [hyphen] (hex4 <$> tags).
Proof.
  assert (H : forall n, ldot ∉ hex4 n).
  { intros n. assert (Hl : forall l, ldot ∉ hex_encode l).
    { induction l as [|b t IH]; cbn [hex_encode]; [apply not_elem_of_nil|].
      rewrite !not_elem_of_cons. split_and!; [..|done]; clear; by destruct b. }
    apply Hl. }
  induction tags as [|a [|b t] IH]; [apply not_elem_of_nil|apply H|].
  change (join [hyphen] (hex4 <$> a :: b :: t)) with (hex4 a ++ hyphen :: join [hyphen] (hex4 <$> b :: t)).
  rewrite elem_of_app, elem_of_cons. intros [?|[?|?]]; [by eapply H|done|by apply IH].
Qed.

Lemma ParseKeyTagQuery_intro sub tags :
  1 <= zlen tags <= 16 /\ Forall is_u16 tags /\ lower sub = bs "_ta-" ++ join [hyphen] (hex4 <$> tags) ->
  ParseKeyTagQuery sub = Ok tags.
Proof.
  intros (Hl & Hu & He). unfold ParseKeyTagQuery.
  assert (Hd : ldot ∉ sub).
  { rewrite <- (elem_of_lower ldot sub) by done. rewrite He, elem_of_app. intros [Hx|Hx]; [|by apply no_dot_tags in Hx].
    revert Hx. by apply index_byte_None. }
  rewrite (proj2 (index_byte_None sub ldot) Hd).
  assert (Ep : has_prefix keyTagPrefix (toLowerASCII sub) = true).
  { rewrite toLowerASCII_spec, He. apply has_prefix_app. }
  rewrite Ep. cbn [negb]. apply prefix_lower in Ep as (pre & rest & -> & Hlen & Hpre & ->).
  rewrite lower_app, Hpre in He. apply app_inv_head in He.
  assert (Hs : lower <$> split_byte hyphen rest = hex4 <$> tags).
  { rewrite <- split_byte_lower, He by done. apply split_join; [|apply hex4s_no_hyphen].
    destruct tags; [unfold zlen in Hl; cbn in Hl; lia|done]. }
  assert (El : length (split_byte hyphen rest) = length tags).
  { apply (f_equal (@length bytes)) in Hs. by rewrite !length_fmap in Hs. }
  rewrite (proj2 (beqb_false rest [])) by (intros ->; destruct tags as [|? []]; [unfold zlen in Hl; cbn in Hl; lia|done..]).
  rewrite (proj2 (Z.ltb_ge _ _)) by (unfold zlen, maxKeyTagsPerQuery in *; lia).
  by apply parse_tags_spec.
Qed.

Lemma ParseKeyTagQuery_other sub :
  ParseKeyTagQuery sub = Err ErrNotKeyTagQuery <-> ldot ∈ sub \/ has_prefix (bs "_ta-") (lower sub) = false.
Proof.
  assert (Hp : forall ps, parse_tags ps <> Err ErrNotKeyTagQuery).
  { induction ps as [|p t IH]; cbn [parse_tags]; [done|]. case_match; [done|]. case_match; [|done].
    destruct (parse_tags t) as [|[]]; [done|done|done]. }
  unfold ParseKeyTagQuery. rewrite toLowerASCII_spec. destruct (index_byte sub ldot) as [i|] eqn:E.
  - split; [intros _; left|done]. apply index_byte_spec in E as (l & r & -> & _). apply elem_of_app. right. left.
  - apply index_byte_None in E. change (bs "_ta-") with keyTagPrefix.
    destruct (has_prefix keyTagPrefix (lower sub)); cbn [negb]; [|split; [by right|done]].
    split; [|by intros [?|?]]. case_match; [done|]. case_match; [done|]. intros Hx. by apply Hp in Hx.
Qed.

Lemma lower_format tags :
  lower (FormatKeyTagQuery tags) = bs "_ta-" ++ join [hyphen] (hex4 <$> merge_sort Z.le tags).
Proof.
  unfold FormatKeyTagQuery. rewrite lower_app, lower_join by done. f_equal. f_equal.
  assert (H : forall l, lower (hex_encode l) = hex_encode l).
  { induction l as [|b t IH]; [done|]. cbn [hex_encode]. rewrite !lower_cons, IH.
    f_equal; [clear; by destruct b|]. f_equal. clear. by destruct b. }
  induction (merge_sort Z.le tags) as [|n t IH]; [done|]. cbn [fmap list_fmap]. rewrite IH. f_equal. apply H.
Qed.

(** A Key Tag query name decodes to exactly the tags it spells. The
    parser accepts a label exactly when, up to letter case, it is [_ta-] and
    one to sixteen tags of exactly four hex digits each, in any order, and
    gives them in the order they stand; anything with a dot or without the
    prefix is not a Key Tag query, the rest is malformed. What
    [FormatKeyTagQuery] renders decodes to the tags sorted, and
    [KeyTagsSorted] tells whether the sender sorted them. *)
Theorem ParseKeyTagQuery_exact (sub : bytes) (tags : list Z) :
  (ParseKeyTagQuery sub = Ok tags <->
   1 <= zlen tags <= 16 /\ Forall is_u16 tags /\
   lower sub = bs "_ta-" ++ join [hyphen] (hex4 <$> tags)) /\
  (ParseKeyTagQuery sub = Err ErrNotKeyTagQuery <->
   ldot ∈ sub \/ has_prefix (bs "_ta-") (lower sub) = false) /\
  (1 <= zlen tags <= 16 -> Forall is_u16 tags ->
   exists sorted, ParseKeyTagQuery (FormatKeyTagQuery tags) = Ok sorted /\
     sorted ≡ₚ tags /\ KeyTagsSorted sorted = true).
Proof.
  assert (Hex : forall sub tags, ParseKeyTagQuery sub = Ok tags <->
    1 <= zlen tags <= 16 /\ Forall is_u16 tags /\ lower sub = bs "_ta-" ++ join [hyphen] (hex4 <$> tags)).
  { clear. intros sub tags. split; [apply ParseKeyTagQuery_inv|apply ParseKeyTagQuery_intro]. }
  split; [apply Hex|]. split; [apply ParseKeyTagQuery_other|].
  intros Hl Hu. exists (merge_sort Z.le tags).
  pose proof (merge_sort_Permutation Z.le tags) as Hp. split_and!; [|done|].
  - apply Hex. split_and!.
    + unfold zlen. rewrite Hp. apply Hl.
    + unfold zlen. rewrite Hp. apply Hl.
    + by rewrite Hp.
    + apply lower_format.
  - apply KeyTagsSorted_spec, Sorted_merge_sort. typeclasses eauto.
Qed.

Lemma ParseKeyTagQuery_exact_witness :
  ParseKeyTagQuery (bs "_TA-7aae-0635") = Ok [0x7aae; 0x0635] /\
  ParseKeyTagQuery (FormatKeyTagQuery [0x7aae; 0x0635]) = Ok [0x0635; 0x7aae].
Proof.
  destruct (ParseKeyTagQuery_exact (bs "_TA-7aae-0635") [0x7aae; 0x0635]) as (H1 & _ & H3). split.
  - apply H1. split; [done|]. split; [repeat constructor; done|reflexivity].
  - destruct H3 as (s & Hs & _ & _); [done|repeat constructor; done|]. rewrite Hs, <- Hs. vm_compute. reflexivity.
Defined.
