(* ===== verification/ProbeObserve.v ===== *)
(** * What one query shows ([probe/observe.go], [probe/encrypted.go])

    The observation of a query: transport and TLS facts, the resolver's
    prefix, the EDNS flags and options, and its rendering as the in-band
    readout.  The store is [ProbeStore]. *)

From S2P Require Import Prelude GoStrings Netip Dns SimpleDns ProbeLabels ProbeKeyTag.

(** ** Transports *)

(** A [Transport] is a string; the five the code names. *)
Definition TransportUDP : bytes := bs "udp".
Definition TransportTCP : bytes := bs "tcp".
Definition TransportTLS : bytes := bs "tls".
Definition TransportQUIC : bytes := bs "quic".
Definition TransportHTTP : bytes := bs "https".

Record TLSInfo := {
  Version : bytes; CipherSuite : bytes; NamedGroup : bytes; TlsServerName : bytes; DidResume : bool
}.

(** The fields of [tls.ConnectionState] that are read, with the names Go's
    TLS package gives its codes; a zero [CurveID] is [None]. *)
Record ConnState := {
  cs_Version : bytes; cs_CipherSuite : bytes; cs_CurveID : option bytes;
  cs_ServerName : bytes; cs_DidResume : bool; cs_NegotiatedProtocol : bytes
}.

(** A response writer: whether it is a [ConnectionStater] and what it then
    says, or what it unwraps to. [w_nil] is a nil writer. *)
Inductive Writer :=
| w_nil
| w_stater (state : option ConnState)
| w_wrapper (inner : Writer)
| w_plain.

(** [connectionState]: at most eight writers are looked at. *)
Fixpoint unwrap_state (n : nat) (w : Writer) : option ConnState :=
  match n with
  | O => None
  | S n' => match w with
            | w_nil => None
            | w_stater state => state
            | w_wrapper inner => unwrap_state n' inner
            | w_plain => None
            end
  end.

Definition connectionState (w : Writer) : option ConnState := unwrap_state 8 w.

Definition transportFrom (w : Writer) (proto : bytes) : bytes * option TLSInfo :=
  match connectionState w with
  | Some cs =>
      let info := {| Version := cs_Version cs; CipherSuite := cs_CipherSuite cs;
                     NamedGroup := match cs_CurveID cs with Some g => g | None => [] end;
                     TlsServerName := cs_ServerName cs; DidResume := cs_DidResume cs |} in
      if beqb (cs_NegotiatedProtocol cs) (bs "h2") || beqb (cs_NegotiatedProtocol cs) (bs "http/1.1")
      then (TransportHTTP, Some info)
      else if beqb (cs_NegotiatedProtocol cs) (bs "doq") then (TransportQUIC, Some info)
      else (TransportTLS, Some info)
  | None => if beqb proto TransportTCP then (TransportTCP, None) else (TransportUDP, None)
  end.

(** ** Observations *)

Record Observation := mkObservation {
  At : Z;                           (* nanoseconds; 0 is Go's zero time *)
  ResolverAddr : Addr;
  TLS : option TLSInfo;
  ResolverPrefix : Prefix;
  ECSPrefix : Prefix;
  ob_Token : bytes;
  ob_Qtype : bytes;
  ob_Mods : bytes;
  ob_Transport : bytes;
  KeyTags : list Z;
  Seen : Z;
  ECSFamily : Z;
  ob_UDPSize : Z;
  IPv6 : bool;
  ECSScope : Z;
  ECS : bool;
  CookieSent : bool;
  DELEGAware : bool;
  EDNS : bool;
  KnowsZoneKey : bool;
  ZoneVersionAsked : bool;
  CompactAware : bool;
  CaseRandomized : bool;
  DO : bool
}.

Definition Encrypted (o : Observation) : bool :=
  beqb (ob_Transport o) TransportTLS || beqb (ob_Transport o) TransportQUIC || beqb (ob_Transport o) TransportHTTP.

Definition set_seen (o : Observation) (n : Z) : Observation :=
  mkObservation (At o) (ResolverAddr o) (TLS o) (ResolverPrefix o) (ECSPrefix o) (ob_Token o) (ob_Qtype o)
    (ob_Mods o) (ob_Transport o) (KeyTags o) n (ECSFamily o) (ob_UDPSize o) (IPv6 o) (ECSScope o) (ECS o)
    (CookieSent o) (DELEGAware o) (EDNS o) (KnowsZoneKey o) (ZoneVersionAsked o) (CompactAware o)
    (CaseRandomized o) (DO o).

Definition set_at (o : Observation) (at_ : Z) : Observation :=
  mkObservation at_ (ResolverAddr o) (TLS o) (ResolverPrefix o) (ECSPrefix o) (ob_Token o) (ob_Qtype o)
    (ob_Mods o) (ob_Transport o) (KeyTags o) (Seen o) (ECSFamily o) (ob_UDPSize o) (IPv6 o) (ECSScope o) (ECS o)
    (CookieSent o) (DELEGAware o) (EDNS o) (KnowsZoneKey o) (ZoneVersionAsked o) (CompactAware o)
    (CaseRandomized o) (DO o).

Definition set_tls_key (o : Observation) (tls : option TLSInfo) (knows : bool) : Observation :=
  mkObservation (At o) (ResolverAddr o) tls (ResolverPrefix o) (ECSPrefix o) (ob_Token o) (ob_Qtype o)
    (ob_Mods o) (ob_Transport o) (KeyTags o) (Seen o) (ECSFamily o) (ob_UDPSize o) (IPv6 o) (ECSScope o) (ECS o)
    (CookieSent o) (DELEGAware o) (EDNS o) knows (ZoneVersionAsked o) (CompactAware o)
    (CaseRandomized o) (DO o).

Definition set_flags (o : Observation) (udp : Z) (do_ co de : bool) (tags : list Z) : Observation :=
  mkObservation (At o) (ResolverAddr o) (TLS o) (ResolverPrefix o) (ECSPrefix o) (ob_Token o) (ob_Qtype o)
    (ob_Mods o) (ob_Transport o) tags (Seen o) (ECSFamily o) udp (IPv6 o) (ECSScope o) (ECS o)
    (CookieSent o) de true (KnowsZoneKey o) (ZoneVersionAsked o) co (CaseRandomized o) do_.

Definition set_options (o : Observation) (cookie zv ecs : bool) (scope family : Z) (p : Prefix) : Observation :=
  mkObservation (At o) (ResolverAddr o) (TLS o) (ResolverPrefix o) p (ob_Token o) (ob_Qtype o)
    (ob_Mods o) (ob_Transport o) (KeyTags o) (Seen o) family (ob_UDPSize o) (IPv6 o) scope ecs
    cookie (DELEGAware o) (EDNS o) (KnowsZoneKey o) zv (CompactAware o) (CaseRandomized o) (DO o).

Definition v4PrefixBits : Z := 24.
Definition v6PrefixBits : Z := 56.
Definition coFlag : Z := Z.shiftl 1 14.
Definition deFlag : Z := Z.shiftl 1 13.

(** [applyECSObservation]. *)
Definition applyECSObservation (o : Observation) (v : Subnet) : Observation :=
  let o' := set_options o (CookieSent o) (ZoneVersionAsked o) true (SourceNetmask v) (Family v) in
  if SourceNetmask v =? 0 then o' (ECSPrefix o)
  else match AddrFromSlice (Address v) with
       | None => o' (ECSPrefix o)
       | Some a => match addr_prefix (Unmap a) (SourceNetmask v) with
                   | Some p => o' p
                   | None => o' (ECSPrefix o)
                   end
       end.

(** One turn of the loop over the options. *)
Definition apply_option (o : Observation) (opt : EDNS0) : Observation :=
  match opt with
  | EDNS0_COOKIE _ => set_options o true (ZoneVersionAsked o) (ECS o) (ECSScope o) (ECSFamily o) (ECSPrefix o)
  | EDNS0_ZONEVERSION _ _ _ =>
      set_options o (CookieSent o) true (ECS o) (ECSScope o) (ECSFamily o) (ECSPrefix o)
  | EDNS0_SUBNET v => applyECSObservation o v
  | _ => o
  end.

Definition applyEDNSObservation (o : Observation) (opt : OPT) : Observation :=
  foldl apply_option
    (set_flags o (UDPSize opt) (opt_do opt)
       (negb (Z.land (OptTtl opt) coFlag =? 0)) (negb (Z.land (OptTtl opt) deFlag =? 0)) (ednsKeyTags opt))
    (Option opt).

(** [isCaseRandomized]: the loop stops at the first byte that completes the
    pair. *)
Fixpoint case_scan (name : bytes) (hasUpper hasLower : bool) : bool :=
  match name with
  | [] => false
  | c :: t =>
      let hasUpper := ((65 <=? b2z c) && (b2z c <=? 90)) || hasUpper in
      let hasLower := (negb ((65 <=? b2z c) && (b2z c <=? 90)) && (97 <=? b2z c) && (b2z c <=? 122)) || hasLower in
      if hasUpper && hasLower then true else case_scan t hasUpper hasLower
  end.

Definition isCaseRandomized (name : bytes) : bool := case_scan name false false.

(** The network of an address, by the widths of its family. *)
Definition network_of (addr : Addr) : Prefix :=
  match addr_prefix addr (if Is6 addr then v6PrefixBits else v4PrefixBits) with
  | Some p => p
  | None => PrefixFrom addr (BitLen addr)
  end.

Section Observing.
Context `{!NameLib}.

(** [qtypeName] of [errorreport.go]; [Observe] does the same in place. *)
Definition qtypeName (t : Z) : bytes :=
  match TypeToString t with Some s => s | None => bs "TYPE" ++ itoa t end.

(** [Observe], [now] being the clock. *)
Definition Observe (now : Z) (q : Query) (raw : bytes) (addr : Addr) (transport : bytes) (qtype : Z) (msg : Msg)
  : Observation :=
  let addr := Unmap addr in
  let obs := mkObservation now addr None (network_of addr) PrefixZero (Token q) (qtypeName qtype)
    (Modifier_String (Mods q)) transport [] 0 0 0 (Is6 addr) 0 false false false false false false false
    (isCaseRandomized raw) false in
  match Edns msg with Some opt => applyEDNSObservation obs opt | None => obs end.
End Observing.

(** ** The readout *)

Definition boolStr (v : bool) : bytes := if v then bs "1" else bs "0".
Definition appendFlag (b key : bytes) (v : bool) : bytes := b ++ key ++ boolStr v.

Definition byte_sp : byte := Byte.x20.

Definition appendTLSSummary (b : bytes) (tls : option TLSInfo) : bytes :=
  match tls with
  | None => b
  | Some t =>
      let b := b ++ bs " tls=" in
      let b := b ++ List.filter (fun c => negb (bool_decide (c = byte_sp))) (Version t) in
      let b := if negb (beqb (NamedGroup t) []) then b ++ bs " group=" ++ NamedGroup t else b in
      appendFlag b (bs " resumed=") (DidResume t)
  end.

Definition Summary (o : Observation) : bytes :=
  let b := bs "resolver=" in
  let b := b ++ AddrAppendTo (ResolverAddr o) in
  let b := b ++ bs " prefix=" in
  let b := b ++ PrefixAppendTo (ResolverPrefix o) in
  let b := b ++ bs " proto=" in
  let b := b ++ ob_Transport o in
  let b := appendFlag b (bs " ipv6=") (IPv6 o) in
  let b := appendFlag b (bs " edns=") (EDNS o) in
  let b := appendFlag b (bs " do=") (DO o) in
  let b := b ++ bs " bufsize=" in
  let b := b ++ itoa (ob_UDPSize o) in
  let b := appendFlag b (bs " cookie=") (CookieSent o) in
  let b := appendFlag b (bs " ecs=") (ECS o) in
  let b := b ++ bs " ecs_src=" in
  let b := b ++ itoa (ECSScope o) in
  let b := if prefix_valid (ECSPrefix o) then b ++ bs " ecs_prefix=" ++ PrefixAppendTo (ECSPrefix o) else b in
  let b := appendFlag b (bs " co=") (CompactAware o) in
  let b := appendFlag b (bs " deleg=") (DELEGAware o) in
  let b := appendFlag b (bs " zoneversion=") (ZoneVersionAsked o) in
  let b := appendFlag b (bs " encrypted=") (Encrypted o) in
  let b := appendTLSSummary b (TLS o) in
  let b := appendFlag b (bs " case0x20=") (CaseRandomized o) in
  let b := b ++ bs " seen=" in
  b ++ itoa (Seen o).

(** ** What an observation says of its query *)

Lemma land_flag t k : 0 <= k -> negb (Z.land t (Z.shiftl 1 k) =? 0) = Z.testbit t k.
Proof.
  intros Hk. rewrite Z.shiftl_1_l. destruct (Z.testbit t k) eqn:E.
  - apply negb_true_iff, Z.eqb_neq. intros H. apply (f_equal (fun z => Z.testbit z k)) in H.
    by rewrite Z.land_spec, E, Z.pow2_bits_true, Z.bits_0 in H.
  - apply negb_false_iff, Z.eqb_eq, Z.bits_inj'. intros j Hj.
    rewrite Z.land_spec, Z.pow2_bits_eqb, Z.bits_0 by done.
    destruct (Z.eqb_spec k j) as [<-|]; [by rewrite E|by rewrite andb_false_r].
Qed.

Lemma case_scan_spec name u l :
  (u && l = false) ->
  case_scan name u l = true <-> (u = true \/ existsb is_upper name = true) /\ (l = true \/ existsb is_lower name = true).
Proof.
  revert u l. induction name as [|c t IH]; intros u l H; cbn [case_scan existsb].
  - destruct u, l; try done; naive_solver.
  - assert (Ex : is_upper c = true -> is_lower c = false) by (clear; by destruct c).
    change ((65 <=? b2z c) && (b2z c <=? 90)) with (is_upper c).
    replace (negb (is_upper c) && (97 <=? b2z c) && (b2z c <=? 122)) with (is_lower c)
      by (clear; by destruct c).
    destruct ((is_upper c || u) && (is_lower c || l)) eqn:E.
    + destruct (is_upper c), u, (is_lower c), l; try done; naive_solver.
    + rewrite IH by done. destruct (is_upper c), u, (is_lower c), l; cbn; try done; naive_solver.
Qed.

(** The observed options. *)
Definition is_cookie (o : EDNS0) : bool := match o with EDNS0_COOKIE _ => true | _ => false end.
Definition is_zoneversion (o : EDNS0) : bool := match o with EDNS0_ZONEVERSION _ _ _ => true | _ => false end.
Definition subnets (l : list EDNS0) : list Subnet :=
  omap (fun o => match o with EDNS0_SUBNET v => Some v | _ => None end) l.

(** What one subnet option discloses: nothing when declined or malformed. *)
Definition ecs_disclosed (p : Prefix) (v : Subnet) : Prefix :=
  if SourceNetmask v =? 0 then p
  else match AddrFromSlice (Address v) with
       | None => p
       | Some a => match addr_prefix (Unmap a) (SourceNetmask v) with Some p' => p' | None => p end
       end.

Lemma applyECS_spec o v :
  applyECSObservation o v
  = set_options o (CookieSent o) (ZoneVersionAsked o) true (SourceNetmask v) (Family v) (ecs_disclosed (ECSPrefix o) v).
Proof. unfold applyECSObservation, ecs_disclosed. by repeat case_match. Qed.

(** The loop changes the option fields and nothing else. *)
Lemma fold_options l o :
  foldl apply_option o l
  = set_options o (CookieSent o || existsb is_cookie l) (ZoneVersionAsked o || existsb is_zoneversion l)
      (ECS o || negb (bool_decide (subnets l = [])))
      (match last (subnets l) with Some v => SourceNetmask v | None => ECSScope o end)
      (match last (subnets l) with Some v => Family v | None => ECSFamily o end)
      (foldl ecs_disclosed (ECSPrefix o) (subnets l)).
Proof.
  revert o. induction l as [|x t IH]; intros o.
  { cbn. rewrite !orb_false_r. by destruct o. }
  cbn [foldl]. rewrite IH. clear IH. destruct x; cbn [apply_option]; try (cbn; by rewrite ?orb_true_r).
  rewrite applyECS_spec. change (subnets (EDNS0_SUBNET s :: t)) with (s :: subnets t).
  destruct (subnets t) as [|s0 l]; cbn; rewrite ?orb_true_r; cbn; [done|].
  destruct (last (s0 :: l)) eqn:El; [done|by apply last_None in El].
Qed.

Lemma existsb_iff {A} (f : A -> bool) l : existsb f l = true <-> exists x, x ∈ l /\ f x = true.
Proof. rewrite existsb_exists. by setoid_rewrite list_elem_of_In. Qed.

Lemma subnets_nil l : subnets l <> [] <-> exists v, EDNS0_SUBNET v ∈ l.
Proof.
  induction l as [|x t IH]; cbn.
  - split; [done|]. by intros [v []%elem_of_nil].
  - destruct x; cbn; setoid_rewrite elem_of_cons;
      try (rewrite IH; split; [intros [w ?]; exists w; by right|intros (w & [?|?]); [done|by exists w]]).
    split; [|done]. intros _. exists s. by left.
Qed.

Section Exact.
Context `{!NameLib}.

(** C35: an observation says what its query carried. Without an OPT record
    every EDNS reading is absent. With one, the flags are the header's bits
    (DO 15, CO 14, DE 13), cookie, ZONEVERSION and subnet are there exactly
    when such an option is, the key tags are those of every well-formed
    option 14, and the subnet's scope and family are the last subnet option's;
    for a single subnet option, a declined or malformed one leaves no prefix
    and another leaves the address masked to the bits it disclosed. The
    resolver's network is its unmapped address masked to 24 or 56 bits, and
    the case reading tells whether the raw name mixes upper and lower case. *)
Theorem Observe_exact (now : Z) (q : Query) (raw : bytes) (addr : Addr) (transport : bytes) (qtype : Z) (msg : Msg) :
  let o := Observe now q raw addr transport qtype msg in
  (Edns msg = None ->
     EDNS o = false /\ DO o = false /\ CompactAware o = false /\ DELEGAware o = false /\ KeyTags o = [] /\
     CookieSent o = false /\ ZoneVersionAsked o = false /\ ECS o = false /\ ECSPrefix o = PrefixZero) /\
  (forall opt, Edns msg = Some opt ->
     (EDNS o = true /\ DO o = Z.testbit (OptTtl opt) 15 /\ CompactAware o = Z.testbit (OptTtl opt) 14 /\
      DELEGAware o = Z.testbit (OptTtl opt) 13 /\ ob_UDPSize o = UDPSize opt /\ KeyTags o = ednsKeyTags opt) /\
     (CookieSent o = true <-> exists c, EDNS0_COOKIE c ∈ Option opt) /\
     (ZoneVersionAsked o = true <-> exists c t v, EDNS0_ZONEVERSION c t v ∈ Option opt) /\
     (ECS o = true <-> exists v, EDNS0_SUBNET v ∈ Option opt) /\
     (forall v, last (subnets (Option opt)) = Some v -> ECSScope o = SourceNetmask v /\ ECSFamily o = Family v) /\
     (forall v, subnets (Option opt) = [v] -> ECSPrefix o = ecs_disclosed PrefixZero v)) /\
  ResolverAddr o = Unmap addr /\
  (forall a, Unmap addr = Addr4 a -> ResolverPrefix o = {| paddr := Addr4 (a / 2 ^ 8 * 2 ^ 8); pbits := 24 |}) /\
  (forall a z, Unmap addr = Addr6 a z -> ResolverPrefix o = {| paddr := Addr6 (a / 2 ^ 72 * 2 ^ 72) []; pbits := 56 |}) /\
  (CaseRandomized o = true <-> existsb is_upper raw = true /\ existsb is_lower raw = true).
Proof.
  cbv zeta. unfold Observe. split_and!.
  - by intros ->.
  - intros opt ->. unfold applyEDNSObservation, coFlag, deFlag. rewrite !land_flag, fold_options by lia. cbn.
    rewrite !existsb_iff, negb_true_iff, bool_decide_eq_false, subnets_nil. split_and!; try done.
    + split; [|intros [c ?]; by exists (EDNS0_COOKIE c)]. intros (x & ? & Hx). destruct x; try done. by eexists.
    + split; [|intros (c & t & v & ?); by eexists]. intros (x & ? & Hx). destruct x; try done. by do 3 eexists.
    + by intros v ->.
    + by intros v ->.
  - unfold applyEDNSObservation. destruct (Edns msg); [|done]. by rewrite fold_options.
  - intros a Ha. unfold applyEDNSObservation. rewrite Ha. destruct (Edns msg); [|done]. by rewrite fold_options.
  - intros a z Ha. unfold applyEDNSObservation. rewrite Ha. destruct (Edns msg); [|done]. by rewrite fold_options.
  - replace (CaseRandomized _) with (isCaseRandomized raw)
      by (destruct (Edns msg); [unfold applyEDNSObservation; by rewrite fold_options|done]).
    unfold isCaseRandomized. rewrite case_scan_spec by done. naive_solver.
Qed.
End Exact.

(** Two subnet options, the first disclosing and the second declining: the
    scope says declined, the prefix is still the first one's. *)
Lemma two_subnets_keep_prefix :
  let q := {| Token := bs "deadbeef"; Mods := 0 |} in
  let v1 := {| Family := 1; SourceNetmask := 24; Address := [Byte.xc0; Byte.x00; Byte.x02; Byte.x01] |} in
  let v2 := {| Family := 1; SourceNetmask := 0; Address := [] |} in
  let o := foldl apply_option
             (mkObservation 1 (Addr4 0) None PrefixZero PrefixZero (Token q) [] [] [] [] 0 0 0 false 0 false false
                false false false false false false false)
             [EDNS0_SUBNET v1; EDNS0_SUBNET v2] in
  ECS o = true /\ ECSScope o = 0 /\ ECSPrefix o = {| paddr := Addr4 0xc0000200; pbits := 24 |}.
Proof. vm_compute. done. Qed.

Definition ex_opt : OPT :=
  {| UDPSize := 1232; OptTtl := 0xc000;
     Option := [EDNS0_COOKIE (bs "12345678");
                EDNS0_SUBNET {| Family := 1; SourceNetmask := 16;
                                Address := [Byte.xc0; Byte.x00; Byte.x02; Byte.x01] |}] |}.

Lemma Observe_exact_witness :
  let o := Observe 1 {| Token := bs "deadbeef"; Mods := 1 |} (bs "_unsigned.DeadBeef.") (Addr4 0xc0000207)
             TransportUDP 1 (set_edns (Some ex_opt) new_msg) in
  ECSPrefix o = {| paddr := Addr4 0xc0000000; pbits := 16 |} /\ DO o = true /\ DELEGAware o = false.
Proof.
  cbv zeta.
  destruct (Observe_exact 1 {| Token := bs "deadbeef"; Mods := 1 |} (bs "_unsigned.DeadBeef.") (Addr4 0xc0000207)
              TransportUDP 1 (set_edns (Some ex_opt) new_msg)) as (_ & H & _).
  destruct (H ex_opt eq_refl) as ((_ & Hd & _ & He & _) & _ & _ & _ & _ & Hp).
  split; [rewrite (Hp {| Family := 1; SourceNetmask := 16; Address := [Byte.xc0; Byte.x00; Byte.x02; Byte.x01] |}
                      eq_refl); vm_compute; reflexivity|].
  split; [rewrite Hd|rewrite He]; vm_compute; reflexivity.
Defined.
