(* ===== verification/ProbeReport.v ===== *)
(** * DNS error reports ([probe/errorreport.go])

    RFC 9567: the report name a resolver composes, decoded with bounds on
    what a stranger can make the parser do; the record that is stored; and
    the option that advertises the channel. *)

From S2P Require Import Prelude GoStrings Netip Dns SimpleDns ProbeLabels ProbeObserve.

Record Report := {
  QtypeName : bytes;
  Qname : bytes;
  EDEText : bytes;
  rp_Token : bytes;
  rp_Qtype : Z;
  EDE : Z
}.

Record ReportRecord := {
  rr_At : Z;
  ReporterAddr : Addr;
  ReporterPrefix : Prefix;
  rr_Token : bytes;
  rr_QtypeName : bytes;
  rr_Qname : bytes;
  rr_EDEText : bytes;
  rr_Transport : bytes;
  rr_Qtype : Z;
  rr_EDE : Z
}.

(** [NewReportRecord], [now] being the clock. *)
Definition NewReportRecord (now : Z) (r : Report) (addr : Addr) (transport : bytes) : ReportRecord :=
  let addr := Unmap addr in
  {| rr_At := now; ReporterAddr := addr; ReporterPrefix := network_of addr; rr_Token := rp_Token r;
     rr_QtypeName := QtypeName r; rr_Qname := Qname r; rr_EDEText := EDEText r; rr_Transport := transport;
     rr_Qtype := rp_Qtype r; rr_EDE := EDE r |}.

Inductive ReportErr := ErrNotReport | ErrBadReport.

#[global] Instance ReportErr_eq_dec : EqDecision ReportErr.
Proof. solve_decision. Defined.

Definition maxReportLabels : Z := 24.
Definition maxDecimalLabel : Z := 5.
Definition minReportLabels : Z := 5.

Definition parseDecimalLabel (s : bytes) : result ReportErr Z :=
  if beqb s [] || (maxDecimalLabel <? zlen s) then Err ErrBadReport
  else if negb (forallb is_digit s) then Err ErrBadReport
  else match parse_uint 16 s with None => Err ErrBadReport | Some n => Ok n end.

Section Reports.
Context `{N : !NameLib} `{L : !LabelLib}.

Definition er : bytes := bs "_er".

(** The label [i] from the end, [labels[len(labels)-i]]. *)
Definition label_from_end (labels : list bytes) (i : nat) : bytes := nth (length labels - i) labels [].

Definition parseReportLabels (name agent : bytes) : result ReportErr (Z * Z * bytes) :=
  let rest := trim_suffix name agent in
  let rest := trim_suffix rest dot in
  if beqb rest [] then Err ErrNotReport else
  let labels := SplitDomainName rest in
  if zlen labels <? minReportLabels then Err ErrNotReport
  else if maxReportLabels <? zlen labels then Err ErrBadReport
  else if negb (beqb (nth 0 labels []) er) || negb (beqb (label_from_end labels 1) er) then Err ErrNotReport
  else
    qtype ← parseDecimalLabel (nth 1 labels []);
    ede ← parseDecimalLabel (label_from_end labels 2);
    let reported := drop 2 (take (length labels - 2) labels) in
    if (length reported =? 0)%nat then Err ErrBadReport
    else Ok (qtype, ede, Fqdn (join dot reported)).

(** The token of a name of ours below [probeZone]. *)
Definition report_token (probeZone qn : bytes) : bytes :=
  if beqb probeZone [] then []
  else
    let zone := CanonicalName probeZone in
    if negb (beqb zone dot) && IsSubDomain zone qn
    then match ParseQuery (trim_suffix (trim_suffix qn zone) dot) with Some q => Token q | None => [] end
    else [].

Definition ParseReport (qname agentDomain probeZone : bytes) : result ReportErr Report :=
  let name := CanonicalName qname in
  let agent := CanonicalName agentDomain in
  if beqb agent [] || beqb agent dot then Err ErrNotReport
  else if negb (IsSubDomain agent name) then Err ErrNotReport
  else
    '(qtype, ede, qn) ← parseReportLabels name agent;
    Ok {| rp_Qtype := qtype; QtypeName := qtypeName qtype; Qname := qn; EDE := ede;
          EDEText := match ExtendedErrorCodeToString ede with Some s => s | None => [] end;
          rp_Token := report_token probeZone qn |}.

(** [ReportChannelOption]; [None] is Go's nil. *)
Definition ReportChannelOption (agentDomain : bytes) : option EDNS0 :=
  let d := CanonicalName agentDomain in
  if beqb d [] || beqb d dot then None else Some (EDNS0_REPORTING d).

Definition is_reporting (o : EDNS0) : bool := match o with EDNS0_REPORTING _ => true | _ => false end.

Definition attachReportChannel (m : Msg) (agentDomain : bytes) : Msg :=
  match ReportChannelOption agentDomain with
  | None => m
  | Some o => match Edns m with
              | None => m
              | Some opt => if existsb is_reporting (Option opt) then m
                            else set_edns (Some (Dns.set_options (Option opt ++ [o]) opt)) m
              end
  end.

Definition edeLabel (code : Z) : bytes :=
  match ExtendedErrorCodeToString code with None => bs "other" | Some _ => itoa code end.
End Reports.

(** ** Lemmas *)

(** *** Decimal labels *)

Lemma dec_digits_spec fuel n acc :
  (0 < fuel)%nat -> 0 <= n < 2 ^ Z.of_nat fuel ->
  exists ds, dec_digits fuel n acc = ds ++ acc /\ forallb is_digit ds = true /\
    (forall tail a, parse_digits (ds ++ tail) a = parse_digits tail (a * 10 ^ zlen ds + n)) /\
    ds <> [] /\ (forall k, 1 <= k -> n < 10 ^ k -> zlen ds <= k).
Proof.
  revert n acc. induction fuel as [|fuel IH]; intros n acc Hpos Hn; [lia|].
  assert (Hd : 0 <= n mod 10 < 10) by (apply Z.mod_pos_bound; lia).
  assert (Hdig : is_digit (z2b (48 + n mod 10)) = true).
  { unfold is_digit. rewrite b2z_z2b_small by lia. apply andb_true_iff. split; apply Z.leb_le; lia. }
  assert (Hval : b2z (z2b (48 + n mod 10)) - 48 = n mod 10) by (rewrite b2z_z2b_small; lia).
  cbn [dec_digits]. destruct (Z.ltb_spec n 10) as [Hs|Hs].
  - exists [z2b (48 + n mod 10)]. split; [done|]. split; [cbn [forallb]; by rewrite Hdig|].
    split; [|split; [done|intros k Hk _; rewrite zlen_cons, zlen_nil; lia]].
    intros tail a. cbn [app parse_digits]. rewrite Hdig, Hval, zlen_cons, zlen_nil. f_equal.
    rewrite Z.mod_small by lia. change (10 ^ (1 + 0)) with 10. lia.
  - assert (H10 : 0 <= n / 10 < 2 ^ Z.of_nat fuel).
    { split; [apply Z.div_pos; lia|]. apply Z.div_lt_upper_bound; [lia|].
      rewrite Nat2Z.inj_succ, Z.pow_succ_r in Hn by lia. lia. }
    assert (Hf0 : (0 < fuel)%nat) by (destruct fuel; [change (2 ^ Z.of_nat 1) with 2 in Hn|]; lia).
    destruct (IH (n / 10) (z2b (48 + n mod 10) :: acc) Hf0 H10) as (ds & -> & Hf & Hp & Hne & Hk).
    exists (ds ++ [z2b (48 + n mod 10)]). split; [by rewrite <- app_assoc|].
    split; [rewrite forallb_app, Hf; cbn [forallb]; by rewrite Hdig|].
    split; [|split; [by destruct ds|]].
    + intros tail a. rewrite <- app_assoc, Hp. cbn [app parse_digits]. rewrite Hdig, Hval. f_equal.
      rewrite zlen_app, zlen_cons, zlen_nil, Z.pow_add_r by (pose proof (zlen_nonneg ds); lia).
      pose proof (Z.div_mod n 10). change (10 ^ (1 + 0)) with 10. lia.
    + intros k Hk1 Hlt. rewrite zlen_app, zlen_cons, zlen_nil.
      destruct (Z.eq_dec k 1) as [->|Hn1]; [change (10 ^ 1) with 10 in Hlt; lia|].
      assert (zlen ds <= k - 1); [|lia]. apply Hk; [lia|]. apply Z.div_lt_upper_bound; [lia|].
      replace (10 * 10 ^ (k - 1)) with (10 ^ k); [done|].
      replace k with (1 + (k - 1)) at 1 by lia. by rewrite Z.pow_add_r by lia.
Qed.

Lemma itoa_fuel n : 0 <= n -> 0 <= n < 2 ^ Z.of_nat (S (Z.to_nat (Z.log2 n))).
Proof.
  intros Hn. split; [done|]. rewrite Nat2Z.inj_succ, Z2Nat.id by apply Z.log2_nonneg.
  destruct (Z.eq_dec n 0) as [->|]; [done|]. apply Z.log2_spec. lia.
Qed.

Lemma parseDecimalLabel_itoa n : is_u16 n -> parseDecimalLabel (itoa n) = Ok n.
Proof.
  intros Hn. unfold is_u16 in Hn. unfold itoa.
  destruct (dec_digits_spec (S (Z.to_nat (Z.log2 n))) n [] ltac:(lia) (itoa_fuel n (proj1 Hn))) as (ds & E & Hf & Hp & Hne & Hk).
  rewrite app_nil_r in E. rewrite E. unfold parseDecimalLabel.
  rewrite (proj2 (beqb_false ds [])) by done. 
  rewrite (proj2 (Z.ltb_ge _ _)).
  2:{ apply Hk; [done|]. change (2 ^ 16) with 65536 in Hn. change (10 ^ maxDecimalLabel) with 100000. lia. }
  rewrite Hf. cbn [orb negb]. specialize (Hp [] 0). rewrite app_nil_r in Hp. cbn [parse_digits] in Hp.
  rewrite Z.mul_0_l, Z.add_0_l in Hp. unfold parse_uint. destruct ds; [done|]. rewrite Hp.
  by rewrite (proj2 (Z.ltb_lt _ _)) by lia.
Qed.

Lemma parseDecimalLabel_ok s n :
  parseDecimalLabel s = Ok n -> is_u16 n /\ forallb is_digit s = true /\ 1 <= zlen s <= 5.
Proof.
  unfold parseDecimalLabel. destruct (beqb s [] || _) eqn:E; [done|]. bool_prop.
  destruct (forallb is_digit s); [|done]. cbn [negb]. unfold parse_uint. destruct s as [|b t]; [done|].
  destruct (parse_digits (b :: t) 0) as [m|] eqn:Ep; [|done]. destruct (m <? 2 ^ 16) eqn:El; [|done].
  intros [= <-]. apply parse_digits_nonneg in Ep; [|done]. bool_prop. unfold is_u16, maxDecimalLabel in *.
  rewrite zlen_cons in *. pose proof (zlen_nonneg t). split_and!; [lia|lia|done|lia|lia].
Qed.

(** *** Report names *)

Section Exact.
Context `{N : !NameLib} `{L : !LabelLib} `{!NameLaws N} `{!LabelLaws N L}.

Lemma canonical_plain ls :
  Forall plain_label ls -> Forall (fun l => ascii l = true) ls ->
  CanonicalName (fqdn_of ls) = lower (fqdn_of ls).
Proof.
  intros Hp Ha. rewrite CanonicalName_ascii by (by apply ascii_fqdn). unfold Fqdn.
  by rewrite IsFqdn_plain.
Qed.

Lemma lower_fqdn_of ls : lower (fqdn_of ls) = fqdn_of (lower <$> ls).
Proof. destruct ls; [done|]. by rewrite lower_fqdn. Qed.

Lemma fqdn_not_root ls : Forall plain_label ls -> ls <> [] -> fqdn_of ls <> [] /\ fqdn_of ls <> dot.
Proof.
  intros Hp Hn. pose proof (join_plain_nonnil ls Hp Hn) as Hj. unfold fqdn_of. destruct ls; [done|].
  split; [by destruct (join dot _)|]. intros H. apply (f_equal (@length byte)) in H.
  rewrite length_app in H. destruct (join dot _); [done|]. cbn in H. lia.
Qed.

(** The labels of a report about [rl]. *)
Definition report_labels (qtype ede : Z) (rl : list bytes) : list bytes :=
  er :: itoa qtype :: rl ++ [itoa ede; er].

Lemma itoa_plain n : is_u16 n -> plain_label (itoa n).
Proof.
  intros Hn. apply parseDecimalLabel_itoa, parseDecimalLabel_ok in Hn as (_ & Hd & Hl).
  rewrite forallb_forall in Hd. split; [intros E; rewrite E, zlen_nil in Hl; lia|].
  split; intros Hc; apply list_elem_of_In, Hd in Hc; done.
Qed.

Lemma parseReportLabels_ok qtype ede rl al :
  is_u16 qtype -> is_u16 ede -> Forall plain_label rl -> 1 <= zlen rl <= 20 ->
  Forall plain_label al -> al <> [] ->
  parseReportLabels (fqdn_of (report_labels qtype ede rl ++ al)) (fqdn_of al) = Ok (qtype, ede, fqdn_of rl).
Proof.
  intros Hq He Hr Hl Ha Hn. unfold parseReportLabels.
  rewrite fqdn_app by done. rewrite app_assoc, trim_suffix_app, trim_suffix_app.
  assert (Hp : Forall plain_label (report_labels qtype ede rl)).
  { assert (plain_label er) by (split; [done|split; by apply index_byte_None]).
    apply Forall_cons. split; [done|]. apply Forall_cons. split; [by apply itoa_plain|].
    apply Forall_app. split; [done|]. apply Forall_cons. split; [by apply itoa_plain|by apply Forall_singleton]. }
  rewrite (proj2 (beqb_false _ _)) by (by apply join_plain_nonnil).
  rewrite (proj1 (SplitDomainName_plain _ Hp ltac:(done))).
  assert (Elen : length (report_labels qtype ede rl) = (length rl + 4)%nat).
  { unfold report_labels. cbn [length]. rewrite length_app. cbn. lia. }
  unfold zlen in Hl. unfold minReportLabels, maxReportLabels, zlen. rewrite Elen.
  rewrite (proj2 (Z.ltb_ge _ _)), (proj2 (Z.ltb_ge _ _)) by lia. unfold label_from_end. rewrite Elen.
  assert (E1 : nth (length rl + 4 - 1) (report_labels qtype ede rl) [] = er).
  { unfold report_labels. change (er :: itoa qtype :: rl ++ [itoa ede; er]) with ([er; itoa qtype] ++ rl ++ [itoa ede; er]).
    rewrite app_nth2 by (cbn; lia). rewrite app_nth2 by (cbn; lia). cbn [length].
    replace (length rl + 4 - 1 - 2 - length rl)%nat with 1%nat by lia. done. }
  assert (E2 : nth (length rl + 4 - 2) (report_labels qtype ede rl) [] = itoa ede).
  { unfold report_labels. change (er :: itoa qtype :: rl ++ [itoa ede; er]) with ([er; itoa qtype] ++ rl ++ [itoa ede; er]).
    rewrite app_nth2 by (cbn; lia). rewrite app_nth2 by (cbn; lia). cbn [length].
    replace (length rl + 4 - 2 - 2 - length rl)%nat with 0%nat by lia. done. }
  rewrite E1, E2. cbn [nth report_labels]. rewrite beqb_refl. cbn [negb orb].
  rewrite !parseDecimalLabel_itoa by done. cbn [mbind result_bind].
  assert (E3 : drop 2 (take (length rl + 4 - 2) (report_labels qtype ede rl)) = rl).
  { unfold report_labels. replace (length rl + 4 - 2)%nat with (S (S (length rl))) by lia. cbn [take drop].
    apply take_app_length. }
  fold (report_labels qtype ede rl). rewrite E3. destruct rl as [|r0 rt]; [cbn in Hl; lia|]. cbn [length Nat.eqb].
  unfold Fqdn. by rewrite IsFqdn_unqualified.
Qed.

(** The token of a report about a probe name under the zone. *)
Lemma report_token_ours q zl :
  Query_Validate q = Ok tt -> Forall plain_label zl -> Forall (fun l => ascii l = true) zl -> zl <> [] ->
  Forall plain_label (mod_labels (Mods q) ++ [Token q]) ->
  report_token (fqdn_of zl) (fqdn_of ((mod_labels (Mods q) ++ [Token q]) ++ (lower <$> zl))) = Token q.
Proof.
  intros Hv Hz Ha Hn Hm. unfold report_token.
  destruct (fqdn_not_root zl Hz Hn) as [Hz1 Hz2]. rewrite (proj2 (beqb_false _ _) Hz1).
  rewrite canonical_plain by done.
  assert (Hlz : Forall plain_label (lower <$> zl)) by (apply Forall_fmap; eapply Forall_impl; [exact Hz|exact plain_lower]).
  assert (Hln : lower <$> zl <> []) by (by destruct zl).
  destruct (fqdn_not_root _ Hlz Hln) as [_ Hz3]. rewrite (lower_fqdn_of zl).
  rewrite (proj2 (beqb_false _ _) Hz3). cbn [negb andb].
  set (pre := mod_labels (Mods q) ++ [Token q]) in *.
  assert (Hpn : pre <> []) by (unfold pre; by destruct (mod_labels (Mods q))).
  assert (Hlow : lower <$> pre = pre).
  { unfold pre. rewrite fmap_app, (proj2 (mod_labels_ok (Mods q))). cbn.
    apply Query_Validate_spec in Hv as [[_ Hh] _]. by rewrite (proj1 (hex_bytes_lower _ Hh)). }
  assert (Hsub : IsSubDomain (fqdn_of (lower <$> zl)) (fqdn_of (pre ++ (lower <$> zl))) = true).
  { rewrite <- (lower_fqdn_of zl). rewrite <- Hlow at 1. rewrite <- fmap_app, <- lower_fqdn_of.
    apply IsSubDomain_plain; [done| |done|].
    - apply Forall_app. done.
    - exists pre. by rewrite fmap_app, Hlow. }
  rewrite Hsub, fqdn_app by done. rewrite app_assoc, trim_suffix_app, trim_suffix_app.
  assert (Hq : ParseQuery (join dot pre) = Some q); [|by rewrite Hq].
  change (join dot pre) with (join (bs ".") pre). unfold pre. rewrite <- Sub_labels.
  by apply ParseQuery_Sub.
Qed.
Lemma report_token_ok zone qn :
  report_token zone qn = [] \/ minTokenLen <= zlen (report_token zone qn) <= maxTokenLen /\
                              forallb hex_byte (report_token zone qn) = true.
Proof.
  unfold report_token. case_match; [by left|]. case_match; [|by left].
  destruct (ParseQuery _) as [q|] eqn:E; [|by left]. right. unfold ParseQuery in E. case_match; [done|].
  case_match. apply bind_Some in E as (token & Ht & E). apply bind_Some in E as (set & _ & E).
  case_match; [|done]. injection E as <-. cbn [Token]. by apply parseToken_spec in Ht as [_ Ht].
Qed.

Lemma parseReportLabels_inv name agent qtype ede qn :
  parseReportLabels name agent = Ok (qtype, ede, qn) ->
  exists labels d1 d2 reported,
    labels = SplitDomainName (trim_suffix (trim_suffix name agent) dot) /\ 5 <= zlen labels <= 24 /\
    labels = er :: d1 :: reported ++ [d2; er] /\ reported <> [] /\
    parseDecimalLabel d1 = Ok qtype /\ parseDecimalLabel d2 = Ok ede /\ qn = Fqdn (join dot reported).
Proof.
  unfold parseReportLabels. case_match; [done|]. set (labels := SplitDomainName _).
  destruct (zlen labels <? minReportLabels) eqn:E1; [done|]. destruct (maxReportLabels <? zlen labels) eqn:E2; [done|].
  destruct (_ || _) eqn:E3; [done|]. bool_prop. unfold minReportLabels, maxReportLabels, zlen in *.
  intros H'. inv_ok. destruct (_ =? 0)%nat eqn:E4; [done|]. inv_ok.
  exists labels, (nth 1 labels []), (label_from_end labels 2), (drop 2 (take (length labels - 2) labels)).
  split; [done|]. split; [lia|]. split_and!; try done.
  - unfold label_from_end in *. destruct labels as [|a [|b t]] eqn:El; cbn [length] in *; [lia..|].
    destruct (exists_last (l := t)) as (t1 & z & ->); [intros ->; cbn in *; lia|].
    destruct (exists_last (l := t1)) as (t2 & y & ->); [intros ->; cbn in *; lia|].
    rewrite !length_app in *. cbn [length] in *. cbn [nth] in *. subst a. f_equal. f_equal.
    replace (S (S (length t2 + 1 + 1)) - 1)%nat with (S (S (length t2 + 1))) in * by lia.
    replace (S (S (length t2 + 1 + 1)) - 2)%nat with (S (S (length t2))) by lia.
    cbn [nth take drop] in *. rewrite <- app_assoc, take_app_length.
    rewrite app_nth2 in * by (rewrite ?length_app; cbn; lia). rewrite ?length_app, ?Nat.sub_diag in *.
    cbn [nth] in H1. by subst z.
  - intros Hn. rewrite Hn in E4. done.
Qed.

Lemma query_labels_plain q : Query_Validate q = Ok tt -> Forall plain_label (mod_labels (Mods q) ++ [Token q]).
Proof.
  intros Hv. apply Query_Validate_spec in Hv as Hw. destruct Hw as [[_ Hh] _].
  apply Forall_app. split; [|apply Forall_singleton].
  - apply Forall_forall. intros l (n & b & Hb & -> & _)%elem_of_mod_labels. apply list_elem_of_In in Hb. cbn in Hb.
    repeat (destruct Hb as [[= <- _]|Hb]; [split; [done|split; by apply index_byte_None]|]). done.
  - destruct (Token_ok q Hv) as [[Hn Hd] _]. split; [done|]. split; [done|]. intros Hb.
    rewrite forallb_forall in Hh. by apply list_elem_of_In, Hh in Hb.
Qed.

(** C36: error reports decode exactly. A report name composed as RFC 9567
    says, in any letter case, about any name of one to twenty labels, with any
    type and extended error code, decodes to that name, type and code, and
    when the name is a valid query's under the zone, to its token. Whatever
    else is decoded has that shape: the sentinels at both ends, two decimal
    labels within 16 bits, between five and twenty-four labels in all, a name
    below an agent domain that is neither empty nor the root, and no token
    but a valid one. *)
Theorem ParseReport_exact (qname agentDomain probeZone : bytes) :
  (forall r, ParseReport qname agentDomain probeZone = Ok r ->
     is_u16 (rp_Qtype r) /\ is_u16 (EDE r) /\
     (rp_Token r = [] \/ minTokenLen <= zlen (rp_Token r) <= maxTokenLen /\ forallb hex_byte (rp_Token r) = true) /\
     CanonicalName agentDomain <> [] /\ CanonicalName agentDomain <> dot /\
     IsSubDomain (CanonicalName agentDomain) (CanonicalName qname) = true /\
     exists labels d1 d2 reported,
       labels = SplitDomainName (trim_suffix (trim_suffix (CanonicalName qname) (CanonicalName agentDomain)) dot) /\
       5 <= zlen labels <= 24 /\ labels = er :: d1 :: reported ++ [d2; er] /\ reported <> [] /\
       parseDecimalLabel d1 = Ok (rp_Qtype r) /\ parseDecimalLabel d2 = Ok (EDE r) /\
       Qname r = Fqdn (join dot reported)) /\
  (forall ls al rl qtype ede,
     Forall plain_label ls -> Forall plain_label al -> al <> [] -> Forall plain_label rl ->
     Forall (fun l => ascii l = true) (ls ++ al) ->
     is_u16 qtype -> is_u16 ede -> 1 <= zlen rl <= 20 ->
     lower <$> ls = report_labels qtype ede rl ++ (lower <$> al) ->
     exists r, ParseReport (fqdn_of ls) (fqdn_of al) probeZone = Ok r /\
       rp_Qtype r = qtype /\ EDE r = ede /\ Qname r = fqdn_of rl /\
       forall q zl, Query_Validate q = Ok tt -> Forall plain_label zl -> Forall (fun l => ascii l = true) zl ->
         zl <> [] -> probeZone = fqdn_of zl -> rl = (mod_labels (Mods q) ++ [Token q]) ++ (lower <$> zl) ->
         rp_Token r = Token q).
Proof.
  split.
  - intros r. unfold ParseReport. destruct (_ || _) eqn:Ea; [done|]. destruct (IsSubDomain _ _) eqn:Es; [|done].
    cbn [negb]. intros H. apply bind_ok in H as ([[qtype ede] qn] & Hl & H). apply Ok_inj in H. subst r. bool_prop.
    apply parseReportLabels_inv in Hl as (labels & d1 & d2 & rep & H1 & H2 & H3 & H4 & H5 & H6 & H7).
    cbn [rp_Qtype EDE rp_Token Qname]. split; [by apply parseDecimalLabel_ok in H5 as [? _]|].
    split; [by apply parseDecimalLabel_ok in H6 as [? _]|]. split; [apply report_token_ok|].
    split_and!; try done. by exists labels, d1, d2, rep.
  - intros ls al rl qtype ede Hls Hal Han Hrl Has Hq He Hlen Hlow. apply Forall_app in Has as [Has1 Has2].
    unfold ParseReport. cbv zeta. rewrite !canonical_plain by done.
    assert (Hal' : Forall plain_label (lower <$> al)) by (apply Forall_fmap; eapply Forall_impl; [exact Hal|exact plain_lower]).
    assert (Han' : lower <$> al <> []) by (by destruct al).
    destruct (fqdn_not_root _ Hal' Han') as [Hr1 Hr2]. rewrite <- lower_fqdn_of in Hr1, Hr2.
    rewrite (proj2 (beqb_false _ _) Hr1), (proj2 (beqb_false _ _) Hr2). cbn [orb].
    rewrite (proj2 (IsSubDomain_plain al ls Hal Hls Han)) by (by exists (report_labels qtype ede rl)). cbn [negb].
    rewrite (lower_fqdn_of ls), (lower_fqdn_of al), Hlow, parseReportLabels_ok by done. cbn [mbind result_bind].
    eexists. split; [reflexivity|]. cbn [rp_Qtype EDE Qname rp_Token]. split_and!; try done.
    intros q zl Hv Hz Hza Hzn -> ->. apply report_token_ours; try done. by apply query_labels_plain.
Qed.
End Exact.

Lemma plain_labels_check ls :
  forallb (fun l => negb (beqb l []) && negb (existsb (fun c => bool_decide (c = Byte.x2e \/ c = Byte.x5c)) l)
                    && ascii l) ls = true ->
  Forall plain_label ls /\ Forall (fun l => ascii l = true) ls.
Proof.
  intros H. rewrite forallb_forall in H. split; apply Forall_forall; intros l Hl;
    apply list_elem_of_In, H in Hl; bool_prop; [|done].
  split; [done|]. split; intros Hc; apply not_true_iff_false in H2; apply H2, existsb_iff;
    eexists; (split; [exact Hc|]); apply bool_decide_eq_true; auto.
Qed.

Lemma ParseReport_exact_witness :
  exists r, ParseReport (fqdn_of [bs "_ER"; bs "1"; bs "_badsig"; bs "DEADbeef"; bs "check"; bs "test"; bs "7"; bs "_er";
                                  bs "agent"; bs "example"])
                        (fqdn_of [bs "agent"; bs "example"]) (fqdn_of [bs "check"; bs "test"]) = Ok r /\
    EDE r = 7 /\ rp_Token r = bs "deadbeef".
Proof.
  set (zl := [bs "check"; bs "test"]). set (q := {| Token := bs "deadbeef"; Mods := 2 |}).
  set (ls := [bs "_ER"; bs "1"; bs "_badsig"; bs "DEADbeef"; bs "check"; bs "test"; bs "7"; bs "_er"; bs "agent"; bs "example"]).
  set (al := [bs "agent"; bs "example"]).
  assert (Hls := plain_labels_check (ls ++ al) ltac:(vm_compute; reflexivity)).
  assert (Hal := plain_labels_check al ltac:(vm_compute; reflexivity)).
  assert (Hzl := plain_labels_check zl ltac:(vm_compute; reflexivity)).
  assert (Hrl : Forall plain_label ((mod_labels (Mods q) ++ [Token q]) ++ (lower <$> zl)))
    by (apply plain_labels_check; vm_compute; reflexivity).
  destruct (proj2 (ParseReport_exact [] [] (fqdn_of zl)) ls al _ 1 7
              (proj1 (proj1 (Forall_app _ _ _) (proj1 Hls))) (proj1 Hal) ltac:(done) Hrl (proj2 Hls)
              ltac:(done) ltac:(done) ltac:(vm_compute; split; discriminate) ltac:(vm_compute; reflexivity))
    as (r & Hr & _ & He & _ & Ht).
  exists r. split; [exact Hr|]. split; [exact He|].
  exact (Ht q zl ltac:(vm_compute; reflexivity) (proj1 Hzl) (proj2 Hzl) ltac:(done) eq_refl eq_refl).
Defined.
