(* ===== verification/ProbeStore.v ===== *)
(** * The in-process observation store ([probe/observe.go], [MemStore])

    Two maps from tokens to entries, each with a queue of its entries sorted
    by first-seen time, so that expiry pops from the front instead of
    sweeping the map.  Entries are pointers: the queue and the map compare
    them by identity, so an entry carries a number no other entry has, and
    what a pointer's entry holds is kept in the map alone.  Every operation
    holds the store's mutex.  [Sweep] is the store as its documentation
    promises it, expiring by a sweep of the whole map; the refinement says
    the two never differ. *)

From stdpp Require Import sorting.
From S2P Require Import Prelude GoStrings Netip ProbeObserve ProbeReport.

(** ** Time

    [time.Time] is nanoseconds since Go's zero time, [Sub] saturates at the
    ends of [time.Duration]. *)
Definition max_duration : Z := 2 ^ 63 - 1.
Definition Sub_time (t u : Z) : Z := Z.max (- 2 ^ 63) (Z.min max_duration (t - u)).

(** ** Queues *)

(** What a queued pointer is read for: when its entry was first seen, its
    key, and which entry it is. *)
Record expiry := { first : Z; token : bytes; eid : nat }.

#[global] Instance expiry_eq_dec : EqDecision expiry.
Proof. solve_decision. Defined.

(** [sort.Search]. *)
Fixpoint search_loop (fuel : nat) (f : nat -> bool) (i j : nat) : nat :=
  match fuel with
  | O => i
  | S fuel' => if (i <? j)%nat then
                 let h := ((i + j) / 2)%nat in
                 if negb (f h) then search_loop fuel' f (S h) j else search_loop fuel' f i h
               else i
  end.

Definition Search (n : nat) (f : nat -> bool) : nat := search_loop (S n) f 0 n.

Definition push (q : list expiry) (e : expiry) : list expiry :=
  match last q with
  | Some newest =>
      if first e <? first newest then
        let i := Search (length q) (fun i => match q !! i with Some x => first e <? first x | None => true end) in
        take i q ++ e :: drop i q
      else q ++ [e]
  | None => q ++ [e]
  end.

(** ** One map with its queue *)

Record entry (A : Type) := mkEntry { age : expiry; items : list A }.
Arguments mkEntry {A}. Arguments age {A}. Arguments items {A}.

Record shelf (A : Type) := mkShelf { entries : gmap bytes (entry A); order : list expiry; next_eid : nat }.
Arguments mkShelf {A}. Arguments entries {A}. Arguments order {A}. Arguments next_eid {A}.

Section Shelf.
Context {A : Type}.

(** The callback of [expireLocked]: the map is only cleared of an entry the
    queue still owns. *)
Definition drop_entry (m : gmap bytes (entry A)) (e : expiry) : gmap bytes (entry A) :=
  match m !! token e with
  | Some x => if (eid (age x) =? eid e)%nat then delete (token e) m else m
  | None => m
  end.

Fixpoint expire (now ttl : Z) (q : list expiry) (m : gmap bytes (entry A)) : list expiry * gmap bytes (entry A) :=
  match q with
  | [] => ([], m)
  | e :: t => if ttl <? Sub_time now (first e) then expire now ttl t (drop_entry m e) else (q, m)
  end.

Definition expire_shelf (now ttl : Z) (s : shelf A) : shelf A :=
  let '(q, m) := expire now ttl (order s) (entries s) in mkShelf m q (next_eid s).

(** A new entry under a token, queued. *)
Definition new_entry (now : Z) (t : bytes) (s : shelf A) : shelf A * entry A :=
  let e := {| first := now; token := t; eid := next_eid s |} in
  (mkShelf (<[t := mkEntry e []]> (entries s)) (push (order s) e) (S (next_eid s)), mkEntry e []).

Definition append_item (t : bytes) (e : entry A) (x : A) (s : shelf A) : shelf A :=
  mkShelf (<[t := mkEntry (age e) (items e ++ [x])]> (entries s)) (order s) (next_eid s).

Definition empty_shelf : shelf A := mkShelf ∅ [] 0.
End Shelf.

(** ** The store *)

Definition maxUnattributedReports : Z := 256.

Record MemStore := mkStore {
  observations : shelf Observation;
  reports : shelf ReportRecord;
  TTL : Z;
  MaxTokens : Z;
  MaxPerToken : Z
}.

Definition defaultStoreTTL : Z := 600 * 10 ^ 9.
Definition defaultMaxTokens : Z := 10000.
Definition defaultMaxPerToken : Z := 64.

Definition NewMemStore (ttl maxTokens maxPerToken : Z) : MemStore :=
  mkStore empty_shelf empty_shelf
    (if ttl <=? 0 then defaultStoreTTL else ttl)
    (if maxTokens <=? 0 then defaultMaxTokens else maxTokens)
    (if maxPerToken <=? 0 then defaultMaxPerToken else maxPerToken).

Definition expireLocked (now : Z) (s : MemStore) : MemStore :=
  mkStore (expire_shelf now (TTL s) (observations s)) (expire_shelf now (TTL s) (reports s))
          (TTL s) (MaxTokens s) (MaxPerToken s).

Definition set_observations (s : MemStore) (o : shelf Observation) : MemStore :=
  mkStore o (reports s) (TTL s) (MaxTokens s) (MaxPerToken s).
Definition set_reports (s : MemStore) (r : shelf ReportRecord) : MemStore :=
  mkStore (observations s) r (TTL s) (MaxTokens s) (MaxPerToken s).

(** [Record]: the store after it, the observation returned and whether the
    store was full. [clock] is what [time.Now] gives if asked. *)
Definition Store_Record (clock : Z) (obs : Observation) (s : MemStore) : MemStore * Observation * bool :=
  let now := if At obs =? 0 then clock else At obs in
  let obs := set_at obs now in
  let s := expireLocked now s in
  let with_entry s e :=
    let obs := set_seen obs (zlen (items e) + 1) in
    if MaxPerToken s <=? zlen (items e) then (s, obs, false)
    else (set_observations s (append_item (ob_Token obs) e obs (observations s)), obs, false) in
  match entries (observations s) !! ob_Token obs with
  | Some e => with_entry s e
  | None =>
      if MaxTokens s <=? Z.of_nat (size (entries (observations s))) then (s, set_seen obs 1, true)
      else
        let '(sh, e) := new_entry now (ob_Token obs) (observations s) in
        with_entry (set_observations s sh) e
  end.

Definition Lookup (clock : Z) (t : bytes) (s : MemStore) : MemStore * list Observation :=
  let s := expireLocked clock s in
  (s, match entries (observations s) !! t with None => [] | Some e => items e end).

Definition set_rr_at (r : ReportRecord) (at_ : Z) : ReportRecord :=
  {| rr_At := at_; ReporterAddr := ReporterAddr r; ReporterPrefix := ReporterPrefix r; rr_Token := rr_Token r;
     rr_QtypeName := rr_QtypeName r; rr_Qname := rr_Qname r; rr_EDEText := rr_EDEText r;
     rr_Transport := rr_Transport r; rr_Qtype := rr_Qtype r; rr_EDE := rr_EDE r |}.

Definition report_limit (s : MemStore) (t : bytes) : Z :=
  if beqb t [] then maxUnattributedReports else MaxPerToken s.

(** [RecordReport]: the store after it and whether it was full. *)
Definition RecordReport (clock : Z) (rec : ReportRecord) (s : MemStore) : MemStore * bool :=
  let now := if rr_At rec =? 0 then clock else rr_At rec in
  let rec := set_rr_at rec now in
  let s := expireLocked now s in
  let with_entry s e :=
    if report_limit s (rr_Token rec) <=? zlen (items e) then (s, true)
    else (set_reports s (append_item (rr_Token rec) e rec (reports s)), false) in
  match entries (reports s) !! rr_Token rec with
  | Some e => with_entry s e
  | None =>
      if MaxTokens s <=? Z.of_nat (size (entries (reports s))) then (s, true)
      else
        let '(sh, e) := new_entry now (rr_Token rec) (reports s) in
        with_entry (set_reports s sh) e
  end.

Definition LookupReports (clock : Z) (t : bytes) (s : MemStore) : MemStore * list ReportRecord :=
  let s := expireLocked clock s in
  (s, match entries (reports s) !! t with None => [] | Some e => items e end).

Definition Len (clock : Z) (s : MemStore) : MemStore * Z :=
  let s := expireLocked clock s in (s, Z.of_nat (size (entries (observations s)))).

(** ** The store as promised *)

(** Tokens with when they were first seen and what is kept for them. *)
Notation table A := (gmap bytes (Z * list A)).

Definition fresh {A} (now ttl : Z) (e : Z * list A) : Prop := ~ (ttl < Sub_time now e.1).
#[global] Instance fresh_dec {A} now ttl (e : Z * list A) : Decision (fresh now ttl e).
Proof. unfold fresh. apply _. Defined.

Definition sweep {A} (now ttl : Z) (m : table A) : table A := filter (fun ke => fresh now ttl ke.2) m.

Inductive kept := Stored | Capped | Full.

(** An item under a token, given the ceilings: the table, the ordinal of the
    item for its token, and whether it was kept. *)
Definition keep {A} (now maxTokens limit : Z) (t : bytes) (x : Z -> A) (m : table A) : table A * Z * kept :=
  let add f l := if limit <=? zlen l then (<[t := (f, l)]> m, zlen l + 1, Capped)
                 else (<[t := (f, l ++ [x (zlen l + 1)])]> m, zlen l + 1, Stored) in
  match m !! t with
  | Some (f, l) => add f l
  | None => if maxTokens <=? Z.of_nat (size m) then (m, 1, Full) else add now []
  end.

(** ** The queue *)

Definition older (a b : expiry) : Prop := first a <= first b.

Lemma search_loop_spec n f fuel i j :
  (forall x y, (x <= y)%nat -> (y < n)%nat -> f x = true -> f y = true) ->
  (i <= j)%nat -> (j <= n)%nat -> (j - i < fuel)%nat ->
  (forall x, (x < i)%nat -> f x = false) -> (forall x, (j <= x)%nat -> (x < n)%nat -> f x = true) ->
  let k := search_loop fuel f i j in
  (k <= n)%nat /\ (forall x, (x < k)%nat -> f x = false) /\ (forall x, (k <= x)%nat -> (x < n)%nat -> f x = true).
Proof.
  intros Hm. revert i j. induction fuel as [|fuel IH]; intros i j Hij Hjn Hf Hlo Hhi; [lia|].
  cbn [search_loop]. destruct (Nat.ltb_spec i j) as [Hlt|Hge].
  2:{ assert (i = j) as -> by lia. split; [lia|]. done. }
  assert (Hh : (i <= (i + j) / 2 < j)%nat).
  { split; [apply Nat.div_le_lower_bound; lia|apply Nat.Div0.div_lt_upper_bound; lia]. }
  set (h := ((i + j) / 2)%nat) in *. destruct (f h) eqn:E; cbn [negb].
  - apply IH; try lia; [done|]. intros x Hx Hxn. by apply (Hm h x).
  - apply IH; try lia; [|done]. intros x Hx. destruct (f x) eqn:Ex; [|done].
    rewrite (Hm x h) in E; [done|lia|lia|done].
Qed.

Lemma Search_spec n f :
  (forall x y, (x <= y)%nat -> (y < n)%nat -> f x = true -> f y = true) ->
  (Search n f <= n)%nat /\ (forall x, (x < Search n f)%nat -> f x = false) /\
  (forall x, (Search n f <= x)%nat -> (x < n)%nat -> f x = true).
Proof. intros H. unfold Search. apply search_loop_spec; [done|lia..|lia|lia]. Qed.

Lemma sorted_lookup q i j x y :
  StronglySorted older q -> (i <= j)%nat -> q !! i = Some x -> q !! j = Some y -> older x y.
Proof.
  intros H Hij Hx Hy. destruct (decide (i = j)) as [->|Hn]; [rewrite Hx in Hy; injection Hy as ->; unfold older; lia|].
  revert i j Hij Hn Hx Hy. induction H as [|e t _ IH Hf]; intros [|i] [|j] Hij Hn Hx Hy; try done; try lia.
  - injection Hx as <-. rewrite Forall_forall in Hf. apply Hf. by eapply list_elem_of_lookup_2.
  - apply (IH i j); [lia|lia|done|done].
Qed.

Lemma push_spec q e :
  StronglySorted older q -> StronglySorted older (push q e) /\ push q e ≡ₚ e :: q.
Proof.
  intros Hs. unfold push. destruct (last q) as [newest|] eqn:El.
  2:{ apply last_None in El as ->. split; [repeat constructor|done]. }
  destruct (Z.ltb_spec (first e) (first newest)) as [Hlt|Hge].
  - set (f := fun i => match q !! i with Some x => first e <? first x | None => true end).
    destruct (Search_spec (length q) f) as (Hk & Hlo & Hhi).
    { intros x y Hxy Hy Hx. unfold f in *. destruct (lookup_lt_is_Some_2 q y Hy) as [b Hb].
      destruct (lookup_lt_is_Some_2 q x ltac:(lia)) as [a Ha]. rewrite Ha in Hx. rewrite Hb.
      pose proof (sorted_lookup q x y a b Hs Hxy Ha Hb) as Ho. unfold older in Ho.
      apply Z.ltb_lt in Hx. apply Z.ltb_lt. lia. }
    set (k := Search (length q) f) in *. split.
    + apply StronglySorted_app. split_and!.
      * intros a b (i & Hi)%list_elem_of_lookup Hb. apply lookup_take_Some in Hi as [Hi Hik].
        assert (Hae : first a <= first e) by (specialize (Hlo i Hik); unfold f in Hlo; rewrite Hi in Hlo; bool_prop; lia).
        apply elem_of_cons in Hb as [->|(j & Hj)%list_elem_of_lookup]; [done|].
        rewrite lookup_drop in Hj. apply (sorted_lookup q i (k + j)); [done|lia|done|done].
      * apply (StronglySorted_app_1_l _ _ (drop k q)). by rewrite take_drop.
      * constructor; [apply (StronglySorted_app_1_r _ (take k q)); by rewrite take_drop|].
        apply Forall_forall. intros b (j & Hj)%list_elem_of_lookup. rewrite lookup_drop in Hj.
        assert (Hkj : f (k + j)%nat = true) by (apply Hhi; [lia|by eapply lookup_lt_Some]).
        unfold f in Hkj. rewrite Hj in Hkj. bool_prop. unfold older. lia.
    + rewrite <- Permutation_middle, take_drop. done.
  - split; [|by rewrite Permutation_app_comm]. apply StronglySorted_app. split_and!; [|done|repeat constructor].
    intros a b (i & Hi)%list_elem_of_lookup ->%list_elem_of_singleton.
    rewrite last_lookup in El. pose proof (lookup_lt_Some _ _ _ Hi).
    pose proof (sorted_lookup q i (pred (length q)) a newest Hs ltac:(lia) Hi El) as Ho. unfold older in *. lia.
Qed.

Lemma Sub_time_anti now a b : a <= b -> Sub_time now b <= Sub_time now a.
Proof. unfold Sub_time. lia. Qed.

(** ** A map and its queue agree *)

Section ShelfLaws.
Context {A : Type}.

(** The queue holds exactly the entries of the map, each once, oldest first,
    so no queued entry is ever stale. *)
Record shelf_ok (q : list expiry) (m : gmap bytes (entry A)) : Prop := {
  so_sorted : StronglySorted older q;
  so_nodup : NoDup q;
  so_queued : forall t e, m !! t = Some e -> age e ∈ q /\ token (age e) = t;
  so_live : forall x, x ∈ q -> exists e, m !! token x = Some e /\ age e = x
}.

(** What the map says, without the pointers. *)
Definition view (m : gmap bytes (entry A)) : table A := (fun e => (first (age e), items e)) <$> m.

Lemma view_lookup m t : view m !! t = (fun e => (first (age e), items e)) <$> m !! t.
Proof. unfold view. by rewrite lookup_fmap. Qed.

Lemma size_view m : size (view m) = size m.
Proof. unfold view. by rewrite map_size_fmap. Qed.

Lemma drop_head e q m :
  shelf_ok (e :: q) m -> drop_entry m e = delete (token e) m /\ shelf_ok q (delete (token e) m).
Proof.
  intros [Hs Hn Hq Hl]. destruct (Hl e ltac:(left)) as (x & Hx & Hax). split.
  { unfold drop_entry. by rewrite Hx, Hax, Nat.eqb_refl. }
  apply NoDup_cons in Hn as [He Hn]. split; [by inversion Hs|done| |].
  - intros t y [Hty Hy]%lookup_delete_Some. destruct (Hq t y Hy) as [Hin Ht]. split; [|done].
    apply elem_of_cons in Hin as [Heq|?]; [|done]. congruence.
  - intros y Hy. destruct (Hl y ltac:(by right)) as (z & Hz & Haz). exists z. split; [|done].
    rewrite lookup_delete_ne; [done|]. intros Heq. rewrite <- Heq, Hx in Hz. congruence.
Qed.

Lemma expire_ok now ttl q m :
  shelf_ok q m ->
  let '(q', m') := expire now ttl q m in shelf_ok q' m' /\ view m' = sweep now ttl (view m).
Proof.
  revert m. induction q as [|e t IH]; intros m H; cbn [expire].
  { split; [done|]. destruct H as [_ _ Hq _]. apply map_eq. intros k. unfold sweep. rewrite map_lookup_filter, view_lookup.
    destruct (m !! k) as [x|] eqn:E; [|done]. destruct (Hq k x E) as [[]%elem_of_nil _]. }
  destruct (Z.ltb_spec ttl (Sub_time now (first e))) as [Hlt|Hge].
  - destruct (drop_head e t m H) as [-> Hd]. specialize (IH _ Hd). destruct (expire now ttl t (delete (token e) m)) as [q' m'].
    destruct IH as [IH1 IH2]. split; [done|]. rewrite IH2. apply map_eq. intros k. unfold sweep.
    rewrite !map_lookup_filter, !view_lookup. destruct (decide (k = token e)) as [->|Hk].
    + destruct (so_live _ _ H e ltac:(left)) as (x & -> & Hax). rewrite lookup_delete_eq. cbn.
      rewrite option_guard_False; [done|]. unfold fresh. rewrite Hax. cbn. tauto.
    + by rewrite lookup_delete_ne.
  - split; [done|]. apply map_eq. intros k. unfold sweep. rewrite map_lookup_filter, view_lookup.
    destruct (m !! k) as [x|] eqn:E; [|done]. cbn. rewrite option_guard_True; [done|].
    destruct (so_queued _ _ H k x E) as [Hin _]. unfold fresh. cbn.
    assert (Ho : older e (age x)).
    { apply elem_of_cons in Hin as [->|Hin]; [unfold older; lia|].
      pose proof (so_sorted _ _ H) as Hs. inversion Hs as [|? ? _ Hf]; subst. rewrite Forall_forall in Hf. by apply Hf. }
    pose proof (Sub_time_anti now _ _ Ho). lia.
Qed.

Definition ok (s : shelf A) : Prop :=
  shelf_ok (order s) (entries s) /\ forall x, x ∈ order s -> (eid x < next_eid s)%nat.

Lemma expire_sub (now ttl : Z) (q : list expiry) (m : gmap bytes (entry A)) (x : expiry) : x ∈ (expire now ttl q m).1 -> x ∈ q.
Proof.
  revert m. induction q as [|e t IH]; intros m; cbn [expire]; [done|]. destruct (_ <? _); [|done].
  intros H. right. by eapply IH.
Qed.

Lemma expire_shelf_ok now ttl (s : shelf A) :
  ok s -> ok (expire_shelf now ttl s) /\ view (entries (expire_shelf now ttl s)) = sweep now ttl (view (entries s)).
Proof.
  intros [H1 H2]. unfold expire_shelf. pose proof (expire_ok now ttl _ _ H1) as He.
  pose proof (fun x => expire_sub now ttl (order s) (entries s) x) as Hsub.
  destruct (expire now ttl (order s) (entries s)) as [q m]. destruct He as [? ?]. split; [|done].
  split; [done|]. cbn. intros x Hx. by apply H2, Hsub.
Qed.

Lemma new_entry_ok now t (s : shelf A) :
  ok s -> entries s !! t = None ->
  let '(s', e) := new_entry now t s in
  ok s' /\ entries s' !! t = Some e /\ items e = [] /\ first (age e) = now /\ entries s' = <[t := e]> (entries s).
Proof.
  intros [[Hs Hn Hq Hl] Hf] Ht. unfold new_entry. cbn. set (e := {| first := now; token := t; eid := next_eid s |}).
  destruct (push_spec (order s) e Hs) as [Hps Hpp]. split; [|split; [apply lookup_insert_eq|done]].
  assert (Hne : e ∉ order s) by (intros Hx; apply Hf in Hx; cbn in Hx; lia).
  split; cbn; [split; [done|..]|].
  - rewrite Hpp. by apply NoDup_cons.
  - intros k x [[<- <-]|[Hk Hx]]%lookup_insert_Some; rewrite Hpp; [split; [left|done]|].
    destruct (Hq k x Hx). split; [by right|done].
  - intros x. rewrite Hpp. intros [->|Hx]%elem_of_cons; [eexists; split; [apply lookup_insert_eq|done]|].
    destruct (Hl x Hx) as (y & Hy & Hay). exists y. split; [|done]. rewrite lookup_insert_ne; [done|]. congruence.
  - intros x. rewrite Hpp. intros [->|Hx]%elem_of_cons; [cbn; lia|]. apply Hf in Hx. lia.
Qed.

Lemma append_item_ok t e x (s : shelf A) :
  ok s -> entries s !! t = Some e -> ok (append_item t e x s).
Proof.
  intros [[Hs Hn Hq Hl] Hf] He. split; [|done]. split; cbn; [done|done| |].
  - intros k y [[<- <-]|[Hk Hy]]%lookup_insert_Some; [exact (Hq t e He)|exact (Hq k y Hy)].
  - intros y Hy. destruct (Hl y Hy) as (z & Hz & Haz). destruct (decide (token y = t)) as [<-|Hn'].
    + eexists. split; [apply lookup_insert_eq|]. cbn. congruence.
    + exists z. by rewrite lookup_insert_ne.
Qed.

Lemma empty_shelf_ok : ok (@empty_shelf A).
Proof.
  split; [|by intros x []%elem_of_nil]. split; [constructor|constructor| |by intros x []%elem_of_nil].
  intros t e H. cbn in H. by rewrite lookup_empty in H.
Qed.
End ShelfLaws.

(** ** The promise kept *)

(** The store's methods, and what they give back.  Each is called at a time,
    what [time.Now] gives if it is asked. *)
Inductive op := OpRecord (o : Observation) | OpRecordReport (r : ReportRecord) | OpLookup (t : bytes)
  | OpLookupReports (t : bytes) | OpLen.
Inductive out := Recorded (o : Observation) (full : bool) | Reported (full : bool) | Found (l : list Observation)
  | FoundReports (l : list ReportRecord) | Live (n : Z).

Definition call (c : op * Z) (s : MemStore) : MemStore * out :=
  let '(o, clock) := c in
  match o with
  | OpRecord obs => let '(s', obs', full) := Store_Record clock obs s in (s', Recorded obs' full)
  | OpRecordReport r => let '(s', full) := RecordReport clock r s in (s', Reported full)
  | OpLookup t => let '(s', l) := Lookup clock t s in (s', Found l)
  | OpLookupReports t => let '(s', l) := LookupReports clock t s in (s', FoundReports l)
  | OpLen => let '(s', n) := Len clock s in (s', Live n)
  end.

Fixpoint calls {S : Type} (f : op * Z -> S -> S * out) (cs : list (op * Z)) (s : S) : S * list out :=
  match cs with
  | [] => (s, [])
  | c :: cs' => let '(s1, o) := f c s in let '(s2, os) := calls f cs' s1 in (s2, o :: os)
  end.

(** The store as two tables swept whole at every call. *)
Definition book : Type := table Observation * table ReportRecord.

Definition read {A} (t : bytes) (m : table A) : list A := match m !! t with Some (_, l) => l | None => [] end.

Section Promise.
Variables ttl maxTokens maxPerToken : Z.

Definition limit_of (t : bytes) : Z := if beqb t [] then maxUnattributedReports else maxPerToken.

Definition promised (c : op * Z) (b : book) : book * out :=
  let '(o, clock) := c in
  let swept now : book := (sweep now ttl b.1, sweep now ttl b.2) in
  match o with
  | OpRecord obs =>
      let now := if At obs =? 0 then clock else At obs in
      let obs := set_at obs now in
      let '(m, n, k) := keep now maxTokens maxPerToken (ob_Token obs) (set_seen obs) (swept now).1 in
      ((m, (swept now).2), Recorded (set_seen obs n) (match k with Full => true | _ => false end))
  | OpRecordReport r =>
      let now := if rr_At r =? 0 then clock else rr_At r in
      let r := set_rr_at r now in
      let '(m, _, k) := keep now maxTokens (limit_of (rr_Token r)) (rr_Token r) (fun _ => r) (swept now).2 in
      (((swept now).1, m), Reported (match k with Stored => false | _ => true end))
  | OpLookup t => (swept clock, Found (read t (swept clock).1))
  | OpLookupReports t => (swept clock, FoundReports (read t (swept clock).2))
  | OpLen => (swept clock, Live (Z.of_nat (size (swept clock).1)))
  end.
End Promise.

(** The two stores agree. *)
Record agrees (ttl maxTokens maxPerToken : Z) (b : book) (s : MemStore) : Prop := {
  ag_obs : ok (observations s);
  ag_rep : ok (reports s);
  ag_view : view (entries (observations s)) = b.1;
  ag_view_rep : view (entries (reports s)) = b.2;
  ag_limits : TTL s = ttl /\ MaxTokens s = maxTokens /\ MaxPerToken s = maxPerToken
}.

Section Refinement.
Variables ttl maxTokens maxPerToken : Z.
Notation agrees := (agrees ttl maxTokens maxPerToken).

Lemma expireLocked_agrees now b s :
  agrees b s -> agrees (sweep now ttl b.1, sweep now ttl b.2) (expireLocked now s).
Proof.
  intros [H1 H2 <- <- (<- & <- & <-)].
  destruct (expire_shelf_ok now (TTL s) _ H1), (expire_shelf_ok now (TTL s) _ H2). by split.
Qed.

Lemma read_view {A} (t : bytes) (m : gmap bytes (entry A)) :
  read t (view m) = match m !! t with None => [] | Some e => items e end.
Proof. unfold read. rewrite view_lookup. by destruct (m !! t). Qed.

Lemma view_insert {A} (t : bytes) (e : entry A) (m : gmap bytes (entry A)) : view (<[t := e]> m) = <[t := (first (age e), items e)]> (view m).
Proof. unfold view. by rewrite fmap_insert. Qed.

(** An item offered to a shelf, the way both recording methods do. *)
Definition offer {A} (now limit : Z) (t : bytes) (x : Z -> A) (s : shelf A) : shelf A * Z * kept :=
  let with_entry s e :=
    if limit <=? zlen (items e) then (s, zlen (items e) + 1, Capped)
    else (append_item t e (x (zlen (items e) + 1)) s, zlen (items e) + 1, Stored) in
  match entries s !! t with
  | Some e => with_entry s e
  | None =>
      if maxTokens <=? Z.of_nat (size (entries s)) then (s, 1, Full)
      else let '(s', e) := new_entry now t s in with_entry s' e
  end.

Lemma offer_keep {A} (now limit : Z) (t : bytes) (x : Z -> A) (s : shelf A) :
  ok s ->
  let '(s', n, k) := offer now limit t x s in
  ok s' /\ keep now maxTokens limit t x (view (entries s)) = (view (entries s'), n, k).
Proof.
  intros H. unfold offer, keep. rewrite view_lookup, size_view.
  destruct (entries s !! t) as [e|] eqn:He; cbn [fmap option_fmap option_map].
  - destruct (limit <=? zlen (items e)).
    + split; [done|]. rewrite insert_id; [done|]. by rewrite view_lookup, He.
    + split; [by apply append_item_ok|]. unfold append_item. cbn [entries]. by rewrite view_insert.
  - destruct (maxTokens <=? _); [by split|].
    pose proof (new_entry_ok now t s H He) as Hn. destruct (new_entry now t s) as [s' e].
    destruct Hn as (Hok & Ht & Hi & Hf & Hm). rewrite Hi. change (zlen (@nil A)) with 0. destruct (limit <=? 0).
    + split; [done|]. by rewrite Hm, view_insert, Hf, Hi.
    + split; [by apply append_item_ok|]. unfold append_item. cbn [entries]. rewrite Hm, !view_insert, insert_insert_eq, Hi. cbn [age items first]. by rewrite Hf.
Qed.

Lemma call_agrees c b s :
  agrees b s ->
  agrees (promised ttl maxTokens maxPerToken c b).1 (call c s).1 /\
  (promised ttl maxTokens maxPerToken c b).2 = (call c s).2.
Proof.
  intros H. destruct c as [[obs|r|t|t|] clock]; cbn [promised call].
  - set (now := if At obs =? 0 then clock else At obs). unfold Store_Record. fold now.
    destruct (expireLocked_agrees now b s H) as [Ho Hr Hv Hvr (Ht & Hmt & Hmp)].
    set (s1 := expireLocked now s) in *. cbn [fst snd] in *. rewrite Hmt, Hmp.
    pose proof (offer_keep now maxPerToken (ob_Token obs) (set_seen (set_at obs now)) _ Ho) as Hk.
    change (ob_Token (set_at obs now)) with (ob_Token obs). rewrite <- Hv.
    unfold offer in Hk. destruct (entries (observations s1) !! ob_Token obs) as [e|] eqn:He.
    + destruct (maxPerToken <=? zlen (items e)); destruct Hk as [Hk1 ->]; (split; [by constructor|done]).
    + destruct (maxTokens <=? _); [destruct Hk as [Hk1 ->]; split; [by constructor|done]|].
      destruct (new_entry now (ob_Token obs) (observations s1)) as [sh e].
      change (MaxPerToken (set_observations s1 sh)) with (MaxPerToken s1). rewrite Hmp.
      destruct (maxPerToken <=? zlen (items e)); destruct Hk as [Hk1 ->]; (split; [by constructor|done]).
  - set (now := if rr_At r =? 0 then clock else rr_At r). unfold RecordReport. fold now.
    destruct (expireLocked_agrees now b s H) as [Ho Hr Hv Hvr (Ht & Hmt & Hmp)].
    set (s1 := expireLocked now s) in *. cbn [fst snd] in *. rewrite Hmt.
    change (rr_Token (set_rr_at r now)) with (rr_Token r). unfold report_limit. rewrite Hmp. fold (limit_of maxPerToken (rr_Token r)).
    pose proof (offer_keep now (limit_of maxPerToken (rr_Token r)) (rr_Token r) (fun _ => set_rr_at r now) _ Hr) as Hk.
    rewrite <- Hvr. set (lim := limit_of maxPerToken (rr_Token r)) in *.
    unfold offer in Hk. destruct (entries (reports s1) !! rr_Token r) as [e|] eqn:He.
    + destruct (lim <=? zlen (items e)); destruct Hk as [Hk1 ->]; (split; [by constructor|done]).
    + destruct (maxTokens <=? _); [destruct Hk as [Hk1 ->]; split; [by constructor|done]|].
      destruct (new_entry now (rr_Token r) (reports s1)) as [sh e].
      change (MaxPerToken (set_reports s1 sh)) with (MaxPerToken s1). rewrite Hmp.
      fold (limit_of maxPerToken (rr_Token r)). fold lim.
      destruct (lim <=? zlen (items e)); destruct Hk as [Hk1 ->]; (split; [by constructor|done]).
  - pose proof (expireLocked_agrees clock b s H) as Ha. split; [done|]. pose proof (ag_view _ _ _ _ _ Ha) as Hv.
    cbn in *. by rewrite <- Hv, read_view.
  - pose proof (expireLocked_agrees clock b s H) as Ha. split; [done|]. pose proof (ag_view_rep _ _ _ _ _ Ha) as Hv.
    cbn in *. by rewrite <- Hv, read_view.
  - pose proof (expireLocked_agrees clock b s H) as Ha. split; [done|]. cbn.
    pose proof (ag_view _ _ _ _ _ Ha) as Hv. cbn in Hv. rewrite <- Hv. by rewrite size_view.
Qed.

Lemma calls_agree cs b s :
  agrees b s ->
  agrees (calls (promised ttl maxTokens maxPerToken) cs b).1 (calls call cs s).1 /\
  (calls (promised ttl maxTokens maxPerToken) cs b).2 = (calls call cs s).2.
Proof.
  revert b s. induction cs as [|c cs IH]; intros b s H; cbn [calls]; [done|].
  destruct (call_agrees c b s H) as [Ha Ho].
  destruct (promised ttl maxTokens maxPerToken c b) as [b1 o1], (call c s) as [s1 o2]. cbn in Ha, Ho. subst o2.
  destruct (IH b1 s1 Ha) as [Ha' Ho'].
  destruct (calls (promised ttl maxTokens maxPerToken) cs b1), (calls call cs s1). cbn in *. by subst.
Qed.
End Refinement.

(** ** What the store holds *)

(** A shelf keeps at most its ceiling of tokens, queued once each, and for a
    token at least one item and at most its limit, each one fit for its place:
    given the key, when the token was first seen and the item's index. *)
Record tidy {A} (fit : bytes -> Z -> nat -> A -> Prop) (maxTokens : Z) (limit : bytes -> Z) (m : table A) : Prop := {
  td_size : Z.of_nat (size m) <= maxTokens;
  td_len : forall t f l, m !! t = Some (f, l) -> 1 <= zlen l <= limit t;
  td_fit : forall t f l i x, m !! t = Some (f, l) -> l !! i = Some x -> fit t f i x
}.

(** An observation sits under its own token, is numbered by its place, and
    the first one dates the token. *)
Definition numbered (t : bytes) (f : Z) (i : nat) (o : Observation) : Prop :=
  ob_Token o = t /\ Seen o = Z.of_nat i + 1 /\ (i = 0%nat -> At o = f).

Definition filed (t : bytes) (f : Z) (i : nat) (r : ReportRecord) : Prop :=
  rr_Token r = t /\ (i = 0%nat -> rr_At r = f).

Lemma tidy_sweep {A} (fit : bytes -> Z -> nat -> A -> Prop) (mt : Z) (limit : bytes -> Z) (now ttl : Z) (m : table A) : tidy fit mt limit m -> tidy fit mt limit (sweep now ttl m).
Proof.
  intros [H1 H2 H3]. split.
  - assert (Hs : (size (sweep now ttl m) <= size m)%nat); [|lia].
    apply map_subseteq_size, map_filter_subseteq.
  - intros t f l [Hl _]%map_lookup_filter_Some. by apply (H2 t f l).
  - intros t f l i x [Hl _]%map_lookup_filter_Some. by apply (H3 t f l).
Qed.

Lemma tidy_insert {A} (fit : bytes -> Z -> nat -> A -> Prop) (mt : Z) (limit : bytes -> Z) (m : table A) (t : bytes) (f : Z) (l : list A) :
  tidy fit mt limit m -> Z.of_nat (size (<[t := (f, l)]> m)) <= mt -> 1 <= zlen l <= limit t ->
  (forall i x, l !! i = Some x -> fit t f i x) -> tidy fit mt limit (<[t := (f, l)]> m).
Proof.
  intros [H1 H2 H3] Hs Hl Hf. split; [done|..].
  - intros t' f' l' [[<- [= <- <-]]|[_ H]]%lookup_insert_Some; [done|by eapply H2].
  - intros t' f' l' i x [[<- [= <- <-]]|[_ H]]%lookup_insert_Some; [by apply Hf|by eapply H3].
Qed.

Lemma keep_tidy {A} (fit : bytes -> Z -> nat -> A -> Prop) (now mt : Z) (limit : bytes -> Z) (t : bytes) (x : Z -> A) (m : table A) :
  tidy fit mt limit m -> 1 <= limit t ->
  (forall f n, (n = 0%nat -> f = now) -> fit t f n (x (Z.of_nat n + 1))) ->
  tidy fit mt limit (keep now mt (limit t) t x m).1.1.
Proof.
  intros Hm Hlim Hx. pose proof Hm as [H1 H2 H3].
  assert (Hsnoc : forall f l, (l = [] -> f = now) -> (forall i y, l !! i = Some y -> fit t f i y) ->
    forall i y, (l ++ [x (zlen l + 1)]) !! i = Some y -> fit t f i y).
  { intros f l Hf Hl i y [H|[Hi Hy]]%lookup_app_Some; [by apply Hl|].
    apply list_lookup_singleton_Some in Hy as [Hy <-]. assert (i = length l) as -> by lia. apply Hx.
    intros H. apply Hf. by apply nil_length_inv. }
  unfold keep. destruct (m !! t) as [[f l]|] eqn:E.
  - pose proof (H2 t f l E) as Hlen. destruct (Z.leb_spec (limit t) (zlen l)) as [|Hlt]; cbn [fst].
    + by rewrite insert_id.
    + apply tidy_insert; [done|rewrite map_size_insert_Some by (rewrite E; by eexists); done| |].
      * rewrite zlen_app. change (zlen [x (zlen l + 1)]) with 1. lia.
      * apply Hsnoc; [intros ->; unfold zlen in Hlen; simpl in Hlen; lia|]. intros i y. by apply (H3 t f l i y).
  - destruct (Z.leb_spec mt (Z.of_nat (size m))) as [|Hsz]; cbn [fst]; [done|].
    change (zlen (@nil A)) with 0. destruct (Z.leb_spec (limit t) 0) as [|Hl]; [lia|]. cbn [fst].
    apply tidy_insert; [done|rewrite map_size_insert_None by done; lia|unfold zlen; simpl; lia|]. by apply (Hsnoc now []).
Qed.

Definition book_tidy (mt mp : Z) (b : book) : Prop :=
  tidy numbered mt (fun _ => mp) b.1 /\ tidy filed mt (limit_of mp) b.2.

Lemma limit_of_pos mp t : 1 <= mp -> 1 <= limit_of mp t.
Proof. unfold limit_of, maxUnattributedReports. destruct (beqb t []); lia. Qed.

Lemma promised_tidy ttl mt mp c b : 1 <= mp -> book_tidy mt mp b -> book_tidy mt mp (promised ttl mt mp c b).1.
Proof.
  intros Hmp [Ho Hr].
  assert (Hsw : forall now, book_tidy mt mp (sweep now ttl b.1, sweep now ttl b.2)) by (intros; split; by apply tidy_sweep).
  destruct c as [[obs|r|t|t|] clock]; cbn [promised]; try apply Hsw.
  - set (now := if At obs =? 0 then clock else At obs). destruct (Hsw now) as [So Sr]. cbn [fst snd] in *.
    pose proof (keep_tidy numbered now mt (fun _ => mp) (ob_Token obs) (set_seen (set_at obs now)) _ So Hmp) as Hk.
    change (ob_Token (set_at obs now)) with (ob_Token obs).
    destruct (keep now mt mp (ob_Token obs) _ _) as [[m n] k]. split; [|done]. apply Hk.
    intros f i Hf. split; [done|split; [done|]]. intros ->. by rewrite (Hf eq_refl).
  - set (now := if rr_At r =? 0 then clock else rr_At r). destruct (Hsw now) as [So Sr]. cbn [fst snd] in *.
    pose proof (keep_tidy filed now mt (limit_of mp) (rr_Token r) (fun _ => set_rr_at r now) _ Sr (limit_of_pos mp _ Hmp)) as Hk.
    change (rr_Token (set_rr_at r now)) with (rr_Token r).
    destruct (keep now mt (limit_of mp _) (rr_Token r) _ _) as [[m n] k]. split; [done|]. apply Hk.
    intros f i Hf. split; [done|]. intros ->. by rewrite (Hf eq_refl).
Qed.

Lemma calls_tidy ttl mt mp cs b : 1 <= mp -> book_tidy mt mp b -> book_tidy mt mp (calls (promised ttl mt mp) cs b).1.
Proof.
  intros Hmp. revert b. induction cs as [|c cs IH]; intros b Hb; cbn [calls]; [done|].
  pose proof (promised_tidy ttl mt mp c b Hmp Hb) as H1. destruct (promised ttl mt mp c b) as [b1 o]. cbn in H1.
  specialize (IH b1 H1). by destruct (calls (promised ttl mt mp) cs b1).
Qed.

Lemma queue_size {A} (q : list expiry) (m : gmap bytes (entry A)) : shelf_ok q m -> length q = size m.
Proof.
  intros [_ Hn Hq Hl]. rewrite <- (size_dom m), <- (length_fmap token q).
  rewrite <- (size_list_to_set (C := gset bytes)).
  - f_equiv. apply set_eq. intros t. rewrite elem_of_list_to_set, list_elem_of_fmap, elem_of_dom. split.
    + intros (x & -> & Hx). destruct (Hl x Hx) as (e & He & _). by exists e.
    + intros [e He]. destruct (Hq t e He) as [Hin Ht]. exists (age e). done.
  - apply NoDup_fmap_2_strong; [|done]. intros x y Hx Hy Hxy.
    destruct (Hl x Hx) as (a & Ha & <-), (Hl y Hy) as (b & Hb & <-). rewrite Hxy in Ha. congruence.
Qed.

Lemma new_store_agrees (ttl mt mp : Z) :
  let s := NewMemStore ttl mt mp in
  agrees (TTL s) (MaxTokens s) (MaxPerToken s) (∅, ∅) s /\ 1 <= MaxPerToken s /\ 0 <= MaxTokens s.
Proof.
  split; [split; try apply empty_shelf_ok; done|]. cbn. unfold defaultMaxPerToken, defaultMaxTokens.
  destruct (Z.leb_spec mp 0), (Z.leb_spec mt 0); lia.
Qed.

Lemma new_book_tidy (mt mp : Z) : 0 <= mt -> book_tidy mt mp (∅, ∅).
Proof.
  intros H. split; cbn [fst snd]; (split; [done| |]);
    [intros t f l E|intros t f l i x E|intros t f l E|intros t f l i x E]; by rewrite lookup_empty in E.
Qed.

(** After any calls the store is what the promise says, and tidy. *)
Lemma store_after (ttl mt mp : Z) cs :
  let s0 := NewMemStore ttl mt mp in
  exists b, agrees (TTL s0) (MaxTokens s0) (MaxPerToken s0) b (calls call cs s0).1 /\
            book_tidy (MaxTokens s0) (MaxPerToken s0) b /\
            (calls call cs s0).2 = (calls (promised (TTL s0) (MaxTokens s0) (MaxPerToken s0)) cs (∅, ∅)).2.
Proof.
  intros s0. destruct (new_store_agrees ttl mt mp) as (Ha & Hmp & Hmt). fold s0 in Ha, Hmp, Hmt.
  destruct (calls_agree _ _ _ cs _ _ Ha) as [H1 H2]. eexists. split; [exact H1|split; [|done]].
  apply calls_tidy; [done|by apply new_book_tidy].
Qed.

(** C7: whatever sequence of recordings, reports and reads is made of a new
    store, at whatever times, everything it gives back (counts, full
    signals, lists) is what the two tables give that are swept whole of every
    token first seen more than a TTL ago before each call, refuse new tokens
    at the ceiling and cap each token's list: the sorted queues, their
    binary-search insertion and the identity test in the expiry callback
    never make a difference. *)
Theorem MemStore_refines (ttl mt mp : Z) cs :
  let s0 := NewMemStore ttl mt mp in
  (calls call cs s0).2 = (calls (promised (TTL s0) (MaxTokens s0) (MaxPerToken s0)) cs (∅, ∅)).2.
Proof. by destruct (store_after ttl mt mp cs) as (b & _ & _ & H). Qed.

(** What a store holds, as the code's maps and queues hold it. *)
Record well_kept (s : MemStore) : Prop := {
  wk_obs : tidy numbered (MaxTokens s) (fun _ => MaxPerToken s) (view (entries (observations s)));
  wk_rep : tidy filed (MaxTokens s) (limit_of (MaxPerToken s)) (view (entries (reports s)));
  wk_queue : length (order (observations s)) = size (entries (observations s)) /\
             length (order (reports s)) = size (entries (reports s))
}.

(** After any sequence of calls a store made by [NewMemStore] is well
    formed: neither map has more tokens than the ceiling nor any token an
    empty list or one over its limit (256 for the unattributed reports), each
    observation sits under its own token numbered by its place, the first one
    dated when the token was first seen, and the queues hold each entry of
    their map exactly once, so they do not grow past it. *)
Theorem MemStore_well_kept (ttl mt mp : Z) cs : well_kept (calls call cs (NewMemStore ttl mt mp)).1.
Proof.
  destruct (store_after ttl mt mp cs) as (b & [[Ho _] [Hr _] Hv Hvr (Ht & Hm & Hp)] & [Hb1 Hb2] & _).
  set (s := (calls call cs (NewMemStore ttl mt mp)).1) in *. rewrite <- Hm, <- Hp, <- Hv in Hb1. rewrite <- Hm, <- Hp, <- Hvr in Hb2.
  split; [done|done|]. by split; apply queue_size.
Qed.

(** A read at any time gives back a token's observations only while its
    first one is no older than the TTL, however the token was queried since,
    and all of them bear the token asked for. *)
Theorem Lookup_not_stale (ttl mt mp : Z) cs clock t o l :
  (Lookup clock t (calls call cs (NewMemStore ttl mt mp)).1).2 = o :: l ->
  Sub_time clock (At o) <= TTL (NewMemStore ttl mt mp) /\ Forall (fun o => ob_Token o = t) (o :: l).
Proof.
  destruct (store_after ttl mt mp cs) as (b & Ha & [Hb _] & _). generalize dependent (NewMemStore ttl mt mp). intros s0 Ha Hb.
  pose proof (ag_view _ _ _ _ _ (expireLocked_agrees _ _ _ clock _ _ Ha)) as Hv.
  unfold Lookup. cbn [fst snd] in *. rewrite <- read_view, Hv. unfold read, sweep.
  destruct (filter _ b.1 !! t) as [[f k]|] eqn:E; [|done].
  apply map_lookup_filter_Some in E as [E Hf]. unfold fresh in Hf. cbn in Hf. intros ->. split.
  - destruct (td_fit _ _ _ _ Hb t f (o :: l) 0%nat o E eq_refl) as (_ & _ & ->); [|done]. lia.
  - apply Forall_forall. intros x (i & Hi)%list_elem_of_lookup. by destruct (td_fit _ _ _ _ Hb t f _ i x E Hi).
Qed.

(** A recorded observation and what it looks like from outside. *)
Definition seen_at (t : bytes) (time : Z) : Observation :=
  mkObservation time (Addr4 0xc0000207) None PrefixZero PrefixZero t (bs "A") [] (bs "udp") [] 0 0 0 false 0
    false false false false false false false false false.

Lemma Lookup_not_stale_witness :
  let s := (calls call [(OpRecord (seen_at (bs "deadbeef") 7), 0); (OpRecord (seen_at (bs "deadbeef") 9), 0)]
              (NewMemStore 5 2 2)).1 in
  (exists o l, (Lookup 12 (bs "deadbeef") s).2 = o :: l /\ Sub_time 12 (At o) <= 5) /\
  (Lookup 13 (bs "deadbeef") s).2 = [].
Proof.
  cbv zeta. split; [|vm_compute; reflexivity]. eexists _, _. split; [vm_compute; reflexivity|].
  eapply (Lookup_not_stale 5 2 2 [(OpRecord (seen_at (bs "deadbeef") 7), 0); (OpRecord (seen_at (bs "deadbeef") 9), 0)]
           12 (bs "deadbeef")).
  vm_compute. reflexivity.
Defined.

(** The count stops one past the cap: the fourth observation of a token
    whose list holds two is reported as its third. *)
Lemma seen_saturates :
  let r := OpRecord (seen_at (bs "deadbeef") 7) in
  Forall2 (fun o n => match o with Recorded o _ => Seen o = n | _ => False end)
    (calls call [(r, 0); (r, 0); (r, 0); (r, 0)] (NewMemStore 5 2 2)).2 [1; 2; 3; 3].
Proof. vm_compute. repeat constructor. Qed.

(** An entry that expires and is seen again is a new entry. *)
Example seen_again :
  let r n := OpRecord (seen_at (bs "deadbeef") n) in
  match (calls call [(r 1, 0); (r 9, 0); (OpLookup (bs "deadbeef"), 9); (OpLen, 15)] (NewMemStore 5 2 2)).2 with
  | [Recorded a _; Recorded b _; Found [c]; Live n] => Seen a = 1 /\ Seen b = 1 /\ At c = 9 /\ n = 0
  | _ => False
  end.
Proof. vm_compute. done. Qed.
