(* ===== verification/ProbeWire.v ===== *)
(** * What the probe encodes by hand ([probe/echconfig.go], [probe/zoneversion.go], [probe/ede.go])

    The ECHConfigList served as a transport canary and the parser that says
    whether it arrived intact, the RFC 9660 zone version, and the RFC 8914
    extended errors that label what the zone broke on purpose. *)

From S2P Require Import Prelude GoStrings Netip Dns SimpleDns ProbeLabels.

(** ** ECHConfigList *)

Definition uint16Len : Z := 2.
Definition echConfigHeaderLen : Z := 2 * uint16Len.
Definition echVersion : Z := 0xfe0d.
Definition echKEMX25519 : Z := 0x0020.
Definition echKDFHKDFSHA256 : Z := 0x0001.
Definition echAEADAES128GCM : Z := 0x0001.
Definition x25519PubKeyLen : Z := 32.
Definition echMaxNameLength : byte := Byte.x00.

Inductive EchErr :=
| ErrECHPublicKeyLen (got : Z)
| ErrName
| ErrWidth (n : Z)
| Shorter
| ListLength (outer follow : Z)
| NoHeader
| UnexpectedVersion (v : Z)
| ConfigLength
| TruncatedKeyConfig
| UnexpectedKEM (kem : Z)
| KeyLength
| TruncatedSuites
| SuitesLength
| TruncatedName
| NameLength.

(** [u16] and [u8]. *)
Definition ech_u16 (n : Z) : result EchErr Z := if (n <? 0) || (65535 <? n) then Err (ErrWidth n) else Ok n.
Definition ech_u8 (n : Z) : result EchErr byte := if (n <? 0) || (255 <? n) then Err (ErrWidth n) else Ok (z2b n).

(** [binary.BigEndian]. *)
Definition AppendUint16 (b : bytes) (v : Z) : bytes := b ++ be_bytes 2 v.
Definition Uint16 (b : bytes) : Z := be_val (take 2 b).

Definition buildHPKEKeyConfig (configID : byte) (publicKey : bytes) : result EchErr bytes :=
  keyLen ← ech_u16 (zlen publicKey);
  let key := [configID] in
  let key := AppendUint16 key echKEMX25519 in
  let key := AppendUint16 key keyLen in
  let key := key ++ publicKey in
  let suites := AppendUint16 [] echKDFHKDFSHA256 in
  let suites := AppendUint16 suites echAEADAES128GCM in
  suitesLen ← ech_u16 (zlen suites);
  Ok (AppendUint16 key suitesLen ++ suites).

Definition BuildECHConfigList (configID : byte) (publicKey publicName : bytes) : result EchErr bytes :=
  check (zlen publicKey =? x25519PubKeyLen) (ErrECHPublicKeyLen (zlen publicKey));;
  check (negb (255 <? zlen publicName)) ErrName;;
  key ← buildHPKEKeyConfig configID publicKey;
  nameLen ← ech_u8 (zlen publicName);
  let contents := key ++ [echMaxNameLength; nameLen] ++ publicName in
  let contents := AppendUint16 contents 0 in
  contentsLen ← ech_u16 (zlen contents);
  let cfg := AppendUint16 [] echVersion in
  let cfg := AppendUint16 cfg contentsLen ++ contents in
  cfgLen ← ech_u16 (zlen cfg);
  Ok (AppendUint16 [] cfgLen ++ cfg).

Definition parseHPKEKeyConfig (c : bytes) : result EchErr (byte * bytes * bytes) :=
  match c with
  | configID :: c1 =>
      check (negb (zlen c <? 5)) TruncatedKeyConfig;;
      let kem := Uint16 c1 in
      check (kem =? echKEMX25519) (UnexpectedKEM kem);;
      let klen := Uint16 (drop 2 c1) in
      let c := drop 4 c1 in
      check (negb (zlen c <? klen)) KeyLength;;
      let publicKey := take (Z.to_nat klen) c in
      let c := drop (Z.to_nat klen) c in
      check (negb (zlen c <? uint16Len)) TruncatedSuites;;
      let slen := Uint16 c in
      let c := drop 2 c in
      check (negb ((zlen c <? slen) || negb (slen mod 4 =? 0))) SuitesLength;;
      Ok (configID, publicKey, drop (Z.to_nat slen) c)
  | [] => Err TruncatedKeyConfig
  end.

Definition ParseECHConfigList (b : bytes) : result EchErr (byte * bytes * bytes) :=
  check (negb (zlen b <? uint16Len)) Shorter;;
  let outer := Uint16 b in
  let b := drop 2 b in
  check (outer =? zlen b) (ListLength outer (zlen b));;
  check (negb (zlen b <? echConfigHeaderLen)) NoHeader;;
  let version := Uint16 b in
  check (version =? echVersion) (UnexpectedVersion version);;
  let clen := Uint16 (drop 2 b) in
  let b := drop 4 b in
  check (negb (zlen b <? clen)) ConfigLength;;
  '(configID, publicKey, c) ← parseHPKEKeyConfig (take (Z.to_nat clen) b);
  match c with
  | _ :: nlen :: c =>
      check (negb (zlen c <? b2z nlen)) NameLength;;
      Ok (configID, publicKey, take (Z.to_nat (b2z nlen)) c)
  | _ => Err TruncatedName
  end.

(** *** The encoding *)

Lemma Uint16_app v t : is_u16 v -> Uint16 (be_bytes 2 v ++ t) = v.
Proof. intros H. unfold Uint16. rewrite take_app_n by apply length_be_bytes. by apply be_val_bytes_small. Qed.

(** The one config the builder makes. *)
Definition ech_key (id : byte) (pk : bytes) : bytes :=
  id :: be_bytes 2 echKEMX25519 ++ be_bytes 2 (zlen pk) ++ pk ++ be_bytes 2 4
  ++ be_bytes 2 echKDFHKDFSHA256 ++ be_bytes 2 echAEADAES128GCM.

Definition ech_contents (id : byte) (pk name : bytes) : bytes :=
  ech_key id pk ++ [echMaxNameLength; z2b (zlen name)] ++ name ++ be_bytes 2 0.

Definition ech_list (id : byte) (pk name : bytes) : bytes :=
  let contents := ech_contents id pk name in
  let cfg := be_bytes 2 echVersion ++ be_bytes 2 (zlen contents) ++ contents in
  be_bytes 2 (zlen cfg) ++ cfg.

Lemma zlen_ech_contents id pk name : zlen (ech_contents id pk name) = 15 + zlen pk + zlen name.
Proof.
  unfold ech_contents, ech_key. autorewrite with plugins. change (zlen (@nil byte)) with 0. lia.
Qed.

Lemma ech_u16_ok n : is_u16 n -> ech_u16 n = Ok n.
Proof. unfold ech_u16, is_u16. intros H. by rewrite (proj2 (Z.ltb_ge n 0)), (proj2 (Z.ltb_ge 65535 n)) by lia. Qed.

Lemma long_enough n (l t : bytes) : n <= zlen l -> negb (zlen (l ++ t) <? n) = true.
Proof. intros H. pose proof (zlen_nonneg t). rewrite zlen_app, (proj2 (Z.ltb_ge _ n)); [done|lia]. Qed.

Lemma buildHPKEKeyConfig_ok id pk : is_u16 (zlen pk) -> buildHPKEKeyConfig id pk = Ok (ech_key id pk).
Proof.
  intros H. unfold buildHPKEKeyConfig. rewrite (ech_u16_ok (zlen pk)), ech_u16_ok by done. cbn [mbind result_bind].
  unfold ech_key, AppendUint16.
  by rewrite <- !app_assoc.
Qed.

Lemma BuildECHConfigList_ok id pk name :
  zlen pk = x25519PubKeyLen -> zlen name <= 255 -> BuildECHConfigList id pk name = Ok (ech_list id pk name).
Proof.
  intros Hpk Hn. pose proof (zlen_nonneg name) as H0. unfold BuildECHConfigList.
  rewrite Hpk, Z.eqb_refl, (proj2 (Z.ltb_ge 255 _)) by done. cbn [negb check mbind result_bind].
  rewrite buildHPKEKeyConfig_ok by (unfold is_u16, x25519PubKeyLen in *; lia). cbn [mbind result_bind].
  unfold ech_u8. rewrite (proj2 (Z.ltb_ge (zlen name) 0)), (proj2 (Z.ltb_ge 255 _)) by done.
  cbn [orb mbind result_bind]. unfold AppendUint16. rewrite <- !app_assoc. cbn [app].
  change (ech_key id pk ++ echMaxNameLength :: z2b (zlen name) :: name ++ be_bytes 2 0) with (ech_contents id pk name).
  pose proof (zlen_ech_contents id pk name) as Hc. unfold x25519PubKeyLen in Hpk.
  rewrite (ech_u16_ok (zlen (ech_contents id pk name))) by (unfold is_u16; lia). cbn [mbind result_bind].
  rewrite ech_u16_ok; [done|]. autorewrite with plugins. unfold is_u16. lia.
Qed.

Lemma parseHPKEKeyConfig_ok id pk rest :
  is_u16 (zlen pk) -> parseHPKEKeyConfig (ech_key id pk ++ rest) = Ok (id, pk, rest).
Proof.
  intros H. unfold ech_key. cbn [app]. rewrite <- !app_assoc. cbn [parseHPKEKeyConfig].
  match goal with |- context [zlen (id :: ?l) <? 5] => assert (Hl : 5 <= zlen (id :: l)) end.
  { autorewrite with plugins. pose proof (zlen_nonneg pk). pose proof (zlen_nonneg rest). lia. }
  rewrite (proj2 (Z.ltb_ge _ _) Hl). cbn [negb check mbind result_bind].
  rewrite (Uint16_app echKEMX25519) by done. rewrite Z.eqb_refl. cbn [check mbind result_bind].
  rewrite (drop_app_n 2 (be_bytes 2 echKEMX25519)) by apply length_be_bytes.
  rewrite (Uint16_app (zlen pk)) by done.
  change 4%nat with (2 + 2)%nat. rewrite <- drop_drop, (drop_app_n 2 (be_bytes 2 echKEMX25519)) by apply length_be_bytes.
  rewrite (drop_app_n 2 (be_bytes 2 (zlen pk))) by apply length_be_bytes.
  rewrite long_enough by done. cbn [check mbind result_bind].
  rewrite take_app_n, drop_app_n by (unfold zlen; lia).
  rewrite (long_enough uint16Len (be_bytes 2 4)) by done. cbn [check mbind result_bind].
  rewrite Uint16_app by done. rewrite (drop_app_n 2 (be_bytes 2 4)) by done.
  rewrite app_assoc, negb_orb, long_enough by done. cbn [andb negb check mbind result_bind].
  change (negb (negb (4 mod 4 =? 0))) with true. cbn [check mbind result_bind].
  by rewrite drop_app_n.
Qed.

Lemma ParseECHConfigList_ok id pk name :
  zlen pk = x25519PubKeyLen -> zlen name <= 255 -> ParseECHConfigList (ech_list id pk name) = Ok (id, pk, name).
Proof.
  intros Hpk Hn. pose proof (zlen_nonneg name) as H0. pose proof (zlen_ech_contents id pk name) as Hc.
  unfold x25519PubKeyLen in Hpk. unfold ParseECHConfigList, ech_list.
  set (cfg := be_bytes 2 echVersion ++ be_bytes 2 (zlen (ech_contents id pk name)) ++ ech_contents id pk name).
  assert (Hcfg : zlen cfg = 4 + zlen (ech_contents id pk name)) by (unfold cfg; autorewrite with plugins; lia).
  rewrite long_enough by done. cbn [check mbind result_bind]. rewrite (Uint16_app (zlen cfg)) by (unfold is_u16; lia).
  rewrite (drop_app_n 2 (be_bytes 2 (zlen cfg))) by done. rewrite (Z.eqb_refl (zlen cfg)). cbn [check mbind result_bind].
  rewrite Hcfg, (proj2 (Z.ltb_ge _ echConfigHeaderLen)) by (unfold echConfigHeaderLen, uint16Len; lia).
  cbn [negb check mbind result_bind]. unfold cfg.
  rewrite (Uint16_app echVersion) by done. rewrite (Z.eqb_refl echVersion). cbn [check mbind result_bind].
  change 4%nat with (2 + 2)%nat. rewrite <- drop_drop, (drop_app_n 2 (be_bytes 2 echVersion)) by done.
  rewrite Uint16_app by (unfold is_u16; lia). rewrite drop_app_n by done.
  rewrite Z.ltb_irrefl. cbn [negb check mbind result_bind]. rewrite firstn_all2 by (unfold zlen; lia).
  unfold ech_contents. rewrite parseHPKEKeyConfig_ok by (unfold is_u16; lia). cbn [mbind result_bind app].
  rewrite b2z_z2b_small by lia. rewrite long_enough by done. cbn [check mbind result_bind].
  by rewrite take_app_n by (unfold zlen; lia).
Qed.

Lemma zlen_ech_list id pk name : zlen (ech_list id pk name) = 21 + zlen pk + zlen name.
Proof. unfold ech_list. autorewrite with plugins. rewrite zlen_ech_contents. lia. Qed.

(** What does not have the length it says is refused. *)
Lemma ParseECHConfigList_length b r :
  ParseECHConfigList b = Ok r -> 2 <= zlen b /\ Uint16 b = zlen b - 2.
Proof.
  unfold ParseECHConfigList. intros H. inv_ok. bool_prop. unfold uint16Len in *.
  unfold zlen in *. rewrite length_drop in *. lia.
Qed.

(** Octets after their own length, cut short or appended to. *)
Lemma cut_detected t k :
  is_u16 (zlen t) -> (k < 2 + length t)%nat -> is_ok (ParseECHConfigList (take k (be_bytes 2 (zlen t) ++ t))) = false.
Proof.
  intros Hu Hk. destruct (ParseECHConfigList _) as [r|] eqn:E; [|done].
  apply ParseECHConfigList_length in E as [E1 E2]. exfalso. revert E2. unfold zlen in E1.
  rewrite length_take in E1. rewrite take_app_ge by (rewrite length_be_bytes; lia). rewrite Uint16_app by done.
  rewrite zlen_app, zlen_be_bytes, length_be_bytes. unfold zlen. rewrite length_take. lia.
Qed.

Lemma extension_detected t x :
  is_u16 (zlen t) -> x <> [] -> is_ok (ParseECHConfigList ((be_bytes 2 (zlen t) ++ t) ++ x)) = false.
Proof.
  intros Hu Hx. destruct (ParseECHConfigList _) as [r|] eqn:E; [|done].
  apply ParseECHConfigList_length in E as [_ E2]. exfalso. revert E2.
  rewrite <- app_assoc, Uint16_app by done. rewrite !zlen_app, zlen_be_bytes. destruct x; [done|].
  rewrite zlen_cons. pose proof (zlen_nonneg x). lia.
Qed.

(** C38: a config list is built exactly for a 32-octet key and a name of at
    most 255 octets; it parses back to the identifier, key and name it was
    built from; and a path that cuts it short anywhere or appends to it is
    detected, because every length says what follows it. *)
Theorem ech_canary id pk name :
  (is_ok (BuildECHConfigList id pk name) = true <-> zlen pk = x25519PubKeyLen /\ zlen name <= 255) /\
  (forall b, BuildECHConfigList id pk name = Ok b ->
     ParseECHConfigList b = Ok (id, pk, name) /\
     (forall k, (k < length b)%nat -> is_ok (ParseECHConfigList (take k b)) = false) /\
     (forall t, t <> [] -> is_ok (ParseECHConfigList (b ++ t)) = false)).
Proof.
  assert (Hin : forall b, BuildECHConfigList id pk name = Ok b -> zlen pk = x25519PubKeyLen /\ zlen name <= 255).
  { intros b H. unfold BuildECHConfigList in H. inv_ok. bool_prop. split; [done|lia]. }
  split.
  - split; [|intros [H1 H2]; by rewrite BuildECHConfigList_ok].
    intros H. destruct (BuildECHConfigList id pk name) as [b|] eqn:E; [|done]. by apply (Hin b).
  - intros b H. destruct (Hin b H) as [Hp Hn]. rewrite BuildECHConfigList_ok in H by done. injection H as <-.
    pose proof (zlen_ech_list id pk name) as Hl. pose proof (zlen_nonneg name). unfold x25519PubKeyLen in *.
    split; [by apply ParseECHConfigList_ok|]. unfold ech_list in *. cbv zeta in *.
    set (cfg := be_bytes 2 echVersion ++ _) in *. rewrite zlen_app, zlen_be_bytes in Hl.
    split; [|intros t Ht; apply extension_detected; [unfold is_u16; lia|done]].
    intros k Hk. rewrite length_app, length_be_bytes in Hk. apply cut_detected; [unfold is_u16; lia|done].
Qed.

(** ** Zone versions *)

Definition zoneVersionTypeSOASerial : Z := 0.

Section Zone.
Context `{N : !NameLib} `{L : !LabelLib}.

Definition requestsZoneVersion (m : Msg) : bool :=
  match Edns m with
  | None => false
  | Some opt => existsb (fun o => match o with EDNS0_ZONEVERSION _ _ _ => true | _ => false end) (Option opt)
  end.

Definition buildZoneVersion (zone : bytes) (serial : Z) : option EDNS0 :=
  let z := CanonicalName zone in
  if beqb z [] || beqb z dot then None
  else
    let labels := CountLabel z in
    if (labels <=? 0) || (255 <? labels) then None
    else Some (EDNS0_ZONEVERSION labels zoneVersionTypeSOASerial (be_bytes 4 serial)).

Definition parseZoneVersionSerial (o : option EDNS0) : option Z :=
  match o with
  | Some (EDNS0_ZONEVERSION _ type version) =>
      if negb (type =? zoneVersionTypeSOASerial) || negb (zlen version =? 4) then None else Some (be_val version)
  | _ => None
  end.

(** The option carries the serial, and counts the zone's labels. *)
Lemma zone_version_carries zone serial o :
  is_u32 serial -> buildZoneVersion zone serial = Some o ->
  parseZoneVersionSerial (Some o) = Some serial /\
  exists n v, o = EDNS0_ZONEVERSION n 0 v /\ n = CountLabel (CanonicalName zone) /\ 1 <= n <= 255.
Proof.
  intros Hs. unfold buildZoneVersion. destruct (_ || _) eqn:E; [done|]. destruct ((_ <=? _) || _) eqn:E2; [done|].
  intros Ho. apply (inj Some) in Ho. subst o. cbn [parseZoneVersionSerial]. rewrite zlen_be_bytes. cbn [negb orb].
  change (zoneVersionTypeSOASerial =? zoneVersionTypeSOASerial) with true.
  change (Z.of_nat 4 =? 4) with true. cbn [negb orb]. rewrite be_val_bytes_small by done. split; [done|].
  bool_prop. eexists _, _. split; [done|]. split; [done|lia].
Qed.
End Zone.

(** ** Extended errors *)

Definition edeText : bytes := bs "deliberate: dns measurement zone".

Definition ExtendedErrorCodeOther : Z := 0.
Definition ExtendedErrorCodeDNSBogus : Z := 6.
Definition ExtendedErrorCodeSignatureExpired : Z := 7.
Definition ExtendedErrorCodeSignatureNotYetValid : Z := 8.
Definition ExtendedErrorCodeRRSIGsMissing : Z := 10.

Definition ede (code : Z) : EDNS0 := EDNS0_EDE code edeText.

Definition edeFor (mods : Z) : option EDNS0 :=
  if Has mods ModExpiredSig then Some (ede ExtendedErrorCodeSignatureExpired)
  else if Has mods ModFutureSig then Some (ede ExtendedErrorCodeSignatureNotYetValid)
  else if Has mods ModUnsigned then Some (ede ExtendedErrorCodeRRSIGsMissing)
  else if Has mods ModBadSig then Some (ede ExtendedErrorCodeDNSBogus)
  else if Has mods ModServfail then Some (ede ExtendedErrorCodeOther)
  else None.

Definition is_ede (o : EDNS0) : bool := match o with EDNS0_EDE _ _ => true | _ => false end.

Definition attachEDE (m : Msg) (e : option EDNS0) : Msg :=
  match e with
  | None => m
  | Some e => match Edns m with
              | None => m
              | Some opt => if existsb is_ede (Option opt) then m
                            else set_edns (Some (Dns.set_options (Option opt ++ [e]) opt)) m
              end
  end.

(** A canary for one zone, delivered intact and one octet short. *)
Lemma ech_canary_witness :
  let pk := repeat Byte.x2a 32 in let name := bs "check.test" in
  exists b, BuildECHConfigList Byte.x07 pk name = Ok b /\
    ParseECHConfigList b = Ok (Byte.x07, pk, name) /\ is_ok (ParseECHConfigList (take 62 b)) = false.
Proof.
  cbv zeta. set (pk := repeat Byte.x2a 32). set (name := bs "check.test").
  destruct (BuildECHConfigList Byte.x07 pk name) as [b|] eqn:E; [|vm_compute in E; discriminate].
  exists b. split; [done|]. destruct (proj2 (ech_canary Byte.x07 pk name) b E) as (Hp & Hc & _).
  split; [exact Hp|]. apply Hc. assert (length b = 63%nat) as -> by (vm_compute in E; injection E as <-; reflexivity). lia.
Defined.
