(* ===== verification/ProbeSign.v ===== *)
(** * Signing, and signing wrongly on request ([probe/sign.go])

    A signature over an RRset as the query's modifiers ask for it: none, a
    correct one, one corrupted after it was computed, or a correct one whose
    window lies in the past or the future.  The cryptography is
    [github.com/miekg/dns]'s and a parameter, as are the key files. *)

From S2P Require Import Prelude GoStrings Netip Dns SimpleDns ProbeLabels.

(** ** The library *)

(** [RRSIG.Sign]: the record with its signature over the RRset, or an
    error.  A key type that draws random numbers (ECDSA) makes another
    signature each time; here [Sign] gives the one that is made, so nothing
    below may, and nothing does, rely on two calls giving different ones. *)
Class CryptoLib (P : Type) := { Sign : P -> RrsigData -> list RR -> option RrsigData }.

Definition set_signature (sig : bytes) (d : RrsigData) : RrsigData :=
  {| TypeCovered := TypeCovered d; Algorithm := Algorithm d; Labels := Labels d; OrigTtl := OrigTtl d;
     Expiration := Expiration d; Inception := Inception d; SigKeyTag := SigKeyTag d;
     SignerName := SignerName d; Signature := sig |}.

(** The label count of a signed name, without a wildcard's asterisk. *)
Definition signed_labels `{LabelLib} (name : bytes) : Z :=
  let n := u8 (CountLabel name) in
  if bool_decide (take 1 name = [Byte.x2a]) then u8 (n - 1) else n.

(** What [Sign] fills in from the RRset before it signs, as its documentation
    says: "The signature needs to be filled in with the values: Inception,
    Expiration, KeyTag, SignerName and Algorithm. The rest is copied from the
    RRset", and an OrigTTL that is not zero is used as it is. *)
Definition filled `{LabelLib} (r0 : RR) (d : RrsigData) : RrsigData :=
  {| TypeCovered := Rrtype (Hdr r0); Algorithm := Algorithm d; Labels := signed_labels (Name (Hdr r0));
     OrigTtl := if OrigTtl d =? 0 then Ttl (Hdr r0) else OrigTtl d;
     Expiration := Expiration d; Inception := Inception d; SigKeyTag := SigKeyTag d;
     SignerName := SignerName d; Signature := Signature d |}.

(** [Sign] signs the filled-in record and changes nothing else of it. *)
Class CryptoLaws `{L : LabelLib} {P} (C : CryptoLib P) : Prop := {
  Sign_filled p d r0 rrs : Sign p d (r0 :: rrs) = Sign p (filled r0 d) (r0 :: rrs);
  Sign_fields p d r0 rrs d' :
    Sign p d (r0 :: rrs) = Some d' -> d' = set_signature (Signature d') (filled r0 d)
}.

(** ** Time in a signature *)

(** [time.Time.Unix] of nanoseconds since Go's zero time. *)
Definition unixToInternal : Z := 62135596800.
Definition Unix (t : Z) : Z := t / 10 ^ 9 - unixToInternal.

Inductive SignErr := TooManyLabels | PredatesEpoch | CryptoErr.

Definition rrsigYear68 : Z := 2 ^ 31.

Definition rrsigTime (t : Z) : result SignErr Z :=
  let unix := Unix t in
  if unix <? 0 then Err PredatesEpoch
  else
    let mod_ := Z.max (unix / rrsigYear68 - 1) 0 in
    Ok (u32 (unix - mod_ * rrsigYear68)).

(** ** Corruption *)

Definition byte_eq : byte := Byte.x3d.
Definition byte_A : byte := Byte.x41.
Definition byte_B : byte := Byte.x42.

(** [strings.TrimRight(s, "=")]. *)
Fixpoint TrimRight_eq (s : bytes) : bytes :=
  match s with
  | [] => []
  | c :: t => match TrimRight_eq t with
              | [] => if bool_decide (c = byte_eq) then [] else [c]
              | t' => c :: t'
              end
  end.

Definition corruptSignature (sig : bytes) : bytes :=
  if beqb sig [] then sig
  else
    let trimmed := TrimRight_eq sig in
    if beqb trimmed [] then sig
    else
      let i := (length trimmed / 2)%nat in
      <[i := if bool_decide (sig !! i = Some byte_A) then byte_B else byte_A]> sig.

(** ** The signer *)

Record Signer (P : Type) := mkSigner {
  key_rr : RR; priv : P; owner : bytes; validity : Z; sg_keyTag : Z
}.
Arguments mkSigner {P}. Arguments key_rr {P}. Arguments priv {P}. Arguments owner {P}.
Arguments validity {P}. Arguments sg_keyTag {P}.

Definition defaultSigValidity : Z := 3600 * 10 ^ 9.

Definition key_algorithm (r : RR) : Z := match Data r with RdDNSKEY _ _ alg _ => alg | _ => 0 end.

Section Signing.
Context `{N : !NameLib} `{L : !LabelLib} {P : Type} `{C : !CryptoLib P}.

(** [DNSKEY] and [KeyTag]. *)
Definition DNSKEY (s : Signer P) : RR := key_rr s.
Definition KeyTag (s : Signer P) : Z := sg_keyTag s.

Definition rrsigLabelCount (name : bytes) : result SignErr Z :=
  let n := CountLabel name in if 255 <? n then Err TooManyLabels else Ok (u8 n).

(** The window of a signature: inception and expiration. *)
Definition window (validity : Z) (mods now : Z) : Z * Z :=
  if Has mods ModExpiredSig then
    let expiration := now - validity in (expiration - validity, expiration)
  else if Has mods ModFutureSig then
    let inception := now + validity in (inception, inception + validity)
  else (now - validity, now + validity).

(** [signRRset]; [Ok None] is no signature at all. *)
Definition signRRset (s : Signer P) (rrs : list RR) (mods now : Z) : result SignErr (option RR) :=
  match rrs with
  | [] => Ok None
  | r0 :: _ =>
      if Has mods ModUnsigned then Ok None
      else
        let '(inception, expiration) := window (validity s) mods now in
        let hdr := Hdr r0 in
        labels ← rrsigLabelCount (Name hdr);
        incept ← rrsigTime inception;
        expire ← rrsigTime expiration;
        let sig := {| TypeCovered := Rrtype hdr; Algorithm := key_algorithm (key_rr s); Labels := labels;
                      OrigTtl := Ttl hdr; Expiration := expire; Inception := incept;
                      SigKeyTag := sg_keyTag s; SignerName := owner s; Signature := [] |} in
        match Sign (priv s) sig rrs with
        | None => Err CryptoErr
        | Some sig =>
            let sig := if Has mods ModBadSig then set_signature (corruptSignature (Signature sig)) sig else sig in
            Ok (Some {| Hdr := mkHeader (Name hdr) TypeRRSIG ClassINET (Ttl hdr) 0; Data := RdRRSIG sig |})
        end
  end.
End Signing.

(** ** Loading a key *)

Inductive LoadErr := NamesDirectory | OpenDir | ReadPublic | ParsePublic | NotDNSKEY | ReadPrivate | ParsePrivate | CannotSign.

(** The files below a directory opened with [os.OpenRoot]; [dns.NewRR]'s
    record of a text, if the text parses and holds one; the tag of a key; and
    the private half, with whether it can sign. *)
Class KeyLib (P : Type) := {
  KeyRoot : Type;
  OpenRoot : bytes -> option KeyRoot;
  ReadFile : KeyRoot -> bytes -> option bytes;
  NewRR : bytes -> option (option RR);
  ReadPrivateKey : RR -> bytes -> option (option P);
  key_tag_of : RR -> Z
}.

Section Load.
Context `{N : !NameLib} {P : Type} `{K : !KeyLib P}.

Definition openKeyRoot (basename : bytes) : result LoadErr (KeyRoot * bytes * bytes) :=
  let '(dir, base) := filepath_Split basename in
  let dir := if beqb dir [] then bs "." else dir in
  if beqb base [] then Err NamesDirectory
  else match OpenRoot dir with
       | None => Err OpenDir
       | Some root => Ok (root, dir, base)
       end.

Definition readDNSKEYFile (root : KeyRoot) (pubName : bytes) : result LoadErr RR :=
  match ReadFile root pubName with
  | None => Err ReadPublic
  | Some pubData =>
      match NewRR pubData with
      | None => Err ParsePublic
      | Some None => Err NotDNSKEY
      | Some (Some rr) =>
          match Data rr with
          | RdDNSKEY _ _ _ _ => if Rrtype (Hdr rr) =? TypeDNSKEY then Ok rr else Err NotDNSKEY
          | _ => Err NotDNSKEY
          end
      end
  end.

Definition LoadSigner (basename : bytes) (validity : Z) : result LoadErr (Signer P) :=
  let validity := if validity <=? 0 then defaultSigValidity else validity in
  '(root, dir, base) ← openKeyRoot basename;
  let pubName := base ++ bs ".key" in
  let privName := base ++ bs ".private" in
  key ← readDNSKEYFile root pubName;
  match ReadFile root privName with
  | None => Err ReadPrivate
  | Some privData =>
      match ReadPrivateKey key privData with
      | None => Err ParsePrivate
      | Some None => Err CannotSign
      | Some (Some p) => Ok (mkSigner key p (CanonicalName (Name (Hdr key))) validity (key_tag_of key))
      end
  end.
End Load.

(** ** Windows *)

Lemma rrsigTime_before_2106 t : 0 <= Unix t < 2 ^ 32 -> rrsigTime t = Ok (Unix t).
Proof.
  intros H. unfold rrsigTime. rewrite (proj2 (Z.ltb_ge _ 0)) by lia. unfold rrsigYear68.
  assert (Hq : Unix t / 2 ^ 31 <= 1) by (apply Z.lt_succ_r, Z.div_lt_upper_bound; lia).
  rewrite Z.max_r by lia. rewrite u32_small; [f_equal; lia|]. unfold is_u32. lia.
Qed.

(** From 2106 on the value is the time modulo 2^31, taken up by 2^31: never
    below 2^31, where the time modulo 2^32 is half of the time. *)
Lemma rrsigTime_from_2106 t : 2 ^ 32 <= Unix t -> rrsigTime t = Ok (2 ^ 31 + Unix t mod 2 ^ 31).
Proof.
  intros H. unfold rrsigTime. rewrite (proj2 (Z.ltb_ge _ 0)) by lia. unfold rrsigYear68.
  assert (Hq : 2 <= Unix t / 2 ^ 31) by (apply Z.div_le_lower_bound; lia).
  rewrite Z.max_l by lia. pose proof (Z.div_mod (Unix t) (2 ^ 31) ltac:(lia)) as Hd.
  pose proof (Z.mod_pos_bound (Unix t) (2 ^ 31) ltac:(lia)).
  replace (Unix t - (Unix t / 2 ^ 31 - 1) * 2 ^ 31) with (2 ^ 31 + Unix t mod 2 ^ 31) by lia.
  rewrite u32_small; [done|]. unfold is_u32. lia.
Qed.

(** The first second of 2106's wrap is not 0. *)
Lemma rrsigTime_wraps_wrong :
  let t := (2 ^ 32 + unixToInternal) * 10 ^ 9 in Unix t mod 2 ^ 32 = 0 /\ rrsigTime t = Ok (2 ^ 31).
Proof. vm_compute. done. Qed.

(** A validity of a minute or more, around a time from the epoch to 2106,
    with room for a signature half a minute old. *)
Record clock_fine (validity now : Z) : Prop := {
  cf_valid : 60 * 10 ^ 9 <= validity;
  cf_past : 0 <= Unix (now - 30 * 10 ^ 9 - validity - validity);
  cf_future : Unix (now + validity + validity) < 2 ^ 32
}.

(** The same with room for a signature of a given age. *)
Record clock_aged (age validity now : Z) : Prop := {
  ca_valid : age + 10 ^ 9 <= validity;
  ca_past : 0 <= Unix (now - age - validity - validity);
  ca_future : Unix (now + validity + validity) < 2 ^ 32
}.

Lemma Unix_mono t u : t <= u -> Unix t <= Unix u.
Proof. intros H. unfold Unix. pose proof (Z.div_le_mono t u (10 ^ 9) ltac:(lia) H). lia. Qed.

Lemma Unix_second t u : t + 10 ^ 9 <= u -> Unix t < Unix u.
Proof.
  intros H. unfold Unix. pose proof (Z.div_le_mono (t + 1 * 10 ^ 9) u (10 ^ 9) ltac:(lia) ltac:(lia)) as Hd.
  rewrite Z.div_add in Hd by lia. lia.
Qed.

(** ** Corruption changes a signature and nothing else about it *)

Lemma TrimRight_eq_prefix s : exists n, s = TrimRight_eq s ++ repeat byte_eq n.
Proof.
  induction s as [|c t [n IH]]; [by exists 0%nat|]. cbn [TrimRight_eq].
  destruct (TrimRight_eq t) as [|d u].
  - case_bool_decide as Hc; [exists (S n); by subst|]. exists n. by rewrite IH.
  - exists n. by rewrite IH.
Qed.

Lemma corruptSignature_spec sig :
  length (corruptSignature sig) = length sig /\
  (TrimRight_eq sig <> [] ->
   exists i, (i < length (TrimRight_eq sig))%nat /\
             (forall j, j <> i -> corruptSignature sig !! j = sig !! j) /\
             corruptSignature sig !! i <> sig !! i).
Proof.
  unfold corruptSignature. destruct (beqb sig []) eqn:E.
  { apply beqb_true in E as ->. split; [done|]. by intros []. }
  destruct (beqb (TrimRight_eq sig) []) eqn:E2.
  { apply beqb_true in E2. rewrite E2. split; [done|]. by intros []. }
  apply beqb_false in E2. set (k := (length (TrimRight_eq sig) / 2)%nat). split; [apply length_insert|].
  intros _. exists k. destruct (TrimRight_eq_prefix sig) as [n Hs].
  assert (Hk : (k < length (TrimRight_eq sig))%nat).
  { apply Nat.div_lt; [|lia]. destruct (TrimRight_eq sig); [done|cbn; lia]. }
  assert (Hl : (k < length sig)%nat) by (rewrite Hs, length_app; lia).
  split; [done|]. split; [intros j Hj; by rewrite list_lookup_insert_ne by done|].
  rewrite list_lookup_insert_eq by done. case_bool_decide as Hc; [rewrite Hc; discriminate|]. intros Heq. by apply Hc.
Qed.

(** A validity of a second or more, around a time from the epoch to 2106. *)
Record clock_ok (validity now : Z) : Prop := {
  ck_valid : 10 ^ 9 <= validity;
  ck_past : 0 <= Unix (now - validity - validity);
  ck_future : Unix (now + validity + validity) < 2 ^ 32
}.

(** What a query's modifiers ask of a signature's window. *)
Definition window_says (mods now : Z) (d : RrsigData) : Prop :=
  if Has mods ModExpiredSig then Inception d < Expiration d < Unix now
  else if Has mods ModFutureSig then Unix now < Inception d < Expiration d
  else Inception d < Unix now < Expiration d.

(** What they ask of its octets, given the ones the key made. *)
Definition octets_say (mods : Z) (made sig : bytes) : Prop :=
  if Has mods ModBadSig then length sig = length made /\ (TrimRight_eq made <> [] -> sig <> made) else sig = made.

Section Laws.
Context `{N : !NameLib} `{L : !LabelLib} {P : Type} `{C : !CryptoLib P} `{CL : !CryptoLaws C}.

Lemma window_times validity mods now :
  clock_ok validity now ->
  let '(i, e) := window validity mods now in
  rrsigTime i = Ok (Unix i) /\ rrsigTime e = Ok (Unix e) /\
  (if Has mods ModExpiredSig then Unix i < Unix e < Unix now
   else if Has mods ModFutureSig then Unix now < Unix i < Unix e
   else Unix i < Unix now < Unix e).
Proof.
  intros [H1 H2 H3].
  assert (Ht : forall t, now - validity - validity <= t <= now + validity + validity -> rrsigTime t = Ok (Unix t)).
  { intros t Ht. apply rrsigTime_before_2106. pose proof (Unix_mono (now - validity - validity) t ltac:(lia)).
    pose proof (Unix_mono t (now + validity + validity) ltac:(lia)). lia. }
  unfold window. destruct (Has mods ModExpiredSig); [|destruct (Has mods ModFutureSig)];
    (split; [apply Ht; lia|split; [apply Ht; lia|]]); split; apply Unix_second; lia.
Qed.

(** The same some time later, less than the validity and a second. *)
Lemma window_times_aged validity age mods made now :
  clock_aged age validity now -> made <= now < made + age ->
  let '(i, e) := window validity mods made in
  rrsigTime i = Ok (Unix i) /\ rrsigTime e = Ok (Unix e) /\
  (if Has mods ModExpiredSig then Unix i < Unix e < Unix now
   else if Has mods ModFutureSig then Unix now < Unix i < Unix e
   else Unix i < Unix now < Unix e).
Proof.
  intros [H1 H2 H3] Hm.
  assert (Ht : forall t, made - validity - validity <= t <= made + validity + validity -> rrsigTime t = Ok (Unix t)).
  { intros t Ht. apply rrsigTime_before_2106. pose proof (Unix_mono (now - age - validity - validity) t ltac:(lia)).
    pose proof (Unix_mono t (now + validity + validity) ltac:(lia)). lia. }
  unfold window. destruct (Has mods ModExpiredSig); [|destruct (Has mods ModFutureSig)];
    (split; [apply Ht; lia|split; [apply Ht; lia|]]); split; apply Unix_second; lia.
Qed.

(** A signature that old still says what was asked. *)
Lemma signRRset_aged age (s : Signer P) rrs mods made now sig :
  clock_aged age (validity s) now -> made <= now < made + age -> signRRset s rrs mods made = Ok (Some sig) ->
  exists d, Data sig = RdRRSIG d /\ window_says mods now d /\ Has mods ModUnsigned = false.
Proof.
  intros Hc Hm. destruct rrs as [|r0 rrs]; [done|]. unfold signRRset. destruct (Has mods ModUnsigned); [done|].
  pose proof (window_times_aged (validity s) age mods made now Hc Hm) as Hw.
  destruct (window (validity s) mods made) as [i e]. destruct Hw as (-> & -> & Hw). unfold rrsigLabelCount.
  destruct (255 <? _); [done|]. cbn [mbind result_bind].
  match goal with |- context [Sign (priv s) ?x _] => set (tbs := x) end.
  destruct (Sign (priv s) tbs (r0 :: rrs)) as [d|] eqn:Es; [|done]. intros [= <-].
  apply Sign_fields in Es. eexists. split; [reflexivity|]. split; [|done].
  unfold window_says. rewrite Es. by destruct (Has mods ModBadSig).
Qed.

(** Made in the last half minute. *)
Lemma signRRset_later (s : Signer P) rrs mods made now sig :
  clock_fine (validity s) now -> made <= now < made + 30 * 10 ^ 9 -> signRRset s rrs mods made = Ok (Some sig) ->
  exists d, Data sig = RdRRSIG d /\ window_says mods now d /\ Has mods ModUnsigned = false.
Proof. intros [H1 H2 H3]. apply signRRset_aged. split; [lia|done|done]. Qed.

(** The record a query's signature is made over: every field of it but the
    signature itself. *)
Definition asked (s : Signer P) (r0 : RR) (mods now : Z) : RrsigData :=
  let v := validity s in
  {| TypeCovered := Rrtype (Hdr r0);
     Algorithm := key_algorithm (DNSKEY s);
     Labels := signed_labels (Name (Hdr r0));
     OrigTtl := Ttl (Hdr r0);
     Expiration := Unix (if Has mods ModExpiredSig then now - v else if Has mods ModFutureSig then now + 2 * v else now + v);
     Inception := Unix (if Has mods ModExpiredSig then now - 2 * v else if Has mods ModFutureSig then now + v else now - v);
     SigKeyTag := KeyTag s;
     SignerName := owner s;
     Signature := [] |}.

(** [r] is the signature over the RRset that was asked for: over exactly the
    fields it carries, with the octets the key made of them or, for the
    corrupted variant, others. *)
Definition signature_of (s : Signer P) (rrs : list RR) (mods now : Z) (r : RR) : Prop :=
  match rrs with
  | [] => False
  | r0 :: _ =>
      exists made octets,
        Sign (priv s) (asked s r0 mods now) rrs = Some made /\
        r = mkRR (mkHeader (Name (Hdr r0)) TypeRRSIG ClassINET (Ttl (Hdr r0)) 0)
              (RdRRSIG (set_signature octets (asked s r0 mods now))) /\
        octets_say mods (Signature made) octets
  end.

Lemma corrupt_says mods made : Has mods ModBadSig = true -> octets_say mods made (corruptSignature made).
Proof.
  intros Hb. unfold octets_say. rewrite Hb. destruct (corruptSignature_spec made) as [Hlen Hdiff].
  split; [done|]. intros Hne Heq. destruct (Hdiff Hne) as (j & _ & _ & Hj). by rewrite Heq in Hj.
Qed.

(** The record the code hands to [Sign] is filled in to the one asked for. *)
Lemma filled_asked (s : Signer P) r0 mods now labels :
  filled r0 {| TypeCovered := Rrtype (Hdr r0); Algorithm := key_algorithm (key_rr s); Labels := labels;
               OrigTtl := Ttl (Hdr r0); Expiration := Unix (window (validity s) mods now).2;
               Inception := Unix (window (validity s) mods now).1; SigKeyTag := sg_keyTag s;
               SignerName := owner s; Signature := [] |} = asked s r0 mods now.
Proof.
  unfold filled, asked, DNSKEY, KeyTag, window. cbn [TypeCovered Algorithm Labels OrigTtl Expiration Inception SigKeyTag SignerName Signature].
  f_equal.
  - by destruct (Ttl (Hdr r0) =? 0).
  - destruct (Has mods ModExpiredSig); [done|]. destruct (Has mods ModFutureSig); cbn [snd]; [f_equal; lia|done].
  - destruct (Has mods ModExpiredSig); cbn [fst]; [f_equal; lia|]. by destruct (Has mods ModFutureSig).
Qed.

Lemma signRRset_spec (s : Signer P) r0 rrs mods now :
  clock_ok (validity s) now -> Has mods ModUnsigned = false ->
  match signRRset s (r0 :: rrs) mods now with
  | Ok (Some sig) => signature_of s (r0 :: rrs) mods now sig
  | Ok None | Err PredatesEpoch => False
  | Err TooManyLabels => 255 < CountLabel (Name (Hdr r0))
  | Err CryptoErr => Sign (priv s) (asked s r0 mods now) (r0 :: rrs) = None
  end.
Proof.
  intros Hc Hu. unfold signRRset. rewrite Hu.
  pose proof (window_times (validity s) mods now Hc) as Hw. pose proof (filled_asked s r0 mods now) as Hfill.
  destruct (window (validity s) mods now) as [i e]. destruct Hw as (-> & -> & _). cbn [fst snd] in Hfill. unfold rrsigLabelCount.
  destruct (Z.ltb_spec 255 (CountLabel (Name (Hdr r0)))) as [|Hl]; cbn [mbind result_bind]; [done|].
  rewrite Sign_filled, Hfill. destruct (Sign (priv s) (asked s r0 mods now) (r0 :: rrs)) as [d|] eqn:Es; [|done].
  pose proof (Sign_fields _ _ _ _ _ Es) as Hd.
  assert (Hf : filled r0 (asked s r0 mods now) = asked s r0 mods now).
  { unfold filled, asked. cbn [Algorithm OrigTtl Expiration Inception SigKeyTag SignerName Signature]. f_equal. by destruct (_ =? 0). }
  rewrite Hf in Hd. unfold signature_of.
  exists d, (if Has mods ModBadSig then corruptSignature (Signature d) else Signature d). split; [done|]. split.
  - destruct (Has mods ModBadSig); [by rewrite Hd|]. by rewrite Hd at 1.
  - destruct (Has mods ModBadSig) eqn:Eb; [by apply corrupt_says|]. unfold octets_say. by rewrite Eb.
Qed.

(** C37: within the epoch a signature is exactly what the query's modifiers
    ask for: none for the unsigned variant or an empty RRset; otherwise,
    whenever the key can sign, a record named, typed and timed as [asked]
    says, field by field (type covered, algorithm, labels, original TTL, both
    times to the second, key tag, signer), whose octets are those the key
    makes over exactly these fields and this RRset, but for the corrupted
    variant, which has as many octets and not the same (unless the key made
    nothing but padding).  The window contains
    the present, or lies wholly before it for the expired variant and wholly
    after it for the future one.  Nothing else fails than a name of more than
    255 labels and the key. *)
Theorem signRRset_exact (s : Signer P) r0 rrs mods now :
  clock_ok (validity s) now ->
  signRRset s [] mods now = Ok None /\
  if Has mods ModUnsigned then signRRset s (r0 :: rrs) mods now = Ok None else
  window_says mods now (asked s r0 mods now) /\
  match signRRset s (r0 :: rrs) mods now with
  | Ok (Some sig) =>
      exists made octets,
        Sign (priv s) (asked s r0 mods now) (r0 :: rrs) = Some made /\
        sig = mkRR (mkHeader (Name (Hdr r0)) TypeRRSIG ClassINET (Ttl (Hdr r0)) 0)
                (RdRRSIG (set_signature octets (asked s r0 mods now))) /\
        octets_say mods (Signature made) octets
  | Ok None | Err PredatesEpoch => False
  | Err TooManyLabels => 255 < CountLabel (Name (Hdr r0))
  | Err CryptoErr => Sign (priv s) (asked s r0 mods now) (r0 :: rrs) = None
  end.
Proof.
  intros Hc. split; [done|]. destruct (Has mods ModUnsigned) eqn:Hu; [unfold signRRset; by rewrite Hu|].
  split; [|exact (signRRset_spec s r0 rrs mods now Hc Hu)].
  pose proof (window_times (validity s) mods now Hc) as Hw. pose proof (filled_asked s r0 mods now 0) as <-.
  destruct (window (validity s) mods now) as [i e]. destruct Hw as (_ & _ & Hw). exact Hw.
Qed.

(** A signature made within the last half minute, for the time it is sent. *)
Lemma clock_fine_ok v made now : clock_fine v now -> made <= now < made + 30 * 10 ^ 9 -> clock_ok v made.
Proof.
  intros [H1 H2 H3] Hm. split; [lia| |].
  - pose proof (Unix_mono (now - 30 * 10 ^ 9 - v - v) (made - v - v) ltac:(lia)). lia.
  - pose proof (Unix_mono (made + v + v) (now + v + v) ltac:(lia)). lia.
Qed.

Lemma asked_window_later (s : Signer P) r0 mods made now :
  clock_fine (validity s) now -> made <= now < made + 30 * 10 ^ 9 -> window_says mods now (asked s r0 mods made).
Proof.
  intros [H1 H2 H3] Hm.
  pose proof (window_times_aged (validity s) (30 * 10 ^ 9) mods made now ltac:(split; [lia|done|done]) Hm) as Hw.
  pose proof (filled_asked s r0 mods made 0) as <-.
  destruct (window (validity s) mods made) as [i e]. destruct Hw as (_ & _ & Hw). exact Hw.
Qed.
End Laws.

(** *** A concrete key *)

#[global] Instance simple_crypto : CryptoLib bytes := {
  Sign p d rrs := match rrs with [] => None | r0 :: _ => Some (set_signature (p ++ bs "==") (filled r0 d)) end
}.

#[global] Instance simple_cryptolaws : CryptoLaws simple_crypto.
Proof.
  split; cbn; [|by intros p d r0 rrs d' [= <-]]. intros p d r0 rrs. f_equal.
  unfold filled, set_signature. cbn. f_equal. destruct (OrigTtl d =? 0) eqn:E; [by destruct (Ttl _ =? 0)|by rewrite E].
Qed.

Definition simple_key : RR :=
  {| Hdr := mkHeader (bs "check.test.") TypeDNSKEY ClassINET 60 0; Data := RdDNSKEY 257 3 13 (bs "key") |}.

Definition simple_signer : Signer bytes := mkSigner simple_key (bs "c2ln") (bs "check.test.") defaultSigValidity 4711.

(** A time in 2026. *)
Definition ex_now : Z := (1790000000 + unixToInternal) * 10 ^ 9.

(** The expired variant of a text record, corrupted or not. *)
Lemma signRRset_exact_witness :
  let r := {| Hdr := mkHeader (bs "deadbeef.check.test.") TypeTXT ClassINET 1 0; Data := RdTXT [bs "x"] |} in
  exists sig d, signRRset simple_signer [r] (Z.lor ModExpiredSig ModBadSig) ex_now = Ok (Some sig) /\
    Data sig = RdRRSIG d /\ Expiration d < Unix ex_now /\ Signature d = bs "c2An==" .
Proof.
  cbv zeta. set (r := {| Hdr := _; Data := _ |}).
  pose proof (signRRset_exact simple_signer r [] (Z.lor ModExpiredSig ModBadSig) ex_now
                ltac:(split; vm_compute; by intros)) as [_ H].
  change (Has (Z.lor ModExpiredSig ModBadSig) ModUnsigned) with false in H. cbv iota in H.
  assert (E : exists sig, signRRset simple_signer [r] (Z.lor ModExpiredSig ModBadSig) ex_now = Ok (Some sig))
    by (eexists; vm_compute; reflexivity).
  destruct E as [sig E]. rewrite E in H.
  destruct H as (Hw & made & octets & _ & -> & _). eexists _, _. split; [exact E|split; [reflexivity|split]].
  - unfold window_says in Hw. change (Has (Z.lor ModExpiredSig ModBadSig) ModExpiredSig) with true in Hw. apply Hw.
  - clear -E. vm_compute in E. injection E as <-. reflexivity.
Defined.

(** ** Loading *)

Section LoadLaws.
Context `{N : !NameLib} {P : Type} `{K : !KeyLib P}.

(** A signer holds the key record of [base.key] under its canonical name and
    a positive validity, and reads both halves below one directory. *)
Lemma LoadSigner_ok basename v s :
  LoadSigner basename v = Ok s ->
  0 < validity s /\ owner s = CanonicalName (Name (Hdr (key_rr s))) /\ Rrtype (Hdr (key_rr s)) = TypeDNSKEY /\
  (exists f pr a k, Data (key_rr s) = RdDNSKEY f pr a k) /\
  exists dir base root text,
    base <> [] /\ basename = dir ++ base /\ OpenRoot (if beqb dir [] then bs "." else dir) = Some root /\
    ReadFile root (base ++ bs ".key") = Some text /\ NewRR text = Some (Some (key_rr s)).
Proof.
  unfold LoadSigner, openKeyRoot. destruct (filepath_Split basename) as [dir base] eqn:Ep.
  apply filepath_Split_app in Ep as Hb.
  destruct (beqb base []) eqn:Eb; [done|]. apply beqb_false in Eb.
  destruct (OpenRoot _) as [root|] eqn:Er; [|done]. cbn [mbind result_bind].
  unfold readDNSKEYFile. destruct (ReadFile root (base ++ bs ".key")) as [text|] eqn:Et; [|done].
  destruct (NewRR text) as [[rr|]|] eqn:Erl; [|done|done].
  destruct (Data rr) eqn:Ed; try done. destruct (Z.eqb_spec (Rrtype (Hdr rr)) TypeDNSKEY) as [Ht|]; [|done].
  cbn [mbind result_bind]. destruct (ReadFile root (base ++ bs ".private")) as [priv|]; [|done].
  destruct (ReadPrivateKey rr priv) as [[p|]|]; [| |]; try done. intros H. apply Ok_inj in H. subst s. cbn.
  split; [destruct (Z.leb_spec v 0); unfold defaultSigValidity; lia|]. split; [done|]. split; [done|].
  split; [by do 4 eexists|]. by exists dir, base, root, text.
Qed.
End LoadLaws.
