(* ===== verification/ProbeMetrics.v ===== *)
(** * The probe's aggregate counters ([probe/metrics.go])

    A counter vector maps label values to counts.  The two counters every
    query increments are found through caches indexed by a small integer the
    labels are packed into; the theorem says the caches never make a
    difference, and that the index stays inside the array; [ProbeRace] lets
    the queries run in parallel. *)

From S2P Require Import Prelude GoStrings Netip ProbeObserve.

(** ** Labels *)

Definition labelYes : bytes := bs "yes".
Definition labelUnknown : bytes := bs "unknown".
Definition labelInet : bytes := bs "inet".
Definition labelInet6 : bytes := bs "inet6".
Definition labelOther : bytes := bs "other".

Definition delegLabel (o : Observation) : bytes :=
  if negb (EDNS o) then labelUnknown else if DELEGAware o then bs "aware" else bs "unaware".

Definition ecsLabel (o : Observation) : bytes :=
  if negb (ECS o) then bs "silent" else if ECSScope o =? 0 then bs "declined" else bs "disclosed".

Definition familyLabel (o : Observation) : bytes := if IPv6 o then labelInet6 else labelInet.

Definition ianaAFIPv6 : Z := 2.

Definition ecsFamilyLabel (family : Z) : bytes :=
  if family =? 1 then labelInet else if family =? ianaAFIPv6 then labelInet6 else labelOther.

(** ** Counters *)

(** A [CounterVec]: the children that exist, by their label values. *)
Abbreviation vec := (gmap (list bytes) Z).

Definition count (labels : list bytes) (v : vec) : Z := default 0 (v !! labels).

(** [WithLabelValues(labels).Inc()]. *)
Definition Inc (labels : list bytes) (v : vec) : vec := <[labels := count labels v + 1]> v.

(** The plugin's vectors, and the caches: a slot holds the child it was
    filled with, which its labels name. *)
Record Metrics := mkMetrics {
  probeObservations : vec;
  probeECSPrefixBits : gmap bytes (list Z);
  probeReports : vec;
  probeEncrypted : vec;
  probeKeyTagQueries : vec;
  probeKeyTagKnowledge : vec;
  probeReportsRejected : vec;
  observationCounters : gmap Z (list bytes);
  cleartextCounters : gmap Z (list bytes)
}.

Definition zero_metrics : Metrics := mkMetrics ∅ ∅ ∅ ∅ ∅ ∅ ∅ ∅ ∅.

Definition with_observation (v : vec) (c : gmap Z (list bytes)) (m : Metrics) : Metrics :=
  mkMetrics v (probeECSPrefixBits m) (probeReports m) (probeEncrypted m) (probeKeyTagQueries m)
    (probeKeyTagKnowledge m) (probeReportsRejected m) c (cleartextCounters m).
Definition with_encrypted (v : vec) (c : gmap Z (list bytes)) (m : Metrics) : Metrics :=
  mkMetrics (probeObservations m) (probeECSPrefixBits m) (probeReports m) v (probeKeyTagQueries m)
    (probeKeyTagKnowledge m) (probeReportsRejected m) (observationCounters m) c.
Definition with_bits (h : gmap bytes (list Z)) (m : Metrics) : Metrics :=
  mkMetrics (probeObservations m) h (probeReports m) (probeEncrypted m) (probeKeyTagQueries m)
    (probeKeyTagKnowledge m) (probeReportsRejected m) (observationCounters m) (cleartextCounters m).
Definition inc_reports (ls : list bytes) (m : Metrics) : Metrics :=
  mkMetrics (probeObservations m) (probeECSPrefixBits m) (Inc ls (probeReports m)) (probeEncrypted m)
    (probeKeyTagQueries m) (probeKeyTagKnowledge m) (probeReportsRejected m) (observationCounters m) (cleartextCounters m).
Definition inc_rejected (ls : list bytes) (m : Metrics) : Metrics :=
  mkMetrics (probeObservations m) (probeECSPrefixBits m) (probeReports m) (probeEncrypted m) (probeKeyTagQueries m)
    (probeKeyTagKnowledge m) (Inc ls (probeReportsRejected m)) (observationCounters m) (cleartextCounters m).
Definition inc_keytag_queries (ls : list bytes) (m : Metrics) : Metrics :=
  mkMetrics (probeObservations m) (probeECSPrefixBits m) (probeReports m) (probeEncrypted m)
    (Inc ls (probeKeyTagQueries m)) (probeKeyTagKnowledge m) (probeReportsRejected m) (observationCounters m)
    (cleartextCounters m).
Definition inc_knowledge (ls : list bytes) (m : Metrics) : Metrics :=
  mkMetrics (probeObservations m) (probeECSPrefixBits m) (probeReports m) (probeEncrypted m) (probeKeyTagQueries m)
    (Inc ls (probeKeyTagKnowledge m)) (probeReportsRejected m) (observationCounters m) (cleartextCounters m).

(** ** The caches *)

Definition transportKinds : Z := 5.
Definition familyKinds : Z := 2.
Definition flagKinds : Z := 2.
Definition delegKinds : Z := 3.
Definition ecsKinds : Z := 3.
Definition observationKinds : Z :=
  transportKinds * familyKinds * flagKinds * flagKinds * delegKinds * ecsKinds * flagKinds.

(** Transport ordinals for the counter caches. *)
Definition transportUDPIndex : Z := 0.
Definition transportTCPIndex : Z := 1.
Definition transportTLSIndex : Z := 2.
Definition transportQUICIndex : Z := 3.
Definition transportHTTPIndex : Z := 4.

Definition transportIndex (t : bytes) : Z :=
  if beqb t TransportUDP then transportUDPIndex
  else if beqb t TransportTCP then transportTCPIndex
  else if beqb t TransportTLS then transportTLSIndex
  else if beqb t TransportQUIC then transportQUICIndex
  else if beqb t TransportHTTP then transportHTTPIndex
  else -1.

Definition flagIndex (v : bool) : Z := if v then 1 else 0.

Definition delegIndex (o : Observation) : Z := if negb (EDNS o) then 0 else if DELEGAware o then 1 else 2.
Definition ecsIndex (o : Observation) : Z := if negb (ECS o) then 0 else if ECSScope o =? 0 then 1 else 2.

(** [cachedCounter]: the child to use and the cache after. *)
Definition cachedCounter (slot : Z) (cache : gmap Z (list bytes)) (lookup : list bytes)
  : list bytes * gmap Z (list bytes) :=
  match cache !! slot with
  | Some c => (c, cache)
  | None => (lookup, <[slot := lookup]> cache)
  end.

Definition observation_labels (o : Observation) : list bytes :=
  [ob_Transport o; familyLabel o; boolStr (DO o); boolStr (CompactAware o); delegLabel o; ecsLabel o;
   boolStr (ZoneVersionAsked o)].

Definition observation_index (o : Observation) : Z :=
  let idx := transportIndex (ob_Transport o) in
  let idx := idx * familyKinds + flagIndex (IPv6 o) in
  let idx := idx * flagKinds + flagIndex (DO o) in
  let idx := idx * flagKinds + flagIndex (CompactAware o) in
  let idx := idx * delegKinds + delegIndex o in
  let idx := idx * ecsKinds + ecsIndex o in
  idx * flagKinds + flagIndex (ZoneVersionAsked o).

Definition observationCounter (o : Observation) (cache : gmap Z (list bytes)) : list bytes * gmap Z (list bytes) :=
  if transportIndex (ob_Transport o) <? 0 then (observation_labels o, cache)
  else cachedCounter (observation_index o) cache (observation_labels o).

Definition encrypted_labels (o : Observation) : list bytes :=
  let '(version, group, resumed) :=
    match TLS o with None => ([], [], []) | Some t => (Version t, NamedGroup t, boolStr (DidResume t)) end in
  [ob_Transport o; boolStr (Encrypted o); version; group; resumed].

Definition is_some_tls (o : Observation) : bool := match TLS o with Some _ => true | None => false end.

Definition encryptedCounter (o : Observation) (cache : gmap Z (list bytes)) : list bytes * gmap Z (list bytes) :=
  let t := transportIndex (ob_Transport o) in
  if (t <? 0) || is_some_tls o then (encrypted_labels o, cache)
  else cachedCounter t cache (encrypted_labels o).

Definition recordMetrics (o : Observation) (m : Metrics) : Metrics :=
  let '(c, cache) := observationCounter o (observationCounters m) in
  let m := with_observation (Inc c (probeObservations m)) cache m in
  let m := if ECS o && (0 <? ECSScope o) then
             let l := ecsFamilyLabel (ECSFamily o) in
             with_bits (<[l := default [] (probeECSPrefixBits m !! l) ++ [ECSScope o]]> (probeECSPrefixBits m)) m
           else m in
  let '(c, cache) := encryptedCounter o (cleartextCounters m) in
  let m := with_encrypted (Inc c (probeEncrypted m)) cache m in
  if (0 <? zlen (KeyTags o)) then
    let knows := if KnowsZoneKey o then labelYes else bs "no" in
    inc_knowledge [bs "edns"; knows] m
  else m.

(** ** The counters without caches *)

(** What [recordMetrics] counts: the vector each label set goes to. *)
Definition plain_metrics (o : Observation) (m : Metrics) : Metrics :=
  let m := with_observation (Inc (observation_labels o) (probeObservations m)) (observationCounters m) m in
  let m := if ECS o && (0 <? ECSScope o) then
             let l := ecsFamilyLabel (ECSFamily o) in
             with_bits (<[l := default [] (probeECSPrefixBits m !! l) ++ [ECSScope o]]> (probeECSPrefixBits m)) m
           else m in
  let m := with_encrypted (Inc (encrypted_labels o) (probeEncrypted m)) (cleartextCounters m) m in
  if (0 <? zlen (KeyTags o)) then inc_knowledge [bs "edns"; if KnowsZoneKey o then labelYes else bs "no"] m else m.

(** Everything but the caches. *)
Definition uncached (m : Metrics) : Metrics := with_observation (probeObservations m) ∅ (with_encrypted (probeEncrypted m) ∅ m).

(** *** Every slot has one label set *)

Ltac ordinals :=
  unfold transportIndex, transportUDPIndex, transportTCPIndex, transportTLSIndex, transportQUICIndex,
    transportHTTPIndex in *.

Lemma transportIndex_range t : -1 <= transportIndex t <= 4.
Proof. ordinals. repeat (destruct (beqb _ _); [lia|]). lia. Qed.

Lemma transportIndex_inj t u : 0 <= transportIndex t -> transportIndex t = transportIndex u -> t = u.
Proof.
  ordinals. intros H0 H.
  repeat match type of H with context [beqb ?a ?b] => destruct (beqb a b) eqn:? end;
    repeat match goal with E : beqb _ _ = true |- _ => apply beqb_true in E end; subst; try done; lia.
Qed.

Lemma flagIndex_inj a b : flagIndex a = flagIndex b -> a = b.
Proof. by destruct a, b. Qed.

Lemma deleg_label a b : delegIndex a = delegIndex b -> delegLabel a = delegLabel b.
Proof. unfold delegIndex, delegLabel. by destruct (EDNS a), (EDNS b), (DELEGAware a), (DELEGAware b). Qed.

Lemma ecs_label a b : ecsIndex a = ecsIndex b -> ecsLabel a = ecsLabel b.
Proof. unfold ecsIndex, ecsLabel. by destruct (ECS a), (ECS b), (ECSScope a =? 0), (ECSScope b =? 0). Qed.

Lemma index_digits o :
  0 <= flagIndex (IPv6 o) < 2 /\ 0 <= flagIndex (DO o) < 2 /\ 0 <= flagIndex (CompactAware o) < 2 /\
  0 <= delegIndex o < 3 /\ 0 <= ecsIndex o < 3 /\ 0 <= flagIndex (ZoneVersionAsked o) < 2.
Proof.
  unfold flagIndex, delegIndex, ecsIndex.
  destruct (IPv6 o), (DO o), (CompactAware o), (EDNS o), (DELEGAware o), (ECS o), (ECSScope o =? 0), (ZoneVersionAsked o);
    cbn; lia.
Qed.

Lemma observation_index_range o :
  0 <= transportIndex (ob_Transport o) -> 0 <= observation_index o < observationKinds.
Proof.
  intros H. pose proof (transportIndex_range (ob_Transport o)). pose proof (index_digits o).
  unfold observation_index, observationKinds, transportKinds, familyKinds, flagKinds, delegKinds, ecsKinds. lia.
Qed.

Lemma observation_index_labels a b :
  0 <= transportIndex (ob_Transport a) -> 0 <= transportIndex (ob_Transport b) ->
  observation_index a = observation_index b -> observation_labels a = observation_labels b.
Proof.
  intros Ha Hb H. pose proof (index_digits a). pose proof (index_digits b).
  unfold observation_index, familyKinds, flagKinds, delegKinds, ecsKinds in H.
  unfold observation_labels, familyLabel.
  rewrite (transportIndex_inj (ob_Transport a) (ob_Transport b)) by (done || lia).
  rewrite (flagIndex_inj (IPv6 a) (IPv6 b)) by lia. rewrite (flagIndex_inj (DO a) (DO b)) by lia.
  rewrite (flagIndex_inj (CompactAware a) (CompactAware b)) by lia.
  rewrite (flagIndex_inj (ZoneVersionAsked a) (ZoneVersionAsked b)) by lia.
  rewrite (deleg_label a b), (ecs_label a b) by lia. done.
Qed.

(** *** The caches make no difference *)

Record caches_ok (m : Metrics) : Prop := {
  co_obs : forall i ls, observationCounters m !! i = Some ls ->
    exists o, 0 <= transportIndex (ob_Transport o) /\ i = observation_index o /\ ls = observation_labels o;
  co_clear : forall i ls, cleartextCounters m !! i = Some ls ->
    exists o, 0 <= transportIndex (ob_Transport o) /\ TLS o = None /\ i = transportIndex (ob_Transport o)
              /\ ls = encrypted_labels o
}.

Lemma encrypted_label a b :
  TLS a = None -> TLS b = None -> 0 <= transportIndex (ob_Transport a) ->
  transportIndex (ob_Transport a) = transportIndex (ob_Transport b) -> encrypted_labels a = encrypted_labels b.
Proof.
  intros Ha Hb H0 H. unfold encrypted_labels, Encrypted. rewrite Ha, Hb.
  by rewrite (transportIndex_inj _ _ H0 H).
Qed.

Lemma observationCounter_ok o m :
  caches_ok m ->
  let '(c, cache) := observationCounter o (observationCounters m) in
  c = observation_labels o /\
  forall i ls, cache !! i = Some ls ->
    exists o, 0 <= transportIndex (ob_Transport o) /\ i = observation_index o /\ ls = observation_labels o.
Proof.
  intros [H _]. unfold observationCounter, cachedCounter.
  destruct (Z.ltb_spec (transportIndex (ob_Transport o)) 0) as [|H0]; [done|].
  destruct (observationCounters m !! observation_index o) as [ls|] eqn:E.
  - split; [|done]. destruct (H _ _ E) as (o' & Ho' & Hi & ->). by apply observation_index_labels.
  - split; [done|]. intros i ls [[<- <-]|[_ Hi]]%lookup_insert_Some; [by exists o|by apply H].
Qed.

Lemma encryptedCounter_ok o m :
  caches_ok m ->
  let '(c, cache) := encryptedCounter o (cleartextCounters m) in
  c = encrypted_labels o /\
  forall i ls, cache !! i = Some ls ->
    exists o, 0 <= transportIndex (ob_Transport o) /\ TLS o = None /\ i = transportIndex (ob_Transport o)
              /\ ls = encrypted_labels o.
Proof.
  intros [_ H]. unfold encryptedCounter, cachedCounter, is_some_tls.
  destruct (Z.ltb_spec (transportIndex (ob_Transport o)) 0) as [|H0]; [done|].
  destruct (TLS o) eqn:Et; [done|]. cbn [orb].
  destruct (cleartextCounters m !! transportIndex (ob_Transport o)) as [ls|] eqn:E.
  - split; [|done]. destruct (H _ _ E) as (o' & Ho' & Ht & Hi & ->). by apply encrypted_label.
  - split; [done|]. intros i ls [[<- <-]|[_ Hi]]%lookup_insert_Some; [by exists o|by apply H].
Qed.

Lemma uncached_eq a b :
  probeObservations a = probeObservations b -> probeECSPrefixBits a = probeECSPrefixBits b ->
  probeReports a = probeReports b -> probeEncrypted a = probeEncrypted b ->
  probeKeyTagQueries a = probeKeyTagQueries b -> probeKeyTagKnowledge a = probeKeyTagKnowledge b ->
  probeReportsRejected a = probeReportsRejected b -> uncached a = uncached b.
Proof. unfold uncached, with_observation, with_encrypted. cbn. by intros -> -> -> -> -> -> ->. Qed.

Lemma uncached_inv a b :
  uncached a = uncached b ->
  probeObservations a = probeObservations b /\ probeECSPrefixBits a = probeECSPrefixBits b /\
  probeReports a = probeReports b /\ probeEncrypted a = probeEncrypted b /\
  probeKeyTagQueries a = probeKeyTagQueries b /\ probeKeyTagKnowledge a = probeKeyTagKnowledge b /\
  probeReportsRejected a = probeReportsRejected b.
Proof. unfold uncached, with_observation, with_encrypted. cbn. intros H. by injection H. Qed.

Lemma record_plain o m n :
  caches_ok m -> uncached m = uncached n ->
  uncached (recordMetrics o m) = uncached (plain_metrics o n) /\ caches_ok (recordMetrics o m).
Proof.
  intros Hc (E1 & E2 & E3 & E4 & E5 & E6 & E7)%uncached_inv.
  unfold recordMetrics, plain_metrics.
  pose proof (observationCounter_ok o m Hc) as Ho. destruct (observationCounter o _) as [c cache]. destruct Ho as [-> Ho].
  set (m1 := with_observation (Inc (observation_labels o) (probeObservations m)) cache m).
  set (m2 := if _ && _ then _ else m1).
  assert (Hm2 : probeObservations m2 = probeObservations m1 /\ probeEncrypted m2 = probeEncrypted m /\
                probeReports m2 = probeReports m /\ probeKeyTagQueries m2 = probeKeyTagQueries m /\
                probeKeyTagKnowledge m2 = probeKeyTagKnowledge m /\ probeReportsRejected m2 = probeReportsRejected m /\
                observationCounters m2 = cache /\ cleartextCounters m2 = cleartextCounters m)
    by (unfold m2; destruct (_ && _); done).
  destruct Hm2 as (F1 & F2 & F3 & F4 & F5 & F6 & F7 & F8).
  assert (Hc2 : caches_ok m2) by (split; [by rewrite F7|rewrite F8; apply Hc]).
  pose proof (encryptedCounter_ok o m2 Hc2) as He. destruct (encryptedCounter o _) as [d cache2]. destruct He as [-> He].
  split.
  - unfold m2, m1. destruct (ECS o && _), (0 <? zlen (KeyTags o)); apply uncached_eq; cbn; congruence.
  - destruct (0 <? zlen (KeyTags o)); split; cbn; rewrite ?F7; done.
Qed.

Definition record_all (os : list Observation) (m : Metrics) : Metrics := foldl (fun m o => recordMetrics o m) m os.
Definition plain_all (os : list Observation) (m : Metrics) : Metrics := foldl (fun m o => plain_metrics o m) m os.

Lemma record_all_plain os m n :
  caches_ok m -> uncached m = uncached n ->
  uncached (record_all os m) = uncached (plain_all os n) /\ caches_ok (record_all os m).
Proof.
  revert m n. induction os as [|o os IH]; intros m n Hc H; [done|].
  cbn [record_all plain_all foldl]. destruct (record_plain o m n Hc H) as [H1 H2]. by apply IH.
Qed.

Lemma zero_caches_ok : caches_ok zero_metrics.
Proof. split; intros i ls; cbn; by rewrite lookup_empty. Qed.

(** *** How many series there are *)

Definition transports : list bytes := [TransportUDP; TransportTCP; TransportTLS; TransportQUIC; TransportHTTP].
Definition flags : list bytes := [bs "0"; bs "1"].

(** Every label set of a query over a known transport. *)
Definition all_labels : list (list bytes) :=
  t ← transports; f ← [labelInet; labelInet6]; a ← flags; c ← flags;
  d ← [labelUnknown; bs "aware"; bs "unaware"]; e ← [bs "silent"; bs "declined"; bs "disclosed"]; z ← flags;
  [[t; f; a; c; d; e; z]].

Lemma all_labels_length : Z.of_nat (length all_labels) = observationKinds.
Proof. vm_compute. reflexivity. Qed.

Lemma in_bind {A B} (f : A -> list B) l x y : y ∈ l -> x ∈ f y -> x ∈ l ≫= f.
Proof. intros. apply list_elem_of_bind. by exists y. Qed.

Lemma transport_listed t : 0 <= transportIndex t -> t ∈ transports.
Proof.
  ordinals. intros H. apply list_elem_of_In. unfold transports.
  destruct (beqb t TransportUDP) eqn:E1; [apply beqb_true in E1 as ->; left; reflexivity|].
  destruct (beqb t TransportTCP) eqn:E2; [apply beqb_true in E2 as ->; right; left; reflexivity|].
  destruct (beqb t TransportTLS) eqn:E3; [apply beqb_true in E3 as ->; do 2 right; left; reflexivity|].
  destruct (beqb t TransportQUIC) eqn:E4; [apply beqb_true in E4 as ->; do 3 right; left; reflexivity|].
  destruct (beqb t TransportHTTP) eqn:E5; [apply beqb_true in E5 as ->; do 4 right; left; reflexivity|]. lia.
Qed.

Lemma flag_listed b : boolStr b ∈ flags.
Proof. unfold flags. rewrite !elem_of_cons. destruct b; auto. Qed.

Lemma labels_listed o : 0 <= transportIndex (ob_Transport o) -> observation_labels o ∈ all_labels.
Proof.
  intros H. unfold all_labels, observation_labels.
  apply (in_bind _ _ _ (ob_Transport o)); [by apply transport_listed|].
  apply (in_bind _ _ _ (familyLabel o)); [unfold familyLabel; destruct (IPv6 o); rewrite !elem_of_cons; auto|].
  apply (in_bind _ _ _ (boolStr (DO o))); [apply flag_listed|].
  apply (in_bind _ _ _ (boolStr (CompactAware o))); [apply flag_listed|].
  apply (in_bind _ _ _ (delegLabel o)).
  { unfold delegLabel. destruct (negb _), (DELEGAware o); rewrite !elem_of_cons; auto. }
  apply (in_bind _ _ _ (ecsLabel o)).
  { unfold ecsLabel. destruct (negb _), (ECSScope o =? 0); rewrite !elem_of_cons; auto. }
  apply (in_bind _ _ _ (boolStr (ZoneVersionAsked o))); [apply flag_listed|]. by apply list_elem_of_singleton.
Qed.

Lemma plain_observations os m :
  (forall ls, is_Some (probeObservations m !! ls) -> ls ∈ all_labels) ->
  Forall (fun o => 0 <= transportIndex (ob_Transport o)) os ->
  forall ls, is_Some (probeObservations (plain_all os m) !! ls) -> ls ∈ all_labels.
Proof.
  revert m. induction os as [|o os IH]; intros m Hm Hos; [done|]. apply Forall_cons in Hos as [Ho Hos].
  cbn [plain_all foldl]. apply IH; [|done].
  assert (Hp : probeObservations (plain_metrics o m) = Inc (observation_labels o) (probeObservations m)).
  { unfold plain_metrics. by destruct (ECS o && _), (0 <? _). }
  rewrite Hp. unfold Inc. intros ls [v [[<- _]|[_ Hv]]%lookup_insert_Some]; [by apply labels_listed|]. apply Hm. by exists v.
Qed.

Lemma set_size_le (l : list (list bytes)) : (size (list_to_set (C := gset (list bytes)) l) <= length l)%nat.
Proof.
  induction l as [|x l IH]; [by rewrite list_to_set_nil, size_empty|].
  rewrite list_to_set_cons, size_union_alt. cbn. rewrite size_singleton.
  pose proof (subseteq_size (list_to_set l ∖ {[x]}) (list_to_set (C := gset (list bytes)) l) ltac:(set_solver)). lia.
Qed.

(** Whatever observations are counted, in whatever order, the counters
    found through the caches read as the ones resolved from their labels each
    time; the packed index never leaves the cache's array; and over the
    transports the plugin knows there are at most 720 observation series,
    whatever the resolvers send. *)
Theorem metrics_caches_transparent os :
  uncached (record_all os zero_metrics) = uncached (plain_all os zero_metrics) /\
  (forall i, is_Some (observationCounters (record_all os zero_metrics) !! i) -> 0 <= i < observationKinds) /\
  (Forall (fun o => 0 <= transportIndex (ob_Transport o)) os ->
   Z.of_nat (size (probeObservations (record_all os zero_metrics))) <= observationKinds).
Proof.
  destruct (record_all_plain os zero_metrics zero_metrics zero_caches_ok eq_refl) as [H1 H2]. split; [done|split].
  - intros i [ls (o & Ho & -> & _)%(co_obs _ H2)]. by apply observation_index_range.
  - intros Hos. destruct (uncached_inv _ _ H1) as [-> _].
    assert (Hd : dom (probeObservations (plain_all os zero_metrics)) ⊆ list_to_set (C := gset (list bytes)) all_labels).
    { intros ls Hls%elem_of_dom. apply elem_of_list_to_set. revert ls Hls. apply plain_observations; [|done].
      intros ls [v Hv]. cbn in Hv. by rewrite lookup_empty in Hv. }
    apply subseteq_size in Hd. rewrite size_dom in Hd. rewrite <- all_labels_length.
    pose proof (set_size_le all_labels). lia.
Qed.

(** Two queries over UDP without EDNS. *)
Lemma metrics_caches_transparent_witness :
  let o := Observe 1 {| ProbeLabels.Token := bs "deadbeef"; ProbeLabels.Mods := 0 |} (bs "deadbeef.check.test.")
             (Addr4 0xc0000207) TransportUDP 1 Dns.new_msg in
  let m := record_all [o; o] zero_metrics in
  count (observation_labels o) (probeObservations m) = 2 /\ Z.of_nat (size (probeObservations m)) <= 720 /\
  probeObservations m = probeObservations (plain_all [o; o] zero_metrics).
Proof.
  cbv zeta. set (o := Observe _ _ _ _ _ _ _).
  destruct (metrics_caches_transparent [o; o]) as (H1 & _ & H2).
  split; [vm_compute; reflexivity|split].
  - apply H2. repeat (apply Forall_cons; split; [vm_compute; by intros|]). constructor.
  - by apply uncached_inv in H1 as [-> _].
Defined.
