(* ===== verification/ProbeRace.v ===== *)
(** * Queries counted in parallel ([probe/metrics.go])

    CoreDNS answers queries on many goroutines at once, and the counter
    caches of [recordMetrics] are atomic slots without a lock: a query loads
    its slot, resolves its labels when the slot is empty, fills the slot and
    increments, and others run between any two of these.  [query_step] is one
    such atomic step, a schedule says whose turn it is, and the theorem says
    the race over a slot, which the code calls benign, is. *)

From S2P Require Import Prelude GoStrings Netip ProbeObserve ProbeMetrics.

(** ** One query *)

(** Where [recordMetrics] is; a resolved counter is named by its labels. *)
Inductive PC :=
| LoadObservation | LookupObservation | FillObservation (c : list bytes) | IncObservation (c : list bytes)
| ObserveBits
| LoadEncrypted | LookupEncrypted | FillEncrypted (c : list bytes) | IncEncrypted (c : list bytes)
| IncKeyTags
| Counted.

(** [CounterVec.WithLabelValues] creates the child it gives back, at zero. *)
Definition WithLabelValues (ls : list bytes) (v : vec) : vec := <[ls := count ls v]> v.

Definition resolve_observation (o : Observation) (m : Metrics) : Metrics :=
  with_observation (WithLabelValues (observation_labels o) (probeObservations m)) (observationCounters m) m.
Definition resolve_encrypted (o : Observation) (m : Metrics) : Metrics :=
  with_encrypted (WithLabelValues (encrypted_labels o) (probeEncrypted m)) (cleartextCounters m) m.

Definition query_step (o : Observation) (pc : PC) (m : Metrics) : PC * Metrics :=
  match pc with
  | LoadObservation =>
      if transportIndex (ob_Transport o) <? 0 then (IncObservation (observation_labels o), resolve_observation o m)
      else match observationCounters m !! observation_index o with
           | Some c => (IncObservation c, m)
           | None => (LookupObservation, m)
           end
  | LookupObservation => (FillObservation (observation_labels o), resolve_observation o m)
  | FillObservation c =>
      (IncObservation c, with_observation (probeObservations m) (<[observation_index o := c]> (observationCounters m)) m)
  | IncObservation c => (ObserveBits, with_observation (Inc c (probeObservations m)) (observationCounters m) m)
  | ObserveBits =>
      (LoadEncrypted,
       if ECS o && (0 <? ECSScope o) then
         let l := ecsFamilyLabel (ECSFamily o) in
         with_bits (<[l := default [] (probeECSPrefixBits m !! l) ++ [ECSScope o]]> (probeECSPrefixBits m)) m
       else m)
  | LoadEncrypted =>
      let t := transportIndex (ob_Transport o) in
      if (t <? 0) || is_some_tls o then (IncEncrypted (encrypted_labels o), resolve_encrypted o m)
      else match cleartextCounters m !! t with
           | Some c => (IncEncrypted c, m)
           | None => (LookupEncrypted, m)
           end
  | LookupEncrypted => (FillEncrypted (encrypted_labels o), resolve_encrypted o m)
  | FillEncrypted c =>
      (IncEncrypted c,
       with_encrypted (probeEncrypted m) (<[transportIndex (ob_Transport o) := c]> (cleartextCounters m)) m)
  | IncEncrypted c => (IncKeyTags, with_encrypted (Inc c (probeEncrypted m)) (cleartextCounters m) m)
  | IncKeyTags =>
      (Counted,
       if 0 <? zlen (KeyTags o) then inc_knowledge [bs "edns"; if KnowsZoneKey o then labelYes else bs "no"] m else m)
  | Counted => (Counted, m)
  end.

(** As many steps as the longest way takes. *)
Definition steps : nat := 10.

Definition run_alone (o : Observation) (m : Metrics) : PC * Metrics :=
  Nat.iter steps (fun s => query_step o s.1 s.2) (LoadObservation, m).

(** ** All of them *)

(** The queries being counted, each with its place, and the counters they
    share. One that has not had a turn has not arrived yet. *)
Record Race := mkRace { queries : list (Observation * PC); counters : Metrics }.

Definition start (os : list Observation) : Race := mkRace ((fun o => (o, LoadObservation)) <$> os) zero_metrics.

Definition turn (w : Race) (i : nat) : Race :=
  match queries w !! i with
  | Some (o, pc) =>
      let '(pc', m) := query_step o pc (counters w) in mkRace (<[i := (o, pc')]> (queries w)) m
  | None => w
  end.

(** The queries [os] under a schedule: whose turn it is, one after another. *)
Definition race (os : list Observation) (sched : list nat) : Race := foldl turn (start os) sched.

(** ** What the counters read *)

Inductive series := SObservation (ls : list bytes) | SBits (family : bytes) (bits : Z) | SEncrypted (ls : list bytes)
  | SKnowledge (ls : list bytes).

Definition reading (m : Metrics) (s : series) : Z :=
  match s with
  | SObservation ls => count ls (probeObservations m)
  | SBits f b => Z.of_nat (count_occ Z.eq_dec (default [] (probeECSPrefixBits m !! f)) b)
  | SEncrypted ls => count ls (probeEncrypted m)
  | SKnowledge ls => count ls (probeKeyTagKnowledge m)
  end.

(** What one query adds to a series. *)
Definition adds (o : Observation) (s : series) : Z :=
  Z.b2z match s with
        | SObservation ls => bool_decide (observation_labels o = ls)
        | SBits f b => ECS o && (0 <? ECSScope o) && bool_decide (ecsFamilyLabel (ECSFamily o) = f) && (ECSScope o =? b)
        | SEncrypted ls => bool_decide (encrypted_labels o = ls)
        | SKnowledge ls =>
            (0 <? zlen (KeyTags o)) && bool_decide ([bs "edns"; if KnowsZoneKey o then labelYes else bs "no"] = ls)
        end.

Definition rank (pc : PC) : nat :=
  match pc with
  | LoadObservation => 0 | LookupObservation => 1 | FillObservation _ => 2 | IncObservation _ => 3
  | ObserveBits => 4
  | LoadEncrypted => 5 | LookupEncrypted => 6 | FillEncrypted _ => 7 | IncEncrypted _ => 8
  | IncKeyTags => 9
  | Counted => 10
  end.

(** How far a query is when it has been counted in a series. *)
Definition due (s : series) : nat :=
  match s with SObservation _ => 4 | SBits _ _ => 5 | SEncrypted _ => 9 | SKnowledge _ => 10 end.

(** What a query has added so far. *)
Definition added (s : series) (q : Observation * PC) : Z := if (due s <=? rank q.2)%nat then adds q.1 s else 0.

Definition total {A} (f : A -> Z) (l : list A) : Z := foldr (fun x n => f x + n) 0 l.

Lemma total_insert {A} (f : A -> Z) l i x y : l !! i = Some x -> total f (<[i := y]> l) = total f l - f x + f y.
Proof.
  revert i. induction l as [|z l IH]; intros [|i] H; simplify_eq/=; [lia|]. rewrite (IH i H). lia.
Qed.

Lemma total_ext {A B} (f : A -> Z) (g : B -> Z) (h : B -> A) l :
  Forall (fun x => f (h x) = g x) l -> total f (h <$> l) = total g l.
Proof. induction 1 as [|x l Hx _ IH]; cbn; [done|]. rewrite Hx. f_equal. apply IH. Qed.

Lemma count_Inc ls c v : count ls (Inc c v) = count ls v + Z.b2z (bool_decide (c = ls)).
Proof.
  unfold count, Inc. case_bool_decide as H; cbn [Z.b2z].
  - subst. rewrite lookup_insert_eq. done.
  - rewrite lookup_insert_ne by done. lia.
Qed.

Lemma count_resolve ls c v : count ls (WithLabelValues c v) = count ls v.
Proof.
  unfold count at 1, WithLabelValues. destruct (decide (c = ls)) as [->|Hn].
  - by rewrite lookup_insert_eq.
  - by rewrite lookup_insert_ne.
Qed.

Lemma bits_app l f b m x :
  reading (with_bits (<[l := default [] (probeECSPrefixBits m !! l) ++ [x]]> (probeECSPrefixBits m)) m) (SBits f b)
  = reading m (SBits f b) + Z.b2z (bool_decide (l = f) && (x =? b)).
Proof.
  cbn [reading with_bits probeECSPrefixBits]. case_bool_decide as H; cbn [andb Z.b2z].
  - subst. rewrite lookup_insert_eq. cbn [default id from_option]. rewrite count_occ_app. cbn [count_occ].
    destruct (Z.eq_dec x b), (Z.eqb_spec x b); cbn [Z.b2z]; try done; lia.
  - rewrite lookup_insert_ne by done. lia.
Qed.

(** ** One step *)

(** What a query holds between two of its steps is its own series, and it
    only fills a slot of the arrays. *)
Definition pc_ok (o : Observation) (pc : PC) : Prop :=
  match pc with
  | LookupObservation => 0 <= transportIndex (ob_Transport o)
  | FillObservation c => 0 <= transportIndex (ob_Transport o) /\ c = observation_labels o
  | IncObservation c => c = observation_labels o
  | LookupEncrypted => 0 <= transportIndex (ob_Transport o) /\ TLS o = None
  | FillEncrypted c => (0 <= transportIndex (ob_Transport o) /\ TLS o = None) /\ c = encrypted_labels o
  | IncEncrypted c => c = encrypted_labels o
  | _ => True
  end.

(** The series that exist are some query's. *)
Definition series_of (os : list Observation) (m : Metrics) : Prop :=
  forall ls, is_Some (probeObservations m !! ls) -> ls ∈ observation_labels <$> os.

(** A step that leaves the caches alone. *)
Ltac caches_kept := cbn; destruct_and?; split_and!; try done; try (by split); try (by left; lia).

Lemma query_step_ok o pc m :
  pc_ok o pc -> caches_ok m ->
  let '(pc', m') := query_step o pc m in
  pc_ok o pc' /\ caches_ok m' /\ (rank pc < rank pc' \/ pc = Counted)%nat.
Proof.
  intros Hpc [H1 H2]. destruct pc; cbn [query_step pc_ok] in *.
  - destruct (Z.ltb_spec (transportIndex (ob_Transport o)) 0) as [|H0]; [caches_kept|].
    destruct (observationCounters m !! observation_index o) as [c|] eqn:E; caches_kept.
    destruct (H1 _ _ E) as (o' & Ho' & Hi & ->). by apply observation_index_labels.
  - caches_kept.
  - destruct Hpc as [H0 ->]. cbn. split_and!; [done| |left; lia]. split; [|done]. cbn.
    intros i ls [[<- <-]|[_ Hi]]%lookup_insert_Some; [by exists o|by apply H1].
  - caches_kept.
  - destruct (ECS o && _); caches_kept.
  - destruct (Z.ltb_spec (transportIndex (ob_Transport o)) 0) as [|H0]; cbn [orb]; [caches_kept|].
    unfold is_some_tls. destruct (TLS o) eqn:Et; [caches_kept|].
    destruct (cleartextCounters m !! transportIndex (ob_Transport o)) as [c|] eqn:E; caches_kept.
    destruct (H2 _ _ E) as (o' & Ho' & Ht & Hi & ->). by apply encrypted_label.
  - caches_kept.
  - destruct Hpc as [[H0 Ht] ->]. cbn. split_and!; [done| |left; lia]. split; [done|]. cbn.
    intros i ls [[<- <-]|[_ Hi]]%lookup_insert_Some; [by exists o|by apply H2].
  - caches_kept.
  - destruct (0 <? _); caches_kept.
  - cbn. split_and!; [done|by split|by right].
Qed.

Lemma reading_resolve o m s :
  reading (resolve_observation o m) s = reading m s /\ reading (resolve_encrypted o m) s = reading m s.
Proof. unfold resolve_observation, resolve_encrypted. destruct s; split; try done; apply count_resolve. Qed.

(** A step changes a reading by what the query adds when it passes. *)
Lemma query_step_reads o pc m s :
  pc_ok o pc ->
  let '(pc', m') := query_step o pc m in
  reading m' s - added s (o, pc') = reading m s - added s (o, pc).
Proof.
  intros Hpc. unfold added. destruct (reading_resolve o m s) as [R1 R2].
  destruct pc; cbn [query_step pc_ok fst snd] in *.
  - destruct (_ <? 0); [|destruct (_ !! _)]; rewrite ?R1; by destruct s.
  - rewrite R1. by destruct s.
  - by destruct s.
  - subst. destruct s; try done. cbn [due rank Nat.leb]. unfold adds. cbn [reading with_observation probeObservations].
    rewrite count_Inc. lia.
  - destruct s as [| f b | |]; cbn [due rank Nat.leb]; try (by destruct (ECS o && _)).
    unfold adds. destruct (ECS o && _); cbn [andb Z.b2z]; [|lia]. rewrite bits_app. lia.
  - destruct (_ || _); [|destruct (_ !! _)]; rewrite ?R2; by destruct s.
  - rewrite R2. by destruct s.
  - by destruct s.
  - subst. destruct s; try done. cbn [due rank Nat.leb]. unfold adds. cbn [reading with_encrypted probeEncrypted].
    rewrite count_Inc. lia.
  - destruct s; cbn [due rank Nat.leb]; try (by destruct (0 <? _)).
    unfold adds. destruct (0 <? _); cbn [andb Z.b2z]; [|lia].
    cbn [reading inc_knowledge probeKeyTagKnowledge]. rewrite count_Inc. lia.
  - done.
Qed.

Lemma query_step_series os o pc m :
  o ∈ os -> pc_ok o pc -> series_of os m -> series_of os (query_step o pc m).2.
Proof.
  intros Ho Hpc Hm.
  assert (Hin : forall v n ls, v = <[observation_labels o := n]> (probeObservations m) -> is_Some (v !! ls) ->
                               ls ∈ observation_labels <$> os).
  { intros v n ls -> [x [[<- _]|[_ Hx]]%lookup_insert_Some]; [by apply list_elem_of_fmap_2|]. apply Hm. by exists x. }
  destruct pc; cbn [query_step pc_ok] in *.
  - destruct (_ <? 0); [|by destruct (_ !! _)]. intros ls. by eapply Hin.
  - intros ls. by eapply Hin.
  - done.
  - subst. intros ls. by eapply Hin.
  - by destruct (_ && _).
  - destruct (_ || _); [done|]. by destruct (_ !! _).
  - done.
  - done.
  - done.
  - by destruct (_ <? _).
  - done.
Qed.

(** ** A query that is not disturbed *)

Lemma Inc_resolve ls v : Inc ls (WithLabelValues ls v) = Inc ls v.
Proof. unfold Inc at 1. rewrite count_resolve. unfold WithLabelValues. by rewrite insert_insert_eq. Qed.

Definition observation_part (o : Observation) (m : Metrics) : Metrics :=
  let '(c, cache) := observationCounter o (observationCounters m) in
  with_observation (Inc c (probeObservations m)) cache m.
Definition encrypted_part (o : Observation) (m : Metrics) : Metrics :=
  let '(c, cache) := encryptedCounter o (cleartextCounters m) in
  with_encrypted (Inc c (probeEncrypted m)) cache m.

Abbreviation advance o := (fun s : PC * Metrics => query_step o s.1 s.2).

(** Steps of known branches, computed; a label set resolved and incremented
    is incremented. *)
Ltac take_steps :=
  split; [lia|]; cbn [Nat.iter nat_rect query_step fst snd];
  repeat match goal with E : _ = ?b |- context [if ?c then _ else _] => rewrite E; cbn [query_step fst snd] end;
  repeat match goal with E : ?x = _ |- context [match ?x with Some _ => _ | None => _ end] =>
                           rewrite E; cbn [query_step fst snd] end;
  unfold resolve_observation, resolve_encrypted;
  cbn [with_observation with_encrypted probeObservations probeEncrypted observationCounters cleartextCounters];
  rewrite ?Inc_resolve; reflexivity.

(** Two steps when the slot is full or passed over, four when it is empty. *)
Lemma observation_steps o m :
  exists n, (n <= 4)%nat /\ Nat.iter n (advance o) (LoadObservation, m) = (ObserveBits, observation_part o m).
Proof.
  unfold observation_part, observationCounter, cachedCounter. destruct (transportIndex _ <? 0) eqn:Et.
  - exists 2%nat. take_steps.
  - destruct (observationCounters m !! _) as [c|] eqn:E.
    + exists 2%nat. take_steps.
    + exists 4%nat. take_steps.
Qed.

Lemma encrypted_steps o m :
  exists n, (n <= 4)%nat /\ Nat.iter n (advance o) (LoadEncrypted, m) = (IncKeyTags, encrypted_part o m).
Proof.
  unfold encrypted_part, encryptedCounter, cachedCounter. destruct (_ || _) eqn:Et.
  - exists 2%nat. take_steps.
  - destruct (cleartextCounters m !! _) as [c|] eqn:E.
    + exists 2%nat. take_steps.
    + exists 4%nat. take_steps.
Qed.

Lemma counted_stays o n m : Nat.iter n (advance o) (Counted, m) = (Counted, m).
Proof. induction n as [|n IH]; [done|]. by rewrite Nat.iter_succ, IH. Qed.

(** Its steps together are [recordMetrics]. *)
Lemma alone_iter o m : Nat.iter steps (advance o) (LoadObservation, m) = (Counted, recordMetrics o m).
Proof.
  destruct (observation_steps o m) as (n1 & Hn1 & E1).
  set (m1 := (query_step o ObserveBits (observation_part o m)).2).
  destruct (encrypted_steps o m1) as (n2 & Hn2 & E2).
  replace steps with ((8 - n1 - n2) + (1 + (n2 + (1 + n1))))%nat by (unfold steps; lia).
  rewrite !Nat.iter_add, E1. change (Nat.iter 1 (advance o) (ObserveBits, observation_part o m)) with (LoadEncrypted, m1).
  rewrite E2. cbn [Nat.iter nat_rect query_step fst snd]. fold (Nat.iter (8 - n1 - n2) (advance o)). rewrite counted_stays. f_equal.
  unfold m1, encrypted_part, recordMetrics, observation_part. cbn [query_step fst snd].
  destruct (observationCounter _ _) as [c cache]. by destruct (encryptedCounter _ _).
Qed.

Lemma alone o m : run_alone o m = (Counted, recordMetrics o m).
Proof. apply alone_iter. Qed.

Lemma advance_reads o s n m :
  caches_ok m ->
  let '(pc', m') := Nat.iter n (advance o) (LoadObservation, m) in
  pc_ok o pc' /\ caches_ok m' /\ reading m' s - added s (o, pc') = reading m s.
Proof.
  intros Hm. induction n as [|n IH]; [|rewrite Nat.iter_succ].
  { split_and!; [done|done|]. unfold added. destruct s; cbn; lia. }
  destruct (Nat.iter n _ _) as [pc m1]. destruct IH as (H1 & H2 & H3). cbn [fst snd].
  pose proof (query_step_ok o pc m1 H1 H2). pose proof (query_step_reads o pc m1 s H1).
  destruct (query_step o pc m1) as [pc' m2]. split_and!; try tauto. lia.
Qed.

Lemma record_reads o m s :
  caches_ok m -> reading (recordMetrics o m) s = reading m s + adds o s /\ caches_ok (recordMetrics o m).
Proof.
  intros Hm. pose proof (advance_reads o s steps m Hm) as H. rewrite alone_iter in H.
  destruct H as (_ & H1 & H2). split; [|done]. unfold added in H2. destruct s; cbn [due rank Nat.leb fst snd] in H2; lia.
Qed.

Lemma record_all_reads os m s :
  caches_ok m -> reading (record_all os m) s = reading m s + total (fun o => adds o s) os.
Proof.
  revert m. induction os as [|o os IH]; intros m Hm; cbn [record_all foldl total foldr]; [lia|].
  destruct (record_reads o m s Hm) as [H1 H2]. fold (record_all os (recordMetrics o m)). rewrite IH by done.
  unfold total. lia.
Qed.

(** ** Every schedule *)

(** Between any two turns. *)
Record race_ok (os : list Observation) (w : Race) : Prop := {
  ro_queries : (queries w).*1 = os;
  ro_pc : Forall (fun q => pc_ok q.1 q.2) (queries w);
  ro_caches : caches_ok (counters w);
  ro_series : series_of os (counters w);
  ro_reads : forall s, reading (counters w) s = total (added s) (queries w)
}.

Lemma race_start_ok os : race_ok os (start os).
Proof.
  split; cbn [queries counters start].
  - rewrite <- list_fmap_compose. apply list_fmap_id.
  - apply Forall_fmap, Forall_true. done.
  - apply zero_caches_ok.
  - intros ls [x Hx]. cbn in Hx. by rewrite lookup_empty in Hx.
  - intros s. assert (Hz : reading zero_metrics s = 0) by (destruct s; cbn; by rewrite ?lookup_empty). rewrite Hz.
    induction os as [|o os IH]; [done|]. cbn [fmap list_fmap total foldr].
    assert (Ha : added s (o, LoadObservation) = 0) by (unfold added; by destruct s). rewrite Ha. apply IH.
Qed.

Lemma turn_ok os w i : race_ok os w -> race_ok os (turn w i).
Proof.
  intros [H1 H2 H3 H4 H5]. unfold turn. destruct (queries w !! i) as [[o pc]|] eqn:E; [|by split].
  pose proof (Forall_lookup_1 _ _ _ _ H2 E) as Hpc. cbn [fst snd] in Hpc.
  assert (Ho : o ∈ os) by (rewrite <- H1; apply list_elem_of_fmap; exists (o, pc); split; [done|by eapply list_elem_of_lookup_2]).
  pose proof (query_step_ok o pc (counters w) Hpc H3) as Hs.
  pose proof (query_step_series os o pc (counters w) Ho Hpc H4) as Hse.
  pose proof (fun s => query_step_reads o pc (counters w) s Hpc) as Hr.
  destruct (query_step o pc (counters w)) as [pc' m]. destruct Hs as (Hpc' & Hm & _). split; cbn [queries counters].
  - rewrite list_fmap_insert, H1. apply list_insert_id. rewrite <- H1, list_lookup_fmap, E. done.
  - by apply Forall_insert.
  - done.
  - done.
  - intros s. rewrite (total_insert _ _ _ _ _ E), <- H5. specialize (Hr s). cbn in Hr. lia.
Qed.

Lemma race_snoc os sched i : race os (sched ++ [i]) = turn (race os sched) i.
Proof. unfold race. by rewrite foldl_app. Qed.

Lemma race_kept os sched : race_ok os (race os sched).
Proof.
  induction sched as [|i sched IH] using rev_ind; [apply race_start_ok|]. rewrite race_snoc. by apply turn_ok.
Qed.

Lemma turn_rank os w i j o pc pc' :
  race_ok os w -> queries w !! i = Some (o, pc) -> queries (turn w j) !! i = Some (o, pc') ->
  (Nat.min steps (rank pc + (if decide (j = i) then 1 else 0)) <= rank pc')%nat.
Proof.
  intros Hw Hi. unfold turn. destruct (queries w !! j) as [[o2 pc2]|] eqn:Ej.
  2:{ rewrite Hi. intros [= <-]. destruct (decide (j = i)); [by simplify_eq|lia]. }
  pose proof (Forall_lookup_1 _ _ _ _ (ro_pc _ _ Hw) Ej) as Hpc.
  pose proof (query_step_ok o2 pc2 (counters w) Hpc (ro_caches _ _ Hw)) as Hs.
  destruct (query_step o2 pc2 (counters w)) as [pc3 m] eqn:Eq. destruct Hs as (_ & _ & Hs). cbn [queries].
  destruct (decide (j = i)) as [->|Hn].
  - rewrite Hi in Ej. injection Ej as -> ->. rewrite list_lookup_insert_eq by (by eapply lookup_lt_Some).
    intros [= <-]. destruct Hs as [Hs | ->]; [lia|]. cbn in Eq. injection Eq as <- <-. cbn. unfold steps. lia.
  - rewrite list_lookup_insert_ne, Hi by done. intros [= <-]. lia.
Qed.

(** A query is at least as far as it had turns. *)
Lemma race_rank os sched i o pc :
  queries (race os sched) !! i = Some (o, pc) -> (Nat.min steps (count_occ Nat.eq_dec sched i) <= rank pc)%nat.
Proof.
  revert pc. induction sched as [|j sched IH] using rev_ind; intros pc; [cbn; lia|].
  rewrite race_snoc. intros H.
  assert (Hq : exists pc0, queries (race os sched) !! i = Some (o, pc0)).
  { pose proof (ro_queries _ _ (race_kept os sched)) as H1.
    pose proof (ro_queries _ _ (turn_ok _ _ j (race_kept os sched))) as H2.
    assert (Ho : os !! i = Some o) by (rewrite <- H2, list_lookup_fmap, H; done).
    rewrite <- H1, list_lookup_fmap in Ho. destruct (queries _ !! i) as [[o' pc0]|] eqn:E; [|done].
    cbn in Ho. injection Ho as ->. by exists pc0. }
  destruct Hq as [pc0 Hq]. specialize (IH _ Hq). pose proof (turn_rank _ _ _ _ _ _ _ (race_kept os sched) Hq H) as Hr.
  rewrite count_occ_app. cbn [count_occ]. destruct (Nat.eq_dec j i), (decide (j = i)); try done; lia.
Qed.

Lemma race_done os sched :
  (forall i, (i < length os)%nat -> (steps <= count_occ Nat.eq_dec sched i)%nat) ->
  queries (race os sched) = (fun o => (o, Counted)) <$> os.
Proof.
  intros H. pose proof (ro_queries _ _ (race_kept os sched)) as H1. apply list_eq. intros i.
  assert (Hos : os !! i = fst <$> queries (race os sched) !! i) by (by rewrite <- list_lookup_fmap, H1).
  rewrite list_lookup_fmap, Hos.
  destruct (queries (race os sched) !! i) as [[o pc]|] eqn:E; cbn; [|done]. do 2 f_equal.
  apply lookup_lt_Some in Hos as Hi.
  apply race_rank in E. specialize (H i Hi). unfold steps in *. destruct pc; cbn [rank snd] in E; first [done|lia].
Qed.

Lemma series_bounded os m :
  series_of os m -> Forall (fun o => 0 <= transportIndex (ob_Transport o)) os ->
  Z.of_nat (size (probeObservations m)) <= observationKinds.
Proof.
  intros Hm Hos. rewrite <- all_labels_length.
  assert (Hd : dom (probeObservations m) ⊆ list_to_set (C := gset (list bytes)) all_labels).
  { intros ls Hls%elem_of_dom. apply elem_of_list_to_set. apply Hm, list_elem_of_fmap in Hls as (o & -> & Ho).
    apply labels_listed. by eapply Forall_forall in Hos. }
  apply subseteq_size in Hd. rewrite size_dom in Hd. pose proof (set_size_le all_labels). lia.
Qed.

(** C17: counting is exact however queries run in parallel.  A query that runs
    alone does what [recordMetrics] does.  Under any schedule of any queries,
    at every moment: each series reads exactly how many of its queries have
    got past their increment, so none is lost, counted twice or counted for
    another series, whoever filled the slot it went through; the caches'
    slots lie in their arrays and hold the series of their index; and over
    the transports the plugin knows there are at most 720 observation series.
    No query waits for another: once each had as many turns as its longest
    way has steps, all are counted, and every series reads what counting them
    one after another gives. *)
Theorem parallel_counts os sched :
  (forall o m, run_alone o m = (Counted, recordMetrics o m)) /\
  (forall s, reading (counters (race os sched)) s = total (added s) (queries (race os sched))) /\
  (forall i ls, observationCounters (counters (race os sched)) !! i = Some ls ->
    0 <= i < observationKinds /\ forall o, 0 <= transportIndex (ob_Transport o) -> observation_index o = i ->
                                           observation_labels o = ls) /\
  (Forall (fun o => 0 <= transportIndex (ob_Transport o)) os ->
   Z.of_nat (size (probeObservations (counters (race os sched)))) <= observationKinds) /\
  ((forall i, (i < length os)%nat -> (steps <= count_occ Nat.eq_dec sched i)%nat) ->
   queries (race os sched) = ((fun o => (o, Counted)) <$> os) /\
   forall s, reading (counters (race os sched)) s = reading (record_all os zero_metrics) s).
Proof.
  pose proof (race_kept os sched) as [_ _ Hc Hs Hr]. split; [apply alone|]. split; [done|]. split; [|split].
  - intros i ls (o & Ho & -> & ->)%(co_obs _ Hc). split; [by apply observation_index_range|].
    intros o' Ho' Hi. by apply observation_index_labels.
  - by apply series_bounded.
  - intros H. pose proof (race_done os sched H) as Hq. split; [done|]. intros s. rewrite Hr, Hq.
    rewrite (total_ext _ (fun o => adds o s)) by (apply Forall_true; intros o; unfold added; by destruct s).
    rewrite record_all_reads by apply zero_caches_ok. by destruct s.
Qed.

(** Two queries that find the same slot empty, and both fill it. *)
Lemma parallel_counts_witness :
  let o := Observe 1 {| ProbeLabels.Token := bs "deadbeef"; ProbeLabels.Mods := 0 |} (bs "deadbeef.check.test.")
             (Addr4 0xc0000207) TransportUDP 1 Dns.new_msg in
  let w := race [o; o] (concat (repeat [0%nat; 1%nat] 10)) in
  count (observation_labels o) (probeObservations (counters (race [o; o] [0; 1; 0; 1; 0; 0; 1]%nat))) = 1 /\
  count (observation_labels o) (probeObservations (counters w)) = 2 /\
  Z.of_nat (size (probeObservations (counters w))) <= 720 /\
  reading (counters w) (SObservation (observation_labels o))
    = reading (record_all [o; o] zero_metrics) (SObservation (observation_labels o)).
Proof.
  cbv zeta. set (o := Observe _ _ _ _ _ _ _).
  destruct (parallel_counts [o; o] (concat (repeat [0%nat; 1%nat] 10))) as (_ & _ & _ & H1 & H2).
  split; [vm_compute; reflexivity|]. split; [vm_compute; reflexivity|]. split.
  - apply H1. repeat (apply Forall_cons; split; [vm_compute; by intros|]). constructor.
  - apply H2. intros [|[|i]] Hi; cbn in Hi |- *; unfold steps; lia.
Defined.
