(* ===== verification/ProbeDnssd.v ===== *)
(** * The browse tree under every token ([probe/dnssd.go])

    RFC 6763's three levels, recognised below the zone by their fixed labels
    and answered with records that lead to the next level. *)

From S2P Require Import Prelude GoStrings Dns ProbeLabels ProbeKeyTag.

Definition dnssdMetaService : bytes := bs "_services".
Definition dnssdMetaDNSSD : bytes := bs "_dns-sd".
Definition dnssdMetaUDP : bytes := bs "_udp".
Definition dnssdServiceType : bytes := bs "_probe".
Definition dnssdProto : bytes := bs "_tcp".
Definition dnssdInstance : bytes := bs "probe".
Definition dnssdPort : Z := 443.

Inductive dnssdKind := dnssdNone | dnssdBrowse | dnssdEnumerate | dnssdInstanceName.

#[global] Instance dnssdKind_eq_dec : EqDecision dnssdKind.
Proof. solve_decision. Defined.

Fixpoint labelsEqualFold (name : bytes) (labels : list bytes) : bool :=
  match labels with
  | [] => beqb name []
  | want :: rest =>
      match index_byte name ldot with
      | Some j => if negb (equalFoldASCII (take j name) want) then false
                  else labelsEqualFold (drop (S j) name) rest
      | None => match rest with
                | [] => if negb (equalFoldASCII name want) then false else labelsEqualFold [] rest
                | _ => false
                end
      end
  end.

Definition parseDNSSD (sub : bytes) : dnssdKind * bytes :=
  let sub := trim_suffix sub (bs ".") in
  match last_index_byte sub ldot with
  | None => (dnssdNone, [])
  | Some i =>
      match parseToken (drop (S i) sub) with
      | None => (dnssdNone, [])
      | Some token =>
          let prefix := take i sub in
          if labelsEqualFold prefix [dnssdMetaService; dnssdMetaDNSSD; dnssdMetaUDP] then (dnssdBrowse, token)
          else if labelsEqualFold prefix [dnssdInstance; dnssdServiceType; dnssdProto] then (dnssdInstanceName, token)
          else if labelsEqualFold prefix [dnssdServiceType; dnssdProto] then (dnssdEnumerate, token)
          else (dnssdNone, [])
      end
  end.

(** The names of a token's tree: browse, enumerate, instance. *)
Definition dnssdNames (zone token : bytes) : bytes * bytes * bytes :=
  let base := token ++ dot ++ zone in
  let browse := dnssdMetaService ++ dot ++ dnssdMetaDNSSD ++ dot ++ dnssdMetaUDP ++ dot ++ base in
  let enumerate := dnssdServiceType ++ dot ++ dnssdProto ++ dot ++ base in
  let instance := dnssdInstance ++ dot ++ enumerate in
  (browse, enumerate, instance).

Definition dnssd_hdr (ttl : Z) (name : bytes) (rrtype : Z) : Header := mkHeader name rrtype ClassINET ttl 0.

(** One level's answer and additional records. *)
Definition synthesizeDNSSD (zone nsname : bytes) (ttl : Z) (kind : dnssdKind) (token : bytes) (qtype : Z)
  : list RR * list RR :=
  let '(browse, enumerate, instance) := dnssdNames zone token in
  let hdr := dnssd_hdr ttl in
  let srv := mkRR (hdr instance TypeSRV) (RdSRV 0 0 dnssdPort nsname) in
  let txt := mkRR (hdr instance TypeTXT) (RdTXT [bs "txtvers=1"; bs "token=" ++ token]) in
  match kind with
  | dnssdNone => ([], [])
  | dnssdBrowse =>
      if negb (qtype =? TypePTR) && negb (qtype =? TypeANY) then ([], [])
      else ([mkRR (hdr browse TypePTR) (RdPTR enumerate)], [])
  | dnssdEnumerate =>
      if negb (qtype =? TypePTR) && negb (qtype =? TypeANY) then ([], [])
      else ([mkRR (hdr enumerate TypePTR) (RdPTR instance)], [srv; txt])
  | dnssdInstanceName =>
      if qtype =? TypeSRV then ([srv], [])
      else if qtype =? TypeTXT then ([txt], [])
      else if qtype =? TypeANY then ([srv; txt], [])
      else ([], [])
  end.

(** ** Which names are browse names *)

Lemma labelsEqualFold_spec ls ws :
  Forall label_ok ls -> ls <> [] -> ws <> [] ->
  labelsEqualFold (join [ldot] ls) ws = true <-> lower <$> ls = lower <$> ws.
Proof.
  intros Hls. revert ws. induction Hls as [|l r [Hl Hd] Hr IH]; intros ws Hne Hws; [done|].
  destruct ws as [|w ws]; [done|]. cbn [labelsEqualFold].
  destruct r as [|l2 r].
  - cbn [join]. rewrite (proj2 (index_byte_None l ldot) Hd). destruct ws as [|w2 ws]; cbn.
    + rewrite equalFoldASCII_spec. destruct (beqb (lower l) (lower w)) eqn:E; cbn [negb].
      * apply beqb_true in E. by rewrite E.
      * apply beqb_false in E. split; [done|]. by intros [= ?].
    + split; [done|]. by intros [= _ ?].
  - change (join [ldot] (l :: l2 :: r)) with (l ++ ldot :: join [ldot] (l2 :: r)).
    rewrite index_byte_app by done. rewrite take_app_n by done.
    replace (drop (S (length l)) (l ++ ldot :: join [ldot] (l2 :: r))) with (join [ldot] (l2 :: r)).
    2:{ change (l ++ ldot :: join [ldot] (l2 :: r)) with (l ++ [ldot] ++ join [ldot] (l2 :: r)).
        rewrite app_assoc, drop_app_n; [done|]. rewrite length_app. cbn. lia. }
    rewrite equalFoldASCII_spec. cbn [fmap list_fmap].
    destruct (beqb (lower l) (lower w)) eqn:E; cbn [negb].
    + apply beqb_true in E. rewrite E. destruct ws as [|w2 ws].
      * cbn [labelsEqualFold]. split; [|done]. intros H%beqb_true. exfalso.
        apply (f_equal length) in H. destruct l2 as [|? ?]; [by inversion Hr as [|? ? [? ?]]|].
        destruct r; cbn in H; lia.
      * rewrite IH by done. cbn [fmap list_fmap]. split; [by intros ->|by intros [= ? ?]; congruence].
    + apply beqb_false in E. split; [done|]. by intros [= ? _].
Qed.

(** The fixed labels of a level. *)
Definition tree_labels (k : dnssdKind) : list bytes :=
  match k with
  | dnssdNone => []
  | dnssdBrowse => [dnssdMetaService; dnssdMetaDNSSD; dnssdMetaUDP]
  | dnssdEnumerate => [dnssdServiceType; dnssdProto]
  | dnssdInstanceName => [dnssdInstance; dnssdServiceType; dnssdProto]
  end.

Lemma tree_labels_ok k : Forall label_ok (tree_labels k) /\ lower <$> tree_labels k = tree_labels k.
Proof.
  split; [|by destruct k].
  destruct k; repeat (apply Forall_cons; split; [split; [done|by apply index_byte_None]|]); constructor.
Qed.

Lemma parseDNSSD_spec ls t k token :
  Forall label_ok ls -> label_ok t -> k <> dnssdNone ->
  parseDNSSD (join [ldot] (ls ++ [t])) = (k, token) <->
  lower <$> ls = tree_labels k /\ parseToken t = Some token.
Proof.
  intros Hls [Ht Hd] Hk. unfold parseDNSSD. change (bs ".") with [ldot].
  assert (Htr : trim_suffix (join [ldot] (ls ++ [t])) [ldot] = join [ldot] (ls ++ [t])).
  { apply trim_suffix_join; [by destruct ls|]. apply Forall_app. split; [done|]. by constructor. }
  rewrite Htr. destruct (decide (ls = [])) as [->|Hne].
  { cbn [app join]. rewrite (proj2 (last_index_byte_None t ldot) Hd). split; [intros H; congruence|].
    intros [H _]. by destruct k. }
  rewrite join_snoc by done. change (bs ".") with [ldot].
  rewrite last_index_byte_app by done.
  replace (drop (S (length (join [ldot] ls))) (join [ldot] ls ++ ldot :: t)) with t.
  2:{ change (ldot :: t) with ([ldot] ++ t). rewrite app_assoc, drop_app_n; [done|]. rewrite length_app. cbn. lia. }
  rewrite take_app_n by done. destruct (parseToken t) as [tok|]; [|split; [intros H; congruence|by intros [_ ?]]].
  assert (Hspec : forall k', tree_labels k' <> [] ->
            labelsEqualFold (join [ldot] ls) (tree_labels k') = true <-> lower <$> ls = tree_labels k').
  { intros k' Hk'. rewrite labelsEqualFold_spec by done. by rewrite (proj2 (tree_labels_ok k')). }
  assert (Hcase : forall k', tree_labels k' <> [] ->
            labelsEqualFold (join [ldot] ls) (tree_labels k') = bool_decide (lower <$> ls = tree_labels k')).
  { intros k' Hk'. apply eq_true_iff_eq. by rewrite (Hspec k' Hk'), bool_decide_eq_true. }
  change [dnssdMetaService; dnssdMetaDNSSD; dnssdMetaUDP] with (tree_labels dnssdBrowse).
  change [dnssdInstance; dnssdServiceType; dnssdProto] with (tree_labels dnssdInstanceName).
  change [dnssdServiceType; dnssdProto] with (tree_labels dnssdEnumerate).
  rewrite !Hcase by done.
  repeat case_bool_decide; (split; [intros E; injection E as <- <-; done|]); intros [Hl E]; injection E as ->;
    rewrite Hl in *; destruct k; done.
Qed.

(** No level's labels are modifiers. *)
Lemma tree_not_modifiers k m ls : k <> dnssdNone -> lower <$> ls = tree_labels k -> ~ (lower <$> ls) ≡ₚ mod_labels m.
Proof.
  intros Hk -> Hp.
  assert (Hin : forall l, l ∈ tree_labels k -> exists n b, (n, b) ∈ modifierNames /\ l = bs "_" ++ n).
  { intros l Hl. rewrite Hp in Hl. apply elem_of_mod_labels in Hl as (n & b & ? & ? & _). by exists n, b. }
  destruct k; [done|..];
    match type of Hin with forall l, l ∈ tree_labels ?k -> _ =>
      destruct (Hin (nth 1 (tree_labels k) []) ltac:(apply list_elem_of_In; right; left; reflexivity)) as (n & b & Hn & He)
    end; apply list_elem_of_In in Hn; cbn in Hn;
    repeat (destruct Hn as [[= <- <-]|Hn]; [discriminate He|]); done.
Qed.

Lemma parseToken_first t token c r : parseToken t = Some token -> t = c :: r -> lower_byte c <> Byte.x5f.
Proof.
  intros (-> & _ & H)%parseToken_spec -> Hc. rewrite lower_cons, Hc in H. cbn in H. done.
Qed.

Lemma token_not_keytag t token : parseToken t = Some token -> has_prefix (bs "_ta-") (lower t) = false.
Proof.
  intros H. destruct t as [|c r]; [done|]. pose proof (parseToken_first _ _ _ _ H eq_refl) as Hc.
  rewrite lower_cons. apply not_true_iff_false. intros (u & Hu)%has_prefix_spec. by injection Hu.
Qed.

(** Below the zone a name of at least one label is read in at most one
    way.  It is a level of a token's browse tree exactly when its last label
    is a token and the ones before it are that level's, in any letter case;
    a name that is one is neither a query nor a Key Tag query, and a query is
    not a Key Tag query, so the order the handler tries them in does not
    matter. *)
Theorem names_unambiguous ls t :
  Forall label_ok ls -> label_ok t ->
  let sub := join [ldot] (ls ++ [t]) in
  (forall k token, k <> dnssdNone ->
     parseDNSSD sub = (k, token) <-> lower <$> ls = tree_labels k /\ parseToken t = Some token) /\
  ((parseDNSSD sub).1 <> dnssdNone -> ParseQuery sub = None /\ ParseKeyTagQuery sub = Err ErrNotKeyTagQuery) /\
  (forall q, ParseQuery sub = Some q ->
     (parseDNSSD sub).1 = dnssdNone /\ ParseKeyTagQuery sub = Err ErrNotKeyTagQuery).
Proof.
  intros Hls Ht sub. split; [intros k token Hk; by apply parseDNSSD_spec|].
  assert (Hkt : forall token, parseToken t = Some token -> ParseKeyTagQuery sub = Err ErrNotKeyTagQuery).
  { intros token H. apply ParseKeyTagQuery_other. unfold sub. destruct (decide (ls = [])) as [->|Hne].
    - right. by apply (token_not_keytag t token).
    - left. rewrite join_snoc by done. rewrite elem_of_app. right. left. }
  assert (Hex : forall q, ParseQuery sub = Some q -> (parseDNSSD sub).1 <> dnssdNone -> False).
  { intros q (_ & _ & Hp)%(ParseQuery_spec ls t q Hls Ht) Hk. destruct (parseDNSSD sub) as [k token] eqn:E. cbn in Hk.
    apply (parseDNSSD_spec ls t k token Hls Ht Hk) in E as [El _]. by apply (tree_not_modifiers k (Mods q) ls). }
  split.
  - intros Hk. split; [destruct (ParseQuery sub) eqn:E; [exfalso; by eapply Hex|done]|].
    destruct (parseDNSSD sub) as [k token] eqn:E. cbn in Hk.
    apply (parseDNSSD_spec ls t k token Hls Ht Hk) in E as [_ Et]. by apply (Hkt token).
  - intros q Hq. split; [destruct (decide ((parseDNSSD sub).1 = dnssdNone)); [done|exfalso; by eapply Hex]|].
    pose proof Hq as (Hv & Hl & _)%(ParseQuery_spec ls t q Hls Ht). apply (Hkt (Token q)).
    apply parseToken_spec. apply Query_Validate_spec in Hv as [[Hv Hh] _]. by rewrite Hl.
Qed.

Lemma names_unambiguous_witness :
  let ls := [bs "_SERVICES"; bs "_dns-sd"; bs "_udp"] in let t := bs "DEADbeef" in
  parseDNSSD (join [ldot] (ls ++ [t])) = (dnssdBrowse, bs "deadbeef") /\
  ParseQuery (join [ldot] (ls ++ [t])) = None /\
  ParseKeyTagQuery (join [ldot] (ls ++ [t])) = Err ErrNotKeyTagQuery.
Proof.
  cbv zeta. set (ls := [_; _; _]). set (t := bs "DEADbeef").
  assert (Hls : Forall label_ok ls)
    by (repeat (apply Forall_cons; split; [split; [done|by apply index_byte_None]|]); constructor).
  assert (Ht : label_ok t) by (split; [done|by apply index_byte_None]).
  destruct (names_unambiguous ls t Hls Ht) as (H1 & H2 & _).
  assert (E : parseDNSSD (join [ldot] (ls ++ [t])) = (dnssdBrowse, bs "deadbeef"))
    by (apply H1; [done|]; vm_compute; done).
  split; [exact E|]. apply H2. by rewrite E.
Defined.

(** The walk: the names of a token's tree, with the zone taken off, are its
    levels, and each level's answer names the next. *)
Definition below (zone name : bytes) : bytes := trim_suffix (trim_suffix name zone) dot.

Lemma below_zone zone s : below zone (s ++ dot ++ zone) = s.
Proof. unfold below. by rewrite app_assoc, trim_suffix_app, trim_suffix_app. Qed.

Lemma dnssd_walk zone ns ttl token :
  parseToken token = Some token ->
  let '(browse, enumerate, instance) := dnssdNames zone token in
  parseDNSSD (below zone browse) = (dnssdBrowse, token) /\
  parseDNSSD (below zone enumerate) = (dnssdEnumerate, token) /\
  parseDNSSD (below zone instance) = (dnssdInstanceName, token) /\
  (Data <$> (synthesizeDNSSD zone ns ttl dnssdBrowse token TypePTR).1) = [RdPTR enumerate] /\
  (Data <$> (synthesizeDNSSD zone ns ttl dnssdEnumerate token TypePTR).1) = [RdPTR instance] /\
  (Data <$> (synthesizeDNSSD zone ns ttl dnssdInstanceName token TypeSRV).1) = [RdSRV 0 0 dnssdPort ns].
Proof.
  intros Ht. cbn [dnssdNames].
  assert (Hok : label_ok token).
  { pose proof (proj1 (parseToken_spec _ _) Ht) as (_ & Hl & Hh). split; [by intros ->|].
    by destruct (hex_bytes_lower token Hh). }
  assert (Hk : forall k, k <> dnssdNone -> parseDNSSD (join [ldot] (tree_labels k ++ [token])) = (k, token)).
  { intros k Hk. apply parseDNSSD_spec; [apply (tree_labels_ok k)|exact Hok|exact Hk|].
    exact (conj (proj2 (tree_labels_ok k)) Ht). }
  assert (E1 : below zone (dnssdMetaService ++ dot ++ dnssdMetaDNSSD ++ dot ++ dnssdMetaUDP ++ dot ++ token ++ dot ++ zone)
               = join [ldot] (tree_labels dnssdBrowse ++ [token])).
  { by rewrite <- (below_zone zone (join _ _)). }
  assert (E2 : below zone (dnssdServiceType ++ dot ++ dnssdProto ++ dot ++ token ++ dot ++ zone)
               = join [ldot] (tree_labels dnssdEnumerate ++ [token])).
  { by rewrite <- (below_zone zone (join _ _)). }
  assert (E3 : below zone (dnssdInstance ++ dot ++ dnssdServiceType ++ dot ++ dnssdProto ++ dot ++ token ++ dot ++ zone)
               = join [ldot] (tree_labels dnssdInstanceName ++ [token])).
  { by rewrite <- (below_zone zone (join _ _)). }
  rewrite E1, E2, E3, !Hk by done. done.
Qed.
