(* ===== verification/ProbeServe.v ===== *)
(** * Serving the probe zone ([probe/probe.go], [probe/agent.go])

    [ServeDNS]: which of the two zones and which of the name grammars a query
    belongs to, what is observed and counted, and the message that is written.
    CoreDNS's [request.Request] and the signer's cryptography are parameters;
    the store is any implementation of the [Store] interface.  Time is
    nanoseconds since Go's zero time, one reading per query. *)

From S2P Require Import Prelude GoStrings Netip Dns SimpleDns ProbeLabels ProbeKeyTag ProbeObserve.
From S2P Require Import ProbeReport ProbeStore ProbeWire ProbeSign ProbeMetrics ProbeDnssd.

(** ** What is around the plugin *)

(** [request.Request] and [plugin.Name]. *)
Class RequestLib := {
  state_Name : Request -> bytes;
  state_QType : Request -> Z;
  state_QClass : Request -> Z;
  state_Do : Request -> bool;
  SizeAndDo : Request -> Msg -> Msg;
  Scrub : Request -> Msg -> Msg;
  Name_Matches : bytes -> bytes -> bool      (* zone, child *)
}.

(** The peer's address, as the kinds [addrOf] tells apart; a nil [IP] is
    empty. *)
Inductive RemoteAddr := UDPAddr (ip : bytes) | TCPAddr (ip : bytes) | OtherAddr.

(** The connection: the peer, the writer as [transportFrom] sees it, and
    whether a write succeeds. *)
Record Conn := { c_remote : RemoteAddr; c_writer : Writer; c_writes : bool }.

Definition WriteMsg (c : Conn) (m : Msg) : Outcome :=
  if c_writes c then write_one m else {| written := []; code := RcodeServerFailure |}.

(** The [Store] interface: [Record] gives back the observation as it counts
    it and whether it failed, [RecordReport] whether it failed. *)
Class StoreLib (S : Type) := {
  do_Record : Z -> Observation -> S -> S * Observation * bool;
  do_RecordReport : Z -> ReportRecord -> S -> S * bool
}.

(** What a store may change of an observation it gives back. *)
Class StoreLaws {S} (L : StoreLib S) : Prop := {
  Record_counts clock o s : exists t n, (do_Record clock o s).1.2 = set_seen (set_at o t) n
}.

#[global] Instance memstore_store : StoreLib MemStore := {
  do_Record := Store_Record;
  do_RecordReport := RecordReport
}.

#[global] Instance memstore_laws : StoreLaws memstore_store.
Proof.
  split. intros clock o s. cbn. unfold Store_Record. set (now := if At o =? 0 then clock else At o).
  destruct (entries _ !! _) as [e|].
  - destruct (_ <=? zlen (items e)); by eexists _, _.
  - destruct (_ <=? _); [by eexists _, _|]. destruct (new_entry _ _ _) as [sh e].
    destruct (_ <=? zlen (items e)); by eexists _, _.
Qed.

(** ** The plugin *)

Record Probe (P : Type) := mkProbe {
  p_Signer : option (Signer P);
  p_Zone : bytes;
  p_NSName : bytes;
  p_Mbox : bytes;
  p_AgentDomain : bytes;
  p_ECHConfigList : bytes;
  p_BigSize : Z;
  p_TTL : Z;
  p_AgentTTL : Z
}.
Arguments p_Signer {P}. Arguments p_Zone {P}. Arguments p_NSName {P}. Arguments p_Mbox {P}.
Arguments p_AgentDomain {P}. Arguments p_ECHConfigList {P}. Arguments p_BigSize {P}. Arguments p_TTL {P}.
Arguments p_AgentTTL {P}.

(** [cachedSig], by its slot: when it was made and what [sign] gave. *)
Abbreviation sig_cache := (gmap Z (Z * option RR)).

(** What serving a query changes. *)
Record State (S : Type) := mkState { store : S; metrics : Metrics; soaSigs : sig_cache }.
Arguments mkState {S}. Arguments store {S}. Arguments metrics {S}. Arguments soaSigs {S}.

Definition with_metrics {S} (f : Metrics -> Metrics) (s : State S) : State S :=
  mkState (store s) (f (metrics s)) (soaSigs s).
Definition with_sigs {S} (c : sig_cache) (s : State S) : State S := mkState (store s) (metrics s) c.
Definition with_store {S} (x : S) (s : State S) : State S := mkState x (metrics s) (soaSigs s).

Definition soaRefreshSeconds : Z := 3600.
Definition soaRetrySeconds : Z := 900.
Definition soaExpireSeconds : Z := 604800.

Definition signatureMods : Z := Z.lor ModUnsigned (Z.lor ModBadSig (Z.lor ModExpiredSig ModFutureSig)).
Definition soaSigMaxAge : Z := 30 * 10 ^ 9.

(** ** Names and addresses *)

Definition zoneMatches `{RequestLib} (zone qname : bytes) : bool :=
  if beqb zone dot || beqb qname zone then true
  else match index_byte qname Byte.x5c with
       | Some _ => Name_Matches zone qname
       | None =>
           let n := zlen qname - zlen zone in
           (0 <? n) && bool_decide (qname !! Z.to_nat (n - 1) = Some ldot) && beqb (drop (Z.to_nat n) qname) zone
       end.

Definition addrOf (c : Conn) (st : Request) : Addr :=
  let ip := match c_remote c with UDPAddr ip => ip | TCPAddr ip => ip | OtherAddr => [] end in
  match AddrFromSlice ip with
  | Some addr => Unmap addr
  | None => match ParseAddr (SrcIP st) with Some addr => Unmap addr | None => AddrZero end
  end.

(** ** Text *)

Definition maxChunk : nat := 255.

(** The loop of [chunk]: each turn takes 255 bytes off. *)
Fixpoint chunk_loop (fuel : nat) (s : bytes) (out : list bytes) : list bytes :=
  match fuel with
  | O => out
  | S fuel' => if (maxChunk <? length s)%nat then chunk_loop fuel' (drop maxChunk s) (out ++ [take maxChunk s])
               else if beqb s [] then out else out ++ [s]
  end.

Definition chunk (s : bytes) : list bytes :=
  if (length s <=? maxChunk)%nat then [s] else chunk_loop (S (length s)) s [].

Definition pad (s : bytes) (size : Z) : bytes :=
  if size <=? zlen s then s
  else let b := s ++ bs " pad=" in b ++ repeat Byte.x78 (Z.to_nat (size - zlen b)).

Section Serve.
Context `{N : !NameLib} `{L : !LabelLib} `{M : !MsgLib} `{R : !RequestLib} {P : Type} `{C : !CryptoLib P}
  {T : Type} `{SL : !StoreLib T}.
Implicit Types p : Probe P.

(** ** Records *)

Definition soa (p : Probe P) : RR :=
  mkRR (mkHeader (p_Zone p) TypeSOA ClassINET (p_TTL p) 0)
    (RdSOA {| Ns := p_NSName p; Mbox := p_Mbox p; Serial := 1; Refresh := soaRefreshSeconds;
              Retry := soaRetrySeconds; Expire := soaExpireSeconds; Minttl := p_TTL p |}).

Definition agentSOA (p : Probe P) : RR :=
  mkRR (mkHeader (p_AgentDomain p) TypeSOA ClassINET (p_AgentTTL p) 0)
    (RdSOA {| Ns := p_NSName p; Mbox := p_Mbox p; Serial := 1; Refresh := soaRefreshSeconds;
              Retry := soaRetrySeconds; Expire := soaExpireSeconds; Minttl := p_AgentTTL p |}).

Definition sign (p : Probe P) (rrs : list RR) (mods now : Z) : option RR :=
  match p_Signer p with
  | None => None
  | Some s => match signRRset s rrs mods now with Ok (Some sig) => Some sig | _ => None end
  end.

Definition signSOA (p : Probe P) (rr : RR) (mods now : Z) (cache : sig_cache) : option RR * sig_cache :=
  match p_Signer p with
  | None => (None, cache)
  | Some _ =>
      let slot := Z.land mods signatureMods in
      let fresh := let sig := sign p [rr] mods now in (sig, <[slot := (now, sig)]> cache) in
      match cache !! slot with
      | Some (made, sig) => if Sub_time now made <? soaSigMaxAge then (sig, cache) else fresh
      | None => fresh
      end
  end.

Definition opt_rr (o : option RR) : list RR := match o with Some r => [r] | None => [] end.

Definition denial (p : Probe P) (name : bytes) (mods : Z) (do_ : bool) (bitmap : list Z) (now : Z) (cache : sig_cache)
  : list RR * sig_cache :=
  let auth := [soa p] in
  if negb do_ then (auth, cache)
  else
    let nsec := mkRR (mkHeader name TypeNSEC ClassINET (p_TTL p) 0) (RdNSEC (bs "\000." ++ name) bitmap) in
    let auth := auth ++ [nsec] in
    let auth := auth ++ opt_rr (sign p [nsec] mods now) in
    let '(sig, cache) := signSOA p (soa p) mods now cache in
    (auth ++ opt_rr sig, cache).

Definition nodataDenial p name mods do_ now cache := denial p name mods do_ [TypeRRSIG; TypeNSEC] now cache.
Definition compactDenial p name mods do_ now cache := denial p name mods do_ [TypeRRSIG; TypeNSEC; TypeNXNAME] now cache.

Definition synthesize (p : Probe P) (qname : bytes) (qtype : Z) (obs : Observation) (mods : Z) : list RR :=
  let hdr t := mkHeader qname t ClassINET (p_TTL p) 0 in
  if qtype =? TypeA then
    if negb (Is4 (ResolverAddr obs)) then [] else [mkRR (hdr TypeA) (RdA (AsSlice (ResolverAddr obs)))]
  else if qtype =? TypeAAAA then
    if negb (Is6 (ResolverAddr obs)) then [] else [mkRR (hdr TypeAAAA) (RdAAAA (AsSlice (ResolverAddr obs)))]
  else if (qtype =? TypeHTTPS) || (qtype =? TypeSVCB) then
    if (zlen (p_ECHConfigList p) =? 0) then []
    else
      let params := [SVCBAlpn [bs "h2"]; SVCBECHConfig (p_ECHConfigList p)] in
      if qtype =? TypeHTTPS then [mkRR (hdr qtype) (RdHTTPS 1 dot params)]
      else [mkRR (hdr qtype) (RdSVCB 1 dot params)]
  else if qtype =? TypeTXT then
    let payload := Summary obs in
    let payload := if Has mods ModBig then pad payload (p_BigSize p) else payload in
    [mkRR (hdr TypeTXT) (RdTXT (chunk payload))]
  else [].

(** ** Replies *)

Definition set_sections (aa tc : bool) (answer auth extra : list RR) (m : Msg) : Msg :=
  mkMsg (Opcode m) (Rcode m) (Response m) aa tc (Questions m) answer auth extra (Edns m) (Tsig m).

Definition attachZoneVersion (p : Probe P) (m : Msg) : Msg :=
  match buildZoneVersion (p_Zone p) 1 with
  | None => m
  | Some zv => match Edns m with
               | None => m
               | Some opt => set_edns (Some (Dns.set_options (Option opt ++ [zv]) opt)) m
               end
  end.

Definition respond (p : Probe P) (c : Conn) (st : Request) (rcode : Z) (answer auth : list RR) (truncate : bool)
  (extErr : list (option EDNS0)) : Outcome :=
  let r := Req st in
  let wantZoneVersion := requestsZoneVersion r in
  let m := set_sections true truncate answer auth [] (SetRcode new_msg r rcode) in
  let m := SizeAndDo st m in
  let m := if wantZoneVersion then attachZoneVersion p m else m in
  let m := foldl attachEDE m extErr in
  let m := attachReportChannel m (p_AgentDomain p) in
  let m := if truncate then m else Scrub st m in
  WriteMsg c m.

Definition respondDNSSD (p : Probe P) (c : Conn) (st : Request) (answer extra : list RR) : Outcome :=
  let m := set_sections true false answer [] extra (SetRcode new_msg (Req st) RcodeSuccess) in
  let m := SizeAndDo st m in
  let m := attachReportChannel m (p_AgentDomain p) in
  WriteMsg c (Scrub st m).

Definition respondAgent (p : Probe P) (c : Conn) (st : Request) (answer : list RR) : Outcome :=
  let auth := if zlen answer =? 0 then [agentSOA p] else [] in
  let m := set_sections true false answer auth [] (SetRcode new_msg (Req st) RcodeSuccess) in
  WriteMsg c (Scrub st (SizeAndDo st m)).

(** ** The probe zone *)

(** [transportFrom], [Observe] and the TLS state. *)
Definition observe_query (c : Conn) (st : Request) (q : Query) (raw : bytes) (now : Z) : Observation :=
  let '(transport, tls) := transportFrom (c_writer c) (Proto st) in
  let obs := Observe now q raw (addrOf c st) transport (state_QType st) (Req st) in
  set_tls_key obs tls (KnowsZoneKey obs).

Definition record_observation (obs : Observation) (now : Z) (s : State T) : State T * Observation :=
  let s := with_metrics (recordMetrics obs) s in
  let '(x, stored, _) := do_Record now obs (store s) in
  (with_store x s, stored).

Definition observeAndRecord (p : Probe P) (c : Conn) (st : Request) (q : Query) (raw : bytes) (now : Z) (s : State T)
  : State T * Observation :=
  let obs := observe_query c st q raw now in
  let obs := match p_Signer p with
             | Some sg => if 0 <? zlen (KeyTags obs)
                          then set_tls_key obs (TLS obs) (hasKeyTag (KeyTags obs) (KeyTag sg)) else obs
             | None => obs
             end in
  record_observation obs now s.

Definition respondForQuery (p : Probe P) (c : Conn) (st : Request) (qname : bytes) (q : Query) (obs : Observation)
  (now : Z) (s : State T) : State T * Outcome :=
  let mods := Mods q in
  if Has mods ModServfail then (s, respond p c st RcodeServerFailure [] [] false [edeFor mods])
  else if Has mods ModNXDOMAIN then
    let '(auth, cache) := nodataDenial p qname mods (state_Do st) now (soaSigs s) in
    (with_sigs cache s, respond p c st RcodeNameError [] auth false [])
  else if Has mods ModNXNAME then
    let '(auth, cache) := compactDenial p qname mods (state_Do st) now (soaSigs s) in
    (with_sigs cache s, respond p c st RcodeSuccess [] auth false [])
  else if Has mods ModTruncate then (s, respond p c st RcodeSuccess [] [] true [])
  else
    let answer := synthesize p qname (state_QType st) obs mods in
    if zlen answer =? 0 then
      let '(auth, cache) := nodataDenial p qname mods (state_Do st) now (soaSigs s) in
      (with_sigs cache s, respond p c st RcodeSuccess [] auth false [edeFor mods])
    else
      let answer := if state_Do st then answer ++ opt_rr (sign p answer mods now) else answer in
      (s, respond p c st RcodeSuccess answer [] false [edeFor mods]).

Definition zoneKeyLabel (p : Probe P) (tags : list Z) : bytes :=
  match p_Signer p with
  | None => labelUnknown
  | Some sg => if hasKeyTag tags (KeyTag sg) then labelYes else bs "no"
  end.

Definition countDNSKEYKeyTags (p : Probe P) (r : Msg) (s : State T) : State T :=
  match Edns r with
  | None => s
  | Some opt => let tags := ednsKeyTags opt in
                if 0 <? zlen tags then with_metrics (inc_knowledge [bs "dnskey"; zoneKeyLabel p tags]) s else s
  end.

Definition serveApex (p : Probe P) (c : Conn) (st : Request) (now : Z) (s : State T) : State T * Outcome :=
  let qtype := state_QType st in
  let '(answer, s) :=
    if qtype =? TypeSOA then ([soa p], s)
    else if qtype =? TypeNS then ([mkRR (mkHeader (p_Zone p) TypeNS ClassINET (p_TTL p) 0) (RdNS (p_NSName p))], s)
    else if qtype =? TypeDNSKEY then
      (match p_Signer p with None => [] | Some sg => [DNSKEY sg] end, countDNSKEYKeyTags p (Req st) s)
    else ([], s) in
  match answer with
  | [] =>
      let '(auth, cache) := nodataDenial p (p_Zone p) 0 (state_Do st) now (soaSigs s) in
      (with_sigs cache s, respond p c st RcodeSuccess [] auth false [])
  | a0 :: _ =>
      if state_Do st then
        let '(sig, cache) := match Data a0 with
                             | RdSOA _ => signSOA p a0 0 now (soaSigs s)
                             | _ => (sign p answer 0 now, soaSigs s)
                             end in
        (with_sigs cache s, respond p c st RcodeSuccess (answer ++ opt_rr sig) [] false [])
      else (s, respond p c st RcodeSuccess answer [] false [])
  end.

Definition serveDNSSD (p : Probe P) (c : Conn) (st : Request) (kind : dnssdKind) (token : bytes) (now : Z) (s : State T)
  : State T * Outcome :=
  let obs := observe_query c st {| Token := token; Mods := 0 |} (state_Name st) now in
  let '(s, _) := record_observation obs now s in
  let '(answer, extra) := synthesizeDNSSD (p_Zone p) (p_NSName p) (p_TTL p) kind token (state_QType st) in
  if zlen answer =? 0 then
    let '(auth, cache) := nodataDenial p (state_Name st) 0 (state_Do st) now (soaSigs s) in
    (with_sigs cache s, respond p c st RcodeSuccess [] auth false [])
  else
    let answer := if state_Do st then answer ++ opt_rr (sign p answer 0 now) else answer in
    (s, respondDNSSD p c st answer extra).

Definition isKeyTagQueryType (st : Request) : bool := (state_QType st =? TypeNULL) && (state_QClass st =? ClassINET).

Definition serveKeyTagQuery (p : Probe P) (c : Conn) (st : Request) (tags : list Z) (now : Z) (s : State T)
  : State T * Outcome :=
  let s := if isKeyTagQueryType st then
             let sorted := if KeyTagsSorted tags then bs "sorted" else bs "unsorted" in
             with_metrics (fun m => inc_knowledge [bs "query"; zoneKeyLabel p tags] (inc_keytag_queries [sorted] m)) s
           else s in
  let '(auth, cache) := nodataDenial p (state_Name st) 0 (state_Do st) now (soaSigs s) in
  (with_sigs cache s, respond p c st RcodeSuccess [] auth false []).

(** ** The agent zone *)

Definition agentTXT : bytes := bs "report received".

Definition serveAgentApex (p : Probe P) (c : Conn) (st : Request) : Outcome :=
  let qtype := state_QType st in
  let answer := if qtype =? TypeSOA then [agentSOA p]
                else if qtype =? TypeNS
                then [mkRR (mkHeader (p_AgentDomain p) TypeNS ClassINET (p_AgentTTL p) 0) (RdNS (p_NSName p))]
                else [] in
  respondAgent p c st answer.

Definition serveReport (p : Probe P) (c : Conn) (st : Request) (now : Z) (s : State T) : State T * Outcome :=
  let qname := state_Name st in
  if beqb qname (p_AgentDomain p) then (s, serveAgentApex p c st)
  else match ParseReport qname (p_AgentDomain p) (p_Zone p) with
       | Err e =>
           let reason := match e with ErrBadReport => bs "malformed" | ErrNotReport => bs "not-a-report" end in
           (with_metrics (inc_rejected [reason]) s, respondAgent p c st [])
       | Ok rep =>
           if negb (state_QType st =? TypeTXT) then (with_metrics (inc_rejected [bs "wrong-qtype"]) s, respondAgent p c st [])
           else
             let correlated := if beqb (rp_Token rep) [] then bs "no" else labelYes in
             let s := with_metrics (inc_reports [edeLabel (EDE rep); correlated]) s in
             let '(transport, _) := transportFrom (c_writer c) (Proto st) in
             let rec := NewReportRecord now rep (addrOf c st) transport in
             let '(x, _) := do_RecordReport now rec (store s) in
             (with_store x s,
              respondAgent p c st [mkRR (mkHeader qname TypeTXT ClassINET (p_AgentTTL p) 0) (RdTXT [agentTXT])])
       end.

(** ** Every query *)

(** What a query is to the plugin. *)
Inductive Route := ToAgent | ToNext | ToFormErr | ToApex | ToDNSSD (k : dnssdKind) (token : bytes)
  | ToKeyTag (tags : list Z) | ToBadKeyTag | ToQuery (q : Query) | ToRefused.

Definition below_apex (p : Probe P) (qname : bytes) : bytes := trim_suffix (trim_suffix qname (p_Zone p)) dot.

Definition route (p : Probe P) (st : Request) : Route :=
  let qname := state_Name st in
  if negb (beqb (p_AgentDomain p) []) && zoneMatches (p_AgentDomain p) qname then ToAgent
  else if negb (zoneMatches (p_Zone p) qname) then ToNext
  else if state_QType st =? TypeNXNAME then ToFormErr
  else
    let sub := below_apex p qname in
    if beqb sub [] then ToApex
    else match parseDNSSD sub with
         | (dnssdNone, _) =>
             match ParseKeyTagQuery sub with
             | Ok tags => ToKeyTag tags
             | Err ErrBadKeyTagQuery => ToBadKeyTag
             | Err ErrNotKeyTagQuery => match ParseQuery sub with Some q => ToQuery q | None => ToRefused end
             end
         | (kind, token) => ToDNSSD kind token
         end.

Definition raw_name (st : Request) : bytes :=
  match Questions (Req st) with q :: _ => QName q | [] => state_Name st end.

Definition probe_ServeDNS (p : Probe P) (next : chain) (c : Conn) (st : Request) (now : Z) (s : State T)
  : State T * Outcome :=
  match route p st with
  | ToAgent => serveReport p c st now s
  | ToNext => (s, next (Req st))
  | ToFormErr => (s, respond p c st RcodeFormatError [] [] false [])
  | ToApex => serveApex p c st now s
  | ToDNSSD kind token => serveDNSSD p c st kind token now s
  | ToKeyTag tags => serveKeyTagQuery p c st tags now s
  | ToBadKeyTag =>
      (if isKeyTagQueryType st then with_metrics (inc_keytag_queries [bs "malformed"]) s else s,
       respond p c st RcodeRefused [] [] false [])
  | ToQuery q =>
      let '(s, obs) := observeAndRecord p c st q (raw_name st) now s in
      respondForQuery p c st (state_Name st) q obs now s
  | ToRefused => (s, respond p c st RcodeRefused [] [] false [])
  end.
End Serve.

(** ** What is relied on of [request.Request]

    [SizeAndDo] gives the reply the query's own OPT record, with the options
    the plugins here add filtered out of it; [Scrub] may drop records, and
    then sets TC, but neither touches the response code. *)
Definition is_zone_version (o : EDNS0) : bool := match o with EDNS0_ZONEVERSION _ _ _ => true | _ => false end.
Definition foreign (o : EDNS0) : Prop := is_ede o = false /\ is_reporting o = false /\ is_zone_version o = false.

Class RequestLaws (R : RequestLib) : Prop := {
  SizeAndDo_opt st m : Edns m = None ->
    exists o, SizeAndDo st m = set_edns o m /\ (o = None <-> Edns (Req st) = None) /\
              forall opt, o = Some opt -> Forall foreign (Option opt);
  Scrub_header st m :
    Rcode (Scrub st m) = Rcode m /\ Authoritative (Scrub st m) = Authoritative m /\ Edns (Scrub st m) = Edns m;
  Scrub_sections st m :
    Answer (Scrub st m) ⊆ Answer m /\ NsSec (Scrub st m) ⊆ NsSec m /\ Extra (Scrub st m) ⊆ Extra m;
  Scrub_whole st m : Truncated (Scrub st m) = false ->
    Truncated m = false /\ Answer (Scrub st m) = Answer m /\ NsSec (Scrub st m) = NsSec m /\ Extra (Scrub st m) = Extra m
}.

(** A client whose buffer fits everything. *)
#[global] Instance simple_request : RequestLib := {
  state_Name st := match Questions (Req st) with q :: _ => lower (QName q) | [] => dot end;
  state_QType st := match Questions (Req st) with q :: _ => Dns.Qtype q | [] => 0 end;
  state_QClass st := match Questions (Req st) with q :: _ => Qclass q | [] => 0 end;
  state_Do st := match Edns (Req st) with Some o => opt_do o | None => false end;
  SizeAndDo st m :=
    match Edns (Req st) with
    | None => m
    | Some o => set_edns (Some (Dns.set_options
                  (List.filter (fun x => negb (is_ede x || is_reporting x || is_zone_version x)) (Option o)) o)) m
    end;
  Scrub st m := m;
  Name_Matches zone child := IsSubDomain zone child
}.

#[global] Instance simple_requestlaws : RequestLaws simple_request.
Proof.
  split; try done. intros st m Hm. cbn. destruct (Edns (Req st)) as [o|] eqn:E.
  - eexists. split; [reflexivity|]. split; [done|]. intros opt [= <-]. apply Forall_forall. intros x Hx.
    apply list_elem_of_In, filter_In in Hx as [_ Hx]. unfold foreign.
    by destruct (is_ede x), (is_reporting x), (is_zone_version x).
  - exists None. split; [|done]. destruct m; cbn in *. by rewrite Hm.
Qed.

(** ** What is written *)

Section Laws.
Context `{N : !NameLib} `{L : !LabelLib} `{M : !MsgLib} `{ML : !MsgLaws M} `{R : !RequestLib} `{RL : !RequestLaws R}
  {P : Type} `{C : !CryptoLib P} {T : Type} `{SL : !StoreLib T} `{SLL : !StoreLaws SL}.
Implicit Types (p : Probe P) (s : State T).

(** The only message an outcome wrote, if a write succeeded. *)
Definition wrote (c : Conn) (Q : Msg -> Prop) (o : Outcome) : Prop :=
  if c_writes c then exists m, o = write_one m /\ Q m else o = {| written := []; code := RcodeServerFailure |}.

Lemma WriteMsg_wrote c (Q : Msg -> Prop) m : Q m -> wrote c Q (WriteMsg c m).
Proof. intros H. unfold wrote, WriteMsg. destruct (c_writes c); [by exists m|done]. Qed.

Lemma wrote_mono c (Q Q' : Msg -> Prop) o : (forall m, Q m -> Q' m) -> wrote c Q o -> wrote c Q' o.
Proof. unfold wrote. destruct (c_writes c); [|done]. intros H (m & -> & Hm). exists m. auto. Qed.

(** How many options of a kind a reply carries. *)
Definition options_of (f : EDNS0 -> bool) (m : Msg) : list EDNS0 :=
  match Edns m with Some o => List.filter f (Option o) | None => [] end.

(** A reply's OPT record, given the query: there exactly if the query had
    one, with at most one extended error, at most one zone version, and only
    if it was asked for, and at most one report channel. *)
Definition options_ok (st : Request) (m : Msg) : Prop :=
  (Edns m = None <-> Edns (Req st) = None) /\
  (length (options_of is_ede m) <= 1)%nat /\ (length (options_of is_reporting m) <= 1)%nat /\
  (length (options_of is_zone_version m) <= if requestsZoneVersion (Req st) then 1 else 0)%nat.

(** The records a reply's sections come from. *)
Definition sections_from (answer auth extra : list RR) (m : Msg) : Prop :=
  Answer m ⊆ answer /\ NsSec m ⊆ auth /\ Extra m ⊆ extra /\
  (Truncated m = false -> Answer m = answer /\ NsSec m = auth /\ Extra m = extra).

Lemma set_edns_edns o m : Edns (set_edns o m) = o.
Proof. done. Qed.

(** Adding one option of a kind none of the others are. *)
Lemma filter_foreign (f : EDNS0 -> bool) l : Forall foreign l ->
  (f = is_ede \/ f = is_reporting \/ f = is_zone_version) -> List.filter f l = [].
Proof.
  intros Hl Hf. induction Hl as [|x l (H1 & H2 & H3) Hl IH]; [done|]. cbn.
  destruct Hf as [->|[->| ->]]; rewrite ?H1, ?H2, ?H3; apply IH; auto.
Qed.

Definition n_of (f : EDNS0 -> bool) (m : Msg) : nat := length (options_of f m).

(** [m'] is [m] with other options. *)
Definition same_but_options (m m' : Msg) : Prop :=
  m' = set_edns (Edns m') m /\ (Edns m' = None <-> Edns m = None).

Lemma same_but_refl m : same_but_options m m.
Proof. by destruct m. Qed.

Lemma same_but_trans a b c : same_but_options a b -> same_but_options b c -> same_but_options a c.
Proof. intros [H1 H2] [H3 H4]. split; [|tauto]. rewrite H3, H1. done. Qed.

(** One option appended to the OPT record, unless one of its kind is there
    already; nothing happens without an OPT record. *)
Definition add_option (guard : EDNS0 -> bool) (x : EDNS0) (m : Msg) : Msg :=
  match Edns m with
  | None => m
  | Some opt => if existsb guard (Option opt) then m else set_edns (Some (Dns.set_options (Option opt ++ [x]) opt)) m
  end.

Lemma add_option_spec guard x m :
  same_but_options m (add_option guard x m) /\
  (forall f, f x = false -> n_of f (add_option guard x m) = n_of f m) /\
  (forall f, (n_of f (add_option guard x m) <= n_of f m + 1)%nat) /\
  ((n_of guard m <= 1)%nat -> (n_of guard (add_option guard x m) <= 1)%nat).
Proof.
  unfold add_option, n_of, options_of. destruct (Edns m) as [opt|] eqn:E.
  2:{ rewrite E. split; [apply same_but_refl|]. split; [done|]. split; [intros; cbn; lia|done]. }
  destruct (existsb guard (Option opt)) eqn:Ex.
  { rewrite E. split; [apply same_but_refl|]. split; [done|]. split; [intros; lia|done]. }
  cbn. split; [split; cbn; [done|by rewrite E]|].
  assert (Hf : forall f, List.filter f (Option opt ++ [x]) = List.filter f (Option opt) ++ (if f x then [x] else [])).
  { intros f. by rewrite List.filter_app. }
  split; [intros f Hx; by rewrite Hf, Hx, app_nil_r|]. split.
  - intros f. rewrite Hf, length_app. destruct (f x); cbn; lia.
  - intros _. rewrite Hf, length_app.
    assert (Hn : List.filter guard (Option opt) = []).
    { destruct (List.filter guard (Option opt)) as [|y t] eqn:Ey; [done|].
      assert (Hy : In y (y :: t)) by (by left). rewrite <- Ey in Hy. apply filter_In in Hy as [Hy Hg].
      apply not_true_iff_false in Ex. destruct Ex. apply existsb_exists. by exists y. }
    rewrite Hn. destruct (guard x); cbn; lia.
Qed.

Lemma attachEDE_add m e : attachEDE m e = match e with Some x => add_option is_ede x m | None => m end.
Proof. by destruct e. Qed.

Lemma attachReportChannel_add m d :
  attachReportChannel m d = match ReportChannelOption d with Some x => add_option is_reporting x m | None => m end.
Proof. done. Qed.

Lemma attachZoneVersion_add p m :
  attachZoneVersion p m = match buildZoneVersion (p_Zone p) 1 with Some x => add_option (fun _ => false) x m | None => m end.
Proof.
  unfold attachZoneVersion, add_option. destruct (buildZoneVersion (p_Zone p) 1); [|done].
  destruct (Edns m) as [opt|]; [|done].
  assert (H : existsb (fun _ => false) (Option opt) = false) by (induction (Option opt); done). by rewrite H.
Qed.

(** What every reply's options go through. *)
Record bounded (ede rep zv : nat) (m0 m : Msg) : Prop := {
  bd_same : same_but_options m0 m;
  bd_ede : (n_of is_ede m <= ede)%nat;
  bd_rep : (n_of is_reporting m <= rep)%nat;
  bd_zv : (n_of is_zone_version m <= zv)%nat
}.

Lemma bounded_zone_version p m0 m : bounded 0 0 0 m0 m -> bounded 0 0 1 m0 (attachZoneVersion p m).
Proof.
  intros [H1 H2 H3 H4]. rewrite attachZoneVersion_add. unfold buildZoneVersion.
  destruct (_ || _); [split; [done|lia..]|]. destruct (_ || _); [split; [done|lia..]|].
  match goal with |- context [add_option ?g ?x m] => destruct (add_option_spec g x m) as (Ha & Hb & Hc & _) end.
  split; [by eapply same_but_trans|by rewrite Hb|by rewrite Hb|]. etransitivity; [apply Hc|]. lia.
Qed.

Lemma bounded_ede zv m0 m es :
  Forall (fun e => forall x, e = Some x -> is_ede x = true) es ->
  bounded 1 0 zv m0 m -> bounded 1 0 zv m0 (foldl attachEDE m es).
Proof.
  intros He. revert m. induction He as [|e es Hx _ IH]; intros m H; [done|]. cbn. apply IH.
  rewrite attachEDE_add. destruct e as [x|]; [|done]. specialize (Hx x eq_refl). destruct H as [H1 H2 H3 H4].
  destruct (add_option_spec is_ede x m) as (Ha & Hb & _ & Hd).
  split; [by eapply same_but_trans|by apply Hd|rewrite Hb; [done|by destruct x]|rewrite Hb; [done|by destruct x]].
Qed.

Lemma bounded_channel zv d m0 m : bounded 1 0 zv m0 m -> bounded 1 1 zv m0 (attachReportChannel m d).
Proof.
  intros [H1 H2 H3 H4]. rewrite attachReportChannel_add. unfold ReportChannelOption.
  destruct (_ || _); [split; [done|lia..]|].
  match goal with |- context [add_option ?g ?x m] => destruct (add_option_spec g x m) as (Ha & Hb & _ & Hd) end.
  split; [by eapply same_but_trans|rewrite Hb; done|apply Hd; lia|rewrite Hb; done].
Qed.

Lemma bounded_start st m : Edns m = None ->
  exists o, SizeAndDo st m = set_edns o m /\ (o = None <-> Edns (Req st) = None) /\ bounded 0 0 0 (set_edns o m) (SizeAndDo st m).
Proof.
  intros Hm. destruct (SizeAndDo_opt st m Hm) as (o & Heq & Ho & Hf). exists o. split; [done|split; [done|]].
  rewrite Heq.
  assert (Hz : forall f, f = is_ede \/ f = is_reporting \/ f = is_zone_version -> n_of f (set_edns o m) = 0%nat).
  { intros f Hk. unfold n_of, options_of. cbn. destruct o as [opt|]; [|done]. by rewrite (filter_foreign f _ (Hf opt eq_refl) Hk). }
  split; [apply same_but_refl|rewrite Hz; auto..].
Qed.

(** A reply of the plugin's: authoritative, with a code, sections and bounded
    options. *)
Record reply (st : Request) (rcode : Z) (answer auth extra : list RR) (m : Msg) : Prop := {
  rp_rcode : Rcode m = rcode;
  rp_aa : Authoritative m = true;
  rp_sections : sections_from answer auth extra m;
  rp_options : options_ok st m
}.

Lemma finish_reply st rcode tc answer auth extra ede rep zv o m :
  let m0 := set_sections true tc answer auth extra (SetRcode new_msg (Req st) rcode) in
  (o = None <-> Edns (Req st) = None) -> bounded ede rep zv (set_edns o m0) m ->
  (ede <= 1)%nat -> (rep <= 1)%nat -> (zv <= if requestsZoneVersion (Req st) then 1 else 0)%nat ->
  reply st rcode answer auth extra (Scrub st m) /\ reply st rcode answer auth extra m.
Proof.
  intros m0 Ho [[Hs Hn] He Hr Hz] H1 H2 H3. rewrite set_edns_edns in Hn.
  assert (Hm : Rcode m = rcode /\ Authoritative m = true /\ Answer m = answer /\ NsSec m = auth /\ Extra m = extra).
  { rewrite Hs. unfold m0. cbn. rewrite SetRcode_rcode. done. }
  destruct Hm as (Hrc & Haa & Ha & Hns & Hx).
  assert (Hopt : options_ok st m).
  { unfold options_ok. split; [by rewrite Hn|]. unfold n_of in *. split; [lia|split; [lia|lia]]. }
  split; [|split; [done|done| |done]].
  - destruct (Scrub_header st m) as (E1 & E2 & E3). destruct (Scrub_sections st m) as (S1 & S2 & S3).
    split; [by rewrite E1|by rewrite E2| |].
    + unfold sections_from. rewrite <- Ha, <- Hns, <- Hx. split; [done|split; [done|split; [done|]]].
      intros Ht. by apply Scrub_whole in Ht as (_ & ? & ? & ?).
    + unfold options_ok, options_of in *. by rewrite E3.
  - unfold sections_from. by rewrite Ha, Hns, Hx.
Qed.

Lemma edeFor_ede mods : forall x, edeFor mods = Some x -> is_ede x = true.
Proof. unfold edeFor. intros x. by repeat (destruct (Has _ _); [by intros [= <-]|]). Qed.

Lemma respond_reply p c st rcode answer auth tc mods :
  wrote c (fun m => reply st rcode answer auth [] m /\ (tc = true -> Truncated m = true))
    (respond p c st rcode answer auth tc (match mods with Some x => [edeFor x] | None => [] end)).
Proof.
  unfold respond. apply WriteMsg_wrote. cbv zeta. set (es := match mods with Some x => [edeFor x] | None => [] end).
  set (m0 := set_sections true tc answer auth [] (SetRcode new_msg (Req st) rcode)).
  assert (Hm0 : Edns m0 = None) by (cbn; apply SetRcode_edns).
  destruct (bounded_start st m0 Hm0) as (o & _ & Ho & Hb).
  set (m1 := if requestsZoneVersion (Req st) then _ else _).
  set (zv := if requestsZoneVersion (Req st) then 1%nat else 0%nat).
  assert (Hb1 : bounded 1 0 zv (set_edns o m0) m1).
  { unfold m1, zv. destruct (requestsZoneVersion (Req st)); [apply (bounded_zone_version p) in Hb|];
      destruct Hb as [? ? ? ?]; (split; [done|lia..]). }
  assert (He : Forall (fun e => forall x, e = Some x -> is_ede x = true) es).
  { unfold es. destruct mods; [|constructor]. apply Forall_cons. split; [apply edeFor_ede|constructor]. }
  pose proof (bounded_channel zv (p_AgentDomain p) _ _ (bounded_ede zv _ m1 es He Hb1)) as Hb2.
  set (m2 := attachReportChannel _ _) in *.
  destruct (finish_reply st rcode tc answer auth [] 1 1 zv o m2 Ho Hb2) as [Hf1 Hf2]; [lia|lia|unfold zv; lia|].
  destruct tc; [|by split]. split; [done|]. intros _. destruct (bd_same _ _ _ _ _ Hb2) as [-> _]. done.
Qed.

Lemma respondDNSSD_reply p c st answer extra :
  wrote c (reply st RcodeSuccess answer [] extra) (respondDNSSD p c st answer extra).
Proof.
  unfold respondDNSSD. apply WriteMsg_wrote. cbv zeta.
  set (m0 := set_sections true false answer [] extra (SetRcode new_msg (Req st) RcodeSuccess)).
  assert (Hm0 : Edns m0 = None) by (cbn; apply SetRcode_edns).
  destruct (bounded_start st m0 Hm0) as (o & _ & Ho & Hb).
  assert (Hb1 : bounded 1 0 0 (set_edns o m0) (SizeAndDo st m0)) by (destruct Hb; split; [done|lia..]).
  pose proof (bounded_channel 0 (p_AgentDomain p) _ _ Hb1) as Hb2.
  destruct (finish_reply st RcodeSuccess false answer [] extra 1 1 0 o _ Ho Hb2) as [Hf _]; [lia..|]. exact Hf.
Qed.

Lemma respondAgent_reply p c st answer :
  wrote c (fun m => reply st RcodeSuccess answer (if zlen answer =? 0 then [agentSOA p] else []) [] m /\
                    options_of is_reporting m = [])
    (respondAgent p c st answer).
Proof.
  unfold respondAgent. apply WriteMsg_wrote. cbv zeta. set (auth := if zlen answer =? 0 then _ else _).
  set (m0 := set_sections true false answer auth [] (SetRcode new_msg (Req st) RcodeSuccess)).
  assert (Hm0 : Edns m0 = None) by (cbn; apply SetRcode_edns).
  destruct (bounded_start st m0 Hm0) as (o & Heq & Ho & Hb).
  destruct (finish_reply st RcodeSuccess false answer auth [] 0 0 0 o _ Ho Hb) as [Hf _]; [lia..|].
  split; [exact Hf|]. destruct (Scrub_header st (SizeAndDo st m0)) as (_ & _ & E).
  unfold options_of. rewrite E. pose proof (bd_rep _ _ _ _ _ Hb) as Hr. unfold n_of, options_of in Hr.
  destruct (Edns (SizeAndDo st m0)) as [opt|]; [|done]. destruct (List.filter is_reporting (Option opt)); [done|cbn in Hr; lia].
Qed.
End Laws.
