(* ===== verification/ProbeServeProps.v ===== *)
(** * What the probe zone promises

    Properties of [ServeDNS]: what is written for every kind of query, what
    is recorded, that every signature is right or wrong exactly as the query
    asked, cached or not, and that the agent zone takes reports in without
    ever refusing, denying or signing. *)

From S2P Require Import Prelude GoStrings Netip Dns SimpleDns ProbeLabels ProbeKeyTag ProbeObserve.
From S2P Require Import ProbeReport ProbeStore ProbeWire ProbeSign ProbeMetrics ProbeDnssd ProbeServe.



(** The response code of a query. *)
Definition route_code (r : Route) : Z :=
  match r with
  | ToFormErr => RcodeFormatError
  | ToBadKeyTag | ToRefused => RcodeRefused
  | ToQuery q => if Has (Mods q) ModServfail then RcodeServerFailure
                 else if Has (Mods q) ModNXDOMAIN then RcodeNameError else RcodeSuccess
  | _ => RcodeSuccess
  end.

(** ** Text and names *)

Lemma chunk_loop_spec fuel s out :
  (length s < fuel)%nat -> Forall (fun t => (length t <= maxChunk)%nat) out ->
  concat (chunk_loop fuel s out) = concat out ++ s /\
  Forall (fun t => (length t <= maxChunk)%nat) (chunk_loop fuel s out).
Proof.
  revert s out. induction fuel as [|fuel IH]; intros s out Hf Ho; [lia|]. cbn [chunk_loop].
  destruct (Nat.ltb_spec maxChunk (length s)) as [Hl|Hl].
  - destruct (IH (drop maxChunk s) (out ++ [take maxChunk s])) as [H1 H2].
    + rewrite length_drop. unfold maxChunk in *. lia.
    + apply Forall_app. split; [done|]. apply Forall_cons. split; [rewrite length_take; lia|constructor].
    + split; [|done]. rewrite H1, concat_app. cbn. by rewrite app_nil_r, <- app_assoc, take_drop.
  - destruct (beqb s []) eqn:E; [apply beqb_true in E as ->; by rewrite app_nil_r|].
    rewrite concat_app. cbn. rewrite app_nil_r. split; [done|]. apply Forall_app. split; [done|].
    apply Forall_cons. split; [exact Hl|constructor].
Qed.

(** The loop that cuts a text into the strings of a TXT record ends for
    every text, however long, with strings of at most 255 octets that put
    together are the text; and padding adds only behind the text and reaches
    the size asked for, unless the text and its marker are already longer. *)
Theorem chunk_pad_total s size :
  concat (chunk s) = s /\ Forall (fun t => (length t <= 255)%nat) (chunk s) /\ chunk s <> [] /\
  take (length s) (pad s size) = s /\
  zlen (pad s size) = if size <=? zlen s then zlen s else Z.max size (zlen s + 5).
Proof.
  split_and!.
  - unfold chunk. destruct (_ <=? _)%nat; [cbn; by rewrite app_nil_r|].
    by destruct (chunk_loop_spec (S (length s)) s [] ltac:(lia) ltac:(constructor)).
  - unfold chunk. destruct (Nat.leb_spec (length s) maxChunk) as [Hl|]; [apply Forall_cons; split; [exact Hl|constructor]|].
    by destruct (chunk_loop_spec (S (length s)) s [] ltac:(lia) ltac:(constructor)).
  - unfold chunk. destruct (Nat.leb_spec (length s) maxChunk) as [|Hl]; [done|].
    destruct (chunk_loop_spec (S (length s)) s [] ltac:(lia) ltac:(constructor)) as [H _].
    intros E. rewrite E in H. cbn in H. subst s. cbn in Hl. lia.
  - unfold pad. destruct (size <=? zlen s); [by rewrite firstn_all|]. by rewrite <- app_assoc, take_app_n.
  - unfold pad. destruct (Z.leb_spec size (zlen s)); [done|]. rewrite !zlen_app. change (zlen (bs " pad=")) with 5.
    unfold zlen at 2. rewrite repeat_length. lia.
Qed.

Lemma lower_no_backslash ls : Forall plain_label ls -> Byte.x5c ∉ lower (fqdn_of ls).
Proof.
  intros H. rewrite elem_of_lower by done. unfold fqdn_of. destruct ls as [|l r].
  - by intros Hx%list_elem_of_singleton.
  - rewrite elem_of_app. intros [Hx|Hx%list_elem_of_singleton]; [by apply (no_backslash (l :: r))|done].
Qed.

(** The byte test on the zone's suffix, on names without escapes: exactly the
    names whose last labels are the zone's. *)
Lemma zoneMatches_exact `{RequestLib} zl ql :
  Forall plain_label zl -> Forall plain_label ql -> zl <> [] ->
  zoneMatches (lower (fqdn_of zl)) (lower (fqdn_of ql)) = true <-> exists sub, lower <$> ql = sub ++ (lower <$> zl).
Proof.
  intros Hz Hq Hn. rewrite <- subdomain_plain by done. unfold zoneMatches.
  assert (Hnd : beqb (lower (fqdn_of zl)) dot = false).
  { apply beqb_false. intros E. rewrite (lower_fqdn zl Hn) in E. apply (app_inj_tail _ []) in E as [E _].
    revert E. apply join_plain_nonnil; [|by destruct zl]. apply Forall_fmap. eapply Forall_impl; [exact Hz|]. apply plain_lower. }
  rewrite Hnd. cbn [orb]. set (z := lower (fqdn_of zl)) in *. set (n := lower (fqdn_of ql)) in *.
  destruct (beqb n z) eqn:E; [apply beqb_true in E; tauto|]. apply beqb_false in E.
  rewrite (proj2 (index_byte_None n Byte.x5c)) by (by apply lower_no_backslash).
  rewrite has_suffix_spec, !andb_true_iff, Z.ltb_lt, bool_decide_eq_true, beqb_true. split.
  - intros [[Hl Hd] Hs]. right. exists (take (Z.to_nat (zlen n - zlen z - 1)) n).
    rewrite <- (take_drop (Z.to_nat (zlen n - zlen z)) n) at 1. rewrite Hs, app_assoc. f_equal.
    replace (Z.to_nat (zlen n - zlen z)) with (S (Z.to_nat (zlen n - zlen z - 1))) by lia.
    by rewrite (take_S_r _ _ _ Hd).
  - intros [->|[t Ht]]; [done|]. rewrite Ht, !zlen_app. change (zlen dot) with 1. pose proof (zlen_nonneg t).
    replace (zlen t + (1 + zlen z) - zlen z) with (zlen t + 1) by lia.
    replace (zlen t + 1 - 1) with (zlen t) by lia. replace (Z.to_nat (zlen t + 1)) with (length t + 1)%nat by (unfold zlen; lia).
    replace (Z.to_nat (zlen t)) with (length t) by (unfold zlen; lia). split; [split; [lia|]|].
    + rewrite lookup_app_r by lia. by rewrite Nat.sub_diag.
    + rewrite app_assoc, drop_app_n; [done|]. by rewrite length_app.
Qed.

Section Props.
Context `{N : !NameLib} `{L : !LabelLib} `{M : !MsgLib} `{ML : !MsgLaws M} `{R : !RequestLib} `{RL : !RequestLaws R}
  {P : Type} `{C : !CryptoLib P} `{CL : !CryptoLaws C} {T : Type} `{SL : !StoreLib T} `{SLL : !StoreLaws SL}.
Implicit Types (p : Probe P) (s : State T).

(** ** Signatures *)

Definition signer_fine (p : Probe P) (now : Z) : Prop :=
  match p_Signer p with
  | None => True
  | Some sg => clock_fine (validity sg) now /\ exists f pr a k, Data (key_rr sg) = RdDNSKEY f pr a k
  end.

(** The key cannot sign the RRset. *)
Definition unsignable (sg : Signer P) (rrs : list RR) (mods made : Z) : Prop :=
  match rrs with
  | [] => True
  | r0 :: _ => 255 < CountLabel (Name (Hdr r0)) \/ Sign (priv sg) (asked sg r0 mods made) rrs = None
  end.

(** The signatures that go with an RRset: none in an unsigned zone or if the
    query asked for none; otherwise the one it asked for, made in the last
    half minute, unless the key could not make it. *)
Definition sig_exact (p : Probe P) (rrs : list RR) (mods now : Z) (l : list RR) : Prop :=
  match p_Signer p with
  | None => l = []
  | Some sg =>
      if Has mods ModUnsigned then l = []
      else exists made, made <= now < made + soaSigMaxAge /\
        ((exists r, l = [r] /\ signature_of sg rrs mods made r) \/ (l = [] /\ unsignable sg rrs mods made))
  end.

Lemma sign_exact p rrs mods made now :
  signer_fine p now -> made <= now < made + soaSigMaxAge -> rrs <> [] ->
  sig_exact p rrs mods now (opt_rr (sign p rrs mods made)).
Proof.
  unfold signer_fine, sig_exact, sign. destruct (p_Signer p) as [sg|]; [|done]. intros [Hc _] Hm Hne.
  destruct rrs as [|r0 rrs]; [done|].
  destruct (Has mods ModUnsigned) eqn:Hu; [unfold signRRset; by rewrite Hu|]. exists made. split; [done|].
  pose proof (signRRset_spec sg r0 rrs mods made (clock_fine_ok _ _ _ Hc Hm) Hu) as Hs.
  destruct (signRRset sg (r0 :: rrs) mods made) as [[sig|]|e]; [left; by exists sig|done|].
  right. split; [done|]. cbn. destruct e; [by left|done|by right].
Qed.

Lemma land_land m b : Z.land signatureMods b = b -> Has (Z.land m signatureMods) b = Has m b.
Proof. unfold Has. intros H. by rewrite <- Z.land_assoc, H. Qed.

(** A signature depends on the signature modifiers alone. *)
Lemma sign_slot p rrs mods now : sign p rrs (Z.land mods signatureMods) now = sign p rrs mods now.
Proof.
  unfold sign, signRRset, window. by rewrite !(land_land mods) by reflexivity.
Qed.

(** Every slot holds what signing the SOA gave when it was filled. *)
Definition cache_ok (p : Probe P) (now : Z) (cache : sig_cache) : Prop :=
  forall slot made sig, cache !! slot = Some (made, sig) -> made <= now /\ sig = sign p [soa p] slot made.


Lemma signSOA_ok p mods now cache :
  cache_ok p now cache ->
  let '(sig, cache') := signSOA p (soa p) mods now cache in
  cache_ok p now cache' /\
  exists made, made <= now < made + soaSigMaxAge /\ sig = sign p [soa p] mods made.
Proof.
  intros H. unfold signSOA. destruct (p_Signer p) as [sg|] eqn:Ep.
  2:{ split; [done|]. exists now. split; [unfold soaSigMaxAge; lia|]. unfold sign. by rewrite Ep. }
  assert (Hfresh : cache_ok p now (<[Z.land mods signatureMods := (now, sign p [soa p] mods now)]> cache) /\
                   exists made, made <= now < made + soaSigMaxAge /\ sign p [soa p] mods now = sign p [soa p] mods made).
  { split; [|exists now; split; [unfold soaSigMaxAge; lia|done]].
    intros slot made sig [[<- [= <- <-]]|[_ E]]%lookup_insert_Some; [|by apply H].
    split; [lia|]. by rewrite sign_slot. }
  destruct (cache !! Z.land mods signatureMods) as [[made sig]|] eqn:E; [|done].
  destruct (Z.ltb_spec (Sub_time now made) soaSigMaxAge) as [Hlt|]; [|done]. split; [done|].
  destruct (H _ _ _ E) as [Hm ->]. exists made. split; [|apply sign_slot].
  unfold Sub_time, soaSigMaxAge, max_duration in *. lia.
Qed.

(** ** What a reply says

    The sections of the reply to every kind of query, written down without
    the handlers. [sig rrs mods l] says that [l] are the signatures that go
    with [rrs]; without the DO bit there are none. *)
Section Spec.
Variables (p : Probe P) (c : Conn) (st : Request) (sig : list RR -> Z -> list RR -> Prop).

Definition signed (ans : list RR) (mods : Z) (l : list RR) : Prop :=
  if state_Do st then exists sigs, l = ans ++ sigs /\ sig ans mods sigs else l = ans.

(** A denial: the SOA, and with DO the NSEC of the name with the types it is
    said to have, each with its signature. *)
Definition denied (name : bytes) (mods : Z) (types : list Z) (l : list RR) : Prop :=
  if state_Do st then
    let nsec := mkRR (mkHeader name TypeNSEC ClassINET (p_TTL p) 0) (RdNSEC (bs "\000." ++ name) types) in
    exists nsigs asigs, l = [soa p; nsec] ++ nsigs ++ asigs /\ sig [nsec] mods nsigs /\ sig [soa p] mods asigs
  else l = [soa p].

Definition nodata : list Z := [TypeRRSIG; TypeNSEC].

(** The strings of the readout: at most 255 octets each, and together the
    summary of the observation, padded behind its end for [_big]. *)
Definition readout_strings (mods : Z) (o : Observation) (l : list bytes) : Prop :=
  l <> [] /\ Forall (fun t => (length t <= 255)%nat) l /\ take (length (Summary o)) (concat l) = Summary o /\
  zlen (concat l) = (let n := zlen (Summary o) in
                     if Has mods ModBig then if p_BigSize p <=? n then n else Z.max (p_BigSize p) (n + 5) else n).

(** The records below a token, given the observation as the store counts it. *)
Definition token_answer (mods : Z) (o : Observation) (ans : list RR) : Prop :=
  let t := state_QType st in
  let a := addrOf c st in
  let rr d := mkRR (mkHeader (state_Name st) t ClassINET (p_TTL p) 0) d in
  let ech := p_ECHConfigList p in
  if t =? TypeA then ans = if Is4 a then [rr (RdA (AsSlice a))] else []
  else if t =? TypeAAAA then ans = if Is6 a then [rr (RdAAAA (AsSlice a))] else []
  else if t =? TypeHTTPS then
    ans = if beqb ech [] then [] else [rr (RdHTTPS 1 dot [SVCBAlpn [bs "h2"]; SVCBECHConfig ech])]
  else if t =? TypeSVCB then
    ans = if beqb ech [] then [] else [rr (RdSVCB 1 dot [SVCBAlpn [bs "h2"]; SVCBECHConfig ech])]
  else if t =? TypeTXT then exists l, ans = [rr (RdTXT l)] /\ readout_strings mods o l
  else ans = [].

(** A level of a token's browse tree: the answer and the hints. *)
Definition tree_answer (k : dnssdKind) (token : bytes) : list RR * list RR :=
  let t := state_QType st in
  let name k := concat ((fun l => l ++ dot) <$> tree_labels k) ++ token ++ dot ++ p_Zone p in
  let rr n t d := mkRR (mkHeader n t ClassINET (p_TTL p) 0) d in
  let srv := rr (name dnssdInstanceName) TypeSRV (RdSRV 0 0 443 (p_NSName p)) in
  let txt := rr (name dnssdInstanceName) TypeTXT (RdTXT [bs "txtvers=1"; bs "token=" ++ token]) in
  let any := t =? TypeANY in
  match k with
  | dnssdNone => ([], [])
  | dnssdBrowse => if (t =? TypePTR) || any then ([rr (name dnssdBrowse) TypePTR (RdPTR (name dnssdEnumerate))], []) else ([], [])
  | dnssdEnumerate =>
      if (t =? TypePTR) || any then ([rr (name dnssdEnumerate) TypePTR (RdPTR (name dnssdInstanceName))], [srv; txt]) else ([], [])
  | dnssdInstanceName =>
      ((if (t =? TypeSRV) || any then [srv] else []) ++ (if (t =? TypeTXT) || any then [txt] else []), [])
  end.

(** The zone's own records. *)
Definition apex_answer : list RR :=
  let t := state_QType st in
  if t =? TypeSOA then [soa p]
  else if t =? TypeNS then [mkRR (mkHeader (p_Zone p) TypeNS ClassINET (p_TTL p) 0) (RdNS (p_NSName p))]
  else if t =? TypeDNSKEY then match p_Signer p with Some sg => [key_rr sg] | None => [] end
  else [].

(** The agent zone's. *)
Definition agent_answer : list RR :=
  let t := state_QType st in
  let hdr n := mkHeader n t ClassINET (p_AgentTTL p) 0 in
  let own := p_AgentDomain p in
  if beqb (state_Name st) own then
    if t =? TypeSOA then [agentSOA p] else if t =? TypeNS then [mkRR (hdr own) (RdNS (p_NSName p))] else []
  else if t =? TypeTXT then
    match ParseReport (state_Name st) own (p_Zone p) with
    | Ok _ => [mkRR (hdr (state_Name st)) (RdTXT [bs "report received"])]
    | Err _ => []
    end
  else [].

(** An answer with its signature, or the denial of the type. *)
Definition answered (ans : list RR) (name : bytes) (mods : Z) (answer auth : list RR) : Prop :=
  match ans with
  | [] => answer = [] /\ denied name mods nodata auth
  | _ => signed ans mods answer /\ auth = []
  end.

Definition sections_spec (stored : Observation) (answer auth extra : list RR) : Prop :=
  match route p st with
  | ToNext => True
  | ToFormErr | ToBadKeyTag | ToRefused => answer = [] /\ auth = [] /\ extra = []
  | ToAgent => answer = agent_answer /\ auth = (match answer with [] => [agentSOA p] | _ => [] end) /\ extra = []
  | ToApex => answered apex_answer (p_Zone p) 0 answer auth /\ extra = []
  | ToDNSSD k token =>
      answered (tree_answer k token).1 (state_Name st) 0 answer auth /\ extra = (tree_answer k token).2
  | ToKeyTag _ => answer = [] /\ denied (state_Name st) 0 nodata auth /\ extra = []
  | ToQuery q =>
      extra = [] /\
      if Has (Mods q) ModServfail then answer = [] /\ auth = []
      else if Has (Mods q) ModNXDOMAIN then answer = [] /\ denied (state_Name st) (Mods q) nodata auth
      else if Has (Mods q) ModNXNAME then answer = [] /\ denied (state_Name st) (Mods q) (nodata ++ [TypeNXNAME]) auth
      else if Has (Mods q) ModTruncate then answer = [] /\ auth = []
      else exists ans, token_answer (Mods q) stored ans /\ answered ans (state_Name st) (Mods q) answer auth
  end.

(** The one kind of reply that is truncated on purpose. *)
Definition truncates : bool :=
  match route p st with
  | ToQuery q => Has (Mods q) ModTruncate && negb (Has (Mods q) ModServfail || Has (Mods q) ModNXDOMAIN || Has (Mods q) ModNXNAME)
  | _ => false
  end.
End Spec.


(** ** What is recorded *)

(** The observation a query leaves. *)
Definition observed (p : Probe P) (c : Conn) (st : Request) (now : Z) : option Observation :=
  match route p st with
  | ToQuery q =>
      let obs := observe_query c st q (raw_name st) now in
      Some (match p_Signer p with
            | Some sg => if 0 <? zlen (KeyTags obs)
                         then set_tls_key obs (TLS obs) (hasKeyTag (KeyTags obs) (KeyTag sg)) else obs
            | None => obs
            end)
  | ToDNSSD _ token => Some (observe_query c st {| Token := token; Mods := 0 |} (state_Name st) now)
  | _ => None
  end.

(** The report a query brings. *)
Definition reported (p : Probe P) (c : Conn) (st : Request) (now : Z) : option ReportRecord :=
  match route p st with
  | ToAgent =>
      if beqb (state_Name st) (p_AgentDomain p) || negb (state_QType st =? TypeTXT) then None
      else match ParseReport (state_Name st) (p_AgentDomain p) (p_Zone p) with
           | Ok rep => Some (NewReportRecord now rep (addrOf c st) (transportFrom (c_writer c) (Proto st)).1)
           | Err _ => None
           end
  | _ => None
  end.

Definition recorded (p : Probe P) (c : Conn) (st : Request) (now : Z) (x : T) : T :=
  match observed p c st now, reported p c st now with
  | Some o, _ => (do_Record now o x).1.1
  | None, Some r => (do_RecordReport now r x).1
  | None, None => x
  end.

Lemma record_observation_fst obs now s :
  store (record_observation obs now s).1 = (do_Record now obs (store s)).1.1 /\
  (record_observation obs now s).2 = (do_Record now obs (store s)).1.2.
Proof. unfold record_observation. by destruct (do_Record now obs (store s)) as [[x o] b] eqn:E; cbn; rewrite E. Qed.

Lemma probe_recorded p next c st now s : store (probe_ServeDNS p next c st now s).1 = recorded p c st now (store s).
Proof.
  unfold probe_ServeDNS, recorded, observed, reported. destruct (route p st) as [| | | |k token|tags| |q|] eqn:Er.
  - unfold serveReport. destruct (beqb _ _); [done|]. cbn [orb].
    destruct (ParseReport _ _ _) as [rep|e].
    + destruct (negb _); [done|]. destruct (transportFrom _ _) as [tr tls] eqn:Et. cbn [fst].
      by destruct (do_RecordReport _ _ _) as [x b].
    + by destruct (negb _).
  - done.
  - done.
  - unfold serveApex, nodataDenial.
    assert (Hk : store (countDNSKEYKeyTags p (Req st) s) = store s).
    { unfold countDNSKEYKeyTags. destruct (Edns (Req st)); [|done]. by destruct (0 <? _). }
    destruct (state_QType st =? TypeSOA); [|destruct (state_QType st =? TypeNS); [|destruct (state_QType st =? TypeDNSKEY);
      [destruct (p_Signer p)|]]];
      try (destruct (state_Do st); [|done]); cbn; repeat case_match; cbn; try done; by simplify_eq.
  - unfold serveDNSSD, nodataDenial. set (obs := observe_query _ _ _ _ _).
    destruct (record_observation_fst obs now s) as [H _]. destruct (record_observation obs now s) as [s0 o]. cbn in H. rewrite <- H.
    destruct (synthesizeDNSSD _ _ _ k token _) as [answer extra]. destruct (zlen answer =? 0); [|done].
    by destruct (denial _ _ _ _ _ _ _).
  - unfold serveKeyTagQuery, nodataDenial. destruct (isKeyTagQueryType st); by destruct (denial _ _ _ _ _ _ _).
  - by destruct (isKeyTagQueryType st).
  - unfold observeAndRecord. match goal with |- context [record_observation ?o now s] => set (obs := o) end.
    destruct (record_observation_fst obs now s) as [H _]. destruct (record_observation obs now s) as [s0 o]. cbn in H. rewrite <- H.
    unfold respondForQuery, nodataDenial, compactDenial.
    repeat (destruct (Has _ _); [first [done|by destruct (denial _ _ _ _ _ _ _)]|]).
    destruct (zlen _ =? 0); [by destruct (denial _ _ _ _ _ _ _)|done].
  - done.
Qed.

Lemma addrOf_unmapped c st : Unmap (addrOf c st) = addrOf c st.
Proof. unfold addrOf. repeat case_match; rewrite ?Unmap_idem; done. Qed.

Lemma Observe_kept now q raw addr tr qt msg :
  ResolverAddr (Observe now q raw addr tr qt msg) = Unmap addr /\ ob_Token (Observe now q raw addr tr qt msg) = Token q.
Proof. unfold Observe, applyEDNSObservation. destruct (Edns msg); [|done]. by rewrite fold_options. Qed.

Lemma observe_query_kept c st q raw now :
  ResolverAddr (observe_query c st q raw now) = addrOf c st /\ ob_Token (observe_query c st q raw now) = Token q.
Proof.
  unfold observe_query. destruct (transportFrom _ _) as [tr tls]. cbn [set_tls_key ResolverAddr ob_Token].
  destruct (Observe_kept now q raw (addrOf c st) tr (state_QType st) (Req st)) as [-> ->]. by rewrite addrOf_unmapped.
Qed.

Lemma observed_addr p c st q raw now s : ResolverAddr (observeAndRecord p c st q raw now s).2 = addrOf c st.
Proof.
  unfold observeAndRecord. match goal with |- context [record_observation ?o now s] => set (obs := o) end.
  destruct (record_observation_fst obs now s) as [_ ->]. destruct (Record_counts now obs (store s)) as (t & n & ->).
  cbn [set_seen set_at ResolverAddr]. destruct (observe_query_kept c st q raw now) as [Ho _].
  unfold obs. destruct (p_Signer p); [|done]. by destruct (0 <? _).
Qed.


Lemma respond_answer p c st rcode answer auth mods m :
  respond p c st rcode answer auth false [edeFor mods] = write_one m -> Truncated m = false -> Answer m = answer.
Proof.
  intros Ho Ht. pose proof (respond_reply p c st rcode answer auth false (Some mods)) as Hw. unfold wrote in Hw.
  rewrite Ho in Hw. destruct (c_writes c); [|done]. destruct Hw as (m' & [= <-] & [_ _ (_ & _ & _ & Hs) _] & _).
  by destruct (Hs Ht).
Qed.


Abbreviation sigs_now p now := (fun rrs mods l => sig_exact p rrs mods now l).

Lemma denial_ok p st name mods types now cache :
  signer_fine p now -> cache_ok p now cache ->
  let '(auth, cache') := denial p name mods (state_Do st) types now cache in
  cache_ok p now cache' /\ denied p st (sigs_now p now) name mods types auth.
Proof.
  intros Hs Hc. unfold denial, denied. destruct (state_Do st); cbn [negb]; [|done].
  set (nsec := mkRR _ _).
  pose proof (signSOA_ok p mods now cache Hc) as H. destruct (signSOA p (soa p) mods now cache) as [sig cache'].
  destruct H as (Hc' & made & Hm & ->). split; [done|].
  exists (opt_rr (sign p [nsec] mods now)), (opt_rr (sign p [soa p] mods made)). split_and!.
  - by rewrite <- !app_assoc.
  - apply sign_exact; [done|unfold soaSigMaxAge; lia|done].
  - by apply sign_exact.
Qed.

(** An answer with its signature. *)
Lemma signed_ok p st ans mods now :
  signer_fine p now -> ans <> [] ->
  signed st (sigs_now p now) ans mods (if state_Do st then ans ++ opt_rr (sign p ans mods now) else ans).
Proof.
  intros Hs Ha. unfold signed. destruct (state_Do st); [|done]. eexists. split; [done|].
  apply sign_exact; [done|unfold soaSigMaxAge; lia|done].
Qed.

Lemma answered_some p st sig ans name mods answer :
  ans <> [] -> signed st sig ans mods answer -> answered p st sig ans name mods answer [].
Proof. by destruct ans. Qed.

(** ** Every handler *)

(** What serving a query from a cache came to: one reply with a code and
    bounded options, the sections that were promised, and a cache still in
    order. *)
Record served (p : Probe P) (c : Conn) (st : Request) (rcode now : Z) (cache : sig_cache)
    (sec : list RR -> list RR -> list RR -> Prop) (tc : bool) (r : State T * Outcome) : Prop := {
  sv_wrote : wrote c (fun m => Rcode m = rcode /\ Authoritative m = true /\ options_ok st m /\ (tc = true -> Truncated m = true) /\
                       (signer_fine p now -> cache_ok p now cache ->
                        exists answer auth extra, sections_from answer auth extra m /\ sec answer auth extra)) r.2;
  sv_cache : signer_fine p now -> cache_ok p now cache -> cache_ok p now (soaSigs r.1)
}.

Lemma served_mono p c st rcode now cache (sec sec' : list RR -> list RR -> list RR -> Prop) tc r :
  (forall x y z, sec x y z -> sec' x y z) ->
  served p c st rcode now cache sec tc r -> served p c st rcode now cache sec' tc r.
Proof.
  intros Himp [Hw Hc]. split; [|done]. eapply wrote_mono; [|exact Hw]. intros m (H1 & H2 & H3 & H4 & H5).
  split_and!; try done. intros Hs Hk. destruct (H5 Hs Hk) as (x & y & z & Hf & Hsec). exists x, y, z. auto.
Qed.

Lemma respond_served p c st rcode answer auth tc ms now cache s' (sec : list RR -> list RR -> list RR -> Prop) :
  (signer_fine p now -> cache_ok p now cache -> sec answer auth [] /\ cache_ok p now (soaSigs s')) ->
  served p c st rcode now cache sec tc
    (s', respond p c st rcode answer auth tc (match ms with Some x => [edeFor x] | None => [] end)).
Proof.
  intros H. split; [|intros H1 H2; by apply H]. cbn [snd].
  eapply wrote_mono; [|apply respond_reply]. intros m [[H1 H2 Hsec H4] Htc].
  split_and!; [done|done|done|done|]. intros Hs Hc. exists answer, auth, []. split; [done|]. by apply H.
Qed.

(** A denial and what is written with it. *)
Lemma denial_served p c st rcode name mods types ms now s :
  served p c st rcode now (soaSigs s)
    (fun answer auth extra => answer = [] /\ denied p st (sigs_now p now) name mods types auth /\ extra = []) false
    (let '(auth, cache) := denial p name mods (state_Do st) types now (soaSigs s) in
     (with_sigs cache s, respond p c st rcode [] auth false (match ms with Some x => [edeFor x] | None => [] end))).
Proof.
  destruct (denial p name mods (state_Do st) types now (soaSigs s)) as [auth cache] eqn:E.
  apply respond_served. intros Hs Hc. pose proof (denial_ok p st name mods types now (soaSigs s) Hs Hc) as H.
  rewrite E in H. cbn [with_sigs soaSigs]. tauto.
Qed.

(** *** Below a token *)

Lemma readout_ok p mods o :
  readout_strings p mods o (chunk (if Has mods ModBig then pad (Summary o) (p_BigSize p) else Summary o)).
Proof.
  set (t := if Has mods ModBig then _ else _). destruct (chunk_pad_total t 0) as (H1 & H2 & H3 & _).
  split; [done|]. split; [done|]. rewrite H1. unfold t. destruct (chunk_pad_total (Summary o) (p_BigSize p)) as (_ & _ & _ & H4 & H5).
  destruct (Has mods ModBig); [by split|]. by rewrite firstn_all.
Qed.

Lemma token_answer_ok p c st mods o :
  ResolverAddr o = addrOf c st -> token_answer p c st mods o (synthesize p (state_Name st) (state_QType st) o mods).
Proof.
  intros Ho. unfold token_answer, synthesize. rewrite Ho.
  assert (Eech : (zlen (p_ECHConfigList p) =? 0) = beqb (p_ECHConfigList p) []) by (by destruct (p_ECHConfigList p)).
  rewrite Eech.
  destruct (Z.eqb_spec (state_QType st) TypeA) as [->|]; [by destruct (Is4 _)|].
  destruct (Z.eqb_spec (state_QType st) TypeAAAA) as [->|]; [by destruct (Is6 _)|].
  destruct (Z.eqb_spec (state_QType st) TypeHTTPS) as [->|]; [cbn; by destruct (beqb _ _)|].
  destruct (Z.eqb_spec (state_QType st) TypeSVCB) as [->|]; [cbn; by destruct (beqb _ _)|].
  cbn [orb]. destruct (Z.eqb_spec (state_QType st) TypeTXT) as [->|]; [|done].
  eexists. split; [reflexivity|]. apply readout_ok.
Qed.

Lemma query_served p c st q obs now s :
  route p st = ToQuery q -> ResolverAddr obs = addrOf c st ->
  served p c st (route_code (ToQuery q)) now (soaSigs s) (sections_spec p c st (sigs_now p now) obs) (truncates p st)
    (respondForQuery p c st (state_Name st) q obs now s).
Proof.
  intros Hr Ho. unfold respondForQuery, nodataDenial, compactDenial, sections_spec, truncates. rewrite Hr. cbn [route_code].
  destruct (Has (Mods q) ModServfail).
  { rewrite andb_false_r. apply (respond_served p c st _ [] [] false (Some (Mods q))). by split. }
  destruct (Has (Mods q) ModNXDOMAIN).
  { rewrite andb_false_r. eapply served_mono; [|apply (denial_served p c st _ _ _ _ None)]. cbn. tauto. }
  destruct (Has (Mods q) ModNXNAME).
  { rewrite andb_false_r. eapply served_mono; [|apply (denial_served p c st _ _ _ _ None)]. cbn. tauto. }
  destruct (Has (Mods q) ModTruncate).
  { apply (respond_served p c st _ [] [] true None). by split. }
  pose proof (token_answer_ok p c st (Mods q) obs Ho) as Ha.
  destruct (synthesize p (state_Name st) (state_QType st) obs (Mods q)) as [|a l] eqn:E.
  - change (zlen (@nil RR) =? 0) with true. cbv iota.
    eapply served_mono; [|apply (denial_served p c st _ _ _ _ (Some (Mods q)))].
    intros x y z (-> & Hd & ->). split; [done|]. by exists [].
  - rewrite <- E in *. assert (Hne : synthesize p (state_Name st) (state_QType st) obs (Mods q) <> []) by (by rewrite E).
    assert (Hz : (zlen (synthesize p (state_Name st) (state_QType st) obs (Mods q)) =? 0) = false).
    { apply Z.eqb_neq. rewrite E, zlen_cons. pose proof (zlen_nonneg l). lia. }
    rewrite Hz. apply (respond_served p c st _ _ [] false (Some (Mods q))). intros Hs Hc. split; [|done].
    split; [done|]. exists (synthesize p (state_Name st) (state_QType st) obs (Mods q)). split; [done|].
    apply answered_some; [done|]. by apply signed_ok.
Qed.

(** *** The apex *)

Lemma countDNSKEYKeyTags_sigs p r s : soaSigs (countDNSKEYKeyTags p r s) = soaSigs s.
Proof. unfold countDNSKEYKeyTags. destruct (Edns r); [|done]. by destruct (0 <? _). Qed.

Lemma apex_answer_ok p st :
  (if state_QType st =? TypeSOA then [soa p]
   else if state_QType st =? TypeNS then [mkRR (mkHeader (p_Zone p) TypeNS ClassINET (p_TTL p) 0) (RdNS (p_NSName p))]
   else if state_QType st =? TypeDNSKEY then match p_Signer p with None => [] | Some sg => [DNSKEY sg] end else [])
  = apex_answer p st.
Proof. unfold apex_answer, DNSKEY. repeat case_match; done. Qed.

Lemma apex_served p c st now s :
  served p c st RcodeSuccess now (soaSigs s)
    (fun answer auth extra => answered p st (sigs_now p now) (apex_answer p st) (p_Zone p) 0 answer auth /\ extra = []) false
    (serveApex p c st now s).
Proof.
  unfold serveApex, nodataDenial.
  assert (E : exists s0, soaSigs s0 = soaSigs s /\
    (if state_QType st =? TypeSOA then ([soa p], s)
     else if state_QType st =? TypeNS then ([mkRR (mkHeader (p_Zone p) TypeNS ClassINET (p_TTL p) 0) (RdNS (p_NSName p))], s)
     else if state_QType st =? TypeDNSKEY then
       (match p_Signer p with None => [] | Some sg => [DNSKEY sg] end, countDNSKEYKeyTags p (Req st) s)
     else ([], s)) = (apex_answer p st, s0)).
  { rewrite <- apex_answer_ok. destruct (state_QType st =? TypeSOA); [by exists s|]. destruct (state_QType st =? TypeNS); [by exists s|].
    destruct (state_QType st =? TypeDNSKEY); [|by exists s]. eexists. split; [apply countDNSKEYKeyTags_sigs|done]. }
  destruct E as (s0 & Hs0 & ->). rewrite <- Hs0. clear Hs0 s.
  assert (Hsoa : forall a0 l d, apex_answer p st = a0 :: l -> Data a0 = RdSOA d -> signer_fine p now -> a0 = soa p /\ l = []).
  { intros a0 l d. unfold apex_answer, signer_fine. repeat case_match; try done; intros [= <- <-]; try done.
    intros Hd (_ & f & pr & a & k & Hk). congruence. }
  destruct (apex_answer p st) as [|a0 l] eqn:Ea.
  { eapply served_mono; [|apply (denial_served p c st _ _ _ _ None)]. intros x y z (-> & Hd & ->). done. }
  destruct (state_Do st) eqn:Edo.
  2:{ apply (respond_served p c st _ _ [] false None). intros Hs Hc. unfold answered, signed. by rewrite Edo. }
  assert (Hplain : served p c st RcodeSuccess now (soaSigs s0)
    (fun answer auth extra => answered p st (sigs_now p now) (a0 :: l) (p_Zone p) 0 answer auth /\ extra = []) false
    (with_sigs (soaSigs s0) s0, respond p c st RcodeSuccess ((a0 :: l) ++ opt_rr (sign p (a0 :: l) 0 now)) [] false [])).
  { apply (respond_served p c st _ _ [] false None). intros Hs Hc. split; [|done]. split; [|done]. split; [|done].
    pose proof (signed_ok p st (a0 :: l) 0 now Hs ltac:(done)) as H. by rewrite Edo in H. }
  destruct (Data a0) eqn:Ed; try exact Hplain.
  destruct (signSOA p a0 0 now (soaSigs s0)) as [sig cache] eqn:E.
  apply (respond_served p c st _ _ [] false None). intros Hs Hc.
  destruct (Hsoa a0 l _ eq_refl Ed Hs) as [-> ->]. pose proof (signSOA_ok p 0 now _ Hc) as H. rewrite E in H.
  destruct H as (H1 & made & Hm & ->). split; [|done]. split; [|done]. split; [|done].
  unfold signed. rewrite Edo. eexists. split; [done|]. by apply sign_exact.
Qed.

(** *** The browse tree and the Key Tag queries *)

Lemma record_observation_sigs obs now s : soaSigs (record_observation obs now s).1 = soaSigs s.
Proof. unfold record_observation. by destruct (do_Record _ _ _) as [[x o] b]. Qed.

Lemma observeAndRecord_sigs p c st q raw now s : soaSigs (observeAndRecord p c st q raw now s).1 = soaSigs s.
Proof. apply record_observation_sigs. Qed.

Lemma tree_answer_ok p st k token :
  synthesizeDNSSD (p_Zone p) (p_NSName p) (p_TTL p) k token (state_QType st) = tree_answer p st k token.
Proof.
  unfold synthesizeDNSSD, tree_answer, dnssdNames, dnssd_hdr.
  assert (E1 : concat ((fun l => l ++ dot) <$> tree_labels dnssdBrowse) ++ token ++ dot ++ p_Zone p
    = dnssdMetaService ++ dot ++ dnssdMetaDNSSD ++ dot ++ dnssdMetaUDP ++ dot ++ token ++ dot ++ p_Zone p)
    by (cbn [tree_labels fmap list_fmap concat]; by rewrite app_nil_r, <- !app_assoc).
  assert (E2 : concat ((fun l => l ++ dot) <$> tree_labels dnssdEnumerate) ++ token ++ dot ++ p_Zone p
    = dnssdServiceType ++ dot ++ dnssdProto ++ dot ++ token ++ dot ++ p_Zone p)
    by (cbn [tree_labels fmap list_fmap concat]; by rewrite app_nil_r, <- !app_assoc).
  assert (E3 : concat ((fun l => l ++ dot) <$> tree_labels dnssdInstanceName) ++ token ++ dot ++ p_Zone p
    = dnssdInstance ++ dot ++ dnssdServiceType ++ dot ++ dnssdProto ++ dot ++ token ++ dot ++ p_Zone p)
    by (cbn [tree_labels fmap list_fmap concat]; by rewrite app_nil_r, <- !app_assoc).
  cbv zeta. rewrite E1, E2, E3. destruct k; [done|..].
  - by destruct (_ =? TypePTR), (_ =? TypeANY).
  - by destruct (_ =? TypePTR), (_ =? TypeANY).
  - destruct (Z.eqb_spec (state_QType st) TypeSRV) as [->|]; [done|].
    destruct (Z.eqb_spec (state_QType st) TypeTXT) as [->|]; [done|]. by destruct (_ =? TypeANY).
Qed.

Lemma tree_served p c st k token now s :
  served p c st RcodeSuccess now (soaSigs s)
    (fun answer auth extra => answered p st (sigs_now p now) (tree_answer p st k token).1 (state_Name st) 0 answer auth /\
                              extra = (tree_answer p st k token).2) false
    (serveDNSSD p c st k token now s).
Proof.
  unfold serveDNSSD, nodataDenial. set (obs := observe_query c st _ _ now).
  pose proof (record_observation_sigs obs now s) as Hs0. destruct (record_observation obs now s) as [s0 o]. cbn in Hs0.
  rewrite <- Hs0. clear Hs0 s. rewrite tree_answer_ok.
  assert (Hnone : (tree_answer p st k token).1 = [] -> (tree_answer p st k token).2 = []).
  { unfold tree_answer. destruct k; try done; by destruct ((_ =? _) || _). }
  destruct (tree_answer p st k token) as [answer extra]. cbn [fst snd] in *.
  destruct answer as [|a l].
  { change (zlen (@nil RR) =? 0) with true. cbv iota. rewrite Hnone by done.
    eapply served_mono; [|apply (denial_served p c st _ _ _ _ None)]. intros x y z (-> & Hd & ->). done. }
  assert (Hz : (zlen (a :: l) =? 0) = false) by (apply Z.eqb_neq; rewrite zlen_cons; pose proof (zlen_nonneg l); lia).
  rewrite Hz. split; [|done]. eapply wrote_mono; [|apply respondDNSSD_reply]. intros m [H1 H2 H3 H4].
  split_and!; [done..|]. intros Hs Hc. eexists _, [], extra. split; [exact H3|]. split; [|done]. split; [|done].
  by apply signed_ok.
Qed.

Lemma keytag_served p c st tags now s :
  served p c st RcodeSuccess now (soaSigs s)
    (fun answer auth extra => answer = [] /\ denied p st (sigs_now p now) (state_Name st) 0 nodata auth /\ extra = []) false
    (serveKeyTagQuery p c st tags now s).
Proof.
  unfold serveKeyTagQuery, nodataDenial.
  destruct (isKeyTagQueryType st); [|apply (denial_served p c st _ _ _ _ None)].
  match goal with |- context [with_metrics ?f s] => set (s0 := with_metrics f s) end.
  change (soaSigs s) with (soaSigs s0). apply (denial_served p c st _ _ _ _ None).
Qed.

(** *** The agent zone *)

Lemma respondAgent_served p c st answer now cache s' :
  soaSigs s' = cache ->
  served p c st RcodeSuccess now cache
    (fun x y z => x = answer /\ y = match x with [] => [agentSOA p] | _ => [] end /\ z = []) false
    (s', respondAgent p c st answer).
Proof.
  intros <-. split; [|done]. eapply wrote_mono; [|apply respondAgent_reply]. intros m [[H1 H2 H3 H4] _].
  split_and!; [done..|]. intros _ _. eexists _, _, []. split; [exact H3|]. split; [done|]. split; [|done].
  destruct answer as [|a l]; [done|]. rewrite zlen_cons. pose proof (zlen_nonneg l).
  by rewrite (proj2 (Z.eqb_neq (1 + zlen l) 0)) by lia.
Qed.

Lemma agent_served p c st now s :
  served p c st RcodeSuccess now (soaSigs s)
    (fun x y z => x = agent_answer p st /\ y = match x with [] => [agentSOA p] | _ => [] end /\ z = []) false
    (serveReport p c st now s).
Proof.
  unfold serveReport, agent_answer, serveAgentApex. destruct (beqb (state_Name st) (p_AgentDomain p)).
  { replace (if state_QType st =? TypeSOA then [agentSOA p] else
             if state_QType st =? TypeNS then [mkRR (mkHeader (p_AgentDomain p) (state_QType st) ClassINET (p_AgentTTL p) 0) (RdNS (p_NSName p))] else [])
      with (if state_QType st =? TypeSOA then [agentSOA p] else
            if state_QType st =? TypeNS then [mkRR (mkHeader (p_AgentDomain p) TypeNS ClassINET (p_AgentTTL p) 0) (RdNS (p_NSName p))] else []).
    { by apply respondAgent_served. }
    destruct (Z.eqb_spec (state_QType st) TypeNS) as [->|]; done. }
  destruct (ParseReport _ _ _) as [rep|e].
  - destruct (Z.eqb_spec (state_QType st) TypeTXT) as [Et|]; cbn [negb]; [|by apply respondAgent_served].
    rewrite Et. destruct (transportFrom _ _) as [tr tls]. destruct (do_RecordReport _ _ _) as [x b].
    by apply respondAgent_served.
  - replace (if state_QType st =? TypeTXT then [] else []) with (@nil RR) by (by destruct (_ =? _)).
    by apply respondAgent_served.
Qed.

(** *** Together *)

Lemma probe_served p next c st now s stored :
  route p st <> ToNext -> (forall o, observed p c st now = Some o -> stored = (do_Record now o (store s)).1.2) ->
  served p c st (route_code (route p st)) now (soaSigs s) (sections_spec p c st (sigs_now p now) stored) (truncates p st)
    (probe_ServeDNS p next c st now s).
Proof.
  intros Hr Hst. unfold probe_ServeDNS.
  destruct (route p st) as [| | | |k token|tags| |q|] eqn:Er; cbn [route_code].
  - unfold sections_spec, truncates. rewrite Er. apply agent_served.
  - done.
  - unfold truncates. rewrite Er. apply (respond_served p c st _ [] [] false None). intros _ Hc. unfold sections_spec. by rewrite Er.
  - unfold sections_spec, truncates. rewrite Er. apply apex_served.
  - unfold sections_spec, truncates. rewrite Er. apply tree_served.
  - unfold sections_spec, truncates. rewrite Er. apply keytag_served.
  - unfold truncates. rewrite Er. apply (respond_served p c st _ [] [] false None). intros _ Hc.
    unfold sections_spec. rewrite Er. split; [done|]. by destruct (isKeyTagQueryType st).
  - pose proof (observeAndRecord_sigs p c st q (raw_name st) now s) as Hs.
    pose proof (observed_addr p c st q (raw_name st) now s) as Ha.
    assert (Ho : (observeAndRecord p c st q (raw_name st) now s).2 = stored).
    { unfold observed in Hst. rewrite Er in Hst. rewrite (Hst _ eq_refl). unfold observeAndRecord.
      by destruct (record_observation_fst (match p_Signer p with
         | Some sg => if 0 <? zlen (KeyTags (observe_query c st q (raw_name st) now))
                      then set_tls_key (observe_query c st q (raw_name st) now) (TLS (observe_query c st q (raw_name st) now))
                             (hasKeyTag (KeyTags (observe_query c st q (raw_name st) now)) (KeyTag sg))
                      else observe_query c st q (raw_name st) now
         | None => observe_query c st q (raw_name st) now end) now s). }
    destruct (observeAndRecord p c st q (raw_name st) now s) as [s0 obs]. cbn [fst snd] in *. subst obs. rewrite <- Hs.
    by apply query_served.
  - unfold truncates. rewrite Er. apply (respond_served p c st _ [] [] false None). intros _ Hc. unfold sections_spec. by rewrite Er.
Qed.

(** The store's answer for the observation, if there is one. *)
Lemma stored_exists p c st now s :
  exists stored, forall o, observed p c st now = Some o -> stored = (do_Record now o (store s)).1.2.
Proof.
  destruct (observed p c st now) as [o|]; [|by exists (observe_query c st {| Token := []; Mods := 0 |} [] now)].
  exists (do_Record now o (store s)).1.2. by intros o' [= <-].
Qed.

(** Whatever the state: one reply with its code and bounded options. *)
Lemma probe_wrote p next c st now s :
  route p st <> ToNext ->
  wrote c (fun m => Rcode m = route_code (route p st) /\ Authoritative m = true /\ options_ok st m)
    (probe_ServeDNS p next c st now s).2.
Proof.
  intros Hr. destruct (stored_exists p c st now s) as [stored Hst].
  eapply wrote_mono; [|apply (sv_wrote _ _ _ _ _ _ _ _ _ (probe_served p next c st now s stored Hr Hst))].
  intros m (H1 & H2 & H3 & _). done.
Qed.

(** ** Histories *)



(** ** Every signature in a reply *)













(** C13: the agent zone takes in what strangers send it: whatever the name,
    the reply is NOERROR, authoritative, and advertises no report channel of
    its own; only a TXT query for a well-formed report name, other than the
    apex, stores a report, which names the resolver that sent it and gets the
    acknowledging text; anything else gets no data and stores nothing. *)
Theorem agent_absorbs p next c st now s :
  route p st = ToAgent ->
  wrote c (fun m => Rcode m = RcodeSuccess /\ Authoritative m = true /\ options_of is_reporting m = [] /\
             (Truncated m = false ->
              match reported p c st now with
              | Some _ => Data <$> Answer m = [RdTXT [agentTXT]] /\ NsSec m = []
              | None => state_Name st <> p_AgentDomain p -> Answer m = [] /\ NsSec m = [agentSOA p]
              end)) (probe_ServeDNS p next c st now s).2 /\
  store (probe_ServeDNS p next c st now s).1 =
    match reported p c st now with Some r => (do_RecordReport now r (store s)).1 | None => store s end /\
  (forall r, reported p c st now = Some r ->
     state_QType st = TypeTXT /\ ReporterAddr r = addrOf c st /\
     exists rep, ParseReport (state_Name st) (p_AgentDomain p) (p_Zone p) = Ok rep /\
                 rr_Token r = rp_Token rep /\ rr_Qname r = Qname rep /\ rr_EDE r = EDE rep).
Proof.
  intros Hr.
  assert (Hrep : forall answer s', wrote c (fun m => Rcode m = RcodeSuccess /\ Authoritative m = true /\
            options_of is_reporting m = [] /\ (Truncated m = false -> Answer m = answer /\
              NsSec m = if zlen answer =? 0 then [agentSOA p] else [])) (@pair (State T) _ s' (respondAgent p c st answer)).2).
  { intros answer s'. eapply wrote_mono; [|apply respondAgent_reply]. intros m [[H1 H2 (_ & _ & _ & H3) _] H4].
    split_and!; [done..|]. intros Ht. by destruct (H3 Ht) as (? & ? & _). }
  split; [|split].
  - unfold probe_ServeDNS, reported. rewrite Hr. unfold serveReport.
    destruct (beqb (state_Name st) (p_AgentDomain p)) eqn:Eb; cbn [orb].
    { eapply wrote_mono; [|apply Hrep]. intros m (H1 & H2 & H3 & _). split_and!; [done..|]. intros _ Hn.
      apply beqb_true in Eb. done. }
    destruct (ParseReport _ _ _) as [rep|e].
    + destruct (negb _) eqn:Et.
      { eapply wrote_mono; [|apply Hrep]. intros m (H1 & H2 & H3 & H4). split_and!; [done..|]. auto. }
      destruct (transportFrom _ _) as [tr tls]. destruct (do_RecordReport _ _ _) as [x b].
      eapply wrote_mono; [|apply Hrep]. intros m (H1 & H2 & H3 & H4). split_and!; [done..|].
      intros Ht. by destruct (H4 Ht) as [-> ->].
    + eapply wrote_mono; [|apply Hrep]. intros m (H1 & H2 & H3 & H4). split_and!; [done..|].
      destruct (negb _); auto.
  - rewrite probe_recorded. unfold recorded, observed. by rewrite Hr.
  - unfold reported. rewrite Hr. intros r. destruct (beqb _ _); [done|]. cbn [orb].
    destruct (Z.eqb_spec (state_QType st) TypeTXT) as [Ht|]; [|done]. cbn [negb].
    destruct (ParseReport _ _ _) as [rep|e]; [|done]. intros [= <-]. split; [done|]. split.
    + unfold NewReportRecord. cbn. apply addrOf_unmapped.
    + by exists rep.
Qed.
End Props.

(** ** One zone served *)

Definition ex_probe : Probe bytes :=
  mkProbe bytes (Some simple_signer) (bs "check.test.") (bs "ns.check.test.") (bs "hostmaster.check.test.")
    (bs "agent.example.") [] 1200 1 3600.

Definition ex_conn : Conn :=
  {| c_remote := UDPAddr [Byte.xc0; Byte.x00; Byte.x02; Byte.x07]; c_writer := w_plain; c_writes := true |}.

Definition ex_request (name : bytes) (qtype : Z) : Request :=
  {| Req := query name qtype [EDNS0_ZONEVERSION 0 0 []]; SrcIP := bs "192.0.2.7"; Proto := bs "udp" |}.

Definition ex_state : State MemStore := mkState (NewMemStore 0 0 0) zero_metrics ∅.

Definition ex_next : chain := fun _ => {| written := []; code := RcodeRefused |}.




(** A signature the plugin makes over two RRsets at once: an ANY query with
    DO at the instance level of the browse tree gets the SRV and the TXT
    record and one RRSIG, which covers type SRV and is made over both. *)
Lemma any_signs_two_rrsets :
  let st := {| Req := set_edns (Some {| UDPSize := 1232; OptTtl := 32768; Option := [] |}) (query (bs "probe._probe._tcp.deadbeef.check.test.") TypeANY []);
               SrcIP := bs "192.0.2.7"; Proto := bs "udp" |} in
  match written (probe_ServeDNS ex_probe ex_next ex_conn st ex_now ex_state).2 with
  | [m] => match Answer m with
           | [srv; txt; sig] =>
               Rrtype (Hdr srv) = TypeSRV /\ Rrtype (Hdr txt) = TypeTXT /\
               signature_of simple_signer [srv; txt] 0 ex_now sig /\
               match Data sig with RdRRSIG d => TypeCovered d = TypeSRV | _ => False end
           | _ => False
           end
  | _ => False
  end.
Proof.
  vm_compute. split; [done|]. split; [done|]. split; [|done]. eexists _, _. split; [reflexivity|]. split; [reflexivity|]. done.
Qed.

(** A report about the query of the first example. *)
Lemma agent_absorbs_witness :
  let st := ex_request (bs "_er.1._badsig.deadbeef.check.test.6._er.agent.example.") TypeTXT in
  exists r, reported ex_probe ex_conn st ex_now = Some r /\ rr_Token r = bs "deadbeef" /\
    ReporterAddr r = Addr4 0xc0000207 /\
    store (probe_ServeDNS ex_probe ex_next ex_conn st ex_now ex_state).1 = (RecordReport ex_now r (NewMemStore 0 0 0)).1.
Proof.
  cbv zeta. set (st := ex_request _ _).
  assert (Hr : route ex_probe st = ToAgent) by (vm_compute; reflexivity).
  destruct (agent_absorbs ex_probe ex_next ex_conn st ex_now ex_state Hr) as (_ & Hst & Hrep).
  assert (E : exists r, reported ex_probe ex_conn st ex_now = Some r /\ rr_Token r = bs "deadbeef")
    by (eexists; split; vm_compute; reflexivity).
  destruct E as (r & E & Et). rewrite E in Hst. destruct (Hrep r E) as (_ & Ha & _).
  exists r. split; [exact E|]. split; [exact Et|]. split; [|exact Hst]. rewrite Ha. vm_compute. reflexivity.
Defined.
