(* ===== verification/ProbeSoaRace.v ===== *)
(** * Signing the SOA in parallel ([probe/probe.go], [signSOA])

    The cache of SOA signatures is an array of atomic slots without a lock:
    between a query's look at its slot and its own store, others look, sign
    and store.  [sig_step] is one atomic step of [signSOA]; [race_step] lets
    queries arrive and take steps in any order, at times that do not go back.
    The theorem says how old a signature can be when it is used, whoever made
    it, and so that it still says what was asked. *)

From S2P Require Import Prelude GoStrings Netip Dns SimpleDns ProbeLabels ProbeObserve ProbeStore ProbeSign.
From S2P Require Import ProbeServe ProbeServeProps.

(** ** One query *)

(** Where [signSOA] is: at its clock, at its slot, signing, storing what it
    signed, or back with a signature or none. *)
Inductive SigPC :=
| SigClock
| SigLoad (now : Z)
| SigSign (now : Z)
| SigStore (now : Z) (sig : option RR)
| SigBack (sig : option RR).

Definition sig_rank (pc : SigPC) : nat :=
  match pc with SigClock => 0 | SigLoad _ => 1 | SigSign _ => 2 | SigStore _ _ => 3 | SigBack _ => 4 end.

(** A query's modifiers, its place, and the times of its first and last step. *)
Record SigQuery := mkSigQuery { sq_mods : Z; sq_pc : SigPC; sq_begun : Z; sq_last : Z }.

(** The queries in [signSOA], the cache they share and the clock. *)
Record SoaRace := mkSoaRace { sr_queries : list SigQuery; sr_cache : sig_cache; sr_clock : Z }.

Section Race.
Context `{N : !NameLib} `{L : !LabelLib} {P : Type} `{C : !CryptoLib P}.
Variable p : Probe P.

(** One step at time [t]. *)
Definition sig_step (mods t : Z) (pc : SigPC) (cache : sig_cache) : SigPC * sig_cache :=
  let slot := Z.land mods signatureMods in
  match pc with
  | SigClock => match p_Signer p with None => (SigBack None, cache) | Some _ => (SigLoad t, cache) end
  | SigLoad now =>
      match cache !! slot with
      | Some (made, sig) => if Sub_time now made <? soaSigMaxAge then (SigBack sig, cache) else (SigSign now, cache)
      | None => (SigSign now, cache)
      end
  | SigSign now => (SigStore now (sign p [soa p] mods t), cache)
  | SigStore now sig => (SigBack sig, <[slot := (now, sig)]> cache)
  | SigBack sig => (SigBack sig, cache)
  end.

(** The query after its step; one that is back takes none. *)
Definition step_query (t : Z) (q : SigQuery) (pc : SigPC) : SigQuery :=
  match sq_pc q with
  | SigClock => mkSigQuery (sq_mods q) pc t t
  | SigBack _ => q
  | _ => mkSigQuery (sq_mods q) pc (sq_begun q) t
  end.

Inductive race_step : SoaRace -> SoaRace -> Prop :=
| race_arrive qs c now mods :
    race_step (mkSoaRace qs c now) (mkSoaRace (qs ++ [mkSigQuery mods SigClock now now]) c now)
| race_turn qs c now i q t pc c' :
    qs !! i = Some q -> now <= t -> sig_step (sq_mods q) t (sq_pc q) c = (pc, c') ->
    race_step (mkSoaRace qs c now) (mkSoaRace (<[i := step_query t q pc]> qs) c' t).

(** From an empty cache. *)
Definition reachable (w : SoaRace) : Prop := exists now, rtc race_step (mkSoaRace [] ∅ now) w.

(** ** What holds between any two steps *)

(** A signature of the SOA made at some time in [(a, b]]. *)
Definition made_between (mods a b : Z) (sig : option RR) : Prop :=
  exists ts, a < ts <= b /\ sig = sign p [soa p] mods ts.

Lemma made_wider mods a b a' b' sig : a' <= a -> b <= b' -> made_between mods a b sig -> made_between mods a' b' sig.
Proof. intros Ha Hb (ts & H & ->). exists ts. split; [lia|done]. Qed.

(** A slot's signature is its modifiers', no older than its time of making. *)
Definition slots_ok (now : Z) (c : sig_cache) : Prop :=
  forall slot made sig, c !! slot = Some (made, sig) -> made_between slot (made - 1) now sig.

Definition query_ok (now : Z) (q : SigQuery) : Prop :=
  sq_begun q <= sq_last q <= now /\
  match sq_pc q with
  | SigClock => True
  | SigLoad n | SigSign n => sq_begun q <= n <= now
  | SigStore n sig => sq_begun q <= n /\ made_between (sq_mods q) (n - 1) now sig
  | SigBack sig => made_between (sq_mods q) (sq_begun q - soaSigMaxAge) (sq_last q) sig
  end.

Definition race_ok (w : SoaRace) : Prop :=
  slots_ok (sr_clock w) (sr_cache w) /\ Forall (query_ok (sr_clock w)) (sr_queries w).

Lemma query_later now t q : now <= t -> query_ok now q -> query_ok t q.
Proof.
  intros Ht [H0 H]. split; [lia|]. destruct (sq_pc q); try done; [lia..|].
  destruct H as [H1 H2]. split; [done|]. eapply made_wider; [done| |exact H2]. lia.
Qed.

Lemma slots_later now t c : now <= t -> slots_ok now c -> slots_ok t c.
Proof. intros Ht H slot made sig E. eapply made_wider; [done| |by apply H]. lia. Qed.

(** What is in the slot of some modifiers was made for them. *)
Lemma slot_made now c mods made sig :
  slots_ok now c -> c !! Z.land mods signatureMods = Some (made, sig) -> made_between mods (made - 1) now sig.
Proof. intros H E. destruct (H _ _ _ E) as (ts & Ht & ->). exists ts. split; [done|]. by rewrite sign_slot. Qed.

Lemma sig_step_ok now t q c pc c' :
  now <= t -> slots_ok now c -> query_ok now q -> sig_step (sq_mods q) t (sq_pc q) c = (pc, c') ->
  slots_ok t c' /\ query_ok t (step_query t q pc).
Proof.
  intros Ht Hc Hq E. pose proof (slots_later _ _ _ Ht Hc) as Hc'. destruct Hq as [H0 Hq].
  destruct q as [mods qpc b l]. cbn [sq_mods sq_pc sq_begun sq_last] in *. unfold query_ok, step_query. cbn [sq_mods sq_pc sq_begun sq_last].
  destruct qpc as [|n|n|n sig|sig]; cbn [sig_step] in E.
  - destruct (p_Signer p) eqn:Es; injection E as <- <-; cbn; (split; [done|split; [lia|]]); [lia|].
    exists t. unfold soaSigMaxAge, sign. rewrite Es. split; [lia|done].
  - destruct (c !! _) as [[made sig]|] eqn:Ec; [|injection E as <- <-; cbn; split; [done|lia]].
    destruct (Z.ltb_spec (Sub_time n made) soaSigMaxAge) as [Hlt|]; injection E as <- <-; cbn; (split; [done|split; [lia|]]); [|lia].
    eapply made_wider; [| |by eapply slot_made]; [|lia].
    unfold Sub_time, soaSigMaxAge, max_duration in *. lia.
  - injection E as <- <-. cbn. split; [done|]. split; [lia|]. split; [lia|]. exists t. split; [lia|done].
  - injection E as <- <-. destruct Hq as [Hn Hs]. cbn. split.
    + intros slot made sig' [[<- [= <- <-]]|[_ Hl]]%lookup_insert_Some; [|by apply Hc'].
      destruct Hs as (ts & Hts & ->). exists ts. split; [lia|]. by rewrite sign_slot.
    + split; [lia|]. eapply made_wider; [| |exact Hs]; unfold soaSigMaxAge; lia.
  - injection E as <- <-. cbn. split; [done|]. split; [lia|done].
Qed.

Lemma race_step_ok w w' : race_step w w' -> race_ok w -> race_ok w'.
Proof.
  intros Hs [Hc Hq]. destruct Hs as [qs c now mods|qs c now i q t pc c' Hi Ht E]; cbn in *.
  - split; [done|]. apply Forall_app. split; [done|]. apply Forall_cons. split; [split; cbn; [lia|done]|constructor].
  - destruct (sig_step_ok now t q c pc c' Ht Hc (Forall_lookup_1 _ _ _ _ Hq Hi) E) as [H1 H2]. split; [done|]. cbn.
    apply Forall_insert; [|done]. eapply Forall_impl; [exact Hq|]. intros q'. by apply query_later.
Qed.

Lemma soa_reachable_ok w : reachable w -> race_ok w.
Proof.
  intros [now Hr]. apply (rtc_ind_r (fun w => race_ok w) (mkSoaRace [] ∅ now)) in Hr; [done| |].
  - split; cbn; [|constructor]. intros slot made sig. cbn. by rewrite lookup_empty.
  - intros w1 w2 _ Hs. by apply race_step_ok.
Qed.

(** ** A query that is not disturbed, at one instant *)

Definition sig_alone (mods t : Z) (cache : sig_cache) : SigPC * sig_cache :=
  Nat.iter 4 (fun s => sig_step mods t s.1 s.2) (SigClock, cache).

Lemma sig_alone_signSOA mods t cache :
  sig_alone mods t cache = (SigBack (signSOA p (soa p) mods t cache).1, (signSOA p (soa p) mods t cache).2).
Proof.
  unfold sig_alone, signSOA. cbn [Nat.iter nat_rect sig_step fst snd].
  destruct (p_Signer p); [|done]. cbn [sig_step fst snd].
  destruct (cache !! _) as [[made sig]|] eqn:E; cbn [sig_step fst snd]; [|done].
  by destruct (_ <? _).
Qed.
End Race.

(** ** The theorem *)

Section Safe.
Context `{N : !NameLib} `{L : !LabelLib} {P : Type} `{C : !CryptoLib P} `{CL : !CryptoLaws C}.
Variable p : Probe P.

Lemma sign_aged rrs mods made now age r :
  sign p rrs mods made = Some r -> made <= now < made + age ->
  (forall sg, p_Signer p = Some sg -> clock_aged age (validity sg) now) ->
  exists d, Data r = RdRRSIG d /\ window_says mods now d /\ Has mods ModUnsigned = false.
Proof.
  unfold sign. destruct (p_Signer p) as [sg|]; [|done]. intros H Hm Hc.
  destruct (signRRset sg rrs mods made) as [[sig|]|] eqn:E; try done. injection H as ->.
  eapply signRRset_aged; [by apply Hc|exact Hm|exact E].
Qed.

Lemma sig_step_rank mods t pc cache :
  (forall sig, pc <> SigBack sig) ->
  (sig_rank pc < sig_rank (sig_step p mods t pc cache).1 <= 4)%nat.
Proof.
  intros Hn. destruct pc as [|n|n|n sig|sig]; cbn [sig_step sig_rank].
  - destruct (p_Signer p); cbn; lia.
  - destruct (cache !! _) as [[made sig]|]; [destruct (_ <? _)|]; cbn; lia.
  - cbn. lia.
  - cbn. lia.
  - by destruct (Hn sig).
Qed.

(** C18: the race over the cache of SOA signatures is benign.  A query that
    runs alone at one instant does what [signSOA] does.  In any interleaving
    of any queries, each at its own pace, what a query comes back with is the
    signature of the SOA for its own modifiers, made no earlier than half a
    minute before the query began and no later than it came back, whoever
    made it and whatever was stored over it meanwhile; so when it comes back
    it still has the validity window the modifiers ask for, unless the query
    was held up for almost as long as signatures are valid.  No query waits
    for another: each of its steps, at most four, brings it nearer its end. *)
Theorem soa_race_benign w :
  reachable p w ->
  (forall mods t cache,
    sig_alone p mods t cache = (SigBack (signSOA p (soa p) mods t cache).1, (signSOA p (soa p) mods t cache).2)) /\
  (forall q sig, q ∈ sr_queries w -> sq_pc q = SigBack sig ->
    made_between p (sq_mods q) (sq_begun q - soaSigMaxAge) (sq_last q) sig /\
    forall r, sig = Some r ->
      (forall sg, p_Signer p = Some sg ->
        clock_aged (soaSigMaxAge + (sq_last q - sq_begun q)) (validity sg) (sq_last q)) ->
      exists d, Data r = RdRRSIG d /\ window_says (sq_mods q) (sq_last q) d /\ Has (sq_mods q) ModUnsigned = false) /\
  (forall q t, q ∈ sr_queries w -> (forall sig, sq_pc q <> SigBack sig) ->
    (sig_rank (sq_pc q) < sig_rank (sig_step p (sq_mods q) t (sq_pc q) (sr_cache w)).1 <= 4)%nat).
Proof.
  intros Hr. pose proof (soa_reachable_ok p w Hr) as [_ Hq]. rewrite Forall_forall in Hq.
  split; [apply sig_alone_signSOA|]. split; [|intros q t _; apply sig_step_rank].
  intros q sig Hin Hpc. destruct (Hq q Hin) as [_ Hm]. rewrite Hpc in Hm. split; [done|].
  intros r -> Hc. destruct Hm as (ts & Hts & Hs). eapply sign_aged; [by symmetry| |exact Hc]. lia.
Qed.

(** *** Schedules *)

(** A query arriving with its modifiers, or a turn of a query at a time. *)
Inductive event := Arrive (mods : Z) | Turn (i : nat) (t : Z).

Definition event_step (w : SoaRace) (e : event) : SoaRace :=
  match e with
  | Arrive mods =>
      mkSoaRace (sr_queries w ++ [mkSigQuery mods SigClock (sr_clock w) (sr_clock w)]) (sr_cache w) (sr_clock w)
  | Turn i t =>
      match sr_queries w !! i with
      | Some q =>
          if sr_clock w <=? t then
            let '(pc, c) := sig_step p (sq_mods q) t (sq_pc q) (sr_cache w) in
            mkSoaRace (<[i := step_query t q pc]> (sr_queries w)) c t
          else w
      | None => w
      end
  end.

Definition run_events (now : Z) (es : list event) : SoaRace := foldl event_step (mkSoaRace [] ∅ now) es.

Lemma run_reachable now es : reachable p (run_events now es).
Proof.
  exists now. unfold run_events. induction es as [|e es IH] using rev_ind; [apply rtc_refl|].
  rewrite foldl_app. cbn [foldl]. set (w := foldl _ _ _) in *. clearbody w. destruct w as [qs c t0].
  destruct e as [mods|i t]; cbn [event_step sr_queries sr_cache sr_clock].
  - eapply rtc_r; [exact IH|]. apply race_arrive.
  - destruct (qs !! i) as [q|] eqn:Ei; [|exact IH]. destruct (Z.leb_spec t0 t); [|exact IH].
    destruct (sig_step _ _ _ _ _) as [pc c'] eqn:Es. eapply rtc_r; [exact IH|]. by eapply race_turn.
Qed.
End Safe.

(** Two queries that both find the slot empty; the slower one stores over the
    faster, and a third one takes what it stored. *)
Definition ex_events : list event :=
  let t s := ex_now + s * 10 ^ 9 in
  [Arrive 0; Arrive 0; Turn 0 (t (-25)); Turn 1 (t (-24)); Turn 0 (t (-24)); Turn 1 (t (-24));
   Turn 1 (t (-22)); Turn 0 (t (-20)); Turn 1 (t (-19)); Turn 0 (t (-18)); Arrive 0; Turn 2 (t 0); Turn 2 (t 1)].

Lemma soa_race_benign_witness :
  let w := run_events ex_probe (ex_now - 30 * 10 ^ 9) ex_events in
  exists q r d, sr_queries w !! 2%nat = Some q /\ sq_pc q = SigBack (Some r) /\ Data r = RdRRSIG d /\
    window_says 0 (sq_last q) d.
Proof.
  cbv zeta. set (w := run_events _ _ _).
  assert (H : exists q r, sr_queries w !! 2%nat = Some q /\ sq_pc q = SigBack (Some r) /\ sq_mods q = 0 /\
              sq_begun q = ex_now /\ sq_last q = ex_now + 10 ^ 9).
  { eexists _, _. split; [vm_compute; reflexivity|]. split; [reflexivity|]. split; [reflexivity|]. split; reflexivity. }
  destruct H as (q & r & E & Hpc & Hm & Hb & Hl). exists q, r.
  destruct (soa_race_benign ex_probe w (run_reachable ex_probe _ _)) as (_ & H & _).
  destruct (H q (Some r) (list_elem_of_lookup_2 _ _ _ E) Hpc) as [_ Hw].
  destruct (Hw r eq_refl) as (d & Hd & Hs & _).
  - intros sg [= <-]. rewrite Hb, Hl. split; vm_compute; congruence.
  - exists d. split; [exact E|]. split; [exact Hpc|]. split; [exact Hd|]. rewrite Hm in Hs. exact Hs.
Defined.
