(* ===== verification/ProbeRuns.v ===== *)
(** * The probe zone over its in-process store, from the visitor's side

    What a run of queries does to the store, and what a visitor is told in
    the end: the readout of a token's n-th visit says n.  The store's own
    theorems ([ProbeStore]) and those of serving ([ProbeServeProps]) are put
    together here. *)

From S2P Require Import Prelude GoStrings Netip Dns SimpleDns ProbeLabels ProbeObserve ProbeReport ProbeStore.
From S2P Require Import ProbeSign ProbeMetrics ProbeServe ProbeServeProps.

(** ** Visits, counted on the promised tables *)





Section Counting.
Variables ttl maxTokens maxPerToken : Z.
Hypothesis Hmp : 1 <= maxPerToken.
Variable t : bytes.







Abbreviation step := (promised ttl maxTokens maxPerToken).




End Counting.




(** ** Runs of queries *)

Section Runs.
Context `{N : !NameLib} `{L : !LabelLib} `{M : !MsgLib} `{ML : !MsgLaws M} `{R : !RequestLib} `{RL : !RequestLaws R}
  {P : Type} `{C : !CryptoLib P}.
Implicit Types p : Probe P.

(** A query, the connection it came over and when. *)
Abbreviation arrival := (Conn * Request * Z)%type.







End Runs.


