(* ===== verification/ProbeValkey.v ===== *)
(** * The shared store ([probe/valkey.go])

    [ValkeyStore] keeps a counter and two capped lists per token in a Valkey
    server, which is not part of this repository: [Valkey] is the client the
    store calls, [ValkeyLaws] the documented meaning of the six commands it
    sends.  The theorems say what a call that met no error did to the key
    space, and what a run of them leaves. *)

From Stdlib Require Import Floats.SpecFloat.
From S2P Require Import Prelude GoStrings GoTime ProbeObserve ProbeReport ProbeStore ProbeServe.

(** ** The server *)

Inductive value := VCount (n : Z) | VList (l : list bytes).
(** What a key holds, with the time it expires at, if any. *)
Notation keyspace := (gmap bytes (value * option Z)).

Inductive cmd :=
| Incr (k : bytes)
| Expire (k : bytes) (seconds : Z)
| Rpush (k e : bytes)
| Ltrim (k : bytes) (start stop : Z)
| Lrange (k : bytes) (start stop : Z)
| Get (k : bytes).

(** A reply as [AsInt64] or [AsStrSlice] reads it; [RNil] is Valkey's nil. *)
Inductive reply := RInt (n : Z) | RList (l : list bytes) | ROk | RNil.

(** [Client.Do] and [Client.DoMulti] at a time of the server's clock; no
    reply is an error, of the server or of the network. *)
Class Valkey (W : Type) := {
  vk_Do : Z -> cmd -> W -> W * option reply;
  vk_DoMulti : Z -> list cmd -> W -> W * list (option reply)
}.

(** *** The commands as documented *)

Definition get (now : Z) (K : keyspace) (k : bytes) : option value :=
  match K !! k with
  | Some (v, Some d) => if now <? d then Some v else None
  | Some (v, None) => Some v
  | None => None
  end.

(** A change of a value keeps the key's deadline; a new key has none. *)
Definition put (now : Z) (k : bytes) (v : value) (K : keyspace) : keyspace :=
  <[k := (v, match get now K k with Some _ => K !! k ≫= snd | None => None end)]> K.

Definition index (i n : Z) : Z := if i <? 0 then Z.max (n + i) 0 else i.
(** The elements [start..stop] of a list, negative numbers counting from its end. *)
Definition range (start stop : Z) (l : list bytes) : list bytes :=
  let a := index start (zlen l) in
  let b := if stop <? 0 then zlen l + stop else stop in
  take (Z.to_nat (b + 1 - a)) (drop (Z.to_nat a) l).

Definition exec (now : Z) (c : cmd) (K : keyspace) : option (keyspace * reply) :=
  match c with
  | Incr k => match get now K k with
              | None => Some (put now k (VCount 1) K, RInt 1)
              | Some (VCount n) => if n <? 2 ^ 63 - 1 then Some (put now k (VCount (n + 1)) K, RInt (n + 1)) else None
              | Some (VList _) => None
              end
  | Expire k s => match get now K k with
                  | None => Some (K, RInt 0)
                  | Some v => if s <=? 0 then Some (delete k K, RInt 1)
                              else Some (<[k := (v, Some (now + s * 10 ^ 9))]> K, RInt 1)
                  end
  | Rpush k e => match get now K k with
                 | None => Some (put now k (VList [e]) K, RInt 1)
                 | Some (VList l) => Some (put now k (VList (l ++ [e])) K, RInt (zlen l + 1))
                 | Some (VCount _) => None
                 end
  | Ltrim k a b => match get now K k with
                   | None => Some (K, ROk)
                   | Some (VList l) => match range a b l with
                                       | [] => Some (delete k K, ROk)
                                       | l' => Some (put now k (VList l') K, ROk)
                                       end
                   | Some (VCount _) => None
                   end
  | Lrange k a b => match get now K k with
                    | None => Some (K, RList [])
                    | Some (VList l) => Some (K, RList (range a b l))
                    | Some (VCount _) => None
                    end
  | Get k => match get now K k with
             | None => Some (K, RNil)
             | Some (VCount n) => Some (K, RInt n)
             | Some (VList _) => None
             end
  end.

Fixpoint exec_all (now : Z) (cs : list cmd) (K : keyspace) : option (keyspace * list reply) :=
  match cs with
  | [] => Some (K, [])
  | c :: cs' => '(K, r) ← exec now c K; '(K, rs) ← exec_all now cs' K; Some (K, r :: rs)
  end.

(** A command that is answered has done what is documented; nothing is said
    of one that failed. *)
Class ValkeyLaws {W} (V : Valkey W) := {
  contents : W -> keyspace;
  Do_documented now c w w' r :
    vk_Do now c w = (w', Some r) -> exec now c (contents w) = Some (contents w', r);
  DoMulti_documented now cs w w' rs :
    vk_DoMulti now cs w = (w', Some <$> rs) -> exec_all now cs (contents w) = Some (contents w', rs)
}.

(** [encoding/json] on the two records. *)
Class JsonLib := {
  Marshal : Observation -> option bytes;
  Unmarshal : bytes -> option Observation;
  MarshalReport : ReportRecord -> option bytes;
  UnmarshalReport : bytes -> option ReportRecord
}.

(** ** The store *)

Record ValkeyStore := { vs_ttl : Z; vs_timeout : Z; vs_maxPerToken : Z; vs_roots : option bytes }.

(** [int64(d.Seconds())]. *)
Definition Seconds (d : Z) : Z :=
  Z_of_f64 (SFadd 53 1024 (f64_of_Z (d / 10 ^ 9)) (f64_div (f64_of_Z (d mod 10 ^ 9)) (f64_of_Z (10 ^ 9)))).

Definition seenKey (token : bytes) : bytes := bs "probe:seen:" ++ token.
Definition obsKey (token : bytes) : bytes := bs "probe:obs:" ++ token.
Definition reportKey (token : bytes) : bytes :=
  if beqb token [] then bs "probe:reports:unattributed" else bs "probe:reports:" ++ token.

Section Store.
Context {W : Type} `{V : !Valkey W} `{J : !JsonLib}.

(** Some reply of a pipeline is an error. *)
Definition failed (rs : list (option reply)) : bool := existsb (fun r => match r with None => true | _ => false end) rs.

(** [Record]: the server after it, the observation returned, and whether it
    failed. [clock] is [time.Now]; the counter is incremented at [t0] and the
    rest written at [t1]. *)
Definition Valkey_Record (s : ValkeyStore) (clock t0 t1 : Z) (obs : Observation) (w : W) : W * Observation * bool :=
  let obs := set_at obs (if At obs =? 0 then clock else At obs) in
  let ttl := Seconds (vs_ttl s) in
  match vk_Do t0 (Incr (seenKey (ob_Token obs))) w with
  | (w, Some (RInt n)) =>
      let obs := set_seen obs n in
      let cmds := [Expire (seenKey (ob_Token obs)) ttl] in
      let write cmds := let '(w, rs) := vk_DoMulti t1 cmds w in (w, obs, failed rs) in
      if n <=? vs_maxPerToken s then
        match Marshal obs with
        | None => (w, obs, true)
        | Some payload => write (cmds ++ [Rpush (obsKey (ob_Token obs)) payload; Expire (obsKey (ob_Token obs)) ttl])
        end
      else write cmds
  | (w, _) => (w, obs, true)
  end.

(** [LookupX]: [None] is an error. *)
Definition read_list {A} (unmarshal : bytes -> option A) (t0 : Z) (k : bytes) (w : W) : W * option (list A) :=
  match vk_Do t0 (Lrange k 0 (-1)) w with
  | (w, Some (RList vals)) => (w, Some (omap unmarshal vals))
  | (w, Some RNil) => (w, Some [])
  | (w, _) => (w, None)
  end.

Definition Valkey_Lookup (t0 : Z) (token : bytes) (w : W) : W * option (list Observation) :=
  read_list Unmarshal t0 (obsKey token) w.
Definition Valkey_LookupReports (t0 : Z) (token : bytes) (w : W) : W * option (list ReportRecord) :=
  read_list UnmarshalReport t0 (reportKey token) w.

Definition Valkey_RecordReport (s : ValkeyStore) (clock t0 : Z) (rec : ReportRecord) (w : W) : W * bool :=
  let rec := set_rr_at rec (if rr_At rec =? 0 then clock else rr_At rec) in
  match MarshalReport rec with
  | None => (w, true)
  | Some payload =>
      let limit := if beqb (rr_Token rec) [] then maxUnattributedReports else vs_maxPerToken s in
      let key := reportKey (rr_Token rec) in
      let '(w, rs) := vk_DoMulti t0 [Rpush key payload; Ltrim key (- limit) (-1); Expire key (Seconds (vs_ttl s))] w in
      (w, failed rs)
  end.

Definition SeenCount (t0 : Z) (token : bytes) (w : W) : W * option Z :=
  match vk_Do t0 (Get (seenKey token)) w with
  | (w, Some (RInt n)) => (w, Some n)
  | (w, Some RNil) => (w, Some 0)
  | (w, _) => (w, None)
  end.
End Store.

(** The shared store serves the plugin like any other. *)
#[global] Instance valkey_store {W} `{!Valkey W} `{!JsonLib} : StoreLib (ValkeyStore * W) := {
  do_Record clock o sw := let '(w, o', e) := Valkey_Record sw.1 clock clock clock o sw.2 in (sw.1, w, o', e);
  do_RecordReport clock r sw := let '(w, e) := Valkey_RecordReport sw.1 clock clock r sw.2 in (sw.1, w, e)
}.

Lemma Valkey_Record_shape {W} `{!Valkey W} `{!JsonLib} s clock t0 t1 o (w : W) :
  exists t n, (Valkey_Record s clock t0 t1 o w).1.2 = set_seen (set_at o t) n.
Proof.
  unfold Valkey_Record. set (now := if At o =? 0 then clock else At o).
  assert (H0 : exists t n, set_at o now = set_seen (set_at o t) n) by (exists now, (Seen o); by destruct o).
  destruct (vk_Do _ _ _) as [w1 [[n|l| |]|]]; cbn; try exact H0.
  destruct (_ <=? _); [destruct (Marshal _); [|by exists now, n]|]; destruct (vk_DoMulti _ _ _); by exists now, n.
Qed.

#[global] Instance valkey_store_laws {W} `{!Valkey W} `{!JsonLib} : StoreLaws (valkey_store (W := W)).
Proof.
  split. intros clock o [s w]. cbn. destruct (Valkey_Record_shape s clock clock clock o w) as (t & n & Ho).
  exists t, n. by destruct (Valkey_Record _ _ _ _ _ _) as [[??]?].
Qed.

(** A lifetime below a second is none at all. *)
Example seconds : Seconds (600 * 10 ^ 9) = 600 /\ Seconds (1500 * 10 ^ 6) = 1 /\ Seconds 999999999 = 0 /\
  Seconds (2 ^ 63 - 1) = 9223372036.
Proof. vm_compute. done. Qed.

(** ** What a call leaves *)

Lemma keys_apart a b :
  seenKey a <> obsKey b /\ seenKey a <> reportKey b /\ obsKey a <> reportKey b.
Proof. unfold seenKey, obsKey, reportKey. by destruct (beqb b []). Qed.

Lemma seenKey_inj a b : seenKey a = seenKey b -> a = b.
Proof. apply app_inv_head. Qed.
Lemma obsKey_inj a b : obsKey a = obsKey b -> a = b.
Proof. apply app_inv_head. Qed.

(** The place of reports without a token is no token's place. *)
Lemma reportKey_inj a b :
  a <> bs "unattributed" -> b <> bs "unattributed" -> reportKey a = reportKey b -> a = b.
Proof.
  unfold reportKey. destruct (beqb a []) eqn:Ea, (beqb b []) eqn:Eb; bool_prop; subst; try done.
  - intros _ Hb H. apply (app_inv_head (bs "probe:reports:") (bs "unattributed")) in H. by destruct Hb.
  - intros Ha _ H. apply (app_inv_head (bs "probe:reports:") a (bs "unattributed")) in H. by destruct Ha.
  - intros _ _. apply app_inv_head.
Qed.

Lemma range_all l : range 0 (-1) l = l.
Proof.
  unfold range, index, zlen. rewrite (Z.ltb_irrefl 0), (proj2 (Z.ltb_lt (-1) 0)) by lia.
  rewrite drop_0. apply take_ge. lia.
Qed.

(** [LTRIM k -n -1] keeps the last [n]. *)
Lemma range_last n l : 0 < n -> range (- n) (-1) l = drop (length l - Z.to_nat n) l.
Proof.
  intros H. unfold range, index, zlen. rewrite (proj2 (Z.ltb_lt (- n) 0)), (proj2 (Z.ltb_lt (-1) 0)) by lia.
  replace (Z.to_nat (Z.max (Z.of_nat (length l) + - n) 0)) with (length l - Z.to_nat n)%nat by lia.
  apply take_ge. rewrite length_drop. lia.
Qed.

(** What the store sees of a token. *)
Definition count (now : Z) (K : keyspace) (k : bytes) : Z :=
  match get now K k with Some (VCount n) => n | _ => 0 end.
Definition listed (now : Z) (K : keyspace) (k : bytes) : list bytes :=
  match get now K k with Some (VList l) => l | _ => [] end.

Lemma get_alive (now : Z) (K : keyspace) (k : bytes) (v : value) (d : Z) : K !! k = Some (v, Some d) -> now < d -> get now K k = Some v.
Proof. intros H Hd. unfold get. rewrite H. by rewrite (proj2 (Z.ltb_lt _ _)). Qed.

Lemma get_ext (now : Z) (K K' : keyspace) (k : bytes) : K' !! k = K !! k -> get now K' k = get now K k.
Proof. unfold get. by intros ->. Qed.

Lemma exec_Incr (now : Z) (k : bytes) (K K' : keyspace) r :
  exec now (Incr k) K = Some (K', r) ->
  r = RInt (count now K k + 1) /\ K' = put now k (VCount (count now K k + 1)) K.
Proof.
  cbn. unfold count. destruct (get now K k) as [[n|l]|]; [|done|by intros [= <- <-]].
  destruct (_ <? _); [|done]. by intros [= <- <-].
Qed.

Lemma exec_Rpush (now : Z) (k e : bytes) (K K' : keyspace) r :
  exec now (Rpush k e) K = Some (K', r) -> K' = put now k (VList (listed now K k ++ [e])) K.
Proof.
  cbn. unfold listed. destruct (get now K k) as [[n|l]|]; [done|by intros [= <- <-]..].
Qed.

Lemma exec_Expire (now : Z) (k : bytes) (t : Z) (K K' : keyspace) (r : reply) (v : value) :
  0 < t -> get now K k = Some v -> exec now (Expire k t) K = Some (K', r) ->
  K' = <[k := (v, Some (now + t * 10 ^ 9))]> K.
Proof. intros Ht Hg. cbn. rewrite Hg, (proj2 (Z.leb_gt _ _)) by done. by intros [= <- <-]. Qed.

(** A key just written is alive. *)
Lemma get_put (now : Z) (k : bytes) (v : value) (K : keyspace) : get now (put now k v K) k = Some v.
Proof.
  unfold get at 1, put. rewrite lookup_insert_eq. unfold get.
  destruct (K !! k) as [[u [d|]]|]; cbn; [|done..]. destruct (now <? d) eqn:E; [by rewrite E|done].
Qed.

(** A key just written is still there at [t1], unless its deadline passed. *)
Lemma get_put_later (t0 t1 : Z) (k : bytes) (v : value) (K : keyspace) :
  (forall u d, K !! k = Some (u, Some d) -> t0 < d -> t1 < d) -> get t1 (put t0 k v K) k = Some v.
Proof.
  intros Ha. unfold get at 1, put. rewrite lookup_insert_eq. unfold get.
  destruct (K !! k) as [[u [d|]]|] eqn:Ek; cbn; [|done..].
  destruct (t0 <? d) eqn:Ed; cbn; [|done]. by rewrite (proj2 (Z.ltb_lt t1 d)) by (bool_prop; by eapply Ha).
Qed.

(** A list just written, given a lifetime. *)
Lemma exec_append (now : Z) (k e : bytes) (t : Z) (K K1 K2 : keyspace) (r1 r2 : reply) :
  0 < t -> exec now (Rpush k e) K = Some (K1, r1) -> exec now (Expire k t) K1 = Some (K2, r2) ->
  K2 = <[k := (VList (listed now K k ++ [e]), Some (now + t * 10 ^ 9))]> K.
Proof.
  intros Ht ->%exec_Rpush H. eapply exec_Expire in H; [|done|apply get_put]. rewrite H. unfold put.
  by rewrite insert_insert_eq.
Qed.

Definition key_of (c : cmd) : bytes :=
  match c with Incr k | Expire k _ | Rpush k _ | Ltrim k _ _ | Lrange k _ _ | Get k => k end.

(** A command touches its own key. *)
Lemma exec_keeps (now : Z) (c : cmd) (K K' : keyspace) (r : reply) (k : bytes) :
  exec now c K = Some (K', r) -> k <> key_of c -> K' !! k = K !! k.
Proof.
  intros H Hk. destruct c; cbn in H, Hk; repeat case_match; try done; injection H as <- <-; try done;
    unfold put; solve [by rewrite lookup_insert_ne|by rewrite lookup_delete_ne].
Qed.

Lemma exec_all_keeps (now : Z) (cs : list cmd) (K K' : keyspace) (rs : list reply) (k : bytes) :
  exec_all now cs K = Some (K', rs) -> Forall (fun c => k <> key_of c) cs -> K' !! k = K !! k.
Proof.
  revert K rs. induction cs as [|c cs IH]; intros K rs; cbn; [by intros [= <- _]|].
  intros H Hc. apply Forall_cons in Hc as [Hk Hc]. apply bind_Some in H as ([K1 r] & H1 & H).
  apply bind_Some in H as ([K2 rs'] & H2 & H). injection H as <- _. rewrite (IH _ _ H2 Hc).
  by eapply exec_keeps.
Qed.

Section Leaves.
Context {W : Type} `{V : !Valkey W} `{J : !JsonLib} `{L : !ValkeyLaws V}.

Lemma answered rs : failed rs = false -> exists rs', rs = Some <$> rs'.
Proof.
  induction rs as [|[r|] rs IH]; cbn; [by exists []| |done]. intros [rs' ->]%IH. by exists (r :: rs').
Qed.

(** A pipeline without an error has run as documented. *)
Lemma pipeline now cs (w w' : W) rs :
  vk_DoMulti now cs w = (w', rs) -> failed rs = false ->
  exists rs', exec_all now cs (contents w) = Some (contents w', rs').
Proof. intros H [rs' ->]%answered. exists rs'. by apply DoMulti_documented. Qed.

(** What one visit leaves: the counter one higher, the details one longer
    while under their cap, both for another lifetime. *)
Lemma Valkey_Record_leaves s clock t0 t1 obs w w' o :
  let K := contents w in let K' := contents w' in
  let t := ob_Token obs in let life := Seconds (vs_ttl s) * 10 ^ 9 in
  Valkey_Record s clock t0 t1 obs w = (w', o, false) ->
  0 < Seconds (vs_ttl s) ->
  (forall v d, K !! seenKey t = Some (v, Some d) -> t0 < d -> t1 < d) ->
  o = set_seen (set_at obs (if At obs =? 0 then clock else At obs)) (count t0 K (seenKey t) + 1) /\
  K' !! seenKey t = Some (VCount (Seen o), Some (t1 + life)) /\
  (if Seen o <=? vs_maxPerToken s
   then exists p, Marshal o = Some p /\ K' !! obsKey t = Some (VList (listed t1 K (obsKey t) ++ [p]), Some (t1 + life))
   else K' !! obsKey t = K !! obsKey t).
Proof.
  intros K K' t life H Hlife Halive. subst K K'. unfold Valkey_Record in H.
  set (o1 := set_at obs _) in *. change (ob_Token o1) with t in H.
  destruct (vk_Do t0 (Incr (seenKey t)) w) as [w1 [[n|l| |]|]] eqn:E1; try done.
  apply Do_documented, exec_Incr in E1 as [[= Hn] E1]. change (ob_Token (set_seen o1 n)) with t in H.
  pose proof (keys_apart t t) as (Hso & _ & _).
  assert (Hc : get t1 (contents w1) (seenKey t) = Some (VCount n)).
  { rewrite E1, <- Hn. apply get_put_later. intros v d Hk. by eapply Halive. }
  assert (Hother : forall k, k <> seenKey t -> contents w1 !! k = contents w !! k)
    by (intros k Hk; rewrite E1; by apply lookup_insert_ne).
  assert (Hrun : exists cs, (let '(w2, rs) := vk_DoMulti t1 (Expire (seenKey t) (Seconds (vs_ttl s)) :: cs) w1 in (w2, set_seen o1 n, failed rs)) = (w', o, false) /\
            if n <=? vs_maxPerToken s then exists p, Marshal (set_seen o1 n) = Some p /\ cs = [Rpush (obsKey t) p; Expire (obsKey t) (Seconds (vs_ttl s))] else cs = []).
  { destruct (n <=? vs_maxPerToken s); [|by exists []]. destruct (Marshal (set_seen o1 n)) as [p|]; [|done].
    exists [Rpush (obsKey t) p; Expire (obsKey t) (Seconds (vs_ttl s))]. split; [exact H|]. by exists p. }
  destruct Hrun as (cs & Hrun & Hcs). clear H. destruct (vk_DoMulti _ _ w1) as [w2 rs] eqn:E2. injection Hrun as <- <- Hf.
  apply pipeline in E2 as [rs' E2]; [|done]. cbn [exec_all] in E2.
  apply bind_Some in E2 as ([K1 r1] & Ex & E2). eapply exec_Expire in Ex; [|done|exact Hc]. subst K1.
  change (Seen (set_seen o1 n)) with n. split; [by rewrite <- Hn|].
  destruct (n <=? vs_maxPerToken s).
  - destruct Hcs as (p & Hp & ->). apply bind_Some in E2 as ([K2 rr] & E2 & E3). injection E3 as E3 _.
    cbn [exec_all] in E2. apply bind_Some in E2 as ([K3 r3] & Ep & E2).
    apply bind_Some in E2 as ([K4 r4] & E4 & E5).
    apply bind_Some in E4 as ([K5 r5] & E4 & E6). cbn in E6. cbn in E5. injection E6 as <- <-. injection E5 as <- <-.
    eapply exec_append in E4; [|done|exact Ep]. rewrite <- E3, E4.
    assert (Hl : listed t1 (<[seenKey t := (VCount n, Some (t1 + Seconds (vs_ttl s) * 10 ^ 9))]> (contents w1)) (obsKey t)
                 = listed t1 (contents w) (obsKey t)).
    { unfold listed. erewrite get_ext; [done|]. rewrite lookup_insert_ne by done. apply Hother. congruence. }
    split; [rewrite lookup_insert_ne by done; by rewrite lookup_insert_eq|].
    exists p. split; [done|]. by rewrite lookup_insert_eq, Hl.
  - subst cs. cbn in E2. injection E2 as <- <-. split; [by rewrite lookup_insert_eq|].
    rewrite lookup_insert_ne by done. apply Hother. congruence.
Qed.

(** A visit touches the keys of its token. *)
Lemma Valkey_Record_keeps s clock t0 t1 obs w w' o k :
  Valkey_Record s clock t0 t1 obs w = (w', o, false) ->
  k <> seenKey (ob_Token obs) -> k <> obsKey (ob_Token obs) -> contents w' !! k = contents w !! k.
Proof.
  intros H H1 H2. unfold Valkey_Record in H. set (o1 := set_at obs _) in *. change (ob_Token o1) with (ob_Token obs) in H.
  destruct (vk_Do t0 _ w) as [w1 [[n|l| |]|]] eqn:E1; try done.
  apply Do_documented in E1. apply (exec_keeps _ _ _ _ _ k) in E1; [|done].
  change (ob_Token (set_seen o1 n)) with (ob_Token obs) in H. rewrite <- E1.
  destruct (n <=? vs_maxPerToken s); [destruct (Marshal _); [|done]|].
  all: destruct (vk_DoMulti _ _ w1) as [w2 rs] eqn:E2; injection H as <- _ Hf; apply pipeline in E2 as [rs' E2]; [|done];
    eapply exec_all_keeps; [exact E2|]; by repeat constructor.
Qed.

(** *** A run of visits *)

(** The plugin's clock at a visit, and the server's at its two round trips. *)
Record visit := { v_clock : Z; v_t0 : Z; v_t1 : Z; v_obs : Observation }.

Fixpoint visits (s : ValkeyStore) (vs : list visit) (w : W) : W * list (Observation * bool) :=
  match vs with
  | [] => (w, [])
  | v :: vs' => let '(w, o, e) := Valkey_Record s (v_clock v) (v_t0 v) (v_t1 v) (v_obs v) w in
                let '(w, outs) := visits s vs' w in (w, (o, e) :: outs)
  end.

(** The token [t] is visited again before its lifetime runs out; [last] is
    when it was visited last. *)
Fixpoint paced (life : Z) (t : bytes) (last : option Z) (vs : list visit) : Prop :=
  match vs with
  | [] => True
  | v :: vs' => if decide (ob_Token (v_obs v) = t)
                then v_t0 v <= v_t1 v /\ (forall T, last = Some T -> v_t1 v < T + life) /\ paced life t (Some (v_t1 v)) vs'
                else paced life t last vs'
  end.

Fixpoint last_visit (t : bytes) (last : option Z) (vs : list visit) : option Z :=
  match vs with
  | [] => last
  | v :: vs' => last_visit t (if decide (ob_Token (v_obs v) = t) then Some (v_t1 v) else last) vs'
  end.

Definition mine (t : bytes) (outs : list (Observation * bool)) : list Observation :=
  filter (fun o => ob_Token o = t) (fst <$> outs).

(** What the server holds of a token after its visits [l], the last at
    [last]: their number, and the first of them up to the cap. *)
Definition holds (life cap : Z) (t : bytes) (K : keyspace) (last : option Z) (l : list Observation) : Prop :=
  match last with
  | None => l = [] /\ K !! seenKey t = None /\ K !! obsKey t = None
  | Some T =>
      K !! seenKey t = Some (VCount (zlen l), Some (T + life)) /\
      exists ps D, Forall2 (fun o p => Marshal o = Some p) (take (Z.to_nat cap) l) ps /\
        K !! obsKey t = Some (VList ps, Some D) /\ (zlen l <= cap -> D = T + life)
  end.

Lemma paced_here life t last v vs :
  ob_Token (v_obs v) = t -> v_t0 v <= v_t1 v -> (forall T, last = Some T -> v_t1 v < T + life) ->
  paced life t (Some (v_t1 v)) vs -> paced life t last (v :: vs).
Proof. intros Ht H1 H2 H3. cbn. by rewrite decide_True. Qed.

Lemma paced_away life t last v vs : ob_Token (v_obs v) <> t -> paced life t last vs -> paced life t last (v :: vs).
Proof. intros Ht H. cbn. by rewrite decide_False. Qed.

Lemma visit_holds s v t w w' o last l :
  Valkey_Record s (v_clock v) (v_t0 v) (v_t1 v) (v_obs v) w = (w', o, false) ->
  0 < Seconds (vs_ttl s) -> 0 < vs_maxPerToken s ->
  ob_Token (v_obs v) = t -> v_t0 v <= v_t1 v ->
  (forall T, last = Some T -> v_t1 v < T + Seconds (vs_ttl s) * 10 ^ 9) ->
  let held := holds (Seconds (vs_ttl s) * 10 ^ 9) (vs_maxPerToken s) t in
  held (contents w) last l -> held (contents w') (Some (v_t1 v)) (l ++ [o]) /\ Seen o = zlen l + 1 /\ ob_Token o = t.
Proof.
  intros H Hl Hc <- Ht Hp. set (life := Seconds (vs_ttl s) * 10 ^ 9) in *. cbv zeta. intros Hh.
  assert (Hcount : count (v_t0 v) (contents w) (seenKey (ob_Token (v_obs v))) = zlen l /\
                   (zlen l + 1 <= vs_maxPerToken s ->
                    Forall2 (fun o p => Marshal o = Some p) l (listed (v_t1 v) (contents w) (obsKey (ob_Token (v_obs v)))))).
  { destruct last as [T|]; cbn [holds] in Hh.
    - destruct Hh as (Hs & ps & D & Hps & Ho & HD). specialize (Hp T eq_refl). split.
      + unfold count. by rewrite (get_alive _ _ _ _ _ Hs) by lia.
      + intros Hle. rewrite take_ge in Hps by (unfold zlen in *; lia). unfold listed.
        by rewrite (get_alive _ _ _ _ _ Ho) by (rewrite HD; lia).
    - destruct Hh as (-> & Hs & Ho). unfold count, listed, get. rewrite Hs, Ho. split; [done|]. constructor. }
  destruct Hcount as [Hn Hlist].
  apply Valkey_Record_leaves in H as (Ho & Hs & Hd); [|done|].
  2:{ intros u d Hu Hlt. destruct last as [T|]; cbn [holds] in Hh; [|destruct Hh as (_ & Hh & _); congruence].
      destruct Hh as [Hh _]. rewrite Hh in Hu. injection Hu as _ <-. by apply Hp. }
  rewrite Hn in Ho. assert (Hseen : Seen o = zlen l + 1) by (by rewrite Ho).
  split; [|split; [done|by rewrite Ho]]. cbn [holds]. rewrite Hseen in *. rewrite zlen_app, zlen_cons, zlen_nil.
  replace (zlen l + (1 + 0)) with (zlen l + 1) by lia. split; [exact Hs|].
  destruct (zlen l + 1 <=? vs_maxPerToken s) eqn:Ec; bool_prop.
  - destruct Hd as (p & Hm & Hd). eexists _, _. split; [|split; [exact Hd|done]].
    rewrite take_ge by (rewrite length_app; cbn; unfold zlen in *; lia). apply Forall2_app; [by apply Hlist|].
    by constructor.
  - destruct last as [T|]; cbn [holds] in Hh; [|destruct Hh as [-> _]; change (zlen []) with 0 in *; lia].
    destruct Hh as (_ & ps & D & Hps & Ho' & HD). exists ps, D. rewrite Hd. split; [|split; [done|lia]].
    by rewrite take_app_le by (unfold zlen in *; lia).
Qed.

Lemma visit_elsewhere s v t w w' o last l :
  Valkey_Record s (v_clock v) (v_t0 v) (v_t1 v) (v_obs v) w = (w', o, false) ->
  ob_Token (v_obs v) <> t ->
  let held := holds (Seconds (vs_ttl s) * 10 ^ 9) (vs_maxPerToken s) t in
  held (contents w) last l -> held (contents w') last l.
Proof.
  intros H Ht held Hh. apply (Valkey_Record_keeps _ _ _ _ _ _ _ _ (seenKey t)) in H as Hs.
  2:{ intros E%seenKey_inj. by apply Ht. }
  2:{ apply keys_apart. }
  apply (Valkey_Record_keeps _ _ _ _ _ _ _ _ (obsKey t)) in H as Ho.
  2:{ intros E. symmetry in E. by apply keys_apart in E. }
  2:{ intros E%obsKey_inj. by apply Ht. }
  subst held. unfold holds in *. by rewrite Hs, Ho.
Qed.

Definition numbered (l : list Observation) : Prop := forall i o, l !! i = Some o -> Seen o = Z.of_nat i + 1.

Lemma numbered_snoc l o : numbered l -> Seen o = zlen l + 1 -> numbered (l ++ [o]).
Proof.
  intros Hl Ho i x [Hx|[Hi Hx]]%lookup_app_Some; [by apply Hl|].
  destruct (i - length l)%nat as [|k] eqn:Ek; cbn in Hx; [|done]. injection Hx as <-. rewrite Ho. unfold zlen. lia.
Qed.

Lemma mine_cons t o e outs :
  mine t ((o, e) :: outs) = if decide (ob_Token o = t) then o :: mine t outs else mine t outs.
Proof. unfold mine. by rewrite fmap_cons, filter_cons. Qed.

Lemma visits_hold s vs t w w' outs last l :
  0 < Seconds (vs_ttl s) -> 0 < vs_maxPerToken s ->
  visits s vs w = (w', outs) -> Forall (fun x => x.2 = false) outs ->
  paced (Seconds (vs_ttl s) * 10 ^ 9) t last vs ->
  let held := holds (Seconds (vs_ttl s) * 10 ^ 9) (vs_maxPerToken s) t in
  held (contents w) last l -> numbered l ->
  held (contents w') (last_visit t last vs) (l ++ mine t outs) /\ numbered (l ++ mine t outs).
Proof.
  intros Hl Hc. revert w outs last l. induction vs as [|v vs IH]; intros w outs last l Hv He Hp held Hh Hn.
  { injection Hv as <- <-. cbn. by rewrite app_nil_r. }
  cbn [visits] in Hv. destruct (Valkey_Record s _ _ _ _ w) as [[w1 o] e] eqn:E1.
  destruct (visits s vs w1) as [w2 outs'] eqn:E2. injection Hv as <- <-.
  apply Forall_cons in He as [He He']. cbn in He. subst e.
  assert (Ho : ob_Token o = ob_Token (v_obs v)).
  { destruct (Valkey_Record_shape s (v_clock v) (v_t0 v) (v_t1 v) (v_obs v) w) as (? & ? & Ho).
    rewrite E1 in Ho. cbn in Ho. by rewrite Ho. }
  rewrite mine_cons, Ho. cbn [paced last_visit] in *. destruct (decide (ob_Token (v_obs v) = t)) as [Ht|Ht].
  - destruct Hp as (Ht0 & Hlast & Hp). eapply visit_holds in E1 as (Hh1 & Hs & _); [|done..].
    destruct (IH _ _ _ _ E2 He' Hp Hh1 (numbered_snoc _ _ Hn Hs)) as [H1 H2].
    by rewrite <- app_assoc in H1, H2.
  - eapply visit_elsewhere in E1; [|done|exact Hh]. by apply (IH _ _ _ _ E2 He' Hp E1 Hn).
Qed.

Lemma omap_decoded (l : list Observation) ps :
  Forall2 (fun o p => Marshal o = Some p) l ps ->
  (forall o p, o ∈ l -> Marshal o = Some p -> Unmarshal p = Some o) -> omap Unmarshal ps = l.
Proof.
  induction 1 as [|o p l ps Hop _ IH]; intros H; [done|]. cbn. rewrite (H o p) by (done || left).
  cbn. f_equal. apply IH. intros o' p' Hin. apply H. by right.
Qed.

(** C14: the shared store counts truthfully. Over visits that met no error,
    whatever other tokens they are mixed with, a token visited again within
    its lifetime each time is told 1, 2, 3 and so on; until a lifetime after
    the last visit the server gives that number back, past the cap on the
    detail it keeps too; and up to the cap the detail read back is exactly
    the observations as they were returned. *)
Theorem shared_store_counts s t vs w w' outs :
  visits s vs w = (w', outs) -> Forall (fun x => x.2 = false) outs ->
  0 < Seconds (vs_ttl s) -> 0 < vs_maxPerToken s ->
  contents w !! seenKey t = None -> contents w !! obsKey t = None ->
  paced (Seconds (vs_ttl s) * 10 ^ 9) t None vs ->
  let l := mine t outs in
  (forall i o, l !! i = Some o -> Seen o = Z.of_nat i + 1) /\
  forall T now w2, last_visit t None vs = Some T -> now < T + Seconds (vs_ttl s) * 10 ^ 9 ->
    (forall n, SeenCount now t w' = (w2, Some n) -> n = zlen l) /\
    (zlen l <= vs_maxPerToken s ->
     (forall o p, o ∈ l -> Marshal o = Some p -> Unmarshal p = Some o) ->
     forall l', Valkey_Lookup now t w' = (w2, Some l') -> l' = l).
Proof.
  intros Hv He Hl Hc Hs Ho Hp l.
  destruct (visits_hold s vs t w w' outs None [] Hl Hc Hv He Hp) as [Hh Hn]; [done|done|].
  fold l in Hh, Hn. cbn [app] in Hh, Hn. split; [exact Hn|]. intros T now w2 HT Hnow. rewrite HT in Hh. cbn [holds] in Hh.
  destruct Hh as (Hsk & ps & D & Hps & Hok & HD). split.
  - intros n. unfold SeenCount. destruct (vk_Do _ _ _) as [w3 [[m| | |]|]] eqn:E; try done; apply Do_documented in E; cbn in E;
      rewrite (get_alive _ _ _ _ _ Hsk) in E by done; [|done]. injection E as _ <-. by intros [= _ <-].
  - intros Hle Hj l'. unfold Valkey_Lookup, read_list. rewrite take_ge in Hps by (unfold zlen in *; lia).
    destruct (vk_Do _ _ _) as [w3 [[|vals| |]|]] eqn:E; try done; apply Do_documented in E; cbn in E;
      rewrite (get_alive _ _ _ _ _ Hok), range_all in E by (rewrite HD; done); [|done].
    injection E as _ <-. intros [= _ <-]. by apply omap_decoded.
Qed.

(** A report that met no error is the newest of a list no longer than its
    cap, and the only key it touched. *)
Lemma Valkey_RecordReport_leaves s clock t0 rec w w' :
  Valkey_RecordReport s clock t0 rec w = (w', false) ->
  0 < Seconds (vs_ttl s) -> 0 < vs_maxPerToken s ->
  let key := reportKey (rr_Token rec) in
  let limit := if beqb (rr_Token rec) [] then maxUnattributedReports else vs_maxPerToken s in
  exists p l, MarshalReport (set_rr_at rec (if rr_At rec =? 0 then clock else rr_At rec)) = Some p /\
    contents w' !! key = Some (VList (l ++ [p]), Some (t0 + Seconds (vs_ttl s) * 10 ^ 9)) /\
    zlen (l ++ [p]) <= limit /\ l `suffix_of` listed t0 (contents w) key /\
    (forall k, k <> key -> contents w' !! k = contents w !! k).
Proof.
  intros H Hl Hc key limit. unfold Valkey_RecordReport in H. set (rec1 := set_rr_at rec _) in *.
  change (rr_Token rec1) with (rr_Token rec) in H. fold key limit in H.
  assert (Hlim : 0 < limit) by (subst limit; destruct (beqb _ _); [done|lia]).
  destruct (MarshalReport rec1) as [p|]; [|done].
  destruct (vk_DoMulti _ _ w) as [w2 rs] eqn:E. injection H as <- Hf. apply pipeline in E as [rs' E]; [|done].
  pose proof (fun k Hk => exec_all_keeps _ _ _ _ _ k E Hk) as Hkeep.
  cbn [exec_all] in E. apply bind_Some in E as ([K1 r1] & E1 & E). apply exec_Rpush in E1. subst K1.
  set (full := listed t0 (contents w) key ++ [p]) in *.
  apply bind_Some in E as ([K2 r2] & E2 & E). apply bind_Some in E2 as ([K3 r3] & E3 & E2).
  apply bind_Some in E2 as ([K4 r4] & E4 & E2). cbn [mbind option_bind] in E2.
  apply bind_Some in E4 as ([K5 r5] & E4 & E5). cbn in E5. injection E5 as <- <-. injection E2 as <- <-. injection E as HK _.
  set (n := (length full - Z.to_nat limit)%nat).
  assert (Hdrop : drop n full = drop n (listed t0 (contents w) key) ++ [p]).
  { subst full n. apply drop_app_le. rewrite length_app. cbn. lia. }
  cbn [exec] in E3. rewrite get_put, range_last in E3 by lia. fold n in E3. rewrite Hdrop in E3.
  destruct (drop n (listed t0 (contents w) key) ++ [p]) as [|x t] eqn:Et; [by destruct (drop n _)|].
  injection E3 as <- _. apply exec_Expire with (v := VList (x :: t)) in E4; [|done|apply get_put].
  exists p, (drop n (listed t0 (contents w) key)). split; [done|]. rewrite Et. split; [by rewrite <- HK, E4, lookup_insert_eq|].
  split; [rewrite <- Hdrop; unfold zlen; rewrite length_drop; subst n; lia|].
  split; [exists (take n (listed t0 (contents w) key)); by rewrite take_drop|].
  intros k Hk. apply Hkeep. by repeat constructor.
Qed.

(** With a lifetime below a second ([seconds]) the counter is gone as soon as
    it is written: every visit is the first. *)
Lemma sub_second_lifetime_forgets s clock t0 t1 obs w w' o now :
  Valkey_Record s clock t0 t1 obs w = (w', o, false) -> Seconds (vs_ttl s) <= 0 -> t1 <= now ->
  count now (contents w') (seenKey (ob_Token obs)) = 0.
Proof.
  intros H Hl Hnow. unfold Valkey_Record in H. set (o1 := set_at obs _) in *. change (ob_Token o1) with (ob_Token obs) in H.
  destruct (vk_Do t0 _ w) as [w1 [[n|l| |]|]]; try done.
  change (ob_Token (set_seen o1 n)) with (ob_Token obs) in H. set (k := seenKey (ob_Token obs)) in *.
  assert (Hgone : forall cs, Forall (fun c => k <> key_of c) cs -> forall w2 rs',
            exec_all t1 (Expire k (Seconds (vs_ttl s)) :: cs) (contents w1) = Some (contents w2, rs') ->
            count now (contents w2) k = 0).
  { intros cs Hcs w2 rs' E. cbn [exec_all exec] in E. rewrite (proj2 (Z.leb_le _ _)) in E by done.
    assert (Hk : exists K1 r1, (forall v d, K1 !! k = Some (v, d) -> exists d', d = Some d' /\ d' <= t1) /\
              (let '(K, r) := (K1, r1) in '(K, rs) ← exec_all t1 cs K; Some (K, r :: rs)) = Some (contents w2, rs')).
    { destruct (get t1 (contents w1) k) eqn:Eg; eexists _, _; (split; [|exact E]).
      - intros u d. by rewrite lookup_delete_eq.
      - intros u d Hu. unfold get in Eg. rewrite Hu in Eg. destruct d as [d|]; [|done]. exists d. split; [done|].
        destruct (t1 <? d) eqn:Ed; [done|]. by bool_prop. }
    destruct Hk as (K1 & r1 & Hk & E'). apply bind_Some in E' as ([K2 rs2] & E2 & E'). injection E' as <- _.
    apply (exec_all_keeps _ _ _ _ _ k) in E2; [|done]. unfold count, get. rewrite E2.
    destruct (K1 !! k) as [[u d]|]; [|done]. destruct (Hk u d eq_refl) as (d' & -> & Hd).
    by rewrite (proj2 (Z.ltb_ge _ _)) by lia. }
  pose proof (keys_apart (ob_Token obs) (ob_Token obs)) as (Hso & _ & _).
  destruct (n <=? vs_maxPerToken s); [destruct (Marshal _); [|done]|].
  all: destruct (vk_DoMulti _ _ w1) as [w2 rs] eqn:E2; injection H as <- _ Hf; apply pipeline in E2 as [rs' E2]; [|done];
    eapply Hgone; [|exact E2]; by repeat constructor.
Qed.
End Leaves.

(** *** A server for the witness: the key space itself *)

Definition ex_do (now : Z) (c : cmd) (K : keyspace) : keyspace * option reply :=
  match exec now c K with Some (K', r) => (K', Some r) | None => (K, None) end.

Definition ex_do_multi (now : Z) (cs : list cmd) (K : keyspace) : keyspace * list (option reply) :=
  match exec_all now cs K with Some (K', rs) => (K', Some <$> rs) | None => (K, (fun _ => None) <$> cs) end.

#[local] Instance ex_valkey : Valkey keyspace := {
  vk_Do := ex_do;
  vk_DoMulti := ex_do_multi
}.

#[local] Instance ex_valkey_laws : ValkeyLaws ex_valkey.
Proof.
  unshelve econstructor; [exact (fun K => K)| |].
  - intros now c K K' r. cbn. unfold ex_do. destruct (exec now c K) as [[K1 r1]|]; [|done]. by intros [= <- <-].
  - intros now cs K K' rs. cbn. unfold ex_do_multi. destruct (exec_all now cs K) as [[K1 rs1]|] eqn:E.
    + intros [= <- H]. f_equal. f_equal. revert rs H. clear. induction rs1 as [|r l IH]; intros [|r' l']; cbn; try done.
      intros [= <- H]. f_equal. by apply IH.
    + destruct cs as [|c cs]; [done|]. destruct rs; cbn; by intros [=].
Defined.

Definition ex_token : bytes := bs "deadbeef".
#[local] Instance ex_json : JsonLib := {
  Marshal o := Some (itoa (Seen o));
  Unmarshal p := n ← parse_digits p 0; Some (set_seen (seen_at ex_token 7) n);
  MarshalReport r := Some (rr_Token r);
  UnmarshalReport _ := None
}.
Definition ex_shared : ValkeyStore := {| vs_ttl := 60 * 10 ^ 9; vs_timeout := 0; vs_maxPerToken := 2; vs_roots := None |}.
Definition ex_visit (t : bytes) (at_ : Z) : visit :=
  {| v_clock := 0; v_t0 := at_ * 10 ^ 9; v_t1 := at_ * 10 ^ 9; v_obs := seen_at t 7 |}.
Definition ex_visits : list visit := [ex_visit ex_token 1; ex_visit (bs "cafecafe") 30; ex_visit ex_token 50].

(** Read a hundred seconds after the first visit, fifty after the second. *)
Lemma shared_store_counts_witness :
  let w := (visits ex_shared ex_visits ∅).1 in let outs := (visits ex_shared ex_visits ∅).2 in
  Seen <$> mine ex_token outs = [1; 2] /\
  (SeenCount (100 * 10 ^ 9) ex_token w).2 = Some 2 /\
  (Valkey_Lookup (100 * 10 ^ 9) ex_token w).2 = Some (mine ex_token outs).
Proof.
  intros w outs.
  assert (Ho : outs.*1 = [set_seen (seen_at ex_token 7) 1; set_seen (seen_at (bs "cafecafe") 7) 1; set_seen (seen_at ex_token 7) 2]
               /\ outs.*2 = [false; false; false] /\
               (SeenCount (100 * 10 ^ 9) ex_token w).2 <> None /\ (Valkey_Lookup (100 * 10 ^ 9) ex_token w).2 <> None).
  { subst w outs. vm_compute. done. }
  destruct Ho as (Ho & He & Hc & Hl). assert (E : visits ex_shared ex_visits ∅ = (w, outs)) by apply surjective_pairing.
  clearbody w outs.
  assert (Hm : mine ex_token outs = [set_seen (seen_at ex_token 7) 1; set_seen (seen_at ex_token 7) 2]).
  { unfold mine. rewrite Ho. vm_compute. done. }
  assert (Hs : Seconds (vs_ttl ex_shared) = 60) by (vm_compute; reflexivity).
  assert (Hf : Forall (fun x => x.2 = false) outs).
  { apply (proj1 (Forall_fmap (@snd Observation bool) (fun b => b = false) outs)). rewrite He. by repeat constructor. }
  assert (Hp : paced (Seconds (vs_ttl ex_shared) * 10 ^ 9) ex_token None ex_visits).
  { rewrite Hs. apply paced_here; [reflexivity|apply Z.le_refl|discriminate|].
    apply paced_away; [intros Hne; vm_compute in Hne; discriminate Hne|].
    apply paced_here; [reflexivity|apply Z.le_refl| |exact I]. intros T HT. apply (inj Some) in HT.
    cbn [ex_visit v_t1] in *. lia. }
  pose proof (shared_store_counts ex_shared ex_token ex_visits ∅ w outs E Hf) as Ht. rewrite Hs in *.
  destruct (Ht eq_refl eq_refl eq_refl eq_refl Hp) as [_ Ht']. clear Ht.
  split; [by rewrite Hm|].
  split.
  - revert Hc. destruct (SeenCount (100 * 10 ^ 9) ex_token w) as [w2 [n|]] eqn:Es; intros Hc; [|by destruct Hc].
    destruct (Ht' (50 * 10 ^ 9) (100 * 10 ^ 9) w2 eq_refl eq_refl) as [H _]. apply H in Es. cbn [snd]. by rewrite Es, Hm.
  - revert Hl. destruct (Valkey_Lookup (100 * 10 ^ 9) ex_token w) as [w2 [l|]] eqn:Es; intros Hl; [|by destruct Hl].
    destruct (Ht' (50 * 10 ^ 9) (100 * 10 ^ 9) w2 eq_refl eq_refl) as [_ H]. cbn [snd]. f_equal.
    apply H; [by rewrite Hm| |exact Es].
    rewrite Hm. intros o p Hin Hp'. injection Hp' as <-.
    apply elem_of_cons in Hin as [->|Hin]; [vm_compute; reflexivity|].
    apply list_elem_of_singleton in Hin as ->. vm_compute. reflexivity.
Defined.
