(* ===== verification/ProbeFleet.v ===== *)
(** * Replicas at the shared store ([probe/valkey.go])

    Several pods write to one Valkey server at once.  A command is atomic; a
    pipeline is not, so the commands of one call interleave with those of
    others.  A [pod] is one call under way: a [Record] before its INCR, or the
    commands it still has to send.  A schedule says whose command reaches the
    server next and when, and the theorems range over every schedule within one
    lifetime: the counts that [Record]'s comment promises across replicas, and
    the cap that [RecordReport] keeps with RPUSH and LTRIM, with what it can
    momentarily exceed. *)

From S2P Require Import Prelude GoStrings GoTime ProbeObserve ProbeReport ProbeStore ProbeServe ProbeValkey.

#[local] Arguments seenKey : simpl never.
#[local] Arguments obsKey : simpl never.
#[local] Arguments reportKey : simpl never.

(** ** A call, command by command *)

Section Calls.
Context `{J : !JsonLib}.
Variable s : ValkeyStore.

(** The pipeline of [Record] once the counter's value is known ([None]: the
    observation cannot be marshalled). *)
Definition writes (obs : Observation) : option (list cmd) :=
  let ttl := Seconds (vs_ttl s) in
  let cmds := [Expire (seenKey (ob_Token obs)) ttl] in
  if Seen obs <=? vs_maxPerToken s then
    payload ← Marshal obs;
    Some (cmds ++ [Rpush (obsKey (ob_Token obs)) payload; Expire (obsKey (ob_Token obs)) ttl])
  else Some cmds.

Definition vk_report_limit (token : bytes) : Z :=
  if beqb token [] then maxUnattributedReports else vs_maxPerToken s.

(** The pipeline of [RecordReport]. *)
Definition report_writes (token payload : bytes) : list cmd :=
  let key := reportKey token in
  [Rpush key payload; Ltrim key (- vk_report_limit token) (-1); Expire key (Seconds (vs_ttl s))].

(** These are the commands the calls of [ProbeValkey] send. *)
Lemma Valkey_Record_writes {W} `{!Valkey W} clock t0 t1 obs (w : W) :
  Valkey_Record s clock t0 t1 obs w =
  let obs := set_at obs (if At obs =? 0 then clock else At obs) in
  match vk_Do t0 (Incr (seenKey (ob_Token obs))) w with
  | (w, Some (RInt n)) =>
      match writes (set_seen obs n) with
      | None => (w, set_seen obs n, true)
      | Some cs => let '(w, rs) := vk_DoMulti t1 cs w in (w, set_seen obs n, failed rs)
      end
  | (w, _) => (w, obs, true)
  end.
Proof.
  unfold Valkey_Record, writes. destruct (vk_Do _ _ w) as [w1 [[n|l| |]|]]; try done. cbn.
  destruct (n <=? _); [|done]. by destruct (Marshal _).
Qed.

Lemma Valkey_RecordReport_writes {W} `{!Valkey W} clock t0 rec (w : W) :
  Valkey_RecordReport s clock t0 rec w =
  match MarshalReport (set_rr_at rec (if rr_At rec =? 0 then clock else rr_At rec)) with
  | None => (w, true)
  | Some payload => let '(w, rs) := vk_DoMulti t0 (report_writes (rr_Token rec) payload) w in (w, failed rs)
  end.
Proof. done. Qed.

(** A call under way: before the INCR, or with what is left of its pipeline;
    the observation is that of a [Record], as counted. *)
Inductive pod :=
| Counting (obs : Observation)
| Writing (obs : option Observation) (cmds : list cmd).

(** The next command of a call reaches the server. One that is refused leaves
    the key space alone, and the rest of a pipeline is executed all the
    same. *)
Definition pod_step (now : Z) (p : pod) (K : keyspace) : pod * keyspace :=
  match p with
  | Counting obs =>
      match exec now (Incr (seenKey (ob_Token obs))) K with
      | Some (K', RInt n) =>
          let obs := set_seen obs n in (Writing (Some obs) (default [] (writes obs)), K')
      | _ => (Writing None [], K)
      end
  | Writing obs (c :: cs) =>
      (Writing obs cs, match exec now c K with Some (K', _) => K' | None => K end)
  | Writing obs [] => (p, K)
  end.

(** The element a pod is about to push. *)
Definition pushing (p : pod) : list (bytes * bytes) :=
  match p with Writing _ (Rpush k e :: _) => [(k, e)] | _ => [] end.

(** The pods, the key space, and, as a history variable, the RPUSHes that have
    reached the server, oldest first. *)
Record fleet := mkFleet { pods : list pod; keys : keyspace; history : list (bytes * bytes) }.

Definition arrives (f : fleet) (turn : nat * Z) : fleet :=
  match pods f !! turn.1 with
  | Some p =>
      let '(p', K) := pod_step turn.2 p (keys f) in
      mkFleet (<[turn.1 := p']> (pods f)) K (history f ++ pushing p)
  | None => f
  end.

Definition fleet_run (ps : list pod) (K : keyspace) (sched : list (nat * Z)) : fleet :=
  foldl arrives (mkFleet ps K []) sched.

(** ** What is looked at *)

(** The observations of a token that have been counted. *)
Definition counted_one (t : bytes) (p : pod) : list Observation :=
  match p with Writing (Some o) _ => if beqb (ob_Token o) t then [o] else [] | _ => [] end.
Definition counted (t : bytes) (ps : list pod) : list Observation := ps ≫= counted_one t.

(** What a list of commands pushes to a key. *)
Definition pushes (k : bytes) (cs : list cmd) : list bytes :=
  cs ≫= (fun c => match c with Rpush k' e => if beqb k' k then [e] else [] | _ => [] end).

(** What the pods have still to push to a key. *)
Definition pending_one (k : bytes) (p : pod) : list bytes :=
  match p with Writing _ cs => pushes k cs | Counting _ => [] end.
Definition pending (k : bytes) (ps : list pod) : list bytes := ps ≫= pending_one k.

Definition pushed (k : bytes) (h : list (bytes * bytes)) : list bytes :=
  h ≫= (fun ke => if beqb ke.1 k then [ke.2] else []).

(** A pod that has pushed to a key and not yet trimmed it. *)
Definition owes_trim (k : bytes) (p : pod) : bool :=
  match p with
  | Writing _ cs =>
      existsb (fun c => match c with Ltrim k' _ _ => beqb k' k | _ => false end) cs && bool_decide (pushes k cs = [])
  | Counting _ => false
  end.
Definition untrimmed (k : bytes) (ps : list pod) : nat :=
  length (ps ≫= (fun p => if owes_trim k p then [p] else [])).

(** A call that has not sent a command yet. A token is hexadecimal, so it is
    not the word that names the reports without one. *)
Definition fresh (p : pod) : Prop :=
  match p with
  | Counting _ => True
  | Writing None cs => exists token payload, token <> bs "unattributed" /\ cs = report_writes token payload
  | Writing (Some _) _ => False
  end.

(** What [Record] retains of the observations counted. *)
Definition retained (os : list Observation) : list bytes :=
  omap Marshal (filter (fun o => Seen o <= vs_maxPerToken s) os).


(** ** What is left of a pipeline *)

Inductive rest_of : list cmd -> Prop :=
| rest_done : rest_of []
| rest_expire k : rest_of [Expire k (Seconds (vs_ttl s))]
| rest_push t e : rest_of [Rpush (obsKey t) e; Expire (obsKey t) (Seconds (vs_ttl s))]
| rest_record t e :
    rest_of [Expire (seenKey t) (Seconds (vs_ttl s)); Rpush (obsKey t) e; Expire (obsKey t) (Seconds (vs_ttl s))]
| rest_trim r : r <> bs "unattributed" ->
    rest_of [Ltrim (reportKey r) (- vk_report_limit r) (-1); Expire (reportKey r) (Seconds (vs_ttl s))]
| rest_report r e : r <> bs "unattributed" -> rest_of (report_writes r e).

Definition pod_ok (p : pod) : Prop := match p with Writing _ cs => rest_of cs | Counting _ => True end.

Lemma rest_of_writes obs : rest_of (default [] (writes obs)).
Proof.
  unfold writes. case_match; cbn; [|constructor]. destruct (Marshal obs); cbn; constructor.
Qed.

Lemma rest_of_tail c cs : rest_of (c :: cs) -> rest_of cs.
Proof. inversion 1; subst; by constructor. Qed.

Lemma fresh_ok p : fresh p -> pod_ok p.
Proof. destruct p as [o|[o|] cs]; try done. intros (r & e & Hr & ->). by constructor. Qed.

Lemma pod_step_ok now p K : pod_ok p -> pod_ok (pod_step now p K).1.
Proof.
  destruct p as [o|o [|c cs]]; intros H; cbn [pod_step]; [|done|by eapply rest_of_tail].
  destruct (exec now _ K) as [[K' []]|]; cbn; try constructor. apply rest_of_writes.
Qed.

(** ** Updating one pod *)

Lemma bind_update {B} (f : pod -> list B) ps i p p' :
  ps !! i = Some p -> exists rest, (ps ≫= f) ≡ₚ f p ++ rest /\ (<[i := p']> ps ≫= f) ≡ₚ f p' ++ rest.
Proof.
  revert i. induction ps as [|q ps IH]; intros [|i] Hi; try done.
  - injection Hi as ->. by exists (ps ≫= f).
  - destruct (IH i Hi) as (rest & H1 & H2). exists (f q ++ rest). cbn.
    change (list_bind pod B f ps) with (ps ≫= f). rewrite H1.
    change (list_bind pod B f (<[i:=p']> ps)) with (<[i:=p']> ps ≫= f). rewrite H2.
    split; by rewrite !app_assoc, (Permutation_app_comm (f q)).
Qed.

Lemma bind_same {B} (f : pod -> list B) ps i p p' :
  ps !! i = Some p -> f p' = f p -> (<[i := p']> ps ≫= f) ≡ₚ (ps ≫= f).
Proof. intros Hi E. destruct (bind_update f ps i p p' Hi) as (rest & -> & ->). by rewrite E. Qed.

Lemma counted_le t ps : (length (counted t ps) <= length ps)%nat.
Proof.
  induction ps as [|p ps IH]; [done|]. unfold counted in *. cbn. rewrite length_app.
  assert (length (counted_one t p) <= 1)%nat.
  { destruct p as [|[o|] cs]; cbn; [lia| |lia]. case_match; cbn; lia. }
  change (list_bind pod Observation (counted_one t) ps) with (ps ≫= counted_one t). lia.
Qed.

(** ** Within one lifetime *)

Section Window.
Variable T : Z.
Notation life := (Seconds (vs_ttl s) * 10 ^ 9).

Definition in_window (now : Z) : Prop := T <= now < T + life.

(** What a key holds, deadlines apart. *)
Definition val (K : keyspace) (k : bytes) : option value := fst <$> K !! k.

(** A key that outlives the window. *)
Definition alive (K : keyspace) (k : bytes) : Prop := forall v d, K !! k = Some (v, Some d) -> T + life <= d.

Lemma alive_get K k now : alive K k -> in_window now -> get now K k = val K k.
Proof.
  intros A [_ Hn]. unfold get, val. destruct (K !! k) as [[v [d|]]|] eqn:E; try done. cbn.
  pose proof (A v d E). by rewrite (proj2 (Z.ltb_lt now d)) by lia.
Qed.

Lemma put_alive K k v now : alive K k -> in_window now -> alive (put now k v K) k /\ val (put now k v K) k = Some v.
Proof.
  intros A Hn. split; [|unfold val, put; by rewrite lookup_insert_eq].
  intros u d. unfold put. rewrite lookup_insert_eq, alive_get by done. intros [= <- Hd].
  unfold val in Hd. destruct (K !! k) as [[u' d']|] eqn:E; [|done]. cbn in Hd. subst d'. by eapply A.
Qed.

Lemma elsewhere now c K K' r k :
  exec now c K = Some (K', r) -> k <> key_of c -> (alive K k -> alive K' k) /\ val K' k = val K k.
Proof.
  intros E Hk. pose proof (exec_keeps _ _ _ _ _ _ E Hk) as H. split; [|unfold val; by rewrite H].
  intros A v d. rewrite H. apply A.
Qed.

Lemma expire_val now K K' r k k' :
  0 < Seconds (vs_ttl s) -> in_window now ->
  exec now (Expire k' (Seconds (vs_ttl s))) K = Some (K', r) -> alive K k -> alive K' k /\ val K' k = val K k.
Proof.
  intros Hl Hn E A. destruct (decide (k = k')) as [<-|Hne].
  2: { destruct (elsewhere _ _ _ _ _ k E Hne) as [H1 H2]. auto. }
  cbn in E. rewrite alive_get in E by done. destruct (val K k) as [v|] eqn:Ev; [|injection E as <- _; done].
  rewrite (proj2 (Z.leb_gt _ _)) in E by done. injection E as <- _. split.
  - intros u d. rewrite lookup_insert_eq. intros [= _ <-]. unfold in_window in Hn. lia.
  - unfold val. by rewrite lookup_insert_eq.
Qed.

(** A list that is absent when empty. *)
Definition as_list (l : list bytes) : option value := match l with [] => None | _ => Some (VList l) end.
Definition as_count (n : Z) : option value := if n =? 0 then None else Some (VCount n).

Lemma incr_val now K k n :
  in_window now -> alive K k -> val K k = as_count n -> 0 <= n < 2 ^ 63 - 1 ->
  exists K', exec now (Incr k) K = Some (K', RInt (n + 1)) /\ alive K' k /\ val K' k = as_count (n + 1).
Proof.
  intros Hn A Ev Hr. assert (E1 : as_count (n + 1) = Some (VCount (n + 1))).
  { unfold as_count. by rewrite (proj2 (Z.eqb_neq _ _)) by lia. }
  destruct (put_alive K k (VCount (n + 1)) now A Hn) as [A' V']. rewrite <- E1 in V'.
  cbn [exec]. rewrite alive_get, Ev by done. unfold as_count. destruct (Z.eqb_spec n 0) as [->|H0].
  - eexists. split; [reflexivity|]. by split.
  - rewrite (proj2 (Z.ltb_lt _ _)) by lia. eexists. split; [reflexivity|]. by split.
Qed.

Lemma rpush_val now K k e l :
  in_window now -> alive K k -> val K k = as_list l ->
  exists K' r, exec now (Rpush k e) K = Some (K', r) /\ alive K' k /\ val K' k = as_list (l ++ [e]).
Proof.
  intros Hn A Ev. assert (E1 : as_list (l ++ [e]) = Some (VList (l ++ [e]))) by by destruct l.
  destruct (put_alive K k (VList (l ++ [e])) now A Hn) as [A' V']. rewrite <- E1 in V'.
  cbn [exec]. rewrite alive_get, Ev by done. destruct l; cbn; eexists _, _; (split; [reflexivity|by split]).
Qed.

Lemma ltrim_val now K k n l :
  in_window now -> alive K k -> val K k = as_list l -> 0 < n ->
  exists K' r, exec now (Ltrim k (- n) (-1)) K = Some (K', r) /\ alive K' k /\
               val K' k = as_list (drop (length l - Z.to_nat n) l).
Proof.
  intros Hn A Ev Hp. cbn [exec]. rewrite alive_get, Ev by done. destruct l as [|x l]; cbn [as_list].
  { eexists _, _. split; [reflexivity|]. by rewrite drop_nil. }
  rewrite range_last by done. set (l' := drop _ (x :: l)).
  assert (Hl : length l' <> O) by (unfold l'; rewrite length_drop; cbn; lia).
  destruct l' as [|y m]; [done|]. destruct (put_alive K k (VList (y :: m)) now A Hn).
  eexists _, _. split; [reflexivity|]. by split.
Qed.


(** ** A token's visits *)

Hypothesis Hlife : 0 < Seconds (vs_ttl s).

Record token_inv (t : bytes) (f : fleet) : Prop := {
  ti_seen_alive : alive (keys f) (seenKey t);
  ti_obs_alive : alive (keys f) (obsKey t);
  ti_count : val (keys f) (seenKey t) = as_count (zlen (counted t (pods f)));
  ti_seen : Seen <$> counted t (pods f) ≡ₚ seqZ 1 (zlen (counted t (pods f)));
  ti_list : val (keys f) (obsKey t) = as_list (pushed (obsKey t) (history f));
  ti_push : pushed (obsKey t) (history f) ++ pending (obsKey t) (pods f) ≡ₚ retained (counted t (pods f))
}.

#[local] Instance zlen_perm {A} : Proper ((≡ₚ) ==> eq) (@zlen A).
Proof. intros l k H. unfold zlen. by rewrite H. Qed.

#[local] Instance retained_perm : Proper ((≡ₚ) ==> (≡ₚ)) retained.
Proof. intros l k H. unfold retained. by rewrite H. Qed.

Lemma pushed_app k h h' : pushed k (h ++ h') = pushed k h ++ pushed k h'.
Proof. apply bind_app. Qed.

(** A step that is none of the token's. *)
Lemma token_same t f i p p' K :
  pods f !! i = Some p -> counted_one t p' = counted_one t p ->
  pending_one (obsKey t) p' = pending_one (obsKey t) p -> pushed (obsKey t) (pushing p) = [] ->
  (forall k, k = seenKey t \/ k = obsKey t -> (alive (keys f) k -> alive K k) /\ val K k = val (keys f) k) ->
  token_inv t f -> token_inv t (mkFleet (<[i := p']> (pods f)) K (history f ++ pushing p)).
Proof.
  intros Hi Ec Ep Eh Hk []. pose proof (bind_same (counted_one t) _ i p p' Hi Ec) as Pc.
  pose proof (bind_same (pending_one (obsKey t)) _ i p p' Hi Ep) as Pp.
  fold (counted t (<[i:=p']> (pods f))) in Pc. fold (counted t (pods f)) in Pc.
  destruct (Hk (seenKey t)) as [A1 V1]; [by left|]. destruct (Hk (obsKey t)) as [A2 V2]; [by right|].
  split; cbn [pods keys history]; rewrite ?V1, ?V2, ?Pc, ?pushed_app, ?Eh, ?app_nil_r; auto.
  unfold pending. by rewrite Pp.
Qed.

Lemma pushes_writes t o :
  pushes (obsKey t) (default [] (writes o)) =
  if beqb (ob_Token o) t then retained [o] else [].
Proof.
  unfold writes, retained. rewrite filter_cons.
  pose proof (keys_apart (ob_Token o) t) as (Hso & _ & _).
  assert (E : beqb (obsKey (ob_Token o)) (obsKey t) = beqb (ob_Token o) t).
  { apply eq_true_iff_eq. rewrite !beqb_true. split; [apply obsKey_inj|by intros ->]. }
  destruct (Z.leb_spec (Seen o) (vs_maxPerToken s)) as [Hle|Hgt].
  - rewrite decide_True by done. cbn. destruct (Marshal o); cbn; rewrite ?E; by destruct (beqb _ t).
  - rewrite decide_False by lia. cbn. by destruct (beqb _ t).
Qed.

Lemma set_seen_Token o n : ob_Token (set_seen o n) = ob_Token o.
Proof. by destruct o. Qed.

(** An observation of the token is counted. *)
Lemma token_counts t f i o now :
  pods f !! i = Some (Counting o) -> ob_Token o = t -> in_window now -> zlen (pods f) < 2 ^ 63 - 1 ->
  token_inv t f -> token_inv t (arrives f (i, now)).
Proof.
  intros Hi Et Hn Hz []. unfold arrives. cbn [fst snd]. rewrite Hi. cbn [pod_step pushing].
  set (n := zlen (counted t (pods f))) in *.
  assert (H0 : 0 <= n < 2 ^ 63 - 1).
  { pose proof (counted_le t (pods f)). unfold n, zlen in *. lia. }
  destruct (incr_val now (keys f) (seenKey t) n Hn ti_seen_alive0 ti_count0 H0) as (K & E & A & V).
  rewrite Et, E. set (o' := set_seen o (n + 1)). set (p' := Writing (Some o') (default [] (writes o'))).
  assert (Eo : ob_Token o' = t) by (unfold o'; by rewrite set_seen_Token).
  destruct (bind_update (counted_one t) _ i _ p' Hi) as (rest & P1 & P2).
  fold (counted t (pods f)) in P1. fold (counted t (<[i:=p']> (pods f))) in P2.
  cbn [counted_one p' app] in P1, P2. rewrite Eo, beqb_refl in P2. cbn [app] in P2. rewrite <- P1 in P2.
  destruct (bind_update (pending_one (obsKey t)) _ i _ p' Hi) as (rest' & P3 & P4).
  fold (pending (obsKey t) (pods f)) in P3. fold (pending (obsKey t) (<[i:=p']> (pods f))) in P4.
  cbn [pending_one p' app] in P3, P4. rewrite pushes_writes, Eo, beqb_refl, <- P3 in P4.
  destruct (elsewhere _ _ _ _ _ (obsKey t) E) as [Ha Hv].
  { cbn. intros Ek. by destruct (keys_apart t t) as (? & _). }
  assert (Ez : zlen (counted t (<[i:=p']> (pods f))) = n + 1).
  { rewrite P2, zlen_cons. unfold n. lia. }
  split; cbn [pods keys history]; rewrite ?Ez, ?app_nil_r; auto.
  - rewrite P2, fmap_cons. rewrite seqZ_app by lia. rewrite Permutation_app_comm, ti_seen0.
    unfold o'. by destruct o; rewrite Z.add_comm.
  - by rewrite Hv.
  - rewrite P4, P2. rewrite <- (Permutation_app_swap_app (retained [o'])).
    change (o' :: counted t (pods f)) with ([o'] ++ counted t (pods f)).
    unfold retained at 2. rewrite filter_app, omap_app. by rewrite ti_push0.
Qed.

Lemma pushes_cons k c cs : pushes k (c :: cs) = pushes k [c] ++ pushes k cs.
Proof. unfold pushes. cbn. by rewrite app_nil_r. Qed.

Lemma pushing_pushes k oo c cs : pushed k (pushing (Writing oo (c :: cs))) = pushes k [c].
Proof. by destruct c. Qed.

(** An observation of the token is appended. *)
Lemma token_pushes t f i oo e cs now :
  pods f !! i = Some (Writing oo (Rpush (obsKey t) e :: cs)) -> in_window now ->
  token_inv t f -> token_inv t (arrives f (i, now)).
Proof.
  intros Hi Hn []. unfold arrives. cbn [fst snd]. rewrite Hi. cbn [pod_step].
  destruct (rpush_val now (keys f) (obsKey t) e _ Hn ti_obs_alive0 ti_list0) as (K & r & E & A & V). rewrite E.
  destruct (elsewhere _ _ _ _ _ (seenKey t) E) as [Ha Hv].
  { cbn. by destruct (keys_apart t t). }
  set (p' := Writing oo cs).
  assert (Pc : counted t (<[i:=p']> (pods f)) ≡ₚ counted t (pods f)) by by eapply bind_same.
  destruct (bind_update (pending_one (obsKey t)) _ i _ p' Hi) as (rest & P3 & P4).
  fold (pending (obsKey t) (pods f)) in P3. fold (pending (obsKey t) (<[i:=p']> (pods f))) in P4.
  cbn [pending_one p'] in P3, P4. rewrite pushes_cons in P3.
  assert (Ee : pushes (obsKey t) [Rpush (obsKey t) e] = [e]) by (unfold pushes; cbn; by rewrite beqb_refl).
  assert (Eh : pushed (obsKey t) (history f ++ pushing (Writing oo (Rpush (obsKey t) e :: cs)))
               = pushed (obsKey t) (history f) ++ [e]) by (by rewrite pushed_app, pushing_pushes, Ee).
  rewrite Ee in P3.
  split; cbn [pods keys history]; rewrite ?Hv, ?Pc, ?Eh; auto.
  rewrite P4, <- app_assoc, <- ti_push0, P3. done.
Qed.

(** A command of a pipeline. *)
Lemma token_command t f i oo c cs now :
  pods f !! i = Some (Writing oo (c :: cs)) -> rest_of (c :: cs) -> in_window now ->
  token_inv t f -> token_inv t (arrives f (i, now)).
Proof.
  intros Hi Hr Hn I. pose proof (token_pushes t f i oo) as Hpush. unfold arrives in Hpush |- *.
  cbn [fst snd] in *. rewrite Hi in Hpush |- *. cbn [pod_step] in *.
  assert (Hsame : pushes (obsKey t) [c] = [] -> (forall k, k = seenKey t \/ k = obsKey t -> alive (keys f) k ->
            forall K' r, exec now c (keys f) = Some (K', r) -> alive K' k /\ val K' k = val (keys f) k) ->
          token_inv t (mkFleet (<[i := Writing oo cs]> (pods f))
            (match exec now c (keys f) with Some (K', _) => K' | None => keys f end)
            (history f ++ pushing (Writing oo (c :: cs))))).
  { intros Ep Hk. apply token_same; try done.
    - cbn [pending_one]. by rewrite (pushes_cons _ c), Ep.
    - by rewrite pushing_pushes.
    - intros k Hk'. assert (A : alive (keys f) k) by (destruct I, Hk' as [-> | ->]; done).
      destruct (exec now c (keys f)) as [[K' r]|] eqn:E; [|done]. destruct (Hk k Hk' A K' r eq_refl). auto. }
  assert (Hother : key_of c <> seenKey t -> key_of c <> obsKey t -> forall k, k = seenKey t \/ k = obsKey t ->
            alive (keys f) k -> forall K' r, exec now c (keys f) = Some (K', r) -> alive K' k /\ val K' k = val (keys f) k).
  { intros H1 H2 k Hk A K' r E. destruct (elsewhere _ _ _ _ _ k E) as [Ha Hv]; [by destruct Hk as [-> | ->]|]. auto. }
  assert (Happ : forall r, reportKey r <> seenKey t /\ reportKey r <> obsKey t).
  { intros r. destruct (keys_apart t r) as (_ & ? & ?). done. }
  assert (Hexp : forall k', c = Expire k' (Seconds (vs_ttl s)) -> forall k, k = seenKey t \/ k = obsKey t ->
            alive (keys f) k -> forall K' r, exec now c (keys f) = Some (K', r) -> alive K' k /\ val K' k = val (keys f) k).
  { intros k' -> k _ A K' r E. by eapply expire_val. }
  inversion Hr; subst.
  - apply Hsame; [done|by eapply Hexp].
  - destruct (decide (t0 = t)) as [->|Hne].
    + by eapply Hpush.
    + apply Hsame.
      * unfold pushes. cbn. rewrite (proj2 (beqb_false _ _)); [done|]. by intros ?%obsKey_inj.
      * apply Hother; cbn; [|by intros ?%obsKey_inj]. intros E. by destruct (keys_apart t t0) as (? & _).
  - apply Hsame; [done|by eapply Hexp].
  - apply Hsame; [done|by apply Hother; apply Happ].
  - apply Hsame; [|by apply Hother; apply Happ]. unfold pushes. cbn. destruct (Happ r) as [_ H].
    by rewrite (proj2 (beqb_false _ _) H).
Qed.

(** An observation of another token is counted. *)
Lemma token_elsewhere t f i o now :
  pods f !! i = Some (Counting o) -> ob_Token o <> t ->
  token_inv t f -> token_inv t (arrives f (i, now)).
Proof.
  intros Hi Ht I. unfold arrives. cbn [fst snd]. rewrite Hi. cbn [pod_step].
  assert (Hk : forall K r, exec now (Incr (seenKey (ob_Token o))) (keys f) = Some (K, r) ->
    forall k, k = seenKey t \/ k = obsKey t -> (alive (keys f) k -> alive K k) /\ val K k = val (keys f) k).
  { intros K r E k Hk. apply (elsewhere _ _ _ _ _ k E). cbn. destruct Hk as [-> | ->].
    - by intros ->%seenKey_inj.
    - destruct (keys_apart (ob_Token o) t). done. }
  destruct (exec now _ (keys f)) as [[K [n| | |]]|]; try by apply (token_same _ _ _ _ _ _ Hi).
  apply (token_same _ _ _ _ _ _ Hi); try done.
  - cbn [counted_one]. rewrite set_seen_Token. by rewrite (proj2 (beqb_false _ _) Ht).
  - cbn [pending_one]. rewrite pushes_writes, set_seen_Token. by rewrite (proj2 (beqb_false _ _) Ht).
  - by eapply Hk.
Qed.

(** ** Runs *)

Record fleet_ok (n : Z) (f : fleet) : Prop := {
  fo_pods : forall i p, pods f !! i = Some p -> pod_ok p;
  fo_size : zlen (pods f) = n
}.

Lemma arrives_ok n f i now : fleet_ok n f -> fleet_ok n (arrives f (i, now)).
Proof.
  intros [Hp Hs]. unfold arrives. cbn [fst snd]. destruct (pods f !! i) as [p|] eqn:Hi; [|by split].
  pose proof (pod_step_ok now p (keys f) (Hp _ _ Hi)) as Hok.
  destruct (pod_step now p (keys f)) as [p' K]. split; cbn [pods].
  - intros j q Hj. apply list_lookup_insert_Some in Hj as [(_ & <- & _)|[_ Hj]]; [done|by eapply Hp].
  - unfold zlen in *. by rewrite length_insert.
Qed.

Lemma arrives_token n t f i now :
  fleet_ok n f -> n < 2 ^ 63 - 1 -> in_window now -> token_inv t f -> token_inv t (arrives f (i, now)).
Proof.
  intros [Hp Hs] Hn Hw I. destruct (pods f !! i) as [[o|oo [|c cs]]|] eqn:Hi.
  - destruct (decide (ob_Token o = t)); [eapply token_counts; eauto; lia|by eapply token_elsewhere].
  - unfold arrives. cbn [fst snd]. rewrite Hi. cbn. rewrite app_nil_r, list_insert_id by done. by destruct f.
  - eapply token_command; eauto. exact (Hp _ _ Hi).
  - unfold arrives. cbn [fst snd]. by rewrite Hi.
Qed.

Lemma run_ind (P : fleet -> Prop) n f sched :
  fleet_ok n f -> P f -> Forall (fun turn => in_window turn.2) sched ->
  (forall f i now, fleet_ok n f -> in_window now -> P f -> P (arrives f (i, now))) ->
  P (foldl arrives f sched).
Proof.
  intros Ho HP Hs Hstep. revert f Ho HP. induction Hs as [|[i now] sched Hw _ IH]; intros f Ho HP; [done|].
  cbn. apply IH; [by apply arrives_ok|by apply Hstep].
Qed.

Lemma fresh_fleet ps K : Forall fresh ps -> fleet_ok (zlen ps) (mkFleet ps K []).
Proof. intros H. split; [|done]. intros i p Hi. apply fresh_ok. by eapply Forall_lookup_1. Qed.

Lemma fresh_counts t ps : Forall fresh ps -> counted t ps = [] /\ pending (obsKey t) ps = [].
Proof.
  unfold counted, pending. induction 1 as [|p ps Hp _ [IH1 IH2]]; [done|]. cbn.
  change (list_bind pod Observation (counted_one t) ps) with (ps ≫= counted_one t).
  change (list_bind pod bytes (pending_one (obsKey t)) ps) with (ps ≫= pending_one (obsKey t)).
  rewrite IH1, IH2. destruct p as [o|[o|] cs]; try done. destruct Hp as (r & e & _ & ->).
  unfold pushes, report_writes. cbn. destruct (keys_apart t r) as (_ & _ & H).
  rewrite (proj2 (beqb_false _ _)); [done|]. by apply not_eq_sym.
Qed.

Lemma retained_le l : Seen <$> l ≡ₚ seqZ 1 (zlen l) -> 0 < vs_maxPerToken s -> zlen (retained l) <= vs_maxPerToken s.
Proof.
  intros H Hc. unfold retained.
  assert (H1 : zlen (omap Marshal (filter (fun o => Seen o <= vs_maxPerToken s) l))
               <= zlen (filter (fun n => n <= vs_maxPerToken s) (Seen <$> l))).
  { clear H. induction l as [|o l IH]; [done|]. rewrite fmap_cons, !filter_cons.
    destruct (decide _); cbn; [|done]. rewrite zlen_cons.
    destruct (Marshal o); cbn; rewrite ?zlen_cons; lia. }
  rewrite H in H1. assert (H2 : filter (fun n => n <= vs_maxPerToken s) (seqZ 1 (zlen l)) ⊆+ seqZ 1 (vs_maxPerToken s)).
  { apply NoDup_submseteq; [apply NoDup_filter, NoDup_seqZ|]. intros n [Hn Hin]%list_elem_of_filter.
    apply elem_of_seqZ in Hin. apply elem_of_seqZ. lia. }
  apply submseteq_length in H2. rewrite length_seqZ in H2. unfold zlen in *. lia.
Qed.

End Window.

(** C15: the counts are right across replicas. Let any number of pods record
    visits and reports at once, their commands reaching the server in any order
    within one lifetime, from a point where nothing is held for the token. At
    every moment the observations counted so far carry the numbers 1, 2, 3,
    ... each once, the server's counter is how many they are, and the list of
    details, together with what pods have yet to push, is exactly the
    observations whose number is within the cap: it never exceeds the cap, and
    nothing within the cap is lost. *)
Theorem fleet_counts (T : Z) (t : bytes) (ps : list pod) (K : keyspace) (sched : list (nat * Z)) :
  0 < Seconds (vs_ttl s) -> 0 < vs_maxPerToken s -> zlen ps < 2 ^ 63 - 1 ->
  Forall fresh ps -> K !! seenKey t = None -> K !! obsKey t = None ->
  Forall (fun turn => in_window T turn.2) sched ->
  let f := fleet_run ps K sched in
  let os := counted t (pods f) in
  (Seen <$> os ≡ₚ seqZ 1 (zlen os)) /\
  forall now, in_window T now ->
    count now (keys f) (seenKey t) = zlen os /\
    listed now (keys f) (obsKey t) ++ pending (obsKey t) (pods f) ≡ₚ retained os /\
    zlen (listed now (keys f) (obsKey t)) <= vs_maxPerToken s.
Proof.
  intros Hl Hc Hn Hf Ks Ko Hs f os. assert (I : token_inv T t f).
  { apply (run_ind T (token_inv T t) (zlen ps)); [by apply fresh_fleet| |done|].
    - destruct (fresh_counts t ps Hf) as [E1 E2].
      split; cbn [pods keys history]; unfold alive, val; rewrite ?Ks, ?Ko, ?E1, ?E2; done.
    - intros f' i now Ho Hw I. by eapply arrives_token. }
  destruct I. fold os in ti_count0, ti_seen0, ti_push0. split; [done|]. intros now Hw.
  assert (El : listed now (keys f) (obsKey t) = pushed (obsKey t) (history f)).
  { unfold listed. rewrite (alive_get T), ti_list0 by done. by destruct (pushed _ _). }
  split_and!.
  - unfold count. rewrite (alive_get T), ti_count0 by done. unfold as_count.
    destruct (Z.eqb_spec (zlen os) 0); [lia|done].
  - by rewrite El.
  - rewrite El. pose proof (retained_le os ti_seen0 Hc) as Hr.
    rewrite <- (zlen_perm _ _ ti_push0), zlen_app in Hr. pose proof (zlen_nonneg (pending (obsKey t) (pods f))). lia.
Qed.

(** ** Reports *)

Section Reports.
Variable T : Z.
Hypothesis Hlife : 0 < Seconds (vs_ttl s).
Variable r : bytes.
Hypothesis Hr : r <> bs "unattributed".
Hypothesis Hlimit : 0 < vk_report_limit r.

Lemma untrimmed_update k ps i p p' :
  ps !! i = Some p ->
  (untrimmed k (<[i := p']> ps) + Nat.b2n (owes_trim k p) = untrimmed k ps + Nat.b2n (owes_trim k p'))%nat.
Proof.
  intros Hi. destruct (bind_update (fun p => if owes_trim k p then [p] else []) ps i p p' Hi) as (rest & P1 & P2).
  unfold untrimmed. rewrite P1, P2, !length_app. destruct (owes_trim k p), (owes_trim k p'); cbn; lia.
Qed.

(** The list is the end of what was pushed: at least the cap's worth of it,
    and at most that and one for each pod yet to trim. *)
Record report_inv (f : fleet) : Prop := {
  ri_alive : alive T (keys f) (reportKey r);
  ri_list : exists m, val (keys f) (reportKey r) = as_list (drop m (pushed (reportKey r) (history f))) /\
    (m <= length (pushed (reportKey r) (history f)))%nat /\
    (Nat.min (Z.to_nat (vk_report_limit r)) (length (pushed (reportKey r) (history f)))
     <= length (pushed (reportKey r) (history f)) - m
     <= Z.to_nat (vk_report_limit r) + untrimmed (reportKey r) (pods f))%nat
}.

(** A step that is none of theirs. *)
Lemma report_same f i p p' K :
  pods f !! i = Some p -> owes_trim (reportKey r) p' = owes_trim (reportKey r) p ->
  pushed (reportKey r) (pushing p) = [] ->
  (alive T (keys f) (reportKey r) -> alive T K (reportKey r)) /\ val K (reportKey r) = val (keys f) (reportKey r) ->
  report_inv f -> report_inv (mkFleet (<[i := p']> (pods f)) K (history f ++ pushing p)).
Proof.
  intros Hi Eo Eh [Ha Hv] [A (m & V & Hm & Hl)]. pose proof (untrimmed_update (reportKey r) _ i p p' Hi) as Hu.
  rewrite Eo in Hu. split; cbn [pods keys history]; [auto|]. rewrite Hv, pushed_app, Eh, app_nil_r.
  exists m. split_and!; try done; lia.
Qed.

Lemma report_counting f i o now :
  pods f !! i = Some (Counting o) -> report_inv f -> report_inv (arrives f (i, now)).
Proof.
  intros Hi I. unfold arrives. cbn [fst snd]. rewrite Hi. cbn [pod_step].
  assert (Hk : forall K r', exec now (Incr (seenKey (ob_Token o))) (keys f) = Some (K, r') ->
    (alive T (keys f) (reportKey r) -> alive T K (reportKey r)) /\ val K (reportKey r) = val (keys f) (reportKey r)).
  { intros K r' E. apply (elsewhere _ _ _ _ _ _ _ E). cbn. destruct (keys_apart (ob_Token o) r) as (_ & ? & _). by apply not_eq_sym. }
  destruct (exec now _ (keys f)) as [[K [n| | |]]|]; try by apply (report_same _ _ _ _ _ Hi).
  apply (report_same _ _ _ _ _ Hi); [|done|by eapply Hk|done].
  cbn [owes_trim]. unfold writes.
  case_match; cbn; [|done]. destruct (Marshal _); done.
Qed.

Lemma same_key r' : r' <> bs "unattributed" -> r' <> r -> reportKey r' <> reportKey r.
Proof. intros H Hn E. by apply Hn, reportKey_inj. Qed.

Lemma report_pushes f i oo e now :
  pods f !! i = Some (Writing oo (report_writes r e)) -> in_window T now ->
  report_inv f -> report_inv (arrives f (i, now)).
Proof.
  intros Hi Hn [A (m & V & Hm & Hl)]. unfold arrives. cbn [fst snd]. rewrite Hi. cbn [pod_step report_writes].
  destruct (rpush_val T now (keys f) (reportKey r) e _ Hn A V) as (K & re & E & A' & V'). rewrite E.
  pose proof (untrimmed_update (reportKey r) _ i _
    (Writing oo [Ltrim (reportKey r) (- vk_report_limit r) (-1); Expire (reportKey r) (Seconds (vs_ttl s))]) Hi) as Hu.
  split; cbn [pods keys history]; [done|]. exists m.
  assert (Ee : pushed (reportKey r) (pushing (Writing oo (report_writes r e))) = [e]).
  { unfold pushed. cbn. by rewrite beqb_refl. }
  change (Rpush (reportKey r) e :: _) with (report_writes r e). rewrite pushed_app, Ee.
  assert (O1 : owes_trim (reportKey r) (Writing oo (report_writes r e)) = false).
  { unfold owes_trim, pushes. cbn. by rewrite beqb_refl. }
  assert (O2 : owes_trim (reportKey r) (Writing oo [Ltrim (reportKey r) (- vk_report_limit r) (-1);
                 Expire (reportKey r) (Seconds (vs_ttl s))]) = true).
  { unfold owes_trim, pushes. cbn. by rewrite beqb_refl. }
  rewrite O1, O2 in Hu. rewrite length_app. cbn in Hu |- *. split_and!; [|lia..].
  rewrite V'. by rewrite drop_app_le by done.
Qed.

Lemma report_trims f i oo cs now :
  pods f !! i = Some (Writing oo (Ltrim (reportKey r) (- vk_report_limit r) (-1) :: cs)) ->
  rest_of (Ltrim (reportKey r) (- vk_report_limit r) (-1) :: cs) -> in_window T now ->
  report_inv f -> report_inv (arrives f (i, now)).
Proof.
  intros Hi Hcs Hn [A (m & V & Hm & Hl)]. unfold arrives. cbn [fst snd]. rewrite Hi. cbn [pod_step pushing].
  destruct (ltrim_val T now (keys f) (reportKey r) _ _ Hn A V Hlimit) as (K & re & E & A' & V'). rewrite E.
  pose proof (untrimmed_update (reportKey r) _ i _ (Writing oo cs) Hi) as Hu.
  split; cbn [pods keys history]; [done|]. rewrite app_nil_r, V', drop_drop, length_drop.
  eexists. split; [reflexivity|]. split_and!; lia.
Qed.

(** A command of a pipeline. *)
Lemma report_command f i oo c cs now :
  pods f !! i = Some (Writing oo (c :: cs)) -> rest_of (c :: cs) -> in_window T now ->
  report_inv f -> report_inv (arrives f (i, now)).
Proof.
  intros Hi Hrest Hn I.
  assert (Hsame : owes_trim (reportKey r) (Writing oo cs) = owes_trim (reportKey r) (Writing oo (c :: cs)) ->
            pushes (reportKey r) [c] = [] ->
            (forall K' re, exec now c (keys f) = Some (K', re) -> 
               (alive T (keys f) (reportKey r) -> alive T K' (reportKey r)) /\ val K' (reportKey r) = val (keys f) (reportKey r)) ->
            report_inv (arrives f (i, now))).
  { intros Eo Ep Hk. unfold arrives. cbn [fst snd]. rewrite Hi. cbn [pod_step].
    apply (report_same _ _ _ _ _ Hi); [done|by rewrite pushing_pushes| |done].
    destruct (exec now c (keys f)) as [[K' re]|]; [by eapply Hk|done]. }
  assert (Hexp : forall k', c = Expire k' (Seconds (vs_ttl s)) -> forall K' re, exec now c (keys f) = Some (K', re) ->
            (alive T (keys f) (reportKey r) -> alive T K' (reportKey r)) /\ val K' (reportKey r) = val (keys f) (reportKey r)).
  { intros k' -> K' re E. destruct I as [A _]. destruct (expire_val T now _ _ _ (reportKey r) _ Hlife Hn E A). auto. }
  assert (Hother : key_of c <> reportKey r -> forall K' re, exec now c (keys f) = Some (K', re) ->
            (alive T (keys f) (reportKey r) -> alive T K' (reportKey r)) /\ val K' (reportKey r) = val (keys f) (reportKey r)).
  { intros Hne K' re E. apply (elsewhere _ _ _ _ _ _ _ E). by apply not_eq_sym. }
  inversion Hrest as [|k|t e|t e|r' Hr'|r' e Hr']; subst.
  - apply Hsame; [done|done|by eapply Hexp].
  - destruct (keys_apart t r) as (_ & _ & Hne). apply Hsame; [done| |by apply Hother].
    unfold pushes. cbn. by rewrite (proj2 (beqb_false _ _) Hne).
  - apply Hsame; [done|done|by eapply Hexp].
  - destruct (decide (r' = r)) as [->|Hne]; [by eapply report_trims|].
    pose proof (same_key r' Hr' Hne) as Hk. apply Hsame; [|done|by apply Hother].
    cbn. by rewrite (proj2 (beqb_false _ _) Hk).
  - destruct (decide (r' = r)) as [->|Hne]; [by eapply report_pushes|].
    pose proof (same_key r' Hr' Hne) as Hk. apply Hsame; [| |by apply Hother].
    + cbn. by rewrite (proj2 (beqb_false _ _) Hk).
    + unfold pushes. cbn. by rewrite (proj2 (beqb_false _ _) Hk).
Qed.

Lemma arrives_report n f i now :
  fleet_ok n f -> in_window T now -> report_inv f -> report_inv (arrives f (i, now)).
Proof.
  intros [Hp _] Hw I. destruct (pods f !! i) as [[o|oo [|c cs]]|] eqn:Hi.
  - by eapply report_counting.
  - unfold arrives. cbn [fst snd]. rewrite Hi. cbn. rewrite app_nil_r, list_insert_id by done. by destruct f.
  - eapply report_command; eauto. exact (Hp _ _ Hi).
  - unfold arrives. cbn [fst snd]. by rewrite Hi.
Qed.

End Reports.

(** C16: the cap on reports holds across replicas, in the end. Whatever pods
    report at once, in any interleaving of their commands within one lifetime,
    a list of reports holds the newest of what was pushed, in order: never less
    than the cap's worth, and never more than the cap and one for each pod that
    has pushed and not yet trimmed; when there is none, it is exactly the newest
    reports up to the cap. *)
Theorem fleet_reports (T : Z) (r : bytes) (ps : list pod) (K : keyspace) (sched : list (nat * Z)) :
  0 < Seconds (vs_ttl s) -> 0 < vs_maxPerToken s -> r <> bs "unattributed" ->
  Forall fresh ps -> K !! reportKey r = None -> Forall (fun turn => in_window T turn.2) sched ->
  let f := fleet_run ps K sched in
  let limit := Z.to_nat (vk_report_limit r) in
  let all := pushed (reportKey r) (history f) in
  forall now, in_window T now ->
    let l := listed now (keys f) (reportKey r) in
    l `suffix_of` all /\
    (Nat.min limit (length all) <= length l <= limit + untrimmed (reportKey r) (pods f))%nat /\
    (untrimmed (reportKey r) (pods f) = O -> l = drop (length all - limit) all).
Proof.
  intros Hl Hc Hr Hf Kr Hs f limit all now Hw l.
  assert (Hlim : 0 < vk_report_limit r) by (unfold vk_report_limit; case_match; [done|lia]).
  assert (I : report_inv T r f).
  { apply (run_ind T (report_inv T r) (zlen ps)); [by apply fresh_fleet| |done|].
    - split; cbn [pods keys history]; unfold alive, val; rewrite Kr; [done|].
      exists O. cbn. rewrite Nat.min_0_r. split_and!; [done|lia..].
    - intros f' i t Ho Ht I. by eapply arrives_report. }
  destruct I as [A (m & V & Hm & Hb)]. fold all limit in V, Hm, Hb.
  assert (El : l = drop m all).
  { unfold l, listed. rewrite (alive_get T), V by done. by destruct (drop m all). }
  assert (Elen : length l = (length all - m)%nat) by by rewrite El, length_drop.
  rewrite Elen. split_and!; [|lia|lia|].
  - exists (take m all). by rewrite El, take_drop.
  - intros E0. rewrite E0 in Hb. rewrite El. f_equal. lia.
Qed.

End Calls.

(** ** A fleet *)

#[local] Existing Instance ex_json.

(** Three visits and four reports at once, with a cap of two. *)
Definition ex_pods : list pod :=
  [Counting (seen_at ex_token 7); Counting (seen_at ex_token 7); Counting (seen_at ex_token 7);
   Writing None (report_writes ex_shared ex_token (bs "a"));
   Writing None (report_writes ex_shared ex_token (bs "b"));
   Writing None (report_writes ex_shared ex_token (bs "c"));
   Writing None (report_writes ex_shared ex_token (bs "d"))].

(** The second pod counts first and pushes last; two reports are in when two
    more are pushed. *)
Definition ex_turns : list (nat * Z) :=
  (fun i => (i, 10 ^ 9)) <$> [1; 0; 2; 0; 0; 0; 2; 1; 1; 3; 3; 3; 4; 4; 4; 5; 6]%nat.

Notation ex_fleet := (fleet_run ex_shared ex_pods ∅ ex_turns).

(** The details are in the order of the pushes, not of the counts. *)
Example ex_details :
  listed (2 * 10 ^ 9) (keys ex_fleet) (obsKey ex_token) = [bs "2"; bs "1"].
Proof. vm_compute. reflexivity. Qed.

(** With two pods between RPUSH and LTRIM the list is two past its cap. *)
Example report_cap_exceeded :
  listed (2 * 10 ^ 9) (keys ex_fleet) (reportKey ex_token) = [bs "a"; bs "b"; bs "c"; bs "d"] /\
  untrimmed (reportKey ex_token) (pods ex_fleet) = 2%nat.
Proof. vm_compute. done. Qed.

Lemma ex_fresh : Forall (fresh ex_shared) ex_pods.
Proof.
  repeat constructor; eexists _, _; (split; [|reflexivity]); intros H; vm_compute in H; discriminate H.
Qed.

Lemma ex_in_window : Forall (fun turn => in_window ex_shared 0 turn.2) ex_turns.
Proof. assert (Hs : Seconds (vs_ttl ex_shared) = 60) by (vm_compute; reflexivity).
  unfold in_window. rewrite Hs. repeat constructor; cbn; lia.
Qed.

Lemma fleet_counts_witness :
  Seen <$> counted ex_token (pods ex_fleet) ≡ₚ [1; 2; 3] /\
  count (2 * 10 ^ 9) (keys ex_fleet) (seenKey ex_token) = 3.
Proof.
  assert (Hs : Seconds (vs_ttl ex_shared) = 60) by (vm_compute; reflexivity).
  destruct (fleet_counts ex_shared 0 ex_token ex_pods ∅ ex_turns) as [H1 H2].
  - by rewrite Hs.
  - reflexivity.
  - reflexivity.
  - exact ex_fresh.
  - reflexivity.
  - reflexivity.
  - exact ex_in_window.
  - split; [exact H1|]. destruct (H2 (2 * 10 ^ 9)) as [H3 _]; [unfold in_window; rewrite Hs; lia|].
    exact H3.
Defined.

Lemma fleet_reports_witness :
  (2 <= length (listed (2 * 10 ^ 9) (keys ex_fleet) (reportKey ex_token)) <= 4)%nat.
Proof.
  assert (Hs : Seconds (vs_ttl ex_shared) = 60) by (vm_compute; reflexivity).
  destruct (fleet_reports ex_shared 0 ex_token ex_pods ∅ ex_turns) with (now := 2 * 10 ^ 9) as (_ & H & _).
  - by rewrite Hs.
  - reflexivity.
  - intros H. vm_compute in H. discriminate H.
  - exact ex_fresh.
  - reflexivity.
  - exact ex_in_window.
  - unfold in_window. rewrite Hs. lia.
  - destruct report_cap_exceeded as [_ E]. rewrite E in H.
    assert (El : length (pushed (reportKey ex_token) (history ex_fleet)) = 4%nat) by (vm_compute; reflexivity).
    rewrite El in H. exact H.
Defined.
