(* ===== verification/ProbeSetup.v ===== *)
(** * Configuring the probe ([probe/setup.go], [probe/valkey.go]'s constructor, [probe/metadata.go])

    The Corefile block with its defaults and checks, the choice of a store,
    the signing key and the transport canary; and the wildcard published for
    rate limiting. *)

From S2P Require Import Prelude GoStrings GoTime Netip Dns SimpleDns Caddy.
From S2P Require Import ProbeLabels ProbeStore ProbeWire ProbeSign ProbeServe ProbeValkey.

Definition defaultTTL : Z := 10.
Definition defaultBigSize : Z := 1400.
Definition defaultAgentTTL : Z := 300.
Definition echConfigID : byte := Byte.x01.

(** ** What the directives fill in *)

Record ValkeyConfig := { CAFile : bytes; Addrs : list bytes; vc_TTL : Z; Timeout : Z; vc_MaxPerToken : Z }.

Record parseState := mkParse {
  keyBase : bytes; valkeyCfg : ValkeyConfig; st_validity : Z; storeTTL : Z; maxTokens : Z; maxPerToken : Z
}.

(** The fields of the [Probe] under construction. *)
Record Draft := mkDraft {
  d_Zone : bytes; d_NSName : bytes; d_Mbox : bytes; d_AgentDomain : bytes; d_BigSize : Z; d_TTL : Z; d_AgentTTL : Z
}.

Definition zero_parse : parseState :=
  mkParse [] {| CAFile := []; Addrs := []; vc_TTL := 0; Timeout := 0; vc_MaxPerToken := 0 |} 0 0 0 0.
Definition zero_draft : Draft := mkDraft [] [] [] [] defaultBigSize defaultTTL 0.

Definition set_valkey (v : ValkeyConfig) (s : parseState) : parseState :=
  mkParse (keyBase s) v (st_validity s) (storeTTL s) (maxTokens s) (maxPerToken s).
Definition add_addrs (l : list bytes) (s : parseState) : parseState :=
  let v := valkeyCfg s in
  set_valkey {| CAFile := CAFile v; Addrs := Addrs v ++ l; vc_TTL := vc_TTL v; Timeout := Timeout v;
                vc_MaxPerToken := vc_MaxPerToken v |} s.
Definition set_ca (f : bytes) (s : parseState) : parseState :=
  let v := valkeyCfg s in
  set_valkey {| CAFile := f; Addrs := Addrs v; vc_TTL := vc_TTL v; Timeout := Timeout v;
                vc_MaxPerToken := vc_MaxPerToken v |} s.
Definition set_timeout (t : Z) (s : parseState) : parseState :=
  let v := valkeyCfg s in
  set_valkey {| CAFile := CAFile v; Addrs := Addrs v; vc_TTL := vc_TTL v; Timeout := t;
                vc_MaxPerToken := vc_MaxPerToken v |} s.
Definition set_key (k : bytes) (s : parseState) : parseState :=
  mkParse k (valkeyCfg s) (st_validity s) (storeTTL s) (maxTokens s) (maxPerToken s).
Definition set_validity (v : Z) (s : parseState) : parseState :=
  mkParse (keyBase s) (valkeyCfg s) v (storeTTL s) (maxTokens s) (maxPerToken s).
Definition set_store_ttl (v : Z) (s : parseState) : parseState :=
  mkParse (keyBase s) (valkeyCfg s) (st_validity s) v (maxTokens s) (maxPerToken s).
Definition set_max_tokens (v : Z) (s : parseState) : parseState :=
  mkParse (keyBase s) (valkeyCfg s) (st_validity s) (storeTTL s) v (maxPerToken s).
Definition set_max_per_token (v : Z) (s : parseState) : parseState :=
  mkParse (keyBase s) (valkeyCfg s) (st_validity s) (storeTTL s) (maxTokens s) v.

Definition set_zone (z : bytes) (p : Draft) : Draft :=
  mkDraft z (d_NSName p) (d_Mbox p) (d_AgentDomain p) (d_BigSize p) (d_TTL p) (d_AgentTTL p).
Definition set_ns (n : bytes) (p : Draft) : Draft :=
  mkDraft (d_Zone p) n (d_Mbox p) (d_AgentDomain p) (d_BigSize p) (d_TTL p) (d_AgentTTL p).
Definition set_mbox (m : bytes) (p : Draft) : Draft :=
  mkDraft (d_Zone p) (d_NSName p) m (d_AgentDomain p) (d_BigSize p) (d_TTL p) (d_AgentTTL p).
Definition set_agent (a : bytes) (p : Draft) : Draft :=
  mkDraft (d_Zone p) (d_NSName p) (d_Mbox p) a (d_BigSize p) (d_TTL p) (d_AgentTTL p).
Definition set_big (b : Z) (p : Draft) : Draft :=
  mkDraft (d_Zone p) (d_NSName p) (d_Mbox p) (d_AgentDomain p) b (d_TTL p) (d_AgentTTL p).
Definition set_ttl_ (t : Z) (p : Draft) : Draft :=
  mkDraft (d_Zone p) (d_NSName p) (d_Mbox p) (d_AgentDomain p) (d_BigSize p) t (d_AgentTTL p).
Definition set_agent_ttl (t : Z) (p : Draft) : Draft :=
  mkDraft (d_Zone p) (d_NSName p) (d_Mbox p) (d_AgentDomain p) (d_BigSize p) (d_TTL p) t.

(** ** The shared store's constructor *)

Definition defaultValkeyTimeout : Z := 100 * 10 ^ 6.

(** Reading a file, whether it holds a certificate, and connecting to the
    addresses with those roots. *)
Class ValkeyLib := {
  os_ReadFile : bytes -> option bytes;
  AppendCertsFromPEM : bytes -> bool;
  NewClient : list bytes -> option bytes -> bool
}.

Definition NewValkeyStore `{ValkeyLib} (cfg : ValkeyConfig) : result ParseErr ValkeyStore :=
  if (zlen (Addrs cfg) =? 0) then Err (PErr (bs "no valkey addresses configured"))
  else
    let ttl := if vc_TTL cfg <=? 0 then defaultStoreTTL else vc_TTL cfg in
    let timeout := if Timeout cfg <=? 0 then defaultValkeyTimeout else Timeout cfg in
    let max := if vc_MaxPerToken cfg <=? 0 then defaultMaxPerToken else vc_MaxPerToken cfg in
    roots ← (if beqb (CAFile cfg) [] then Ok None
             else match os_ReadFile (CAFile cfg) with
                  | None => Err (PErr (bs "reading valkey CA"))
                  | Some pem => if AppendCertsFromPEM pem then Ok (Some pem)
                                else Err (PErr (bs "valkey CA contains no usable certificate"))
                  end);
    if NewClient (Addrs cfg) roots
    then Ok {| vs_ttl := ttl; vs_timeout := timeout; vs_maxPerToken := max; vs_roots := roots |}
    else Err (PErr (bs "connecting to valkey")).

Inductive StoreChoice := InProcess (s : MemStore) | Shared (s : ValkeyStore).

Definition buildStore `{ValkeyLib} (vc : ValkeyConfig) (ttl maxTokens maxPerToken : Z) : result ParseErr StoreChoice :=
  if zlen (Addrs vc) =? 0 then
    if negb (beqb (CAFile vc) []) || negb (Timeout vc =? 0)
    then Err (PErr (bs "valkey_ca / valkey_timeout set without any `valkey` address"))
    else Ok (InProcess (NewMemStore ttl maxTokens maxPerToken))
  else if beqb (CAFile vc) [] then Err (PErr (bs "valkey requires valkey_ca so the server certificate can be verified"))
  else
    s ← NewValkeyStore {| CAFile := CAFile vc; Addrs := Addrs vc; vc_TTL := ttl; Timeout := Timeout vc;
                          vc_MaxPerToken := maxPerToken |};
    Ok (Shared s).

Section Parse.
Context `{N : !NameLib} `{V : !ValkeyLib} {P : Type} `{K : !KeyLib P} {D : Type} `{!Dispenser D}.
(** [sha256.Sum256]. *)
Variable Sum256 : bytes -> bytes.

(** ** Arguments *)

Definition parseIntArg (d : D) : result ParseErr (Z * D) :=
  '(v, d') ← arg1 d;
  match Sscanf_d v with Some n => Ok (n, d') | None => Err (PErr (bs "is not a number")) end.

Definition parseUint32Arg (d : D) : result ParseErr (Z * D) :=
  '(v, d') ← parseIntArg d;
  if (v <? 0) || (2 ^ 32 - 1 <? v) then Err (PErr (bs "value out of range")) else Ok (v, d').

Definition parseDurationArg (d : D) : result ParseErr (Z * D) :=
  '(v, d') ← arg1 d;
  match ParseDuration v with
  | None => Err (PErr (bs "is not a duration"))
  | Some t => if t <=? 0 then Err (PErr (bs "duration must be positive")) else Ok (t, d')
  end.

(** ** Directives

    [None] is a directive that is not one of the function's. *)
Definition applyValkeyDirective (d : D) (st : parseState) : result ParseErr (option (D * parseState)) :=
  let name := Val d in
  if beqb name (bs "valkey") then
    let '(vs, d') := RemainingArgs d in
    match vs with [] => Err ArgErr | _ => Ok (Some (d', add_addrs vs st)) end
  else if beqb name (bs "valkey_ca") then '(f, d') ← arg1 d; Ok (Some (d', set_ca f st))
  else if beqb name (bs "valkey_timeout") then '(t, d') ← parseDurationArg d; Ok (Some (d', set_timeout t st))
  else Ok None.

Definition applySimpleDirective (d : D) (p : Draft) (st : parseState) : result ParseErr (option (D * (Draft * parseState))) :=
  let name := Val d in
  if beqb name (bs "ttl") then '(v, d') ← parseUint32Arg d; Ok (Some (d', (set_ttl_ v p, st)))
  else if beqb name (bs "ns") then '(v, d') ← arg1 d; Ok (Some (d', (set_ns (CanonicalName v) p, st)))
  else if beqb name (bs "mbox") then '(v, d') ← arg1 d; Ok (Some (d', (set_mbox (CanonicalName v) p, st)))
  else if beqb name (bs "validity") then '(v, d') ← parseDurationArg d; Ok (Some (d', (p, set_validity v st)))
  else Ok None.

Definition applyStoreLimitDirective (d : D) (st : parseState) : result ParseErr (option (D * parseState)) :=
  let name := Val d in
  if beqb name (bs "store_ttl") then '(v, d') ← parseDurationArg d; Ok (Some (d', set_store_ttl v st))
  else if beqb name (bs "max_tokens") then '(v, d') ← parseIntArg d; Ok (Some (d', set_max_tokens v st))
  else if beqb name (bs "max_per_token") then '(v, d') ← parseIntArg d; Ok (Some (d', set_max_per_token v st))
  else Ok None.

Definition applyOtherDirective (d : D) (p : Draft) (st : parseState) : result ParseErr (D * (Draft * parseState)) :=
  let name := Val d in
  if beqb name (bs "key") then '(v, d') ← arg1 d; Ok (d', (p, set_key v st))
  else if beqb name (bs "agent_domain") then '(v, d') ← arg1 d; Ok (d', (set_agent (CanonicalName v) p, st))
  else if beqb name (bs "agent_ttl") then
    '(v, d') ← parseUint32Arg d;
    if v =? 0 then Err (PErr (bs "agent_ttl must be greater than zero")) else Ok (d', (set_agent_ttl v p, st))
  else if beqb name (bs "big_size") then
    '(v, d') ← parseIntArg d;
    if (v <? 1) || (4096 <? v) then Err (PErr (bs "big_size out of range (1-4096)")) else Ok (d', (set_big v p, st))
  else Err (PErr (bs "unknown property")).

Definition applyDirective (d : D) (s : Draft * parseState) : result ParseErr (D * (Draft * parseState)) :=
  let '(p, st) := s in
  v ← applyValkeyDirective d st;
  match v with
  | Some (d', st') => Ok (d', (p, st'))
  | None =>
      v ← applySimpleDirective d p st;
      match v with
      | Some r => Ok r
      | None =>
          v ← applyStoreLimitDirective d st;
          match v with
          | Some (d', st') => Ok (d', (p, st'))
          | None => applyOtherDirective d p st
          end
      end
  end.

(** One [probe] line with its block. *)
Definition probe_line (d : D) (s : bool * (Draft * parseState)) : result ParseErr (D * (bool * (Draft * parseState))) :=
  let '(seenZone, (p, st)) := s in
  let '(args, d) := RemainingArgs d in
  match args with
  | [zone] =>
      if seenZone : bool then Err (PErr (bs "only one probe block per server block"))
      else
        '(d, x) ← block_loop applyDirective d (set_zone (CanonicalName zone) p, st);
        Ok (d, (true, x))
  | _ => Err ArgErr
  end.

(** ** The checks *)

Definition validateAgentDomain (p : Draft) : result ParseErr Draft :=
  if beqb (d_AgentDomain p) [] then
    if negb (d_AgentTTL p =? 0) then Err (PErr (bs "agent_ttl set without agent_domain")) else Ok p
  else if beqb (d_AgentDomain p) dot then Err (PErr (bs "agent_domain must not be the root"))
  else if IsSubDomain (d_Zone p) (d_AgentDomain p) then Err (PErr (bs "agent_domain is inside the zone it reports on"))
  else if IsSubDomain (d_AgentDomain p) (d_Zone p) then Err (PErr (bs "zone is inside agent_domain"))
  else Ok (if d_AgentTTL p =? 0 then set_agent_ttl defaultAgentTTL p else p).

Definition loadSignerFromState (p : Draft) (st : parseState) : result ParseErr (option (Signer P)) :=
  if beqb (keyBase st) [] then Ok None
  else match LoadSigner (keyBase st) (st_validity st) with
       | Err _ => Err (PErr (bs "loading the key"))
       | Ok s => if beqb (owner s) (d_Zone p) then Ok (Some s) else Err (PErr (bs "key is for another zone"))
       end.

Definition probe_parse (d : D) : result ParseErr (Probe P * StoreChoice) :=
  '(_, (seenZone, (p, st))) ← next_loop probe_line d (false, (zero_draft, zero_parse));
  check seenZone ArgErr;;
  let p := if beqb (d_NSName p) [] then set_ns (bs "ns." ++ d_Zone p) p else p in
  let p := if beqb (d_Mbox p) [] then set_mbox (bs "hostmaster." ++ d_Zone p) p else p in
  p ← validateAgentDomain p;
  signer ← loadSignerFromState p st;
  store ← buildStore (valkeyCfg st) (storeTTL st) (maxTokens st) (maxPerToken st);
  let echKey := Sum256 (bs "probe-ech-canary/" ++ d_Zone p) in
  match BuildECHConfigList echConfigID echKey (trim_suffix (d_Zone p) dot) with
  | Err _ => Err (PErr (bs "building ECH canary"))
  | Ok echList =>
      Ok (mkProbe P signer (d_Zone p) (d_NSName p) (d_Mbox p) (d_AgentDomain p) echList (d_BigSize p) (d_TTL p)
            (d_AgentTTL p), store)
  end.

(** [setup]: the plugin, its store, and the handler it falls through to. *)
Definition probe_setup (d : D) (next : chain) : result ParseErr (Probe P * StoreChoice * chain) :=
  p ← probe_parse d; Ok (p, next).
End Parse.

(** ** What rate limiting accounts against

    [Metadata]: the value published under [zone/wildcard], if any. *)
Definition probe_Metadata `{RequestLib} {P} (p : Probe P) (st : Request) : option bytes :=
  let qname := state_Name st in
  if negb (beqb (p_AgentDomain p) []) && Name_Matches (p_AgentDomain p) qname then Some (bs "*." ++ p_AgentDomain p)
  else if Name_Matches (p_Zone p) qname then Some (bs "*." ++ p_Zone p)
  else None.

(** ** What a Corefile can make of the probe *)

Section Safe.
Context `{N : !NameLib} `{V : !ValkeyLib} {P : Type} `{K : !KeyLib P} {D : Type} `{!Dispenser D} `{!DispenserLaws D}.

Definition rest_of {A} (d : D) (o : option (D * A)) : D := match o with Some (d', _) => d' | None => d end.

Lemma parseIntArg_calm (d : D) : calm snd d (parseIntArg d).
Proof.
  eapply calm_bind; [apply arg1_calm|]. intros [v d'] _. case_match; [by apply calm_ok|by apply calm_err].
Qed.

Lemma parseUint32Arg_calm (d : D) : calm snd d (parseUint32Arg d).
Proof.
  eapply calm_bind; [apply parseIntArg_calm|]. intros [v d'] _. case_match; [by apply calm_err|by apply calm_ok].
Qed.

Lemma parseDurationArg_calm (d : D) : calm snd d (parseDurationArg d).
Proof.
  eapply calm_bind; [apply arg1_calm|]. intros [v d'] _.
  repeat case_match; solve [by apply calm_ok|by apply calm_err].
Qed.

(** A directive takes what its argument takes. *)
Ltac calm_directive :=
  first [ by apply calm_ok | by apply calm_err
        | eapply calm_bind;
          [first [apply arg1_calm | apply parseIntArg_calm | apply parseUint32Arg_calm | apply parseDurationArg_calm]
          |intros [? ?] _; cbn; try case_match; solve [by apply calm_ok|by apply calm_err]] ].

Lemma applyValkeyDirective_calm (d : D) st : calm (rest_of d) d (applyValkeyDirective d st).
Proof.
  unfold applyValkeyDirective. destruct (beqb (Val d) (bs "valkey")).
  { destruct (RemainingArgs d) as [[|v vs] d'] eqn:E; [by apply calm_err|].
    apply calm_ok. by apply RemainingArgs_size in E. }
  repeat (case_match; [calm_directive|]). calm_directive.
Qed.

Lemma applySimpleDirective_calm (d : D) p st : calm (rest_of d) d (applySimpleDirective d p st).
Proof. unfold applySimpleDirective. repeat (case_match; [calm_directive|]). calm_directive. Qed.

Lemma applyStoreLimitDirective_calm (d : D) st : calm (rest_of d) d (applyStoreLimitDirective d st).
Proof. unfold applyStoreLimitDirective. repeat (case_match; [calm_directive|]). calm_directive. Qed.

Lemma applyOtherDirective_calm (d : D) p st : calm fst d (applyOtherDirective d p st).
Proof. unfold applyOtherDirective. repeat (case_match; [calm_directive|]). calm_directive. Qed.

Lemma applyDirective_calm (d : D) s : calm fst d (applyDirective d s).
Proof.
  destruct s as [p st]. eapply calm_bind; [apply applyValkeyDirective_calm|]. intros [[d1 st1]|] _; [by apply calm_ok|].
  eapply calm_bind; [apply applySimpleDirective_calm|]. intros [[d1 s1]|] _; [by apply calm_ok|].
  eapply calm_bind; [apply applyStoreLimitDirective_calm|]. intros [[d1 st1]|] _; [by apply calm_ok|].
  apply applyOtherDirective_calm.
Qed.

Lemma probe_line_calm (d : D) s : calm fst d (probe_line d s).
Proof.
  unfold probe_line. destruct s as [seen [p st]]. destruct (RemainingArgs d) as [args d'] eqn:E.
  apply RemainingArgs_size in E.
  destruct args as [|z [|??]]; [by apply calm_err| |by apply calm_err]. destruct seen; [by apply calm_err|].
  eapply (calm_bind (fun x => fst x)).
  - destruct (block_loop_calm applyDirective d' (set_zone (CanonicalName z) p, st)) as [H1 H2]; [apply applyDirective_calm|].
    split; [done|]. intros a H. specialize (H2 a H). lia.
  - intros [d2 x] _. by apply calm_ok.
Qed.

(** What the directives leave: sizes and lifetimes in their ranges, under a
    canonical name once there is one. *)
Record draft_fine (p : Draft) : Prop := {
  df_zone : d_Zone p = [] \/ exists z, d_Zone p = CanonicalName z;
  df_big : 1 <= d_BigSize p <= 4096;
  df_ttl : is_u32 (d_TTL p);
  df_agent : is_u32 (d_AgentTTL p)
}.

Lemma parseUint32Arg_u32 (d : D) v d' : parseUint32Arg d = Ok (v, d') -> is_u32 v.
Proof.
  intros H. apply bind_ok in H as ([n d1] & _ & H). destruct (_ || _) eqn:E; [done|]. injection H as <- <-.
  bool_prop. unfold is_u32. lia.
Qed.

Lemma applySimpleDirective_fine (d : D) p st d' p' st' :
  draft_fine p -> applySimpleDirective d p st = Ok (Some (d', (p', st'))) -> draft_fine p'.
Proof.
  intros [H1 H2 H3 H4] H. unfold applySimpleDirective in H.
  repeat (case_match; [inv_ok; match goal with H : _ * _ |- _ => destruct H end; inv_ok; split; try done;
                       by eapply parseUint32Arg_u32|]). by inv_ok.
Qed.

Lemma applyOtherDirective_fine (d : D) p st d' p' st' :
  draft_fine p -> applyOtherDirective d p st = Ok (d', (p', st')) -> draft_fine p'.
Proof.
  intros [H1 H2 H3 H4] H. unfold applyOtherDirective in H.
  destruct (beqb _ (bs "key")). { inv_ok. destruct x. inv_ok. by split. }
  destruct (beqb _ (bs "agent_domain")). { inv_ok. destruct x. inv_ok. by split. }
  destruct (beqb _ (bs "agent_ttl")).
  { inv_ok. destruct x as [v d1]. destruct (v =? 0); [done|]. inv_ok. split; try done. by eapply parseUint32Arg_u32. }
  destruct (beqb _ (bs "big_size")); [|done].
  inv_ok. destruct x as [v d1]. destruct (_ || _) eqn:E; [done|]. inv_ok. bool_prop. split; done.
Qed.

Lemma applyDirective_fine (d : D) s d' s' :
  draft_fine s.1 -> applyDirective d s = Ok (d', s') -> draft_fine s'.1.
Proof.
  destruct s as [p st]. cbn [fst]. intros Hp H. unfold applyDirective in H.
  apply bind_ok in H as ([[d1 st1]|] & _ & H); [by injection H as _ <-|].
  apply bind_ok in H as ([[d1 [p1 st1]]|] & Hs & H).
  { injection H as _ <-. by eapply applySimpleDirective_fine. }
  apply bind_ok in H as ([[d1 st1]|] & _ & H); [by injection H as _ <-|].
  destruct s' as [p' st']. by eapply applyOtherDirective_fine.
Qed.

(** No directive renames the zone. *)
Lemma applyDirective_zone (d : D) s d' s' : applyDirective d s = Ok (d', s') -> d_Zone s'.1 = d_Zone s.1.
Proof.
  destruct s as [p st]. cbn [fst]. intros H. unfold applyDirective in H.
  apply bind_ok in H as ([[d1 st1]|] & _ & H); [by injection H as _ <-|].
  apply bind_ok in H as ([[d1 [p1 st1]]|] & Hs & H).
  { injection H as _ <-. cbn. unfold applySimpleDirective in Hs.
    repeat (case_match; [inv_ok; match goal with H : _ * _ |- _ => destruct H end; by inv_ok|]). by inv_ok. }
  apply bind_ok in H as ([[d1 st1]|] & _ & H); [by injection H as _ <-|].
  destruct s' as [p' st']. unfold applyOtherDirective in H.
  repeat (case_match; [inv_ok; match goal with H : _ * _ |- _ => destruct H end; try case_match; inv_ok; done|]). done.
Qed.

Lemma probe_line_fine (d : D) s d' s' :
  draft_fine s.2.1 -> probe_line d s = Ok (d', s') ->
  draft_fine s'.2.1 /\ exists z, d_Zone s'.2.1 = CanonicalName z.
Proof.
  destruct s as [seen [p st]]. cbn [fst snd]. intros Hp H. unfold probe_line in H.
  destruct (RemainingArgs d) as [[|z [|??]] d1]; [done| |done]. destruct seen; [done|].
  apply bind_ok in H as ([d2 x] & Hl & H). injection H as _ <-. cbn [fst snd].
  eapply (loop_inv NextBlock applyDirective
            (fun s => draft_fine s.1 /\ exists z, d_Zone s.1 = CanonicalName z)) in Hl; [done| |].
  - intros d3 s3 d4 s4 [Hf [y Hy]] Hd. split; [by eapply applyDirective_fine|]. exists y. rewrite <- Hy.
    by eapply applyDirective_zone.
  - cbn. destruct Hp. split; [|by exists z]. split; try done. right. by exists z.
Qed.

Lemma validateAgentDomain_ok p p' :
  validateAgentDomain p = Ok p' -> is_u32 (d_AgentTTL p) ->
  d_Zone p' = d_Zone p /\ d_BigSize p' = d_BigSize p /\ d_TTL p' = d_TTL p /\ d_AgentDomain p' = d_AgentDomain p /\
  (d_AgentDomain p = [] /\ d_AgentTTL p' = 0 \/
   d_AgentDomain p <> [] /\ d_AgentDomain p <> dot /\ IsSubDomain (d_Zone p) (d_AgentDomain p) = false /\
   IsSubDomain (d_AgentDomain p) (d_Zone p) = false /\ 1 <= d_AgentTTL p' < 2 ^ 32).
Proof.
  unfold validateAgentDomain. intros H Hu. destruct (beqb (d_AgentDomain p) []) eqn:E0.
  { destruct (d_AgentTTL p =? 0) eqn:E1; [|done]. injection H as <-. bool_prop. auto 10. }
  destruct (beqb (d_AgentDomain p) dot) eqn:E1; [done|]. destruct (IsSubDomain (d_Zone p) _) eqn:E2; [done|].
  destruct (IsSubDomain (d_AgentDomain p) _) eqn:E3; [done|]. injection H as <-. bool_prop. unfold is_u32 in Hu.
  destruct (Z.eqb_spec (d_AgentTTL p) 0); cbn; split_and!; try done; right; split_and!; try done; lia.
Qed.

Lemma buildStore_ok vc ttl mt mp s :
  buildStore vc ttl mt mp = Ok s ->
  match s with
  | InProcess s => 0 < TTL s /\ 0 < MaxTokens s /\ 0 < MaxPerToken s
  | Shared v => 0 < vs_ttl v /\ 0 < vs_timeout v /\ 0 < vs_maxPerToken v /\
                exists pem, vs_roots v = Some pem /\ AppendCertsFromPEM pem = true
  end.
Proof.
  assert (Hpos : forall x y, 0 < y -> 0 < if x <=? 0 then y else x) by (intros x y Hy; destruct (Z.leb_spec x 0); lia).
  unfold buildStore. intros H. destruct (zlen (Addrs vc) =? 0) eqn:Ea.
  - destruct (_ || _); [done|]. injection H as <-. by split_and!; apply Hpos.
  - destruct (beqb (CAFile vc) []) eqn:Ec; [done|]. inv_ok. unfold NewValkeyStore in *. cbn [Addrs CAFile vc_TTL Timeout vc_MaxPerToken] in *.
    rewrite Ea, Ec in *. destruct (os_ReadFile _) as [pem|]; [|done].
    destruct (AppendCertsFromPEM pem) eqn:Ep; [|done]. cbn [mbind result_bind] in *.
    destruct (NewClient _ _); [|done]. inv_ok. split_and!; [by apply Hpos..|]. by exists pem.
Qed.

Variable Sum256 : bytes -> bytes.

Lemma validateAgentDomain_calm p : validateAgentDomain p <> Err OutOfFuel.
Proof. unfold validateAgentDomain. by repeat case_match. Qed.

Lemma buildStore_total vc ttl mt mp : buildStore vc ttl mt mp <> Err OutOfFuel.
Proof.
  unfold buildStore. destruct (_ =? 0); [by case_match|]. destruct (beqb _ []); [done|]. apply bind_total; [|done].
  unfold NewValkeyStore. destruct (_ =? 0); [done|]. cbv zeta. apply bind_total; [by repeat case_match|]. intros roots _. by case_match.
Qed.

Lemma probe_parse_total (d : D) : probe_parse Sum256 d <> Err OutOfFuel.
Proof.
  unfold probe_parse. apply bind_total; [apply next_loop_calm, probe_line_calm|]. intros [d' [seen [p st]]] _.
  apply bind_total; [by destruct seen|]. intros _ _. apply bind_total; [apply validateAgentDomain_calm|]. intros p' _.
  apply bind_total; [unfold loadSignerFromState; by repeat case_match|]. intros sg _.
  apply bind_total; [apply buildStore_total|]. intros st' _. by case_match.
Qed.

Lemma probe_loop_fine (d : D) d' seen p st :
  next_loop probe_line d (false, (zero_draft, zero_parse)) = Ok (d', (seen, (p, st))) ->
  seen = true -> draft_fine p /\ exists z, d_Zone p = CanonicalName z.
Proof.
  intros H Hs.
  eapply (loop_inv Next probe_line
            (fun s => draft_fine s.2.1 /\ (s.1 = true -> exists z, d_Zone s.2.1 = CanonicalName z))) in H.
  - cbn in H. destruct H as [H1 H2]. auto.
  - intros d3 s3 d4 s4 [Hf _] Hd. apply probe_line_fine in Hd as [H1 H2]; [|done]. auto.
  - split; [|done]. split; cbn; [by left|unfold defaultBigSize; lia|done|done].
Qed.

(** C39: what a Corefile can make of [probe]. Parsing always ends, with a
    configuration or one of the parser's own errors. An accepted one serves
    one zone under its canonical name; its amplification is between 1 and
    4096 bytes; its agent domain, if any, is not the root, neither holds nor
    is held by the zone, and its answers may be cached; its signing key, if
    any, is the zone's, with a positive validity; the canary it publishes
    reads back as the key derived from the zone under the zone's name; and
    its store has positive limits and, when shared, verifies its server
    against a certificate of the configured file. *)
Theorem probe_parse_safe (d : D) :
  (forall s, zlen (Sum256 s) = x25519PubKeyLen) ->
  probe_parse Sum256 d <> Err OutOfFuel /\
  forall p store, probe_parse Sum256 d = Ok (p, store) ->
  (exists z, p_Zone p = CanonicalName z) /\ 1 <= p_BigSize p <= 4096 /\ is_u32 (p_TTL p) /\
  (p_AgentDomain p = [] /\ p_AgentTTL p = 0 \/
   p_AgentDomain p <> [] /\ p_AgentDomain p <> dot /\ IsSubDomain (p_Zone p) (p_AgentDomain p) = false /\
   IsSubDomain (p_AgentDomain p) (p_Zone p) = false /\ 1 <= p_AgentTTL p < 2 ^ 32) /\
  (forall s : Signer P, p_Signer p = Some s -> owner s = p_Zone p /\ 0 < validity s) /\
  ParseECHConfigList (p_ECHConfigList p)
    = Ok (echConfigID, Sum256 (bs "probe-ech-canary/" ++ p_Zone p), trim_suffix (p_Zone p) dot) /\
  match store with
  | InProcess s => 0 < TTL s /\ 0 < MaxTokens s /\ 0 < MaxPerToken s
  | Shared v => 0 < vs_ttl v /\ 0 < vs_timeout v /\ 0 < vs_maxPerToken v /\
                exists pem, vs_roots v = Some pem /\ AppendCertsFromPEM pem = true
  end.
Proof.
  intros Hsum. split; [apply probe_parse_total|]. intros p0 store H. unfold probe_parse in H.
  apply bind_ok in H as ([d' [seen [p st]]] & Hl & H). apply bind_ok in H as ([] & Hseen & H).
  apply check_ok in Hseen. destruct (probe_loop_fine _ _ _ _ _ Hl Hseen) as [[_ Hb Ht Ha] Hz].
  set (p1 := if beqb (d_NSName p) [] then set_ns _ p else p) in *.
  set (p2 := if beqb (d_Mbox p1) [] then set_mbox _ p1 else p1) in *.
  assert (Hp : d_Zone p2 = d_Zone p /\ d_BigSize p2 = d_BigSize p /\ d_TTL p2 = d_TTL p /\ d_AgentTTL p2 = d_AgentTTL p)
    by (subst p2 p1; by destruct (beqb (d_NSName p) []), (beqb (d_Mbox _) [])).
  destruct Hp as (Z2 & B2 & T2 & A2). apply bind_ok in H as (p3 & Hv & H).
  apply validateAgentDomain_ok in Hv as (Z3 & B3 & T3 & A3 & Hag); [|by rewrite A2].
  apply bind_ok in H as (sg & Hsg & H). apply bind_ok in H as (s & Hs & H). apply buildStore_ok in Hs.
  destruct (BuildECHConfigList _ _ _) as [ech|] eqn:Ee; [|done]. injection H as <- <-.
  cbn [p_Zone p_BigSize p_TTL p_AgentDomain p_AgentTTL p_Signer p_ECHConfigList].
  rewrite Z3, B3, T3, A3, Z2, B2, T2. rewrite Z2 in Hag. split_and!; try done; try lia.
  - intros sgn ->. unfold loadSignerFromState in Hsg. destruct (beqb (keyBase st) []); [done|].
    destruct (LoadSigner _ _) as [sg'|] eqn:Eld; [|done]. destruct (beqb (owner sg') _) eqn:Eo; [|done].
    injection Hsg as ->. bool_prop. apply LoadSigner_ok in Eld as [Hv _]. split; [|done]. by rewrite Eo, Z3, Z2.
  - rewrite Z3, Z2 in Ee. pose proof (Hsum (bs "probe-ech-canary/" ++ d_Zone p)) as Hk.
    destruct (Z.le_gt_cases (zlen (trim_suffix (d_Zone p) dot)) 255) as [Hn|Hn].
    + rewrite BuildECHConfigList_ok in Ee by done. injection Ee as <-. by apply ParseECHConfigList_ok.
    + exfalso. revert Ee. unfold BuildECHConfigList. rewrite Hk, Z.eqb_refl, (proj2 (Z.ltb_lt 255 _)) by done. done.
Qed.
End Safe.

(** A CA file, no key files, and a digest of constant length. *)
#[local] Instance ex_valkeylib : ValkeyLib := {
  os_ReadFile f := if beqb f (bs "/ca.pem") then Some (bs "certificate") else None;
  AppendCertsFromPEM _ := true;
  NewClient _ _ := true
}.
#[local] Instance ex_keylib : KeyLib bytes := {
  KeyRoot := unit;
  OpenRoot d := Some tt;
  ReadFile _ f := Some f;
  NewRR t := if beqb t (bs "Kcheck.key")
             then Some (Some (mkRR (mkHeader (bs "Check.Test.") TypeDNSKEY ClassINET 3600 0) (RdDNSKEY 257 3 15 (bs "a2V5"))))
             else None;
  ReadPrivateKey _ t := Some (Some t);
  key_tag_of _ := 4711
}.
Definition ex_sum (s : bytes) : bytes := repeat Byte.x2a 32.
Definition ex_corefile : Corefile :=
  corefile [] [([bs "Check.Test"],
    [(bs "key", [bs "/keys/Kcheck"]); (bs "validity", [bs "1h30m"]); (bs "big_size", [bs "4096"]);
     (bs "agent_domain", [bs "agent.example"]); (bs "valkey", [bs "valkey:6379"]); (bs "valkey_ca", [bs "/ca.pem"]);
     (bs "store_ttl", [bs "10m"])])].

Lemma probe_parse_safe_witness :
  exists p store, probe_parse ex_sum ex_corefile = Ok (p, store) /\ p_Zone p = bs "check.test." /\
    p_AgentTTL p = 300 /\ (exists s : Signer bytes, p_Signer p = Some s /\ owner s = bs "check.test." /\ 0 < validity s) /\
    match store with Shared v => vs_ttl v = 600 * 10 ^ 9 | _ => False end.
Proof.
  assert (H : exists p st, probe_parse (P := bytes) ex_sum ex_corefile = Ok (p, st) /\
              p_Zone p = bs "check.test." /\ p_AgentTTL p = 300 /\ (exists sg, p_Signer p = Some sg) /\
              match st with Shared v => vs_ttl v = 600 * 10 ^ 9 | _ => False end).
  { eexists _, _. split; [vm_compute; reflexivity|]. cbn. split; [reflexivity|]. split; [reflexivity|].
    split; [eexists; reflexivity|reflexivity]. }
  destruct H as (p & st & E & H1 & H2 & [sg H3] & H4). exists p, st. split; [exact E|]. split; [exact H1|].
  split; [exact H2|]. split; [|exact H4]. exists sg. split; [exact H3|]. rewrite <- H1.
  destruct (probe_parse_safe (P := bytes) ex_sum ex_corefile ltac:(intros t; reflexivity)) as [_ Hsafe].
  destruct (Hsafe p st E) as (_ & _ & _ & _ & Hsig & _). exact (Hsig sg H3).
Defined.
