(* ===== verification/DynZone.v ===== *)
(** * The zone of the [dynupdate] plugin ([dynupdate/zone.go])

    Name comparison, record identity, RRsets and serial arithmetic over a flat
    list of records, with the lemmas the update machinery of [DynUpdate.v]
    is proved with: what a [deleteWhere], a replaced TTL or an appended
    record does to the counts and lookups a zone's well-formedness is made
    of.  [dns.Copy] gives a fresh record of the same value, so it is the
    identity here; [DynHeap] has the copies. *)

From S2P Require Import Prelude GoStrings Netip Dns SimpleDns.

(** [isASCII]: no byte at or above [utf8.RuneSelf]. *)
Fixpoint isASCII (s : bytes) : bool :=
  match s with
  | [] => true
  | b :: t => if 128 <=? b2z b then false else isASCII t
  end.

(** [serialGreater]: RFC 1982's comparison of 32-bit serials. *)
Definition serialGreater (a b : Z) : bool :=
  negb (a =? b) && ((a <? b) && (2 ^ 31 <? b - a) || (b <? a) && (a - b <? 2 ^ 31)).

(** The serial [bumpSerial] puts in the SOA. *)
Definition next_serial (s : Z) : Z := let n := u32 (s + 1) in if n =? 0 then 1 else n.

Definition set_serial (n : Z) (s : SoaData) : SoaData :=
  {| Ns := Ns s; Mbox := Mbox s; Serial := n; Refresh := Refresh s; Retry := Retry s;
     Expire := Expire s; Minttl := Minttl s |}.

(** [rr.( *dns.SOA)]. *)
Definition as_soa (r : RR) : option SoaData :=
  match Data r with RdSOA s => Some s | _ => None end.

Definition soaOf (rrs : list RR) : option SoaData := head (omap as_soa rrs).

Fixpoint bumpSerial (rrs : list RR) : list RR :=
  match rrs with
  | [] => []
  | r :: t => match as_soa r with
              | None => r :: bumpSerial t
              | Some s => mkRR (Hdr r) (RdSOA (set_serial (next_serial (Serial s)) s)) :: t
              end
  end.

(** [deleteWhere]: the records kept, and whether anything changed so far. *)
Fixpoint deleteWhere (rrs : list RR) (changed : bool) (m : RR -> bool) : list RR * bool :=
  match rrs with
  | [] => ([], changed)
  | r :: t => if m r then deleteWhere t true m
              else let '(out, ch) := deleteWhere t changed m in (r :: out, ch)
  end.

Definition set_name (n : bytes) (h : Header) : Header :=
  mkHeader n (Rrtype h) (HClass h) (Ttl h) (Rdlength h).
Definition set_ttl (ttl : Z) (r : RR) : RR :=
  mkRR (mkHeader (Name (Hdr r)) (Rrtype (Hdr r)) (HClass (Hdr r)) ttl (Rdlength (Hdr r))) (Data r).

Section Zone.
Context `{N : NameLib}.

(** [strings.ToLower(dns.CanonicalName(name))]. *)
Definition canon (name : bytes) : bytes := ToLower (CanonicalName name).

Record rrsetKey := { k_name : bytes; k_rrtype : Z }.

Definition keyOf (name : bytes) (rrtype : Z) : rrsetKey :=
  {| k_name := canon name; k_rrtype := rrtype |}.

Definition sameName (r : RR) (canonical : bytes) : bool :=
  let name := Name (Hdr r) in
  if negb (isASCII name) then beqb (canon name) canonical
  else if match last name with Some c => negb (bool_decide (c = Byte.x2e)) | None => true end then
    (zlen canonical =? zlen name + 1) && bool_decide (canonical !! length name = Some Byte.x2e)
    && equalFoldASCII name (take (length name) canonical)
  else equalFoldASCII name canonical.

Definition inZone (zone name : bytes) : bool :=
  let n := canon name in beqb n zone || IsSubDomain zone n.

Definition nameInUse (rrs : list RR) (name : bytes) : bool :=
  existsb (fun r => sameName r (canon name)) rrs.

Definition rrsetOf (rrs : list RR) (name : bytes) (rrtype : Z) : list RR :=
  List.filter (fun r => sameName r (canon name) && (Rrtype (Hdr r) =? rrtype)) rrs.

Definition rrsetExists (rrs : list RR) (name : bytes) (rrtype : Z) : bool :=
  0 <? zlen (rrsetOf rrs name rrtype).

Definition rdataKey (r : RR) : bytes :=
  let h := Hdr r in
  rr_String (mkRR (mkHeader (canon (Name h)) (Rrtype h) ClassINET 0 (Rdlength h)) (Data r)).

(** [indexOfRR]: [None] is Go's -1. The cached key of the source only saves
    rendering [want] again. *)
Fixpoint indexOfRR (rrs : list RR) (want : RR) : option nat :=
  match rrs with
  | [] => None
  | r :: t =>
      if negb (negb (Rrtype (Hdr r) =? Rrtype (Hdr want))
               || negb (sameName r (canon (Name (Hdr want)))))
         && beqb (rdataKey r) (rdataKey want)
      then Some O
      else S <$> indexOfRR t want
  end.

Fixpoint count_keys (have : list RR) (counts : gmap bytes nat) : gmap bytes nat :=
  match have with
  | [] => counts
  | r :: t => count_keys t (<[rdataKey r := S (default O (counts !! rdataKey r))]> counts)
  end.

Fixpoint take_keys (want : list RR) (counts : gmap bytes nat) : bool :=
  match want with
  | [] => true
  | r :: t => match default O (counts !! rdataKey r) with
              | O => false
              | S n => take_keys t (<[rdataKey r := n]> counts)
              end
  end.

Definition sameRRset (have want : list RR) : bool :=
  if negb (zlen have =? zlen want) then false
  else take_keys want (count_keys have ∅).

Definition countRRset (rrs : list RR) (canonical : bytes) (rrtype : Z) : nat :=
  length (List.filter (fun r => sameName r canonical && (Rrtype (Hdr r) =? rrtype)) rrs).

Definition hasCNAME (rrs : list RR) (canonical : bytes) : bool :=
  existsb (fun r => sameName r canonical && (Rrtype (Hdr r) =? TypeCNAME)) rrs.

(** The types [hasNonCNAME] looks past. *)
Definition beside_cname (t : Z) : bool :=
  (t =? TypeCNAME) || (t =? TypeRRSIG) || (t =? TypeNSEC).

Definition hasNonCNAME (rrs : list RR) (canonical : bytes) : bool :=
  existsb (fun r => sameName r canonical && negb (beside_cname (Rrtype (Hdr r)))) rrs.

Definition isUpdatableType (t : Z) : bool :=
  if (t =? 0) || (t =? TypeOPT) || ((128 <=? t) && (t <=? 255)) then false
  else match TypeToString t with Some _ => true | None => false end.

End Zone.

#[global] Instance rrsetKey_eq_dec : EqDecision rrsetKey.
Proof. solve_decision. Defined.

#[global] Program Instance rrsetKey_countable : Countable rrsetKey :=
  inj_countable' (fun k => (k_name k, k_rrtype k))
                 (fun p => {| k_name := p.1; k_rrtype := p.2 |}) _.
Next Obligation. by intros []. Qed.

(** ** Names *)

Lemma isASCII_ascii s : isASCII s = ascii s.
Proof.
  induction s as [|b s IH]; [done|]. cbn. rewrite Z.leb_antisym.
  destruct (b2z b <? 128); [exact IH|done].
Qed.

Section Names.
Context `{N : NameLib} `{!NameLaws N}.

(** A name as messages and master files give them: one that ends in a dot is
    fully qualified, the dot is not an escaped one. *)
Definition good_name (s : bytes) : Prop :=
  ascii s = true -> last s = Some Byte.x2e -> IsFqdn s = true.

Lemma canon_folded s : lower (canon s) = canon s.
Proof. apply ToLower_folded. Qed.

Lemma canon_ascii s : ascii s = true -> canon s = lower (Fqdn s).
Proof.
  intros H. unfold canon. rewrite CanonicalName_ascii by done.
  rewrite ToLower_ascii, lower_idem; [done|]. rewrite ascii_lower. unfold Fqdn.
  destruct (IsFqdn s); [done|]. by rewrite ascii_app, H.
Qed.

Lemma last_dot_IsFqdn s : IsFqdn s = true -> last s = Some Byte.x2e.
Proof. intros (t & ->)%IsFqdn_dot. apply last_snoc. Qed.

Lemma sameName_dotless (name c : bytes) :
  lower c = c ->
  (zlen c =? zlen name + 1) && bool_decide (c !! length name = Some Byte.x2e)
    && equalFoldASCII name (take (length name) c)
  = beqb (lower (name ++ dot)) c.
Proof.
  intros Hc. rewrite equalFoldASCII_spec. apply eq_true_iff_eq.
  rewrite !andb_true_iff, Z.eqb_eq, bool_decide_eq_true, !beqb_true, lower_app.
  split.
  - intros [[Hl Hd] He]. rewrite He. rewrite <- (take_drop (length name) c) at 2.
    f_equal.
    + rewrite <- Hc at 2. unfold lower. by rewrite firstn_map.
    + apply list_eq. intros i. rewrite lookup_drop. destruct i as [|i].
      * by rewrite Nat.add_0_r, Hd.
      * rewrite (lookup_ge_None_2 c) by (unfold zlen in Hl; lia). done.
  - intros <-. rewrite zlen_app. unfold zlen. rewrite length_lower. split_and!.
    + done.
    + rewrite lookup_app_r by (by rewrite length_lower). by rewrite length_lower, Nat.sub_diag.
    + rewrite take_app_n by apply length_lower. by rewrite lower_idem.
Qed.

(** What [sameName] compares, for a good name and a folded argument. *)
Lemma sameName_canon r c :
  good_name (Name (Hdr r)) -> lower c = c ->
  sameName r c = beqb (canon (Name (Hdr r))) c.
Proof.
  intros Hg Hc. unfold sameName. rewrite isASCII_ascii.
  destruct (ascii (Name (Hdr r))) eqn:Ha; cbn [negb]; [|done].
  rewrite canon_ascii by done. unfold Fqdn. specialize (Hg Ha).
  destruct (IsFqdn (Name (Hdr r))) eqn:Ef.
  - rewrite (last_dot_IsFqdn _ Ef), bool_decide_eq_true_2 by done. cbn [negb].
    by rewrite equalFoldASCII_spec, Hc.
  - destruct (match last _ with Some _ => _ | None => _ end) eqn:El.
    + by apply sameName_dotless.
    + exfalso. destruct (last _) as [b|]; [|done].
      apply negb_false_iff, bool_decide_eq_true in El. subst b. by discriminate Hg.
Qed.

Lemma sameName_at r n :
  good_name (Name (Hdr r)) -> sameName r (canon n) = beqb (canon (Name (Hdr r))) (canon n).
Proof. intros H. apply sameName_canon; [done|apply canon_folded]. Qed.

End Names.

(** ** Serials *)

Lemma serialGreater_spec a b :
  is_u32 a -> is_u32 b ->
  serialGreater a b = true <-> exists k, 0 < k < 2 ^ 31 /\ a = u32 (b + k).
Proof.
  unfold is_u32, serialGreater, u32. intros Ha Hb.
  rewrite andb_true_iff, orb_true_iff, !andb_true_iff, negb_true_iff, Z.eqb_neq, !Z.ltb_lt.
  split.
  - intros [Hn [[H1 H2]|[H1 H2]]].
    + exists (a - b + 2 ^ 32). split; [lia|].
      replace (b + (a - b + 2 ^ 32)) with (a + 1 * 2 ^ 32) by lia.
      rewrite Z_mod_plus_full. by rewrite Z.mod_small.
    + exists (a - b). split; [lia|]. replace (b + (a - b)) with a by lia. by rewrite Z.mod_small.
  - intros (k & Hk & ->). destruct (Z_lt_ge_dec (b + k) (2 ^ 32)) as [Hs|Hs].
    + rewrite Z.mod_small by lia. lia.
    + replace (b + k) with (b + k - 2 ^ 32 + 1 * 2 ^ 32) by lia.
      rewrite Z_mod_plus_full, Z.mod_small by lia. lia.
Qed.

Lemma next_serial_greater s :
  is_u32 s -> is_u32 (next_serial s) /\ next_serial s <> 0 /\ serialGreater (next_serial s) s = true.
Proof.
  intros Hs. assert (Hn : is_u32 (next_serial s)).
  { unfold next_serial. case_match; [unfold is_u32; lia|apply u32_range]. }
  split; [done|]. split.
  - unfold next_serial. case_match; bool_prop; lia.
  - apply serialGreater_spec; [done..|]. unfold next_serial.
    destruct (u32 (s + 1) =? 0) eqn:E; bool_prop.
    + exists 2. split; [lia|]. unfold u32, is_u32 in *.
      assert (s = 2 ^ 32 - 1) as -> by (destruct (Z.eq_dec s (2 ^ 32 - 1)); [done|];
        rewrite Z.mod_small in E; lia). done.
    + exists 1. split; [lia|done].
Qed.

(** ** RRset comparison *)

Section Keys.
Context `{N : NameLib}.

Definition occ (k : bytes) (l : list bytes) : nat := length (filter (fun x => x = k) l).

(** [counts] holds, for each key, how often it occurs in [l]. *)
Definition represents (counts : gmap bytes nat) (l : list bytes) : Prop :=
  forall k, default O (counts !! k) = occ k l.

Lemma occ_cons k x l : occ k (x :: l) = ((if decide (x = k) then 1 else 0) + occ k l)%nat.
Proof. unfold occ. rewrite filter_cons. by destruct (decide (x = k)). Qed.

Lemma occ_perm k l l' : l ≡ₚ l' -> occ k l = occ k l'.
Proof. intros H. unfold occ. by rewrite H. Qed.

Lemma count_keys_represents have counts l :
  represents counts l -> represents (count_keys have counts) ((rdataKey <$> have) ++ l).
Proof.
  revert counts l. induction have as [|r t IH]; intros counts l H; [done|].
  cbn [count_keys fmap list_fmap app].
  assert (P : (rdataKey <$> t) ++ rdataKey r :: l ≡ₚ rdataKey r :: (rdataKey <$> t) ++ l)
    by (symmetry; apply Permutation_middle).
  intros k. erewrite <- (occ_perm k _ _ P). apply IH.
  intros k'. rewrite occ_cons. destruct (decide (rdataKey r = k')) as [<-|Hn].
  - rewrite lookup_insert, decide_True by done. cbn. by rewrite <- H.
  - rewrite lookup_insert_ne by done. apply H.
Qed.

Lemma occ_zero k l : k ∉ l -> occ k l = O.
Proof.
  induction l as [|x l IH]; [done|]. intros [Hx Hl]%not_elem_of_cons.
  rewrite occ_cons, decide_False by done. by apply IH.
Qed.

Lemma take_keys_spec want counts l :
  represents counts l -> take_keys want counts = true <-> (rdataKey <$> want) ⊆+ l.
Proof.
  revert counts l. induction want as [|r t IH]; intros counts l H; cbn [take_keys fmap list_fmap].
  { split; [intros _; apply submseteq_nil_l|done]. }
  rewrite H. destruct (decide (rdataKey r ∈ l)) as [Hin|Hout].
  - apply elem_of_Permutation in Hin as [l' Hl].
    rewrite (occ_perm _ _ _ Hl), occ_cons, decide_True by done. cbn.
    rewrite (IH _ l').
    + rewrite Hl. split; [apply submseteq_skip|].
      intros H'. by apply (submseteq_app_inv_l _ _ [rdataKey r]).
    + intros k. destruct (decide (rdataKey r = k)) as [<-|Hn].
      * by rewrite lookup_insert_eq.
      * rewrite lookup_insert_ne, H, (occ_perm _ _ _ Hl), occ_cons, decide_False by done. done.
  - rewrite (occ_zero _ _ Hout). split; [done|]. intros Hs. exfalso. apply Hout.
    eapply elem_of_submseteq; [|exact Hs]. left.
Qed.

(** [sameRRset]: the same records up to order and TTL. *)
Lemma sameRRset_spec have want :
  sameRRset have want = true <-> (rdataKey <$> have) ≡ₚ (rdataKey <$> want).
Proof.
  unfold sameRRset. assert (R : represents (count_keys have ∅) ((rdataKey <$> have) ++ [])).
  { by apply count_keys_represents. }
  rewrite app_nil_r in R.
  destruct (zlen have =? zlen want) eqn:E; cbn [negb].
  - rewrite (take_keys_spec _ _ _ R). apply Z.eqb_eq in E. unfold zlen in E. split.
    + intros H. symmetry. apply submseteq_length_Permutation; [done|]. rewrite !length_fmap. lia.
    + intros H. by rewrite H.
  - split; [done|]. intros H%Permutation_length. rewrite !length_fmap in H.
    apply Z.eqb_neq in E. unfold zlen in E. lia.
Qed.
End Keys.

(** ** Counting records *)

Definition cnt (f : RR -> bool) (l : list RR) : nat := length (List.filter f l).

Lemma cnt_cons f x l : cnt f (x :: l) = ((if f x then 1 else 0) + cnt f l)%nat.
Proof. unfold cnt. cbn. by destruct (f x). Qed.

Lemma cnt_app f l k : cnt f (l ++ k) = (cnt f l + cnt f k)%nat.
Proof. unfold cnt. by rewrite List.filter_app, length_app. Qed.

Lemma cnt_zero f l : cnt f l = O <-> forall x, x ∈ l -> f x = false.
Proof.
  induction l as [|x l IH]; [split; [by intros _ ? ?%elem_of_nil|done]|].
  rewrite cnt_cons. split.
  - intros H y [->|Hy]%elem_of_cons; destruct (f x) eqn:E; try done; by apply IH.
  - intros H. rewrite (H x) by left. cbn. apply IH. intros y Hy. apply H. by right.
Qed.

Lemma cnt_ext f g l : (forall x, x ∈ l -> f x = g x) -> cnt f l = cnt g l.
Proof.
  induction l as [|x l IH]; intros H; [done|]. rewrite !cnt_cons, (H x) by left.
  f_equal. apply IH. intros y Hy. apply H. by right.
Qed.

Lemma cnt_existsb f l : existsb f l = negb (cnt f l =? 0)%nat.
Proof.
  induction l as [|x l IH]; [done|]. rewrite cnt_cons. cbn. by destruct (f x).
Qed.

Lemma cnt_filter_le f g l : (cnt f (List.filter g l) <= cnt f l)%nat.
Proof.
  induction l as [|x l IH]; [done|]. rewrite (cnt_cons f x l). cbn [List.filter].
  destruct (g x); rewrite ?cnt_cons; destruct (f x); lia.
Qed.

Lemma filter_keep {A} (f g : A -> bool) l :
  (forall x, x ∈ l -> f x = true -> g x = true) -> List.filter f (List.filter g l) = List.filter f l.
Proof.
  induction l as [|x l IH]; intros H; [done|]. cbn.
  assert (IH' : List.filter f (List.filter g l) = List.filter f l).
  { apply IH. intros y Hy. apply H. by right. }
  specialize (H x ltac:(left)). destruct (g x), (f x) eqn:Ef; cbn; rewrite ?Ef; try congruence.
  by discriminate H.
Qed.

Lemma cnt_insert f l i x x' :
  l !! i = Some x -> f x' = f x -> cnt f (<[i:=x']> l) = cnt f l.
Proof.
  revert i. induction l as [|y l IH]; intros [|i] Hi Hf; try done; cbn in Hi.
  - injection Hi as ->. change (cnt f (x' :: l) = cnt f (x :: l)). by rewrite !cnt_cons, Hf.
  - change (cnt f (y :: <[i:=x']> l) = cnt f (y :: l)). by rewrite !cnt_cons, (IH i).
Qed.

Lemma cnt_delete f l i x :
  l !! i = Some x -> cnt f l = ((if f x then 1 else 0) + cnt f (delete i l))%nat.
Proof.
  revert i. induction l as [|y l IH]; intros [|i] Hi; try done; cbn in Hi.
  - injection Hi as ->. apply cnt_cons.
  - change (cnt f (y :: l) = ((if f x then 1 else 0) + cnt f (y :: delete i l))%nat).
    rewrite !cnt_cons, (IH i) by done. lia.
Qed.

Lemma Forall_filter {A} (P : A -> Prop) (g : A -> bool) l : Forall P l -> Forall P (List.filter g l).
Proof. induction 1; cbn; [constructor|]. case_match; [by constructor|done]. Qed.

Lemma NoDup_map_filter {A B} (h : A -> B) (g : A -> bool) l :
  NoDup (h <$> l) -> NoDup (h <$> List.filter g l).
Proof.
  induction l as [|x l IH]; cbn; [done|]. intros [Hx Hl]%NoDup_cons. destruct (g x); cbn; [|by apply IH].
  apply NoDup_cons. split; [|by apply IH]. intros (y & E & Hy)%list_elem_of_fmap. apply Hx.
  rewrite E. apply list_elem_of_fmap_2. apply list_elem_of_In, filter_In in Hy as [Hy _].
  by apply list_elem_of_In.
Qed.

Lemma deleteWhere_spec l ch m :
  deleteWhere l ch m = (List.filter (fun r => negb (m r)) l, ch || existsb m l).
Proof.
  revert ch. induction l as [|x l IH]; intros ch; cbn; [by rewrite orb_false_r|].
  destruct (m x) eqn:E; rewrite IH; cbn; [by rewrite orb_true_r|done].
Qed.

(** ** The SOA *)

Definition is_soa_data (r : RR) : bool := match as_soa r with Some _ => true | None => false end.

Lemma soaOf_filter l : soaOf l = soaOf (List.filter is_soa_data l).
Proof.
  unfold soaOf. induction l as [|x l IH]; [done|]. cbn. unfold is_soa_data.
  destruct (as_soa x) eqn:E; cbn; [by rewrite E|exact IH].
Qed.

Lemma soaOf_bumpSerial l :
  soaOf (bumpSerial l) = (fun s => set_serial (next_serial (Serial s)) s) <$> soaOf l.
Proof.
  unfold soaOf. induction l as [|x l IH]; [done|]. cbn.
  destruct (as_soa x) eqn:E; cbn; [done|]. by rewrite E, IH.
Qed.

(** Every record but the first SOA is as it was, and that one keeps all but
    its serial. *)
Lemma bumpSerial_Forall2 (R : RR -> RR -> Prop) l :
  (forall r, R r r) ->
  (forall r s, as_soa r = Some s ->
     R r (mkRR (Hdr r) (RdSOA (set_serial (next_serial (Serial s)) s)))) ->
  Forall2 R l (bumpSerial l).
Proof.
  intros H1 H2. induction l as [|x l IH]; cbn; [constructor|].
  destruct (as_soa x) eqn:E; constructor; eauto using Forall_Forall2_diag, Forall_true.
Qed.

Lemma cnt_unique f l i j x y :
  cnt f l = 1%nat -> l !! i = Some x -> l !! j = Some y -> f x = true -> f y = true -> i = j.
Proof.
  revert i j. induction l as [|w l IH]; intros i j H Hi Hj Hx Hy; [done|].
  rewrite cnt_cons in H. destruct (f w) eqn:E.
  - assert (H0 : cnt f l = O) by lia. rewrite cnt_zero in H0.
    assert (Hn : forall k v, f v = true -> (w :: l) !! k = Some v -> k = O).
    { intros [|k] v Hv Hk; [done|]. cbn in Hk. apply list_elem_of_lookup_2 in Hk. specialize (H0 v Hk). congruence. }
    by rewrite (Hn i x), (Hn j y).
  - destruct i as [|i]; [cbn in Hi; congruence|]. destruct j as [|j]; [cbn in Hj; congruence|].
    f_equal. eapply IH; eauto.
Qed.

(** [bumpSerial] replaces one record of the list, if any. *)
Lemma bumpSerial_insert l :
  (forall x, x ∈ l -> as_soa x = None) /\ bumpSerial l = l \/
  exists i x s, l !! i = Some x /\ as_soa x = Some s /\
    bumpSerial l = <[i := mkRR (Hdr x) (RdSOA (set_serial (next_serial (Serial s)) s))]> l.
Proof.
  induction l as [|x l IH]; [left; split; [by intros ? ?%elem_of_nil|done]|].
  cbn. destruct (as_soa x) as [s|] eqn:E.
  - right. by exists O, x, s.
  - destruct IH as [[H1 H2]|(i & y & s & H1 & H2 & H3)].
    + left. rewrite H2. split; [|done]. intros y [->|Hy]%elem_of_cons; auto.
    + right. exists (S i), y, s. by rewrite H3.
Qed.

Lemma omap_insert {A B} (f : A -> option B) (l : list A) (i : nat) x x' :
  l !! i = Some x -> f x' = f x -> omap f (<[i := x']> l) = omap f l.
Proof.
  revert i. induction l as [|y l IH]; intros [|i] Hi E; try done; cbn in Hi |- *.
  - injection Hi as ->. by rewrite E.
  - by rewrite IH.
Qed.

Lemma filter_insert_false {A} (f : A -> bool) (l : list A) (i : nat) x x' :
  l !! i = Some x -> f x = false -> f x' = false ->
  List.filter f (<[i := x']> l) = List.filter f l.
Proof.
  revert i. induction l as [|y l IH]; intros [|i] Hi E E'; try done; cbn in Hi |- *.
  - injection Hi as ->. by rewrite E, E'.
  - by rewrite IH.
Qed.

Lemma filter_delete_false {A} (f : A -> bool) (l : list A) (i : nat) x :
  l !! i = Some x -> f x = false -> List.filter f (delete i l) = List.filter f l.
Proof.
  revert i. induction l as [|y l IH]; intros [|i] Hi E; try done; cbn in Hi.
  - injection Hi as ->. cbn. by rewrite E.
  - change (List.filter f (y :: delete i l) = List.filter f (y :: l)).
    cbn [List.filter]. by rewrite IH.
Qed.

Lemma filter_snoc_false {A} (f : A -> bool) l x :
  f x = false -> List.filter f (l ++ [x]) = List.filter f l.
Proof. intros H. rewrite List.filter_app. cbn. by rewrite H, app_nil_r. Qed.
