(* ===== verification/DynUpdate.v ===== *)
(** * Dynamic updates ([dynupdate/update.go], [dynupdate/dynupdate.go])

    RFC 2136 over the zone of [DynZone.v]: the prerequisites, the prescan, the
    update section applied to a copy of the record set, and the handler that
    ties them together under the plugin's lock.  Requests are atomic steps
    here, which [DynRace] justifies, and record sets are values, which
    [DynHeap] does.
    CoreDNS's [file] plugin, which serves the record set, is the parameter
    [FileLib]: its zones are built by inserting one record at a time. *)

From S2P Require Import Prelude GoStrings Netip Dns SimpleDns DynZone.

Definition rcodeNoVerdict : Z := -1.

Section Update.
Context `{N : NameLib}.
(** The fields of the plugin the RFC 2136 rules read. *)
Variable zone : bytes.
Variable mutable : option (gset Z).

(** ** Prerequisites (RFC 2136, section 3.2) *)

Definition checkPrereqExists (rrs : list RR) (h : Header) : Z :=
  if negb (Rdlength h =? 0) then RcodeFormatError
  else if Rrtype h =? TypeANY then
    if negb (nameInUse rrs (Name h)) then RcodeNameError else rcodeNoVerdict
  else if negb (rrsetExists rrs (Name h) (Rrtype h)) then RcodeNXRrset
  else rcodeNoVerdict.

Definition checkPrereqAbsent (rrs : list RR) (h : Header) : Z :=
  if negb (Rdlength h =? 0) then RcodeFormatError
  else if Rrtype h =? TypeANY then
    if nameInUse rrs (Name h) then RcodeYXDomain else rcodeNoVerdict
  else if rrsetExists rrs (Name h) (Rrtype h) then RcodeYXRrset
  else rcodeNoVerdict.

(** The first loop of [checkPrereqs]: an rcode, or the value-dependent
    prerequisites grouped by RRset. *)
Fixpoint scanPrereqs (rrs prereqs : list RR) (valueDependent : gmap rrsetKey (list RR))
  : result Z (gmap rrsetKey (list RR)) :=
  match prereqs with
  | [] => Ok valueDependent
  | r :: t =>
      let h := Hdr r in
      if negb (Ttl h =? 0) then Err RcodeFormatError
      else if negb (inZone zone (Name h)) then Err RcodeNotZone
      else if HClass h =? ClassANY then
        let rcode := checkPrereqExists rrs h in
        if negb (rcode =? rcodeNoVerdict) then Err rcode else scanPrereqs rrs t valueDependent
      else if HClass h =? ClassNONE then
        let rcode := checkPrereqAbsent rrs h in
        if negb (rcode =? rcodeNoVerdict) then Err rcode else scanPrereqs rrs t valueDependent
      else if HClass h =? ClassINET then
        let k := keyOf (Name h) (Rrtype h) in
        scanPrereqs rrs t (<[k := default [] (valueDependent !! k) ++ [r]]> valueDependent)
      else Err RcodeFormatError
  end.

(** Every mismatch gives the same rcode, so the order in which Go walks the
    map does not matter. *)
Definition checkPrereqs (rrs prereqs : list RR) : Z :=
  match scanPrereqs rrs prereqs ∅ with
  | Err rcode => rcode
  | Ok valueDependent =>
      if forallb (fun kw => sameRRset (rrsetOf rrs (k_name kw.1) (k_rrtype kw.1)) kw.2)
                 (map_to_list valueDependent)
      then RcodeSuccess else RcodeNXRrset
  end.

(** ** The prescan (section 3.4.1) *)

Definition prescanRecord (h : Header) : Z :=
  if negb (inZone zone (Name h)) then RcodeNotZone
  else
    let deleteEverythingAtName := (HClass h =? ClassANY) && (Rrtype h =? TypeANY) in
    if negb deleteEverythingAtName && negb (isUpdatableType (Rrtype h)) then RcodeFormatError
    else
      let policy :=
        match mutable with
        | Some types => if deleteEverythingAtName || negb (bool_decide (Rrtype h ∈ types))
                        then RcodeRefused else RcodeSuccess
        | None => RcodeSuccess
        end in
      if HClass h =? ClassINET then policy
      else if HClass h =? ClassANY then
        if negb (Ttl h =? 0) || negb (Rdlength h =? 0) then RcodeFormatError else policy
      else if HClass h =? ClassNONE then
        if negb (Ttl h =? 0) then RcodeFormatError else policy
      else RcodeFormatError.

Fixpoint prescan (updates : list RR) : Z :=
  match updates with
  | [] => RcodeSuccess
  | r :: t => let rcode := prescanRecord (Hdr r) in
              if negb (rcode =? RcodeSuccess) then rcode else prescan t
  end.

(** ** Applying the update section (section 3.4.2) *)

Definition is_type (t : Z) (r : RR) : bool := Rrtype (Hdr r) =? t.

Definition applyAdd (out : list RR) (changed : bool) (r : RR) (name : bytes) (apex : bool)
  : list RR * bool :=
  let h := Hdr r in
  if Rrtype h =? TypeSOA then
    match as_soa r, soaOf out with
    | Some newSOA, Some cur =>
        if negb apex || negb (serialGreater (Serial newSOA) (Serial cur)) then (out, changed)
        else ((deleteWhere out changed (is_type TypeSOA)).1 ++ [r], true)
    | _, _ => (out, changed)
    end
  else if (Rrtype h =? TypeCNAME) && hasNonCNAME out name then (out, changed)
  else if negb (Rrtype h =? TypeCNAME) && hasCNAME out name then (out, changed)
  else match indexOfRR out r with
       | Some i =>
           match out !! i with
           | Some x => if negb (Ttl (Hdr x) =? Ttl h) then (<[i := set_ttl (Ttl h) x]> out, true)
                       else (out, changed)
           | None => (out, changed)
           end
       | None =>
           let out := if Rrtype h =? TypeCNAME then
                        (deleteWhere out changed (fun x => sameName x name && is_type TypeCNAME x)).1
                      else out in
           (out ++ [r], true)
       end.

Definition applyDeleteRRset (out : list RR) (changed : bool) (h : Header) (name : bytes) (apex : bool)
  : list RR * bool :=
  if Rrtype h =? TypeANY then
    deleteWhere out changed (fun x =>
      if negb (sameName x name) then false
      else if apex && (is_type TypeSOA x || is_type TypeNS x) then false
      else true)
  else if apex && ((Rrtype h =? TypeSOA) || (Rrtype h =? TypeNS)) then (out, changed)
  else deleteWhere out changed (fun x => sameName x name && is_type (Rrtype h) x).

(** [append(out[:i], out[i+1:]...)] is stdpp's [delete i]. *)
Definition applyDeleteRecord (out : list RR) (changed : bool) (r : RR) (name : bytes) (apex : bool)
  : list RR * bool :=
  let h := Hdr r in
  if apex && (Rrtype h =? TypeSOA) then (out, changed)
  else if apex && (Rrtype h =? TypeNS) && (countRRset out name TypeNS <=? 1)%nat then (out, changed)
  else match indexOfRR out r with
       | Some i => (delete i out, true)
       | None => (out, changed)
       end.

(** One turn of the loop of [apply]. *)
Definition apply1 (s : list RR * bool) (r : RR) : list RR * bool :=
  let '(out, changed) := s in
  let h := Hdr r in
  let name := canon (Name h) in
  let apex := beqb name zone in
  if HClass h =? ClassINET then applyAdd out changed r name apex
  else if HClass h =? ClassANY then applyDeleteRRset out changed h name apex
  else if HClass h =? ClassNONE then applyDeleteRecord out changed r name apex
  else (out, changed).

Definition apply_updates (rrs updates : list RR) : list RR * bool :=
  foldl apply1 (rrs, false) updates.

End Update.

(** ** The handler *)

(** What the [file] plugin does with a zone: make one for an origin, insert a
    record (which can fail), serve a query from it, falling through to the
    next plugin for a name outside it, and transfer it. *)
Class FileLib := {
  FileZone : Type;
  NewZone : bytes -> FileZone;
  Insert : FileZone -> RR -> option FileZone;
  file_ServeDNS : option chain -> bytes -> FileZone -> Msg -> Outcome;
  file_Transfer : bytes -> FileZone -> bytes -> Z -> option (list RR)
}.

Section Handler.
Context `{N : NameLib} `{L : MsgLib} `{F : FileLib}.

(** [file.File] over the plugin's one zone. *)
Record File := { f_next : option chain; f_origin : bytes; f_zone : FileZone }.

Record DynUpdate := {
  d_next : option chain;
  d_xfer : bool;
  d_mutable : option (gset Z);
  d_view : option File;
  d_zone : bytes;
  d_rrs : list RR
}.

Fixpoint insert_all (z : FileZone) (rrs : list RR) : option FileZone :=
  match rrs with
  | [] => Some z
  | r :: t => z' ← Insert z r; insert_all z' t
  end.

Definition build (d : DynUpdate) (rrs : list RR) : option File :=
  z ← insert_all (NewZone (d_zone d)) rrs;
  Some {| f_next := d_next d; f_origin := d_zone d; f_zone := z |}.

Definition swap (d : DynUpdate) (rrs : list RR) : option DynUpdate :=
  view ← build d rrs;
  Some {| d_next := d_next d; d_xfer := d_xfer d; d_mutable := d_mutable d;
          d_view := Some view; d_zone := d_zone d; d_rrs := rrs |}.

(** What the plugin asks of the response writer: whether it exposes a TSIG
    status and that status is nil ([None]: no such method), and whether its
    [WriteMsg] succeeds. *)
Record Writer := { w_tsigStatus : option bool; w_ok : bool }.

Definition tsigVerified (w : Writer) (r : Msg) : bool :=
  if negb (Tsig r) then false
  else match w_tsigStatus w with Some ok => ok | None => false end.

Definition reply_msg (r : Msg) (rcode : Z) : Msg :=
  let m := SetRcode (SetReply new_msg r) r rcode in
  mkMsg OpcodeUpdate (Rcode m) (Response m) true (Truncated m) (Questions m)
        (Answer m) (NsSec m) (Extra m) (Edns m) (Tsig m).

Definition reply (w : Writer) (r : Msg) (rcode : Z) : Outcome :=
  if w_ok w then {| written := [reply_msg r rcode]; code := RcodeSuccess |}
  else {| written := []; code := RcodeServerFailure |}.

(** What a handler leaves: its outcome, the plugin's state and the zones it
    sent a NOTIFY for. *)
Definition served : Type := Outcome * DynUpdate * list bytes.

(** The record set to install: an unchanged serial is bumped. *)
Definition advance (rrs updated : list RR) : list RR :=
  match soaOf rrs, soaOf updated with
  | Some cur, Some next => if Serial next =? Serial cur then bumpSerial updated else updated
  | _, _ => updated
  end.

Definition serveUpdate (w : Writer) (d : DynUpdate) (r : Msg) : served :=
  let answer rcode := (reply w r rcode, d, []) in
  match Questions r with
  | [q] =>
      if negb (Qtype q =? TypeSOA) || negb (Qclass q =? ClassINET) then answer RcodeFormatError
      else
        let zone := canon (QName q) in
        if negb (beqb zone (d_zone d)) then answer RcodeNotAuth
        else if negb (tsigVerified w r) then answer RcodeRefused
        else
          let rcode := checkPrereqs (d_zone d) (d_rrs d) (Answer r) in
          if negb (rcode =? RcodeSuccess) then answer rcode
          else
            let rcode := prescan (d_zone d) (d_mutable d) (NsSec r) in
            if negb (rcode =? RcodeSuccess) then answer rcode
            else
              let '(updated, changed) := apply_updates (d_zone d) (d_rrs d) (NsSec r) in
              if negb changed then answer RcodeSuccess
              else match swap d (advance (d_rrs d) updated) with
                   | None => answer RcodeServerFailure
                   | Some d' => (reply w r RcodeSuccess, d', if d_xfer d then [zone] else [])
                   end
  | _ => answer RcodeFormatError
  end.

Definition dyn_ServeDNS (w : Writer) (d : DynUpdate) (r : Msg) : served :=
  if Opcode r =? OpcodeUpdate then serveUpdate w d r
  else match d_view d with
       | Some view => (file_ServeDNS (f_next view) (f_origin view) (f_zone view) r, d, [])
       | None => ({| written := []; code := RcodeServerFailure |}, d, [])
         (* a nil view panics, and the server recovers with SERVFAIL *)
       end.

Definition dyn_Transfer (d : DynUpdate) (zone : bytes) (serial : Z) : option (list RR) :=
  view ← d_view d; file_Transfer (f_origin view) (f_zone view) zone serial.

End Handler.

(** ** Well-formed zones *)

Section WellFormed.
Context `{N : NameLib} `{!NameLaws N}.
Variable z : bytes.

Definition at_name (c : bytes) (r : RR) : bool := beqb (canon (Name (Hdr r))) c.

(** A record as the message and master-file parsers produce it: its Go type is
    the one its header names, as far as the SOA goes, and its name is good. *)
Definition good_record (r : RR) : Prop :=
  good_name (Name (Hdr r)) /\ is_soa_data r = is_type TypeSOA r.

(** RFC 2136's identity of a record. *)
Definition identity (r : RR) : Z * bytes * bytes :=
  (Rrtype (Hdr r), canon (Name (Hdr r)), rdataKey r).

Definition zone_cnt (c : bytes) (f : RR -> bool) (l : list RR) : nat :=
  cnt (fun r => at_name c r && f r) l.

Definition plain (r : RR) : bool := negb (beside_cname (Rrtype (Hdr r))).

(** A zone that can be served: every record in the zone, one SOA and it at the
    apex, name servers there, a CNAME alone at its name, and no record
    twice. *)
Record wf_zone (rrs : list RR) : Prop := {
  wf_good : Forall good_record rrs;
  wf_in : Forall (fun r => inZone z (Name (Hdr r)) = true) rrs;
  wf_apex : Forall (fun r => is_type TypeSOA r = true -> at_name z r = true) rrs;
  wf_soa : cnt (is_type TypeSOA) rrs = 1%nat;
  wf_ns : (1 <= zone_cnt z (is_type TypeNS) rrs)%nat;
  wf_cname1 : forall c, (zone_cnt c (is_type TypeCNAME) rrs <= 1)%nat;
  wf_cname : forall c, zone_cnt c (is_type TypeCNAME) rrs = O \/ zone_cnt c plain rrs = O;
  wf_nodup : NoDup (identity <$> rrs)
}.

Lemma good_sameName l n :
  Forall good_record l -> forall x, x ∈ l -> sameName x (canon n) = at_name (canon n) x.
Proof.
  intros H x Hx. rewrite Forall_forall in H. apply sameName_at. by apply H.
Qed.

Lemma good_cnt l n f :
  Forall good_record l -> cnt (fun x => sameName x (canon n) && f x) l = zone_cnt (canon n) f l.
Proof. intros H. apply cnt_ext. intros x Hx. by rewrite (good_sameName l). Qed.

Lemma hasCNAME_cnt l n :
  Forall good_record l ->
  hasCNAME l (canon n) = negb (zone_cnt (canon n) (is_type TypeCNAME) l =? 0)%nat.
Proof. intros H. rewrite <- good_cnt by done. exact (cnt_existsb _ _). Qed.

Lemma hasNonCNAME_cnt l n :
  Forall good_record l -> hasNonCNAME l (canon n) = negb (zone_cnt (canon n) plain l =? 0)%nat.
Proof. intros H. rewrite <- good_cnt by done. exact (cnt_existsb _ _). Qed.

Lemma countRRset_cnt l n t :
  Forall good_record l -> countRRset l (canon n) t = zone_cnt (canon n) (is_type t) l.
Proof. intros H. exact (good_cnt l n (is_type t) H). Qed.

(** The record [indexOfRR] finds has the identity it was asked for. *)
Lemma indexOfRR_Some l r i :
  Forall good_record l -> indexOfRR l r = Some i ->
  exists x, l !! i = Some x /\ identity x = identity r.
Proof.
  revert i. induction l as [|x l IH]; intros i H Hi; [done|]. apply Forall_cons in H as [[Hx _] Hl].
  cbn [indexOfRR] in Hi. destruct (_ && _) eqn:E.
  - injection Hi as <-. exists x. split; [done|].
    apply andb_true_iff in E as [E1 E2].
    apply negb_true_iff, orb_false_iff in E1 as [E1 E3].
    apply negb_false_iff, Z.eqb_eq in E1. apply negb_false_iff in E3.
    rewrite sameName_at in E3 by done. apply beqb_true in E2, E3.
    unfold identity. congruence.
  - destruct (indexOfRR l r) as [j|] eqn:Ej; [|done]. injection Hi as <-.
    destruct (IH j Hl eq_refl) as (y & Hy & Ey). by exists y.
Qed.

Lemma indexOfRR_None l r :
  Forall good_record l -> indexOfRR l r = None -> identity r ∉ identity <$> l.
Proof.
  induction l as [|x l IH]; intros H Hi; [by intros ?%elem_of_nil|].
  apply Forall_cons in H as [[Hx _] Hl]. cbn [indexOfRR] in Hi.
  destruct (_ && _) eqn:E; [done|]. destruct (indexOfRR l r); [done|].
  cbn. intros [Hr|Hr]%elem_of_cons; [|by apply IH].
  rewrite <- not_true_iff_false in E. apply E.
  unfold identity in Hr. injection Hr as H1 H2 H3.
  rewrite sameName_at, H1, H2, H3, Z.eqb_refl, !beqb_refl by done. done.
Qed.

(** What a CNAME excludes, as one statement per name. *)
Definition cname_alone (rrs : list RR) : Prop :=
  forall c, (zone_cnt c (is_type TypeCNAME) rrs <= 1)%nat /\
    (zone_cnt c (is_type TypeCNAME) rrs = O \/ zone_cnt c plain rrs = O).

Lemma wf_cname_alone l : wf_zone l -> cname_alone l.
Proof. intros H c. split; [apply H|apply (wf_cname _ H)]. Qed.

Lemma zone_cnt_filter_le c f g l : (zone_cnt c f (List.filter g l) <= zone_cnt c f l)%nat.
Proof. apply cnt_filter_le. Qed.

Lemma cname_alone_filter g l : cname_alone l -> cname_alone (List.filter g l).
Proof.
  intros H c. pose proof (zone_cnt_filter_le c (is_type TypeCNAME) g l).
  pose proof (zone_cnt_filter_le c plain g l). destruct (H c) as [? [?|?]]; lia.
Qed.

Lemma zone_cnt_snoc c f l r :
  zone_cnt c f (l ++ [r]) = (zone_cnt c f l + if at_name c r && f r then 1 else 0)%nat.
Proof. unfold zone_cnt. rewrite cnt_app, cnt_cons. by case_match. Qed.

Lemma plain_not_cname r : is_type TypeCNAME r = true -> plain r = false.
Proof. unfold plain, beside_cname, is_type. by intros ->. Qed.

Lemma cname_alone_snoc l r :
  cname_alone l ->
  zone_cnt (canon (Name (Hdr r))) (is_type TypeCNAME) l = O ->
  (is_type TypeCNAME r = true -> zone_cnt (canon (Name (Hdr r))) plain l = O) ->
  cname_alone (l ++ [r]).
Proof.
  intros H H0 H1 c. rewrite !zone_cnt_snoc. destruct (H c) as [Ha Hb].
  destruct (at_name c r) eqn:E; cbn [andb]; [|split; [|destruct Hb; [left|right]]; lia].
  apply beqb_true in E. rewrite E in *. rewrite H0.
  destruct (is_type TypeCNAME r) eqn:Ec.
  - split; [lia|]. right. by rewrite H1, plain_not_cname.
  - split; [lia|]. by left.
Qed.

Lemma wf_filter g l :
  wf_zone l -> (forall x, x ∈ l -> is_type TypeSOA x = true -> g x = true) ->
  (1 <= zone_cnt z (is_type TypeNS) (List.filter g l))%nat -> wf_zone (List.filter g l).
Proof.
  intros H Hs Hn. pose proof (cname_alone_filter g l (wf_cname_alone l H)) as Hc.
  destruct H. split; try (by apply Forall_filter); try (by apply Hc); [|done|].
  - unfold cnt. rewrite filter_keep; done.
  - by apply NoDup_map_filter.
Qed.

Lemma wf_snoc l r :
  wf_zone l -> good_record r -> inZone z (Name (Hdr r)) = true -> is_type TypeSOA r = false ->
  identity r ∉ identity <$> l ->
  zone_cnt (canon (Name (Hdr r))) (is_type TypeCNAME) l = O ->
  (is_type TypeCNAME r = true -> zone_cnt (canon (Name (Hdr r))) plain l = O) ->
  wf_zone (l ++ [r]).
Proof.
  intros H Hg Hz Hs Hi H0 H1. pose proof (cname_alone_snoc l r (wf_cname_alone l H) H0 H1) as Hc.
  destruct H. split; try (apply Forall_app; split; [done|by constructor]); try (by apply Hc).
  - apply Forall_app. split; [done|]. constructor; [|done]. by rewrite Hs.
  - rewrite cnt_app, cnt_cons, Hs. cbn. lia.
  - rewrite zone_cnt_snoc. lia.
  - rewrite fmap_app. apply NoDup_app. split_and!; [done| |apply NoDup_singleton].
    intros x Hx ->%list_elem_of_singleton. done.
Qed.

(** Nothing but its SOA, name servers and what may sit beside them shares the
    apex with a CNAME: there is none. *)
Lemma wf_apex_cname l : wf_zone l -> zone_cnt z (is_type TypeCNAME) l = O.
Proof.
  intros H. destruct (wf_cname _ H z) as [|H0]; [done|]. exfalso.
  pose proof (wf_soa _ H) as H1. rewrite (cnt_ext _ (fun r => at_name z r && is_type TypeSOA r)) in H1.
  - assert (H2 : (cnt (fun r => at_name z r && is_type TypeSOA r) l <= zone_cnt z plain l)%nat).
    2: lia.
    rewrite <- (cnt_filter_le (fun r => at_name z r && plain r) (is_type TypeSOA) l).
    unfold zone_cnt, cnt. clear. induction l as [|x l IH]; [done|]. cbn.
    unfold plain, beside_cname, is_type in *.
    destruct (Rrtype (Hdr x) =? TypeSOA) eqn:E; cbn; rewrite ?andb_true_r, ?andb_false_r; [|exact IH].
    apply Z.eqb_eq in E. rewrite E. cbn. rewrite andb_true_r. destruct (at_name z x); cbn; lia.
  - intros x Hx. pose proof (wf_apex _ H) as Ha. rewrite Forall_forall in Ha.
    specialize (Ha x Hx). destruct (is_type TypeSOA x); [by rewrite Ha|by rewrite andb_false_r].
Qed.

Lemma wf_replace_soa l r :
  wf_zone l -> good_record r -> inZone z (Name (Hdr r)) = true -> is_type TypeSOA r = true ->
  canon (Name (Hdr r)) = z ->
  wf_zone (List.filter (fun x => negb (is_type TypeSOA x)) l ++ [r]).
Proof.
  intros H Hg Hz Hs Hn. set (l' := List.filter _ l).
  assert (Hc : cname_alone (l' ++ [r])).
  { apply cname_alone_snoc.
    - apply cname_alone_filter, wf_cname_alone, H.
    - rewrite Hn. pose proof (zone_cnt_filter_le z (is_type TypeCNAME) (fun x => negb (is_type TypeSOA x)) l).
      pose proof (wf_apex_cname l H). unfold l'. lia.
    - intros E. unfold is_type in E, Hs. bool_prop. by rewrite E in Hs. }
  pose proof H as H'. destruct H.
  split; try (apply Forall_app; split; [by apply Forall_filter|by constructor]); try (by apply Hc).
  - apply Forall_app. split; [by apply Forall_filter|]. constructor; [|done]. intros _. by apply beqb_true.
  - rewrite cnt_app, cnt_cons, Hs. cbn. unfold l'.
    enough (cnt (is_type TypeSOA) (List.filter (fun x => negb (is_type TypeSOA x)) l) = O) by lia.
    apply cnt_zero. intros x Hx. apply list_elem_of_In, filter_In in Hx as [_ Hx]. by bool_prop.
  - rewrite zone_cnt_snoc. unfold zone_cnt, cnt, l' in *. rewrite filter_keep; [lia|].
    intros x _ E. apply andb_true_iff in E as [_ E]. unfold is_type in *. bool_prop. by rewrite E.
  - rewrite fmap_app. apply NoDup_app. split_and!; [by apply NoDup_map_filter| |apply NoDup_singleton].
    intros x (y & -> & Hy)%list_elem_of_fmap Hx%list_elem_of_singleton.
    apply list_elem_of_In, filter_In in Hy as [_ Hy]. unfold identity in Hx. injection Hx as Hx _ _.
    unfold is_type in *. bool_prop. congruence.
Qed.

(** A replaced TTL is invisible to all of it. *)
Lemma set_ttl_identity ttl x : identity (set_ttl ttl x) = identity x.
Proof. done. Qed.

Lemma wf_set_ttl l i x ttl : wf_zone l -> l !! i = Some x -> wf_zone (<[i := set_ttl ttl x]> l).
Proof.
  intros H Hi. assert (Hc : forall f c, f (set_ttl ttl x) = f x ->
    zone_cnt c f (<[i := set_ttl ttl x]> l) = zone_cnt c f l).
  { intros f c E. apply cnt_insert with x; [done|]. by rewrite E. }
  destruct H. split;
    try (apply Forall_insert; [done|]; by refine (Forall_lookup_1 _ _ _ _ _ Hi)).
  - rewrite (cnt_insert _ _ _ x); done.
  - by rewrite Hc.
  - intros c. by rewrite Hc.
  - intros c. rewrite !Hc by done. auto.
  - rewrite list_fmap_insert, set_ttl_identity.
    rewrite list_insert_id; [done|]. by rewrite list_lookup_fmap, Hi.
Qed.

Lemma delete_filter_le c f l i : (zone_cnt c f (delete i l) <= zone_cnt c f l)%nat.
Proof.
  revert i. induction l as [|x l IH]; intros [|i]; try done.
  - change (zone_cnt c f l <= zone_cnt c f (x :: l))%nat. unfold zone_cnt. rewrite cnt_cons. lia.
  - change (zone_cnt c f (x :: delete i l) <= zone_cnt c f (x :: l))%nat.
    unfold zone_cnt in *. rewrite !cnt_cons. specialize (IH i). lia.
Qed.

Lemma wf_delete l i x :
  wf_zone l -> l !! i = Some x -> is_type TypeSOA x = false ->
  (1 <= zone_cnt z (is_type TypeNS) (delete i l))%nat -> wf_zone (delete i l).
Proof.
  intros H Hi Hs Hn. destruct H.
  split; try (by apply Forall_delete); try done.
  - rewrite (cnt_delete _ l i x Hi), Hs in wf_soa0. done.
  - intros c. pose proof (delete_filter_le c (is_type TypeCNAME) l i). specialize (wf_cname2 c). lia.
  - intros c. pose proof (delete_filter_le c (is_type TypeCNAME) l i).
    pose proof (delete_filter_le c plain l i). destruct (wf_cname0 c); lia.
  - eapply sublist_NoDup; [exact wf_nodup0|]. apply fmap_sublist, sublist_delete.
Qed.

End WellFormed.

(** ** What one update record does *)

Section Apply.
Context `{N : NameLib} `{!NameLaws N}.
Variable z : bytes.

(** A record of the update section that passed the prescan, with a good name
    and type. *)
Definition update_ok (r : RR) : Prop :=
  good_record r /\ inZone z (Name (Hdr r)) = true /\
  (HClass (Hdr r) <> ClassANY -> Rrtype (Hdr r) <> TypeANY).

(** Only an SOA at the apex has the apex's type and name. *)
Lemma wf_soa_name l i x :
  wf_zone z l -> l !! i = Some x -> is_type TypeSOA x = true -> canon (Name (Hdr x)) = z.
Proof.
  intros H Hi Hx. apply beqb_true.
  exact (Forall_lookup_1 _ _ _ _ (wf_apex _ _ H) Hi Hx).
Qed.

Lemma identity_type x r t : identity x = identity r -> is_type t x = is_type t r.
Proof. unfold identity, is_type. by intros [= -> _ _]. Qed.

Lemma identity_name x r : identity x = identity r -> canon (Name (Hdr x)) = canon (Name (Hdr r)).
Proof. by intros [= _ E _]. Qed.

Lemma is_type_other t u r : is_type t r = true -> t <> u -> is_type u r = false.
Proof. unfold is_type. intros E Hn. bool_prop. apply Z.eqb_neq. congruence. Qed.

Lemma applyAdd_wf l ch r :
  wf_zone z l -> update_ok r ->
  wf_zone z (applyAdd l ch r (canon (Name (Hdr r))) (beqb (canon (Name (Hdr r))) z)).1.
Proof.
  intros H (Hg & Hz & _). pose proof (wf_good _ _ H) as Hgl. unfold applyAdd. fold (is_type TypeSOA r).
  destruct (is_type TypeSOA r) eqn:Es.
  { destruct (as_soa r), (soaOf l); try done. destruct (beqb _ z) eqn:Ez; cbn [negb orb]; [|done].
    destruct (serialGreater _ _); cbn [negb]; [|done]. bool_prop.
    rewrite deleteWhere_spec. by apply wf_replace_soa. }
  fold (is_type TypeCNAME r). rewrite hasNonCNAME_cnt, hasCNAME_cnt by done.
  destruct (is_type TypeCNAME r) eqn:Ec; cbn [andb negb].
  - destruct (zone_cnt _ plain l =? 0)%nat eqn:E0; cbn [negb]; [|done]. apply Nat.eqb_eq in E0.
    destruct (indexOfRR l r) as [i|] eqn:Ei.
    { apply indexOfRR_Some in Ei as (x & Hx & Ex); [|done]. rewrite Hx.
      case_match; [|done]. by apply wf_set_ttl. }
    rewrite deleteWhere_spec. cbn [fst].
    set (g := fun x => negb _).
    assert (Hgs : forall x, x ∈ l -> g x = negb (at_name (canon (Name (Hdr r))) x && is_type TypeCNAME x)).
    { intros x Hx. unfold g. by rewrite (good_sameName l). }
    assert (Hkeep : forall t x, x ∈ l -> is_type t x = true -> t <> TypeCNAME -> g x = true).
    { intros t x Hx Et Ht. by rewrite Hgs, (is_type_other t), andb_false_r. }
    apply wf_snoc; try done.
    + apply wf_filter; [done| |].
      * intros x Hx Et. by apply (Hkeep TypeSOA).
      * unfold zone_cnt, cnt. rewrite filter_keep; [apply (wf_ns _ _ H)|].
        intros x Hx Et. apply andb_true_iff in Et as [_ Et]. by apply (Hkeep TypeNS).
    + intros Hin. eapply indexOfRR_None; [|exact Ei|]; [done|].
      apply list_elem_of_fmap in Hin as (y & E & Hy). rewrite E. apply list_elem_of_fmap_2.
      apply list_elem_of_In, filter_In in Hy as [Hy _]. by apply list_elem_of_In.
    + apply cnt_zero. intros x Hx. apply list_elem_of_In, filter_In in Hx as [Hx Hgx].
      rewrite Hgs in Hgx by (by apply list_elem_of_In). by bool_prop.
    + intros _. pose proof (zone_cnt_filter_le (canon (Name (Hdr r))) plain g l). lia.
  - destruct (zone_cnt _ (is_type TypeCNAME) l =? 0)%nat eqn:E0; cbn [negb]; [|done].
    apply Nat.eqb_eq in E0.
    destruct (indexOfRR l r) as [i|] eqn:Ei.
    { apply indexOfRR_Some in Ei as (x & Hx & Ex); [|done]. rewrite Hx.
      case_match; [|done]. by apply wf_set_ttl. }
    apply wf_snoc; try done; [|by rewrite Ec]. by apply indexOfRR_None.
Qed.

Lemma applyDeleteRRset_wf l ch r :
  wf_zone z l -> update_ok r ->
  wf_zone z (applyDeleteRRset l ch (Hdr r) (canon (Name (Hdr r))) (beqb (canon (Name (Hdr r))) z)).1.
Proof.
  intros H (Hg & Hz & _). pose proof (wf_good _ _ H) as Hgl. unfold applyDeleteRRset.
  assert (Hsoa : forall x, x ∈ l -> is_type TypeSOA x = true -> canon (Name (Hdr x)) = z).
  { intros x Hx. pose proof (wf_apex _ _ H) as Ha. rewrite Forall_forall in Ha.
    intros E. by apply beqb_true, Ha. }
  destruct (Rrtype (Hdr r) =? TypeANY) eqn:Ea.
  - rewrite deleteWhere_spec. cbn [fst]. set (g := fun x => negb _).
    assert (Hk : forall x, x ∈ l -> at_name z x = true -> is_type TypeSOA x || is_type TypeNS x = true ->
                 g x = true).
    { intros x Hx Hn Ht. unfold g. rewrite (good_sameName l) by done. unfold at_name in *. bool_prop.
      rewrite Hn, Ht. destruct (beqb z (canon _)) eqn:E; [|done]. bool_prop. by rewrite <- E, beqb_refl. }
    apply wf_filter; [done| |].
    + intros x Hx Ht. apply Hk; [done| |by rewrite Ht]. apply beqb_true. by apply Hsoa.
    + unfold zone_cnt, cnt. rewrite filter_keep; [apply (wf_ns _ _ H)|].
      intros x Hx Et. bool_prop. apply Hk; [done..|]. match goal with H : is_type _ _ = true |- _ => rewrite H end.
      by rewrite orb_true_r.
  - fold (is_type TypeSOA r). fold (is_type TypeNS r).
    destruct (beqb _ z && _) eqn:Eap; [done|].
    rewrite deleteWhere_spec. cbn [fst]. set (g := fun x => negb _).
    assert (Hk : forall x t, x ∈ l -> at_name z x = true -> is_type t x = true ->
                 t = TypeSOA \/ t = TypeNS -> g x = true).
    { intros x t Hx Hn Ht Htt. unfold g. rewrite (good_sameName l) by done. unfold at_name in *. bool_prop.
      rewrite Hn. destruct (beqb z (canon _)) eqn:E; [|done]. bool_prop.
      rewrite <- E, beqb_refl in Eap. cbn in Eap. bool_prop. cbn [andb]. apply negb_true_iff.
      unfold is_type in *. bool_prop. apply Z.eqb_neq. destruct Htt; congruence. }
    apply wf_filter; [done| |].
    + intros x Hx Ht. apply (Hk x TypeSOA); auto. apply beqb_true. by apply Hsoa.
    + unfold zone_cnt, cnt. rewrite filter_keep; [apply (wf_ns _ _ H)|].
      intros x Hx Et. bool_prop. apply (Hk x TypeNS); auto.
Qed.

Lemma applyDeleteRecord_wf l ch r :
  wf_zone z l -> update_ok r ->
  wf_zone z (applyDeleteRecord l ch r (canon (Name (Hdr r))) (beqb (canon (Name (Hdr r))) z)).1.
Proof.
  intros H (Hg & Hz & _). pose proof (wf_good _ _ H) as Hgl. unfold applyDeleteRecord.
  fold (is_type TypeSOA r). fold (is_type TypeNS r).
  destruct (beqb _ z && is_type TypeSOA r) eqn:Es; [done|].
  destruct (beqb _ z && is_type TypeNS r && _) eqn:En; [done|].
  destruct (indexOfRR l r) as [i|] eqn:Ei; [|done].
  apply indexOfRR_Some in Ei as (x & Hx & Ex); [|done]. cbn [fst].
  pose proof (identity_name _ _ Ex) as En'.
  apply wf_delete with x; [done..| |].
  - destruct (is_type TypeSOA x) eqn:E; [|done]. exfalso.
    pose proof (wf_soa_name l i x H Hx E) as Hn. rewrite (identity_type _ _ TypeSOA Ex) in E.
    rewrite E, <- En', Hn, beqb_refl in Es. done.
  - pose proof (wf_ns _ _ H) as Hns. rewrite countRRset_cnt in En by done.
    unfold zone_cnt in *. rewrite (cnt_delete _ l i x Hx) in Hns. 
    destruct (at_name z x && is_type TypeNS x) eqn:E; [|lia].
    unfold at_name in E. bool_prop. rewrite (identity_type _ _ TypeNS Ex) in *.
    assert (canon (Name (Hdr r)) = z) as Hr by congruence.
    rewrite Hr, beqb_refl in En. match goal with H : is_type TypeNS r = true |- _ => rewrite H in En end.
    cbn [andb] in En. apply Nat.leb_gt in En. rewrite (cnt_delete _ l i x Hx) in En.
    case_match; lia.
Qed.

Lemma apply1_wf l ch r : wf_zone z l -> update_ok r -> wf_zone z (apply1 z (l, ch) r).1.
Proof.
  intros H Hr. unfold apply1.
  repeat case_match; auto using applyAdd_wf, applyDeleteRRset_wf, applyDeleteRecord_wf.
Qed.

Lemma apply_updates_wf l updates :
  wf_zone z l -> Forall update_ok updates -> wf_zone z (apply_updates z l updates).1.
Proof.
  intros H HF. unfold apply_updates. assert (Hg : forall s, wf_zone z s.1 -> wf_zone z (foldl (apply1 z) s updates).1).
  { induction HF as [|r t Hr Ht IH]; intros [l' ch] Hs; [done|]. cbn [foldl]. apply IH. by apply apply1_wf. }
  by apply Hg.
Qed.

End Apply.
