(* ===== verification/DynProps.v ===== *)
(** * What a dynamic update guarantees

    The theorems of the [dynupdate] plugin over [DynUpdate.v]: atomicity and
    authority, well-formedness of the zone over any run of requests, serials
    that move forward, the type policy, and replays. *)

From S2P Require Import Prelude GoStrings Netip Dns SimpleDns DynZone DynUpdate.

(** ** What an update record leaves alone *)

Section Effects.
Context `{N : NameLib} `{!NameLaws N}.
Variable z : bytes.

Lemma filter_filter_disjoint (f g : RR -> bool) l :
  (forall x, f x = true -> g x = true) -> List.filter f (List.filter g l) = List.filter f l.
Proof. intros H. apply filter_keep. auto. Qed.

(** A record changes nothing outside its own type, unless it deletes every
    RRset at its name. *)
Lemma apply1_other (f : RR -> bool) l ch r :
  Forall good_record l ->
  (forall x, is_type (Rrtype (Hdr r)) x = true -> f x = false) ->
  (HClass (Hdr r) = ClassANY -> Rrtype (Hdr r) <> TypeANY) ->
  List.filter f (apply1 z (l, ch) r).1 = List.filter f l.
Proof.
  intros Hg Hf Ha.
  assert (Hr : f r = false) by (apply Hf, Z.eqb_refl).
  assert (Hi : forall i x, indexOfRR l r = Some i -> l !! i = Some x -> f x = false).
  { intros i x Ei Hx. apply indexOfRR_Some in Ei as (y & Hy & E); [|done].
    apply Hf. rewrite Hx in Hy. injection Hy as ->. injection E as E _ _. by apply Z.eqb_eq. }
  assert (Hdel : forall g, (forall x, g x = false -> is_type (Rrtype (Hdr r)) x = true) ->
            List.filter f (List.filter g l) = List.filter f l).
  { intros g Hgx. apply filter_filter_disjoint. intros x Hx. destruct (g x) eqn:E; [done|].
    apply Hgx, Hf in E. congruence. }
  unfold apply1, applyAdd, applyDeleteRRset, applyDeleteRecord.
  repeat (case_match; try done); rewrite ?deleteWhere_spec in *; cbn [fst] in *;
    rewrite ?filter_snoc_false by done.
  - apply Hdel. intros x Hx. apply negb_false_iff in Hx. bool_prop.
    match goal with H : Rrtype (Hdr r) = TypeSOA |- _ => by rewrite H end.
  - match goal with H : l !! _ = Some ?x |- _ =>
      apply (filter_insert_false f l _ x); [done|by eapply Hi|] end.
    apply Hf. unfold is_type. cbn.
    match goal with H : indexOfRR l r = Some _, H' : l !! _ = Some _ |- _ =>
      apply indexOfRR_Some in H as (y & Hy & E); [|done]; rewrite H' in Hy; injection Hy as -> end.
    injection E as E _ _. by apply Z.eqb_eq.
  - apply Hdel. intros x Hx. apply negb_false_iff, andb_true_iff in Hx as [_ Hx]. bool_prop.
    match goal with H : Rrtype (Hdr r) = TypeCNAME |- _ => by rewrite H end.
  - done.
  - bool_prop. exfalso. by apply Ha.
  - apply Hdel. intros x Hx. apply negb_false_iff, andb_true_iff in Hx as [_ Hx]. done.
  - match goal with H : indexOfRR l r = Some _ |- _ =>
      pose proof H as Hj; apply indexOfRR_Some in Hj as (x & Hx & _); [|done] end.
    eapply filter_delete_false; eauto.
Qed.

Lemma soaOf_types l :
  Forall good_record l -> soaOf l = head (omap as_soa (List.filter (is_type TypeSOA) l)).
Proof.
  intros H. rewrite soaOf_filter. unfold soaOf. do 2 f_equal.
  induction H as [|x l [_ Hx] Hl IH]; [done|]. cbn. by rewrite Hx, IH.
Qed.

(** No delete touches the SOA. *)
Lemma delete_keeps_soa l ch r :
  wf_zone z l -> HClass (Hdr r) <> ClassINET ->
  List.filter (is_type TypeSOA) (apply1 z (l, ch) r).1 = List.filter (is_type TypeSOA) l.
Proof.
  intros H Hc. pose proof (wf_good _ _ H) as Hg.
  assert (Hs : forall x, x ∈ l -> is_type TypeSOA x = true ->
    sameName x (canon (Name (Hdr r))) = beqb (canon (Name (Hdr r))) z).
  { intros x Hx E. rewrite (good_sameName l) by done. unfold at_name.
    apply list_elem_of_lookup_1 in Hx as [i Hi]. rewrite (wf_soa_name z l i x) by done.
    apply eq_true_iff_eq. rewrite !beqb_true. done. }
  unfold apply1. destruct (_ =? ClassINET) eqn:E1; [by bool_prop|].
  destruct (_ =? ClassANY) eqn:E2; [|destruct (_ =? ClassNONE) eqn:E3; [|done]].
  - unfold applyDeleteRRset. destruct (Rrtype (Hdr r) =? TypeANY).
    + rewrite deleteWhere_spec. apply filter_keep. intros x Hx E.
      rewrite Hs, E by done. by destruct (beqb _ z).
    + destruct (beqb _ z && _) eqn:Ea; [done|]. rewrite deleteWhere_spec. apply filter_keep.
      intros x Hx E. rewrite Hs by done. destruct (beqb _ z); [|done]. cbn in Ea |- *. bool_prop.
      unfold is_type in *. bool_prop. apply negb_true_iff, Z.eqb_neq. congruence.
  - unfold applyDeleteRecord. do 2 (case_match; [done|]).
    destruct (indexOfRR l r) as [i|] eqn:Ei; [|done].
    apply indexOfRR_Some in Ei as (x & Hx & Ex); [|done].
    apply (filter_delete_false _ l i x); [done|].
    destruct (is_type TypeSOA x) eqn:E; [|done]. exfalso.
    pose proof (wf_soa_name z l i x H Hx E) as Hn. rewrite (identity_name _ _ Ex) in Hn.
    rewrite (identity_type _ _ TypeSOA Ex) in E.
    match goal with H : beqb _ z && (Rrtype _ =? TypeSOA) = false |- _ =>
      change (beqb (canon (Name (Hdr r))) z && is_type TypeSOA r = false) in H; rewrite Hn, E, beqb_refl in H end.
    done.
Qed.

Lemma soaOf_replaced l r new :
  Forall good_record l -> as_soa r = Some new ->
  soaOf (List.filter (fun x => negb (is_type TypeSOA x)) l ++ [r]) = Some new.
Proof.
  intros Hg En. unfold soaOf. rewrite omap_app. cbn. rewrite En.
  replace (omap as_soa _) with (@nil SoaData); [done|].
  symmetry. induction Hg as [|x l [_ Hx] Hl IH]; [done|]. cbn.
  destruct (is_type TypeSOA x) eqn:E; cbn; [done|]. unfold is_soa_data in Hx. by destruct (as_soa x).
Qed.

(** The SOA an update record leaves: the one there, or the one it carries, if
    that is newer. *)
Lemma apply1_soa l ch r :
  wf_zone z l -> update_ok z r ->
  soaOf (apply1 z (l, ch) r).1 = soaOf l \/
  HClass (Hdr r) = ClassINET /\ is_type TypeSOA r = true /\
  exists cur new, soaOf l = Some cur /\ soaOf (apply1 z (l, ch) r).1 = Some new /\
    serialGreater (Serial new) (Serial cur) = true.
Proof.
  intros H Hr. pose proof (wf_good _ _ H) as Hg.
  pose proof (wf_good _ _ (apply1_wf z l ch r H Hr)) as Hg'.
  destruct (decide (HClass (Hdr r) = ClassINET)) as [Hc|Hc].
  2:{ left. by rewrite !soaOf_types, delete_keeps_soa. }
  destruct (is_type TypeSOA r) eqn:Et.
  2:{ left. rewrite !soaOf_types by done. do 2 f_equal. apply apply1_other; [done| |by rewrite Hc].
      intros x Hx. unfold is_type in *. bool_prop. apply Z.eqb_neq. congruence. }
  clear Hg'. unfold apply1, applyAdd. rewrite Hc. cbn [Z.eqb ClassINET Pos.eqb]. fold (is_type TypeSOA r). rewrite Et.
  destruct (as_soa r) as [new|] eqn:En; [|by left]. destruct (soaOf l) as [cur|] eqn:Ec; [|by left].
  destruct (_ || _) eqn:Eo; [by left|]. right. split_and!; [done..|].
  exists cur, new. bool_prop. split_and!; [done| |done].
  rewrite deleteWhere_spec. by apply soaOf_replaced.
Qed.

(** Does [r] offer a new SOA? *)
Definition offers_soa (r : RR) : bool := (HClass (Hdr r) =? ClassINET) && is_type TypeSOA r.

Lemma apply_updates_soa l ch updates :
  wf_zone z l -> Forall (update_ok z) updates -> (cnt offers_soa updates <= 1)%nat ->
  let l' := (foldl (apply1 z) (l, ch) updates).1 in
  soaOf l' = soaOf l \/
  (1 <= cnt offers_soa updates)%nat /\
  exists cur new, soaOf l = Some cur /\ soaOf l' = Some new /\ serialGreater (Serial new) (Serial cur) = true.
Proof.
  intros H HF. revert l ch H. induction HF as [|r t Hr Ht IH]; intros l ch H Hn; [by left|].
  rewrite cnt_cons in *. cbn [foldl]. destruct (apply1 z (l, ch) r) as [l1 c1] eqn:E1.
  pose proof (apply1_wf z l ch r H Hr) as H1. pose proof (apply1_soa l ch r H Hr) as Hs.
  rewrite E1 in H1, Hs. cbn [fst] in H1, Hs.
  destruct Hs as [Hs|(Hc & Hty & cur & new & Hl & Hl1 & Hgt)].
  - rewrite <- Hs. destruct (IH l1 c1 H1) as [?|[??]]; [destruct (offers_soa r); lia|by left|right; split; [lia|done]].
  - right. assert (Hor : offers_soa r = true) by (unfold offers_soa; by rewrite Hc, Hty).
    rewrite Hor in *. split; [lia|]. exists cur, new. split; [done|].
    destruct (IH l1 c1 H1) as [->|[? _]]; [lia|done|lia].
Qed.

End Effects.

(** ** The prescan *)

Section Prescan.
Context `{N : NameLib}.

Lemma prescan_Forall zone mutable updates :
  prescan zone mutable updates = RcodeSuccess <->
  Forall (fun r => prescanRecord zone mutable (Hdr r) = RcodeSuccess) updates.
Proof.
  induction updates as [|r t IH]; [split; [constructor|done]|]. cbn [prescan].
  rewrite Forall_cons, <- IH. destruct (prescanRecord _ _ _ =? RcodeSuccess) eqn:E; bool_prop; cbn [negb]; naive_solver.
Qed.

(** What the prescan lets through. *)
Lemma prescanRecord_ok zone mutable h :
  prescanRecord zone mutable h = RcodeSuccess ->
  inZone zone (Name h) = true /\
  (HClass h <> ClassANY -> Rrtype h <> TypeANY) /\
  (HClass h = ClassINET \/ HClass h = ClassANY \/ HClass h = ClassNONE) /\
  (forall types, mutable = Some types ->
     Rrtype h ∈ types /\ ~ (HClass h = ClassANY /\ Rrtype h = TypeANY)).
Proof.
  unfold prescanRecord. destruct (inZone zone (Name h)); cbn [negb]; [|done].
  destruct (negb _ && negb _) eqn:E; [done|]. intros H. split; [done|]. split_and!.
  - intros Hc Ht. rewrite Ht in E. rewrite (proj2 (Z.eqb_neq _ _) Hc) in E. discriminate.
  - destruct (HClass h =? ClassINET) eqn:E1; [bool_prop; auto|].
    destruct (HClass h =? ClassANY) eqn:E2; [bool_prop; auto|].
    destruct (HClass h =? ClassNONE) eqn:E3; [bool_prop; auto|done].
  - intros types ->. clear E.
    destruct (_ || negb (bool_decide (Rrtype h ∈ types))) eqn:E.
    { repeat case_match; discriminate H. }
    apply orb_false_iff in E as [E1 E2]. apply negb_false_iff, bool_decide_eq_true in E2.
    split; [done|]. intros [Hc Ht]. by rewrite Hc, Ht in E1.
Qed.

Lemma prescan_update_ok zone mutable updates :
  prescan zone mutable updates = RcodeSuccess -> Forall good_record updates ->
  Forall (update_ok zone) updates.
Proof.
  rewrite prescan_Forall. intros H Hg. induction Hg as [|r t Hr Ht IH]; [constructor|].
  apply Forall_cons in H as [H1 H2]. constructor; [|by apply IH].
  apply prescanRecord_ok in H1 as (?&?&_). by split_and!.
Qed.
End Prescan.

(** ** Advancing the serial *)

Section Advance.
Context `{N : NameLib} `{!NameLaws N}.
Variable z : bytes.

Lemma wf_bumpSerial l : wf_zone z l -> wf_zone z (bumpSerial l).
Proof.
  intros H. destruct (bumpSerial_insert l) as [[_ ->]|(i & x & s & Hi & Hx & ->)]; [done|].
  set (x' := mkRR _ _). pose proof (Forall_lookup_1 _ _ _ _ (wf_good _ _ H) Hi) as [Hn Hg].
  assert (Hs : is_type TypeSOA x = true) by (rewrite <- Hg; unfold is_soa_data; by rewrite Hx).
  assert (Hc : forall f, (forall r, f r = f (mkRR (Hdr r) (Data x'))) -> forall c,
    zone_cnt c f (<[i := x']> l) = zone_cnt c f l).
  { intros f Hf c. apply cnt_insert with x; [done|]. rewrite (Hf x). done. }
  destruct H as [Wgood Win Wapex Wsoa Wns Wc1 Wc Wnd]. split.
  - apply Forall_insert; [done|]. split; [done|]. symmetry. exact Hs.
  - apply Forall_insert; [done|]. exact (Forall_lookup_1 _ _ _ _ Win Hi).
  - apply Forall_insert; [done|]. exact (Forall_lookup_1 _ _ _ _ Wapex Hi).
  - by rewrite (cnt_insert _ _ _ x).
  - by rewrite Hc.
  - intros c. by rewrite Hc.
  - intros c. by rewrite !Hc.
  - rewrite list_fmap_insert. apply NoDup_alt. intros j k y Hj Hk.
    assert (Hu : forall j y, j <> i -> <[i := identity x']> (identity <$> l) !! j = Some y -> y <> identity x').
    { intros j' y' Hne Hj' ->. rewrite list_lookup_insert_ne, list_lookup_fmap in Hj' by done.
      destruct (l !! j') as [w|] eqn:Ew; [|done]. injection Hj' as E _ _. apply Hne.
      apply (cnt_unique (is_type TypeSOA) l j' i w x); try done. unfold is_type in *. cbn in E. by rewrite E. }
    assert (Hlen : (i < length (identity <$> l))%nat) by (rewrite length_fmap; by eapply lookup_lt_Some).
    destruct (decide (j = i)) as [->|Hji], (decide (k = i)) as [->|Hki]; [done|..].
    + rewrite list_lookup_insert_eq in Hj by done. injection Hj as <-. by destruct (Hu k _ Hki Hk).
    + rewrite list_lookup_insert_eq in Hk by done. injection Hk as <-. by destruct (Hu j _ Hji Hj).
    + rewrite list_lookup_insert_ne in Hj, Hk by done. eapply NoDup_lookup; eauto.
Qed.

Lemma wf_advance rrs updated : wf_zone z updated -> wf_zone z (advance rrs updated).
Proof. intros H. unfold advance. repeat case_match; try done. by apply wf_bumpSerial. Qed.

Lemma wf_soaOf l : wf_zone z l -> exists s, soaOf l = Some s.
Proof.
  intros H. rewrite soaOf_types by apply H. pose proof (wf_soa _ _ H) as Hs. unfold cnt in Hs.
  destruct (List.filter (is_type TypeSOA) l) as [|x [|??]] eqn:E; try done.
  assert (Hx : x ∈ l /\ is_type TypeSOA x = true).
  { assert (x ∈ List.filter (is_type TypeSOA) l) as Hx by (rewrite E; left).
    by rewrite list_elem_of_In, filter_In, <- list_elem_of_In in Hx. }
  destruct Hx as [Hx Ht]. pose proof (wf_good _ _ H) as Hg. rewrite Forall_forall in Hg.
  destruct (Hg x Hx) as [_ Hd]. rewrite Ht in Hd. unfold is_soa_data in Hd. cbn.
  destruct (as_soa x) as [s|]; [by exists s|done].
Qed.

End Advance.

(** ** Repeating an update record *)

Section Repeat.
Context `{N : NameLib} `{!NameLaws N}.
Variable z : bytes.

Lemma filter_all {A} (f : A -> bool) l : (forall x, x ∈ l -> f x = true) -> List.filter f l = l.
Proof.
  induction l as [|x l IH]; intros H; [done|]. cbn. rewrite H by left. f_equal. apply IH.
  intros y Hy. apply H. by right.
Qed.

Lemma existsb_insert {A} (f : A -> bool) (l : list A) i x x' :
  l !! i = Some x -> f x' = f x -> existsb f (<[i := x']> l) = existsb f l.
Proof.
  revert i. induction l as [|y l IH]; intros [|i] Hi E; try done; cbn in Hi |- *.
  - injection Hi as ->. by rewrite E.
  - by rewrite IH.
Qed.

Lemma deleteWhere_false l m l' : deleteWhere l false m = (l', false) -> l' = l.
Proof.
  rewrite deleteWhere_spec. intros [= <- H]. apply filter_all. intros x Hx.
  rewrite existsb_false in H. by rewrite H.
Qed.

(** A [changed] flag that stays down means the records are untouched. *)
Lemma apply1_flag l l' r : apply1 z (l, false) r = (l', false) -> l' = l.
Proof.
  unfold apply1, applyAdd, applyDeleteRRset, applyDeleteRecord.
  repeat (case_match; try (by intros [= <-]); try apply deleteWhere_false); by intros [= ->].
Qed.

Lemma deleteWhere_twice l ch m :
  deleteWhere (deleteWhere l ch m).1 false m = ((deleteWhere l ch m).1, false).
Proof.
  rewrite (deleteWhere_spec l). cbn [fst]. rewrite deleteWhere_spec. f_equal.
  - apply filter_all. intros x Hx. apply list_elem_of_In, filter_In in Hx. apply Hx.
  - apply existsb_false. intros x Hx. apply list_elem_of_In, filter_In in Hx as [_ Hx].
    by apply negb_true_iff in Hx.
Qed.

Lemma sameName_hdr x x' c : Hdr x' = Hdr x -> sameName x' c = sameName x c.
Proof. unfold sameName. by intros ->. Qed.

Lemma indexOfRR_insert l i x x' r :
  l !! i = Some x -> Hdr x' = Hdr x ->
  is_type (Rrtype (Hdr r)) x && sameName x (canon (Name (Hdr r))) = false ->
  indexOfRR (<[i := x']> l) r = indexOfRR l r.
Proof.
  intros Hi Hx Hn. unfold is_type in Hn. revert i Hi.
  induction l as [|y l IH]; intros [|i] Hi; try done; cbn in Hi.
  - injection Hi as ->. cbn [indexOfRR insert list_insert]. rewrite (sameName_hdr x x') by done. rewrite Hx.
    by destruct (Rrtype (Hdr x) =? Rrtype (Hdr r)), (sameName x (canon (Name (Hdr r)))).
  - cbn [indexOfRR insert list_insert]. fold (@insert nat RR (list RR) _ i x' l). by rewrite IH.
Qed.

Lemma indexOfRR_set_ttl l i x ttl r :
  l !! i = Some x -> indexOfRR (<[i := set_ttl ttl x]> l) r = indexOfRR l r.
Proof.
  revert i. induction l as [|y l IH]; intros [|i] Hi; try done; cbn in Hi.
  - by injection Hi as ->.
  - cbn [indexOfRR insert list_insert]. fold (@insert nat RR (list RR) _ i (set_ttl ttl x) l). by rewrite IH.
Qed.

Lemma indexOfRR_snoc l r :
  good_record r -> indexOfRR l r = None -> indexOfRR (l ++ [r]) r = Some (length l).
Proof.
  intros [Hr _]. induction l as [|x l IH]; cbn [indexOfRR app length].
  - by rewrite Z.eqb_refl, sameName_at, !beqb_refl.
  - destruct (_ && _); [done|]. destruct (indexOfRR l r); [done|]. intros _. by rewrite IH.
Qed.

Lemma indexOfRR_absent l r :
  Forall good_record l -> identity r ∉ identity <$> l -> indexOfRR l r = None.
Proof.
  intros Hg Hn. destruct (indexOfRR l r) as [i|] eqn:E; [|done]. exfalso. apply Hn.
  apply indexOfRR_Some in E as (x & Hx & Ex); [|done]. rewrite <- Ex.
  apply list_elem_of_fmap_2. by eapply list_elem_of_lookup_2.
Qed.

Lemma indexOfRR_filter l r g :
  Forall good_record l -> indexOfRR l r = None -> indexOfRR (List.filter g l) r = None.
Proof.
  intros Hg Hn. apply indexOfRR_absent; [by apply Forall_filter|].
  pose proof (indexOfRR_None l r Hg Hn) as Hi. intros Hin. apply Hi.
  apply list_elem_of_fmap in Hin as (y & E & Hy). rewrite E. apply list_elem_of_fmap_2.
  apply list_elem_of_In, filter_In in Hy as [Hy _]. by apply list_elem_of_In.
Qed.

Lemma lookup_snoc_eq {A} (l : list A) x : (l ++ [x]) !! length l = Some x.
Proof. rewrite lookup_app_r by done. by rewrite Nat.sub_diag. Qed.

Lemma serialGreater_irrefl s : serialGreater s s = false.
Proof. unfold serialGreater. by rewrite Z.eqb_refl. Qed.

Lemma hasNonCNAME_snoc l r c :
  plain r = false -> hasNonCNAME (l ++ [r]) c = hasNonCNAME l c.
Proof.
  unfold hasNonCNAME, plain. intros H. rewrite existsb_app. cbn. by rewrite H, andb_false_r, !orb_false_r.
Qed.

Lemma hasNonCNAME_filter l g c : hasNonCNAME l c = false -> hasNonCNAME (List.filter g l) c = false.
Proof.
  unfold hasNonCNAME. rewrite !existsb_false. intros H x Hx.
  apply list_elem_of_In, filter_In in Hx as [Hx _]. apply H. by apply list_elem_of_In.
Qed.

Lemma hasCNAME_snoc l r c :
  is_type TypeCNAME r = false -> hasCNAME (l ++ [r]) c = hasCNAME l c.
Proof.
  unfold hasCNAME, is_type. intros H. rewrite existsb_app. cbn. by rewrite H, andb_false_r, !orb_false_r.
Qed.

Lemma applyAdd_idem l r :
  Forall good_record l -> good_record r ->
  let name := canon (Name (Hdr r)) in let apex := beqb name z in
  let l1 := (applyAdd l false r name apex).1 in
  applyAdd l1 false r name apex = (l1, false).
Proof.
  intros Hg Hr name apex. cbv zeta. unfold applyAdd. fold (is_type TypeSOA r). fold (is_type TypeCNAME r).
  destruct (is_type TypeSOA r) eqn:Es.
  { destruct (as_soa r) as [new|] eqn:En; [|done]. destruct (soaOf l) as [cur|] eqn:Ec; cbn [fst]; [|by rewrite Ec].
    destruct (_ || _) eqn:Eo; cbn [fst]; [by rewrite Ec, Eo|].
    rewrite deleteWhere_spec. cbn [fst]. rewrite (soaOf_replaced l r new), serialGreater_irrefl by done.
    by rewrite orb_true_r. }
  destruct (is_type TypeCNAME r) eqn:Ec; cbn [andb negb].
  - destruct (hasNonCNAME l name) eqn:En; cbn [fst]; [by rewrite En|].
    destruct (indexOfRR l r) as [i|] eqn:Ei.
    + pose proof Ei as Ej. apply indexOfRR_Some in Ej as (x & Hx & _); [|done]. rewrite Hx.
      destruct (negb _) eqn:Et; cbn [fst]; [|by rewrite En, Ei, Hx, Et].
      unfold hasNonCNAME. rewrite (existsb_insert _ _ _ x) by done. fold (hasNonCNAME l name). rewrite En.
      rewrite indexOfRR_set_ttl, Ei, list_lookup_insert_eq by (try done; by eapply lookup_lt_Some).
      cbn. by rewrite Z.eqb_refl.
    + rewrite deleteWhere_spec. cbn [fst]. rewrite hasNonCNAME_snoc by (by apply plain_not_cname).
      rewrite hasNonCNAME_filter by done.
      rewrite indexOfRR_snoc, lookup_snoc_eq by (try done; by apply indexOfRR_filter).
      by rewrite Z.eqb_refl.
  - destruct (hasCNAME l name) eqn:En; cbn [fst]; [by rewrite En|].
    destruct (indexOfRR l r) as [i|] eqn:Ei.
    + pose proof Ei as Ej. apply indexOfRR_Some in Ej as (x & Hx & _); [|done]. rewrite Hx.
      destruct (negb _) eqn:Et; cbn [fst]; [|by rewrite En, Ei, Hx, Et].
      unfold hasCNAME. rewrite (existsb_insert _ _ _ x) by done. fold (hasCNAME l name). rewrite En.
      rewrite indexOfRR_set_ttl, Ei, list_lookup_insert_eq by (try done; by eapply lookup_lt_Some).
      cbn. by rewrite Z.eqb_refl.
    + cbn [fst]. rewrite hasCNAME_snoc, En by done.
      rewrite indexOfRR_snoc, lookup_snoc_eq by done. by rewrite Z.eqb_refl.
Qed.

(** Applying an update record a second time changes nothing. *)
Lemma apply1_idem l r :
  wf_zone z l -> good_record r ->
  let l1 := (apply1 z (l, false) r).1 in apply1 z (l1, false) r = (l1, false).
Proof.
  intros H Hr. pose proof (wf_good _ _ H) as Hg. cbv zeta. unfold apply1.
  destruct (_ =? ClassINET); [by apply applyAdd_idem|].
  destruct (_ =? ClassANY); [|destruct (_ =? ClassNONE); [|done]].
  - unfold applyDeleteRRset. repeat case_match; try done; apply deleteWhere_twice.
  - unfold applyDeleteRecord. destruct (_ && (_ =? TypeSOA)) eqn:E1; cbn [fst]; [done|].
    destruct (_ && _ && (countRRset l _ _ <=? 1)%nat) eqn:E2; cbn [fst]; [by rewrite E2|].
    destruct (indexOfRR l r) as [i|] eqn:Ei; cbn [fst]; [|by rewrite E2, Ei].
    case_match; [done|].
    apply indexOfRR_Some in Ei as (x & Hx & Ex); [|done].
    rewrite indexOfRR_absent; [done|by apply Forall_delete|].
    rewrite <- Ex. intros (y & Ey & Hy)%list_elem_of_fmap.
    apply list_elem_of_lookup_1 in Hy as [j Hj].
    pose proof (wf_nodup _ _ H) as Hnd. rewrite NoDup_alt in Hnd.
    assert (Hi : (identity <$> l) !! i = Some (identity x)) by (by rewrite list_lookup_fmap, Hx).
    destruct (decide (j < i)%nat).
    + rewrite list_lookup_delete_lt in Hj by done.
      assert (Hj' : (identity <$> l) !! j = Some (identity x)) by (by rewrite list_lookup_fmap, Hj, Ey).
      pose proof (Hnd _ _ _ Hi Hj'). lia.
    + rewrite list_lookup_delete_ge in Hj by lia.
      assert (Hj' : (identity <$> l) !! S j = Some (identity x)) by (by rewrite list_lookup_fmap, Hj, Ey).
      pose proof (Hnd _ _ _ Hi Hj'). lia.
Qed.

(** The flag does not see the SOA's data: only an added SOA looks at it. *)
Lemma apply1_flag_soa l i x x' r :
  wf_zone z l -> l !! i = Some x -> Hdr x' = Hdr x -> is_type TypeSOA x = true ->
  offers_soa r = false ->
  (apply1 z (<[i := x']> l, false) r).2 = (apply1 z (l, false) r).2.
Proof.
  intros H Hi Hx Hs Ho. pose proof (wf_soa_name z l i x H Hi Hs) as Hn.
  assert (Hgx : good_name (Name (Hdr x))).
  { apply (Forall_lookup_1 _ _ _ _ (wf_good _ _ H) Hi). }
  assert (Hex : forall f, (forall y y', Hdr y = Hdr y' -> f y = f y') -> existsb f (<[i := x']> l) = existsb f l).
  { intros f Hf. apply existsb_insert with x; [done|]. by apply Hf. }
  assert (Hsn : sameName x (canon (Name (Hdr r))) = beqb (canon (Name (Hdr r))) z).
  { rewrite sameName_at, Hn by done. apply eq_true_iff_eq. rewrite !beqb_true. done. }
  assert (Hix : (Rrtype (Hdr r) =? TypeSOA) && beqb (canon (Name (Hdr r))) z = false ->
                indexOfRR (<[i := x']> l) r = indexOfRR l r).
  { intros E. apply indexOfRR_insert with x; [done..|]. rewrite Hsn.
    unfold is_type in *. apply Z.eqb_eq in Hs. rewrite Hs, (Z.eqb_sym TypeSOA). exact E. }
  assert (Httl : forall j y, l !! j = Some y -> exists y', <[i := x']> l !! j = Some y' /\ Hdr y' = Hdr y).
  { intros j y Hj. destruct (decide (i = j)) as [<-|Hne].
    - rewrite list_lookup_insert_eq by (by eapply lookup_lt_Some). exists x'. split; [done|]. congruence.
    - rewrite list_lookup_insert_ne by done. by exists y. }
  unfold apply1. unfold offers_soa in Ho. destruct (_ =? ClassINET).
  - cbn [andb] in Ho. unfold applyAdd. fold (is_type TypeSOA r). rewrite Ho.
    unfold is_type in Ho.
    unfold hasNonCNAME, hasCNAME. rewrite !Hex by (intros y y' E; rewrite (sameName_hdr y' y), E; done).
    do 2 (case_match; [done|]). rewrite Hix by (by rewrite Ho).
    destruct (indexOfRR l r) as [j|] eqn:Ej; [|done].
    apply indexOfRR_Some in Ej as (y & Hy & _); [|apply H].
    destruct (Httl j y Hy) as (y' & Hy' & E). rewrite Hy, Hy', E. by case_match.
  - destruct (_ =? ClassANY); [|destruct (_ =? ClassNONE); [|done]].
    + unfold applyDeleteRRset. repeat case_match; try done; rewrite !deleteWhere_spec; cbn [snd orb];
        apply Hex; intros y y' E; rewrite (sameName_hdr y' y) by done; unfold is_type; by rewrite E.
    + unfold applyDeleteRecord. rewrite (andb_comm (beqb _ z)).
      destruct ((Rrtype (Hdr r) =? TypeSOA) && _) eqn:E1; [done|]. rewrite Hix by done.
      replace (countRRset (<[i:=x']> l) (canon (Name (Hdr r))) TypeNS)
        with (countRRset l (canon (Name (Hdr r))) TypeNS).
      * repeat case_match; done.
      * symmetry. apply cnt_insert with x; [done|]. by rewrite (sameName_hdr x x'), Hx.
Qed.

End Repeat.

(** ** The handler *)

Section Handler.
Context `{N : NameLib} `{NL : !NameLaws N} `{L : MsgLib} `{ML : !MsgLaws L} `{F : FileLib}.

(** Everything section 3 of the RFC asks for before a change. *)
Definition authorised (w : Writer) (d : DynUpdate) (r : Msg) : Prop :=
  (exists q, Questions r = [q] /\ Qtype q = TypeSOA /\ Qclass q = ClassINET /\
             canon (QName q) = d_zone d) /\
  tsigVerified w r = true /\
  checkPrereqs (d_zone d) (d_rrs d) (Answer r) = RcodeSuccess /\
  prescan (d_zone d) (d_mutable d) (NsSec r) = RcodeSuccess.

(** The state after a committed update. *)
Definition committed (d : DynUpdate) (rrs : list RR) (view : File) : DynUpdate :=
  {| d_next := d_next d; d_xfer := d_xfer d; d_mutable := d_mutable d;
     d_view := Some view; d_zone := d_zone d; d_rrs := rrs |}.

(** The two ways [serveUpdate] can end. *)
Lemma serveUpdate_cases w d r :
  (exists rcode, serveUpdate w d r = (reply w r rcode, d, [])) \/
  (authorised w d r /\
   exists updated view,
     apply_updates (d_zone d) (d_rrs d) (NsSec r) = (updated, true) /\
     build d (advance (d_rrs d) updated) = Some view /\
     serveUpdate w d r = (reply w r RcodeSuccess, committed d (advance (d_rrs d) updated) view,
                          if d_xfer d then [d_zone d] else [])).
Proof.
  unfold serveUpdate, authorised.
  destruct (Questions r) as [|q [|??]]; [left; by eexists| |left; by eexists].
  destruct (_ || _) eqn:E1; [left; by eexists|].
  destruct (beqb (canon (QName q)) (d_zone d)) eqn:E2; cbn [negb]; [|left; by eexists].
  destruct (tsigVerified w r) eqn:E3; cbn [negb]; [|left; by eexists].
  destruct (checkPrereqs _ _ _ =? _) eqn:E4; cbn [negb]; [|left; by eexists].
  destruct (prescan _ _ _ =? _) eqn:E5; cbn [negb]; [|left; by eexists].
  destruct (apply_updates _ _ _) as [updated []] eqn:E6; cbn [negb]; [|left; by eexists].
  unfold swap. destruct (build d _) as [view|] eqn:E7; cbn; [|left; by eexists].
  right. bool_prop. split; [split_and!; eauto|].
  exists updated, view. split_and!; [done..|]. by rewrite E2.
Qed.

Lemma reply_rcode w r rcode m : In m (written (reply w r rcode)) -> Rcode m = rcode.
Proof.
  unfold reply. destruct (w_ok w); [|done]. intros [<-|[]]. cbn. apply SetRcode_after_reply.
Qed.

(** C4: an UPDATE is atomic and authorised. Either the handler leaves the
    plugin exactly as it was (record set, served view, everything) and sends
    no NOTIFY, or the request named the zone in one SOA question, carried a
    TSIG the server verified, and passed every prerequisite and the whole
    prescan; then the new record set is the update section applied to the
    old one, the served view is built from it, and the reply is NOERROR. A
    reply with any other rcode means nothing changed. *)
Theorem serveUpdate_atomic (w : Writer) (d : DynUpdate) (r : Msg) :
  let '(out, d', notified) := serveUpdate w d r in
  (d' = d /\ notified = [] \/
   authorised w d r /\
   (exists updated view,
      apply_updates (d_zone d) (d_rrs d) (NsSec r) = (updated, true) /\
      build d (advance (d_rrs d) updated) = Some view /\
      d' = committed d (advance (d_rrs d) updated) view) /\
   (forall m, In m (written out) -> Rcode m = RcodeSuccess)) /\
  (forall m, In m (written out) -> Rcode m <> RcodeSuccess -> d' = d /\ notified = []).
Proof.
  destruct (serveUpdate_cases w d r) as [[rcode ->]|(Ha & updated & view & H1 & H2 & ->)].
  - split; [by left|done].
  - split.
    + right. split_and!; [done|by exists updated, view|]. intros m. apply reply_rcode.
    + intros m Hm Hn. by apply reply_rcode in Hm.
Qed.

(** ** Runs of requests *)

Definition good_request (r : Msg) : Prop := Forall good_record (NsSec r).

(** The zone is well formed and readers see exactly it. *)
Definition dyn_ok (d : DynUpdate) : Prop :=
  wf_zone (d_zone d) (d_rrs d) /\
  exists view, build d (d_rrs d) = Some view /\ d_view d = Some view.

(** The request's step on the state; requests are served under the plugin's
    lock, one at a time. *)
Inductive dyn_step : DynUpdate -> DynUpdate -> Prop :=
| dyn_step_serve w d r : good_request r -> dyn_step d (dyn_ServeDNS w d r).1.2.

Lemma serveUpdate_ok w d r : good_request r -> dyn_ok d -> dyn_ok (serveUpdate w d r).1.2.
Proof.
  intros Hr [H Hv].
  destruct (serveUpdate_cases w d r) as [[rcode ->]|(Ha & updated & view & H1 & H2 & ->)]; [done|].
  split; cbn.
  - apply wf_advance. pose proof (apply_updates_wf (d_zone d) (d_rrs d) (NsSec r) H) as Hw.
    rewrite H1 in Hw. apply Hw. destruct Ha as (_ & _ & _ & Hp). by eapply prescan_update_ok.
  - by exists view.
Qed.

Lemma dyn_step_ok d d' : dyn_step d d' -> dyn_ok d -> dyn_ok d'.
Proof.
  intros [w d0 r Hr] H. unfold dyn_ServeDNS. destruct (_ =? _); [by apply serveUpdate_ok|].
  destruct H as [H (view & Hb & Hv)]. rewrite Hv. split; [done|]. by exists view.
Qed.

(** C9: whatever sequence of requests a plugin serves, its zone stays well
    formed (one SOA, at the apex; name servers there; a CNAME alone at its
    name; every record inside the zone; no record twice), and a query or a
    transfer is always answered from a view built of exactly the current
    record set, never from part of an update. *)
Theorem dyn_run_ok (d d' : DynUpdate) :
  rtc dyn_step d d' -> dyn_ok d ->
  dyn_ok d' /\
  exists z, insert_all (NewZone (d_zone d')) (d_rrs d') = Some z /\
    (forall w r, Opcode r <> OpcodeUpdate ->
       dyn_ServeDNS w d' r = (file_ServeDNS (d_next d') (d_zone d') z r, d', [])) /\
    (forall zone serial, dyn_Transfer d' zone serial = file_Transfer (d_zone d') z zone serial).
Proof.
  intros Hrun Hd. assert (H : dyn_ok d').
  { induction Hrun as [|d1 d2 d3 Hs _ IH]; [done|]. apply IH. by eapply dyn_step_ok. }
  split; [done|]. destruct H as [_ (view & Hb & Hv)]. unfold build in Hb.
  destruct (insert_all _ _) as [z|] eqn:Ez; [|done]. injection Hb as <-. exists z.
  split_and!; [done| |].
  - intros w r Ho. unfold dyn_ServeDNS. rewrite (proj2 (Z.eqb_neq _ _) Ho), Hv. done.
  - intros zone serial. unfold dyn_Transfer. by rewrite Hv.
Qed.

(** C26: serials move forward. Whenever an UPDATE with at most one SOA to add
    changes the zone, the new SOA's serial is greater than the old one's in
    RFC 1982's sense, whether the client sent it or the server bumped it. *)
Theorem serveUpdate_serial (w : Writer) (d : DynUpdate) (r : Msg) :
  dyn_ok d -> good_request r -> (cnt offers_soa (NsSec r) <= 1)%nat ->
  (forall s, soaOf (d_rrs d) = Some s -> is_u32 (Serial s)) ->
  let d' := (serveUpdate w d r).1.2 in
  d' = d \/
  exists cur new, soaOf (d_rrs d) = Some cur /\ soaOf (d_rrs d') = Some new /\
    serialGreater (Serial new) (Serial cur) = true.
Proof.
  intros [H _] Hr Hn Hu. cbv zeta.
  destruct (serveUpdate_cases w d r) as [[rcode ->]|(Ha & updated & view & H1 & H2 & ->)]; [by left|].
  right. cbn. destruct (wf_soaOf _ _ H) as [cur Hc]. exists cur.
  assert (Hok : Forall (update_ok (d_zone d)) (NsSec r)).
  { destruct Ha as (_ & _ & _ & Hp). by eapply prescan_update_ok. }
  pose proof (apply_updates_soa (d_zone d) (d_rrs d) false (NsSec r) H Hok Hn) as Hs. cbv zeta in Hs.
  fold (apply_updates (d_zone d) (d_rrs d) (NsSec r)) in Hs. rewrite H1 in Hs. cbn [fst] in Hs.
  unfold advance. rewrite Hc.
  destruct Hs as [Hs|(_ & cur' & new & E1 & E2 & Hgt)].
  - rewrite Hs, Hc, Z.eqb_refl, soaOf_bumpSerial, Hs, Hc. eexists. split_and!; [done..|].
    cbn. by apply next_serial_greater, Hu.
  - rewrite E1 in Hc. injection Hc as <-. rewrite E2. exists new.
    assert ((Serial new =? Serial cur') = false) as ->.
    { apply Z.eqb_neq. intros E. rewrite E in Hgt. unfold serialGreater in Hgt.
      by rewrite Z.eqb_refl in Hgt. }
    done.
Qed.

(** The records an allowlist of types keeps out of reach. *)
Definition fixed (types : gset Z) : list RR -> list RR :=
  List.filter (fun x => negb (bool_decide (Rrtype (Hdr x) ∈ types))).

Lemma fixed_bumpSerial types l :
  Forall good_record l ->
  fixed types (bumpSerial l)
  = if bool_decide (TypeSOA ∈ types) then fixed types l else bumpSerial (fixed types l).
Proof.
  unfold fixed. induction 1 as [|x l [_ Hx] Hl IH]; [by case_bool_decide|].
  cbn [bumpSerial List.filter]. unfold is_soa_data in Hx. destruct (as_soa x) as [s|] eqn:E.
  - symmetry in Hx. unfold is_type in Hx. apply Z.eqb_eq in Hx. cbn [List.filter Hdr]. rewrite Hx.
    case_bool_decide; cbn [negb]; [done|]. cbn [bumpSerial]. by rewrite E.
  - cbn [List.filter]. rewrite IH.
    destruct (bool_decide (TypeSOA ∈ types)), (negb (bool_decide (Rrtype (Hdr x) ∈ types)));
      cbn [bumpSerial]; by rewrite ?E.
Qed.

Lemma apply_updates_fixed types z l ch updates :
  wf_zone z l -> Forall (update_ok z) updates ->
  Forall (fun r => Rrtype (Hdr r) ∈ types /\
                   ~ (HClass (Hdr r) = ClassANY /\ Rrtype (Hdr r) = TypeANY)) updates ->
  fixed types (foldl (apply1 z) (l, ch) updates).1 = fixed types l.
Proof.
  intros H HF. revert l ch H. induction HF as [|r t Hr Ht IH]; intros l ch H HP; [done|].
  apply Forall_cons in HP as [[Hin Hna] HP]. cbn [foldl].
  pose proof (apply1_wf z l ch r H Hr) as H1.
  assert (E : fixed types (apply1 z (l, ch) r).1 = fixed types l).
  { apply apply1_other; [apply H| |naive_solver]. intros x Hx. unfold is_type in Hx. bool_prop.
    rewrite Hx. by rewrite bool_decide_eq_true_2. }
  destruct (apply1 z (l, ch) r) as [l1 c1]. rewrite <- E. by apply IH.
Qed.

(** C27: the type policy holds. With a [mutable] list, an UPDATE leaves every
    record of a type outside the list as it was, in place, whatever it asks;
    an SOA outside the list can only have its serial advanced. *)
Theorem serveUpdate_mutable (w : Writer) (d : DynUpdate) (r : Msg) (types : gset Z) :
  dyn_ok d -> good_request r -> d_mutable d = Some types ->
  let d' := (serveUpdate w d r).1.2 in
  fixed types (d_rrs d') = fixed types (d_rrs d) \/
  fixed types (d_rrs d') = bumpSerial (fixed types (d_rrs d)).
Proof.
  intros [H _] Hr Hm. cbv zeta.
  destruct (serveUpdate_cases w d r) as [[rcode ->]|(Ha & updated & view & H1 & H2 & ->)]; [by left|].
  cbn. destruct Ha as (_ & _ & _ & Hp).
  pose proof (prescan_update_ok _ _ _ Hp Hr) as Hok.
  apply prescan_Forall in Hp.
  assert (E : fixed types updated = fixed types (d_rrs d)).
  { rewrite <- (apply_updates_fixed types (d_zone d) (d_rrs d) false (NsSec r) H Hok).
    - unfold apply_updates in H1. by rewrite H1.
    - eapply Forall_impl; [exact Hp|]. intros x Hx. by apply prescanRecord_ok in Hx as (_ & _ & _ & Hx); auto. }
  assert (Hg : Forall good_record updated).
  { pose proof (apply_updates_wf (d_zone d) (d_rrs d) (NsSec r) H Hok) as Hw. rewrite H1 in Hw. apply Hw. }
  unfold advance. repeat case_match; try (by left).
  rewrite fixed_bumpSerial, E by done. case_match; [by left|by right].
Qed.

(** A replay is harmless. When an UPDATE of one record changed the zone,
    the same message sent again is answered NOERROR and changes nothing more:
    not the records, not the serial, and no NOTIFY goes out. *)
Theorem serveUpdate_replay (w : Writer) (d : DynUpdate) (r : Msg) (u : RR) :
  dyn_ok d -> good_request r -> NsSec r = [u] -> Answer r = [] ->
  let d' := (serveUpdate w d r).1.2 in
  d' <> d -> serveUpdate w d' r = (reply w r RcodeSuccess, d', []).
Proof.
  intros [H _] Hr Hu Ha. cbv zeta.
  destruct (serveUpdate_cases w d r) as [[rcode ->]|(Hau & updated & view & H1 & H2 & ->)]; [done|].
  intros _. cbn [fst snd]. rewrite Hu in H1. cbn [apply_updates foldl] in H1.
  assert (Hok : update_ok (d_zone d) u).
  { destruct Hau as (_ & _ & _ & Hp). pose proof (prescan_update_ok _ _ _ Hp Hr) as Ho.
    rewrite Hu in Ho. exact (proj1 (Forall_singleton _ _) Ho). }
  assert (Hx : (apply1 (d_zone d) (d_rrs d, false) u).1 = updated) by (by rewrite H1).
  pose proof (apply1_idem (d_zone d) (d_rrs d) u H (proj1 Hok)) as Hi. cbv zeta in Hi. rewrite Hx in Hi.
  assert (Hadv : apply1 (d_zone d) (advance (d_rrs d) updated, false) u = (advance (d_rrs d) updated, false)).
  { pose proof (apply1_wf (d_zone d) (d_rrs d) false u H Hok) as Hw. rewrite Hx in Hw.
    pose proof (apply1_soa (d_zone d) (d_rrs d) false u H Hok) as Hs. rewrite Hx in Hs.
    unfold advance in *. destruct (wf_soaOf _ _ H) as [cur Hc]. rewrite Hc in *.
    destruct (soaOf updated) as [next|] eqn:En; [|done].
    destruct (Serial next =? Serial cur) eqn:Es; [|done]. apply Z.eqb_eq in Es.
    destruct (bumpSerial_insert updated) as [[_ ->]|(i & x & s & Hl & Hxs & ->)]; [done|].
    assert (Hno : offers_soa u = false).
    { destruct Hs as [Hs|(_ & _ & c' & n' & [= <-] & [= <-] & Hgt)].
      - destruct (offers_soa u) eqn:Eo; [|done]. exfalso. unfold offers_soa in Eo.
        apply andb_true_iff in Eo as [Eo1 Eo2]. bool_prop.
        unfold apply1, applyAdd in H1. rewrite Eo1 in H1. cbn [Z.eqb ClassINET Pos.eqb] in H1.
        fold (is_type TypeSOA u) in H1. rewrite Eo2, Hc in H1.
        destruct (as_soa u) as [new|] eqn:Eu; [|done]. destruct (_ || _) eqn:Eg; [done|].
        injection H1 as <-. rewrite deleteWhere_spec in En. cbn [fst] in En.
        rewrite (soaOf_replaced _ _ new) in En by (try done; apply H). injection En as ->.
        bool_prop. rewrite Es in *. by rewrite serialGreater_irrefl in *.
      - rewrite Es in Hgt. by rewrite serialGreater_irrefl in Hgt. }
    pose proof (Forall_lookup_1 _ _ _ _ (wf_good _ _ Hw) Hl) as [_ Hgx].
    pose proof (apply1_flag_soa (d_zone d) updated i x
      (mkRR (Hdr x) (RdSOA (set_serial (next_serial (Serial s)) s))) u Hw Hl eq_refl) as Hf.
    rewrite Hi in Hf. cbn [snd] in Hf. rewrite <- Hgx in Hf. unfold is_soa_data in Hf. rewrite Hxs in Hf.
    specialize (Hf eq_refl Hno).
    destruct (apply1 _ (<[i:=_]> updated, false) u) as [l2 c2] eqn:E2. cbn in Hf. subst c2.
    by rewrite (apply1_flag _ _ _ _ E2). }
  destruct Hau as ((q & Hq & Hqt & Hqc & Hqz) & Ht & _ & Hp).
  unfold serveUpdate. cbn [committed d_zone d_rrs d_mutable].
  rewrite Hq, Hqt, Hqc, Hqz, beqb_refl, Ht, Ha, Hp, Hu. cbn [Z.eqb ClassINET TypeSOA Pos.eqb negb orb].
  cbn [apply_updates foldl]. rewrite Hadv. done.
Qed.

End Handler.

(** ** Prerequisites *)

Section Prereqs.
Context `{N : NameLib} `{NL : !NameLaws N}.
Variables (zone : bytes) (rrs : list RR).

(** RFC 2136's reading of one prerequisite record. *)
Definition name_in_use (n : bytes) : Prop := exists x, x ∈ rrs /\ canon (Name (Hdr x)) = canon n.

Definition rrset_present (n : bytes) (t : Z) : Prop :=
  exists x, x ∈ rrs /\ canon (Name (Hdr x)) = canon n /\ Rrtype (Hdr x) = t.

Definition prereq_holds (p : RR) : Prop :=
  let h := Hdr p in
  Ttl h = 0 /\ inZone zone (Name h) = true /\
  (HClass h = ClassANY /\ Rdlength h = 0 /\
     (if Rrtype h =? TypeANY then name_in_use (Name h) else rrset_present (Name h) (Rrtype h)) \/
   HClass h = ClassNONE /\ Rdlength h = 0 /\
     (if Rrtype h =? TypeANY then ~ name_in_use (Name h) else ~ rrset_present (Name h) (Rrtype h)) \/
   HClass h = ClassINET).

(** The value-dependent prerequisites on one RRset. *)
Definition in_group (k : rrsetKey) (p : RR) : bool :=
  (HClass (Hdr p) =? ClassINET) && bool_decide (keyOf (Name (Hdr p)) (Rrtype (Hdr p)) = k).

Definition group_of (k : rrsetKey) (ps : list RR) : list RR := List.filter (in_group k) ps.

Hypothesis Hg : Forall good_record rrs.

Lemma nameInUse_spec n : nameInUse rrs n = true <-> name_in_use n.
Proof.
  unfold nameInUse, name_in_use. rewrite existsb_exists.
  split; intros (x & Hx & E); exists x; rewrite <- ?list_elem_of_In in *; (split; [done|]).
  - rewrite (good_sameName rrs) in E by done. by apply beqb_true in E.
  - rewrite (good_sameName rrs) by done. by apply beqb_true.
Qed.

Lemma rrsetExists_spec n t : rrsetExists rrs n t = true <-> rrset_present n t.
Proof.
  unfold rrsetExists, rrset_present, rrsetOf. rewrite Z.ltb_lt. split.
  - intros H. destruct (List.filter _ rrs) as [|x l] eqn:E; [done|].
    assert (Hx : In x (List.filter (fun r => sameName r (canon n) && (Rrtype (Hdr r) =? t)) rrs)) by (rewrite E; by left).
    apply filter_In in Hx as [Hx Ht]. exists x. rewrite list_elem_of_In. split; [done|].
    apply list_elem_of_In in Hx. rewrite (good_sameName rrs) in Ht by done.
    apply andb_true_iff in Ht as [H1 H2]. unfold at_name in H1. by bool_prop.
  - intros (x & Hx & H1 & H2).
    assert (Hin : In x (List.filter (fun r => sameName r (canon n) && (Rrtype (Hdr r) =? t)) rrs)).
    { apply filter_In. split; [by apply list_elem_of_In|]. rewrite (good_sameName rrs) by done.
      unfold at_name. by rewrite H1, H2, beqb_refl, Z.eqb_refl. }
    destruct (List.filter _ rrs); [done|]. rewrite zlen_cons. pose proof (zlen_nonneg l). lia.
Qed.

Lemma checkPrereqExists_spec h :
  checkPrereqExists rrs h = rcodeNoVerdict <->
  Rdlength h = 0 /\
  (if Rrtype h =? TypeANY then name_in_use (Name h) else rrset_present (Name h) (Rrtype h)).
Proof.
  unfold checkPrereqExists.
  destruct (Rdlength h =? 0) eqn:E; bool_prop; cbn [negb]; [|by split; [|intros [? _]]].
  destruct (_ =? TypeANY).
  - rewrite <- nameInUse_spec. destruct (nameInUse _ _); cbn; naive_solver.
  - rewrite <- rrsetExists_spec. destruct (rrsetExists _ _ _); cbn; naive_solver.
Qed.

Lemma checkPrereqAbsent_spec h :
  checkPrereqAbsent rrs h = rcodeNoVerdict <->
  Rdlength h = 0 /\
  (if Rrtype h =? TypeANY then ~ name_in_use (Name h) else ~ rrset_present (Name h) (Rrtype h)).
Proof.
  unfold checkPrereqAbsent.
  destruct (Rdlength h =? 0) eqn:E; bool_prop; cbn [negb]; [|by split; [|intros [? _]]].
  destruct (_ =? TypeANY).
  - rewrite <- nameInUse_spec. destruct (nameInUse _ _); cbn; naive_solver.
  - rewrite <- rrsetExists_spec. destruct (rrsetExists _ _ _); cbn; naive_solver.
Qed.

Definition add_group (vd : gmap rrsetKey (list RR)) (p : RR) : gmap rrsetKey (list RR) :=
  if HClass (Hdr p) =? ClassINET then
    let k := keyOf (Name (Hdr p)) (Rrtype (Hdr p)) in <[k := default [] (vd !! k) ++ [p]]> vd
  else vd.

Lemma scanPrereqs_spec ps vd vd' :
  scanPrereqs zone rrs ps vd = Ok vd' <-> Forall prereq_holds ps /\ vd' = foldl add_group vd ps.
Proof.
  revert vd. induction ps as [|p t IH]; intros vd; cbn [scanPrereqs foldl].
  { split; [by intros [= ->]|by intros [_ ->]]. }
  rewrite Forall_cons. unfold prereq_holds at 1. cbn zeta.
  destruct (Ttl (Hdr p) =? 0) eqn:Et; bool_prop; cbn [negb]; [|naive_solver].
  destruct (inZone _ _); cbn [negb]; [|naive_solver].
  pose proof (checkPrereqExists_spec (Hdr p)) as S1. pose proof (checkPrereqAbsent_spec (Hdr p)) as S2.
  unfold add_group at 2. 
  destruct (HClass (Hdr p) =? ClassANY) eqn:E1; bool_prop.
  { rewrite E1. cbn [Z.eqb ClassANY ClassINET Pos.eqb].
    destruct (_ =? rcodeNoVerdict) eqn:Ev; bool_prop; cbn [negb].
    - rewrite IH. naive_solver.
    - split; [done|]. intros [[(_ & _ & [H|[H|H]]) _] _]; naive_solver. }
  destruct (HClass (Hdr p) =? ClassNONE) eqn:E2; bool_prop.
  { rewrite E2. cbn [Z.eqb ClassNONE ClassINET Pos.eqb].
    destruct (_ =? rcodeNoVerdict) eqn:Ev; bool_prop; cbn [negb].
    - rewrite IH. naive_solver.
    - split; [done|]. intros [[(_ & _ & [H|[H|H]]) _] _]; naive_solver. }
  destruct (HClass (Hdr p) =? ClassINET) eqn:E3; bool_prop; [|naive_solver].
  rewrite IH. naive_solver.
Qed.

Lemma groups_lookup ps vd k :
  foldl add_group vd ps !! k
  = match group_of k ps with [] => vd !! k | l => Some (default [] (vd !! k) ++ l) end.
Proof.
  revert vd. induction ps as [|p t IH]; intros vd; [done|]. cbn [foldl group_of List.filter].
  rewrite IH. fold (group_of k t). unfold add_group, in_group.
  destruct (HClass (Hdr p) =? ClassINET); cbn [andb]; [|done].
  case_bool_decide as E.
  - subst k. rewrite lookup_insert_eq. cbn [default]. destruct (group_of _ t); [done|].
    unfold default, from_option, id. by rewrite <- app_assoc.
  - rewrite !lookup_insert_ne by done. done.
Qed.

(** C28: the prerequisites mean what RFC 2136 says. [checkPrereqs] passes
    exactly when every record of the section holds on its own (TTL zero, in
    the zone, and: name in use, RRset exists, name not in use or RRset does
    not exist, by its class and type), and for every RRset some record gives
    by value, the zone's RRset is those records, in any order and whatever
    their TTLs. *)
Theorem checkPrereqs_exact (ps : list RR) :
  checkPrereqs zone rrs ps = RcodeSuccess <->
  Forall prereq_holds ps /\
  forall k, group_of k ps <> [] ->
    (rdataKey <$> rrsetOf rrs (k_name k) (k_rrtype k)) ≡ₚ (rdataKey <$> group_of k ps).
Proof.
  unfold checkPrereqs. destruct (scanPrereqs zone rrs ps ∅) as [vd|rcode] eqn:E.
  - apply scanPrereqs_spec in E as [HF ->].
    assert (Hm : forallb (fun kw => sameRRset (rrsetOf rrs (k_name kw.1) (k_rrtype kw.1)) kw.2)
                   (map_to_list (foldl add_group ∅ ps)) = true <->
                 forall k, group_of k ps <> [] ->
                   (rdataKey <$> rrsetOf rrs (k_name k) (k_rrtype k)) ≡ₚ (rdataKey <$> group_of k ps)).
    { rewrite forallb_forall. split.
      - intros H k Hk. apply sameRRset_spec. apply (H (k, group_of k ps)).
        apply list_elem_of_In, elem_of_map_to_list. rewrite groups_lookup, lookup_empty. by destruct (group_of k ps).
      - intros H [k w] Hkw. apply list_elem_of_In, elem_of_map_to_list in Hkw.
        rewrite groups_lookup, lookup_empty in Hkw. cbn [fst snd]. apply sameRRset_spec.
        destruct (group_of k ps) as [|x l] eqn:Eg; [done|]. injection Hkw as <-. cbn [default app].
        rewrite <- Eg. apply H. by rewrite Eg. }
    case_match eqn:Ef; [naive_solver|]. split; [done|]. intros [_ H]. apply Hm in H. congruence.
  - split; [|intros [HF _]].
    + intros ->. exfalso. revert E. clear. generalize (∅ : gmap rrsetKey (list RR)).
      induction ps as [|p t IH]; intros vd; cbn [scanPrereqs]; [done|].
      unfold checkPrereqExists, checkPrereqAbsent. repeat case_match; try done; try apply IH;
        intros [= E]; bool_prop; unfold rcodeNoVerdict, RcodeSuccess in *; congruence.
    + exfalso. assert (Hs : scanPrereqs zone rrs ps ∅ = Ok (foldl add_group ∅ ps)) by (by apply scanPrereqs_spec).
      congruence.
Qed.

End Prereqs.

(** ** Names and serials *)

(** The in-place name comparison is the canonical one. For every record
    whose name is as the parsers give it and every canonical name, [sameName]
    says whether the record's name canonicalises to it; so RRset lookup,
    name-in-use and the CNAME tests are those of the names' canonical
    forms. *)
Theorem sameName_exact `{N : NameLib} `{!NameLaws N} (rrs : list RR) (n : bytes) (t : Z) :
  Forall good_record rrs ->
  (forall r, r ∈ rrs -> sameName r (canon n) = beqb (canon (Name (Hdr r))) (canon n)) /\
  rrsetOf rrs n t
  = List.filter (fun r => beqb (canon (Name (Hdr r))) (canon n) && (Rrtype (Hdr r) =? t)) rrs /\
  (nameInUse rrs n = true <-> exists r, r ∈ rrs /\ canon (Name (Hdr r)) = canon n) /\
  (hasCNAME rrs (canon n) = true <->
     exists r, r ∈ rrs /\ canon (Name (Hdr r)) = canon n /\ Rrtype (Hdr r) = TypeCNAME).
Proof.
  intros H. pose proof (good_sameName rrs n H) as Hs. split_and!.
  - exact Hs.
  - unfold rrsetOf. apply List.filter_ext_in. intros x Hx%list_elem_of_In. by rewrite Hs.
  - by apply nameInUse_spec.
  - unfold hasCNAME. rewrite existsb_exists. split; intros (x & Hx & E); exists x;
      rewrite <- ?list_elem_of_In in *; rewrite ?Hs in *; try done; unfold at_name in *; bool_prop; [done|].
    destruct E as [-> ->]. by rewrite beqb_refl.
Qed.

(** [bumpSerial] advances the zone's serial by RFC 1982's order, over the
    32-bit wrap and never onto zero, and touches nothing else: same records,
    same headers, the SOA's other fields as they were. *)
Theorem bumpSerial_advances (rrs : list RR) (s : SoaData) :
  soaOf rrs = Some s -> is_u32 (Serial s) ->
  soaOf (bumpSerial rrs) = Some (set_serial (next_serial (Serial s)) s) /\
  (exists k, 0 < k < 2 ^ 31 /\ next_serial (Serial s) = u32 (Serial s + k)) /\
  serialGreater (next_serial (Serial s)) (Serial s) = true /\
  serialGreater (Serial s) (next_serial (Serial s)) = false /\
  next_serial (Serial s) <> 0 /\
  Forall2 (fun r r' => Hdr r' = Hdr r /\ (as_soa r = None -> r' = r)) rrs (bumpSerial rrs).
Proof.
  intros Hs Hu. destruct (next_serial_greater _ Hu) as (H1 & H2 & H3). split_and!.
  - by rewrite soaOf_bumpSerial, Hs.
  - by apply serialGreater_spec.
  - done.
  - unfold serialGreater in *. apply andb_true_iff in H3 as [H3 H4].
    apply orb_true_iff in H4. rewrite !andb_true_iff, !Z.ltb_lt in H4.
    apply andb_false_iff. right. apply orb_false_iff. rewrite !andb_false_iff, !Z.ltb_ge. lia.
  - done.
  - apply bumpSerial_Forall2; [done|]. intros r s' E. split; [done|]. congruence.
Qed.

(** ** Witnesses *)

(** A [file] plugin that keeps the records and answers with those of the
    question's name and type. *)
#[local] Instance simple_filelib : FileLib := {
  FileZone := bytes * list RR;
  NewZone o := (o, []);
  Insert z r := if inZone z.1 (Name (Hdr r)) then Some (z.1, z.2 ++ [r]) else None;
  file_ServeDNS next o z m :=
    match Questions m with
    | [q] => write_one (mkMsg OpcodeQuery 0 true true false (Questions m)
               (rrsetOf z.2 (QName q) (Qtype q)) [] [] None false)
    | _ => {| written := []; code := RcodeServerFailure |}
    end;
  file_Transfer o z zone serial := if beqb zone o then Some z.2 else None
}.

Definition ex_soa (serial : Z) : RR :=
  mkRR (mkHeader (bs "example.org.") TypeSOA ClassINET 3600 0)
       (RdSOA {| Ns := bs "ns.example.org."; Mbox := bs "admin.example.org."; Serial := serial;
                 Refresh := 7200; Retry := 3600; Expire := 1209600; Minttl := 60 |}).

Definition ex_zone (serial : Z) : list RR :=
  [ex_soa serial;
   mkRR (mkHeader (bs "example.org.") TypeNS ClassINET 3600 0) (RdNS (bs "ns.example.org."));
   mkRR (mkHeader (bs "ns.example.org.") TypeA ClassINET 3600 0) (RdA [Byte.xc0; Byte.x00; Byte.x02; Byte.x01])].

Definition ex_txt : RR :=
  mkRR (mkHeader (bs "_acme-challenge.Example.ORG.") TypeTXT ClassINET 60 0) (RdTXT [bs "token"]).

Definition ex_view (rrs : list RR) : File :=
  {| f_next := None; f_origin := bs "example.org."; f_zone := (bs "example.org.", rrs) |}.

Definition ex_dyn (serial : Z) : DynUpdate :=
  {| d_next := None; d_xfer := true; d_mutable := Some {[TypeTXT]};
     d_view := Some (ex_view (ex_zone serial)); d_zone := bs "example.org."; d_rrs := ex_zone serial |}.

Definition ex_update (updates : list RR) : Msg :=
  mkMsg OpcodeUpdate 0 false false false
    [{| QName := bs "example.org."; Qtype := TypeSOA; Qclass := ClassINET |}]
    [] updates [] None true.

Definition ex_writer : Writer := {| w_tsigStatus := Some true; w_ok := true |}.

(** A zone without CNAMEs is well formed when its finite parts are. *)
Lemma wf_no_cname `{N : NameLib} z rrs :
  Forall good_record rrs ->
  forallb (fun r => inZone z (Name (Hdr r))) rrs
    && forallb (fun r => negb (is_type TypeSOA r) || at_name z r) rrs
    && (cnt (is_type TypeSOA) rrs =? 1)%nat
    && (1 <=? zone_cnt z (is_type TypeNS) rrs)%nat
    && (cnt (is_type TypeCNAME) rrs =? 0)%nat
    && bool_decide (NoDup (identity <$> rrs)) = true ->
  wf_zone z rrs.
Proof.
  intros Hg H. repeat apply andb_true_iff in H as [H ?].
  assert (Hc : forall c, zone_cnt c (is_type TypeCNAME) rrs = O).
  { intros c. apply cnt_zero. intros x Hx.
    match goal with H : (cnt (is_type TypeCNAME) rrs =? 0)%nat = true |- _ =>
      apply Nat.eqb_eq in H; rewrite cnt_zero in H; by rewrite (H x), andb_false_r end. }
  split.
  - done.
  - by apply forallb_Forall_true.
  - rewrite forallb_Forall_true in H4. eapply Forall_impl; [exact H4|]. intros x Hx E. cbn in Hx. unfold is_type in *.
    by rewrite E in Hx.
  - by apply Nat.eqb_eq.
  - by apply Nat.leb_le.
  - intros c. rewrite Hc. lia.
  - intros c. by left.
  - by refine (proj1 (bool_decide_eq_true _) _).
Qed.

Ltac good_list := repeat (apply Forall_cons; split; [split; [by intros _ _|done]|]); apply Forall_nil; done.

Lemma ex_dyn_ok : dyn_ok (ex_dyn 7).
Proof.
  split.
  - apply wf_no_cname; [good_list|]. vm_compute. reflexivity.
  - eexists. split; reflexivity.
Qed.

Lemma ex_good_txt : good_request (ex_update [ex_txt]).
Proof. good_list. Qed.

(** The record set after the example update: the challenge, and serial 8. *)
Definition ex_after : DynUpdate := (serveUpdate ex_writer (ex_dyn 7) (ex_update [ex_txt])).1.2.

Example ex_after_rrs : d_rrs ex_after = ex_zone 8 ++ [ex_txt].
Proof. vm_compute. reflexivity. Qed.

Lemma dyn_run_ok_witness :
  dyn_ok ex_after /\
  exists z, insert_all (NewZone (d_zone ex_after)) (d_rrs ex_after) = Some z.
Proof.
  destruct (dyn_run_ok (ex_dyn 7) ex_after) as [H (z & Hz & _)].
  - apply rtc_once. change ex_after with (dyn_ServeDNS ex_writer (ex_dyn 7) (ex_update [ex_txt])).1.2.
    constructor. exact ex_good_txt.
  - exact ex_dyn_ok.
  - split; [exact H|]. exists z. exact Hz.
Defined.

Lemma serveUpdate_atomic_witness :
  authorised ex_writer (ex_dyn 7) (ex_update [ex_txt]) /\ d_rrs ex_after <> d_rrs (ex_dyn 7).
Proof.
  pose proof (serveUpdate_atomic ex_writer (ex_dyn 7) (ex_update [ex_txt])) as H.
  assert (E : d_rrs ex_after <> d_rrs (ex_dyn 7)) by (rewrite ex_after_rrs; vm_compute; discriminate).
  unfold ex_after in *. destruct (serveUpdate _ _ _) as [[out d'] n]. cbn [fst snd] in E.
  split; [|exact E]. destruct H as [[[H _]|[H _]] _]; [|exact H]. exfalso. apply E. by rewrite H.
Defined.

Lemma serveUpdate_serial_witness :
  exists cur new, soaOf (d_rrs (ex_dyn 7)) = Some cur /\ soaOf (d_rrs ex_after) = Some new /\
    serialGreater (Serial new) (Serial cur) = true.
Proof.
  destruct (serveUpdate_serial ex_writer (ex_dyn 7) (ex_update [ex_txt])) as [H|H].
  - exact ex_dyn_ok.
  - exact ex_good_txt.
  - vm_compute. lia.
  - intros s [= <-]. cbn. unfold is_u32. lia.
  - exfalso. assert (E : d_rrs ex_after = d_rrs (ex_dyn 7)) by (unfold ex_after; by rewrite H).
    rewrite ex_after_rrs in E. vm_compute in E. discriminate.
  - exact H.
Defined.

Lemma serveUpdate_mutable_witness :
  fixed {[TypeTXT]} (d_rrs ex_after) = bumpSerial (fixed {[TypeTXT]} (d_rrs (ex_dyn 7))).
Proof.
  destruct (serveUpdate_mutable ex_writer (ex_dyn 7) (ex_update [ex_txt]) {[TypeTXT]}) as [H|H].
  - exact ex_dyn_ok.
  - exact ex_good_txt.
  - reflexivity.
  - exfalso. fold ex_after in H. rewrite ex_after_rrs in H. vm_compute in H. discriminate.
  - exact H.
Defined.

Lemma serveUpdate_replay_witness :
  serveUpdate ex_writer ex_after (ex_update [ex_txt])
  = (reply ex_writer (ex_update [ex_txt]) RcodeSuccess, ex_after, []).
Proof.
  apply (serveUpdate_replay ex_writer (ex_dyn 7) (ex_update [ex_txt]) ex_txt).
  - exact ex_dyn_ok.
  - exact ex_good_txt.
  - reflexivity.
  - reflexivity.
  - intros H. assert (E : d_rrs ex_after = d_rrs (ex_dyn 7)) by (unfold ex_after; by rewrite H).
    rewrite ex_after_rrs in E. vm_compute in E. discriminate.
Defined.

(** The challenge must not exist yet, and the A record of the name server is
    the one given. *)
Definition ex_prereqs : list RR :=
  [mkRR (mkHeader (bs "_acme-challenge.example.org.") TypeTXT ClassNONE 0 0) (RdTXT []);
   mkRR (mkHeader (bs "NS.example.org.") TypeA ClassINET 0 0) (RdA [Byte.xc0; Byte.x00; Byte.x02; Byte.x01])].

Lemma checkPrereqs_exact_witness :
  Forall (prereq_holds (bs "example.org.") (ex_zone 7)) ex_prereqs.
Proof.
  apply (checkPrereqs_exact (bs "example.org.") (ex_zone 7)).
  - good_list.
  - vm_compute. reflexivity.
Defined.

Lemma sameName_exact_witness :
  rrsetOf (ex_zone 7) (bs "NS.EXAMPLE.ORG") TypeA = [nth 2 (ex_zone 7) (ex_soa 7)].
Proof.
  destruct (sameName_exact (ex_zone 7) (bs "NS.EXAMPLE.ORG") TypeA) as (_ & H & _).
  - good_list.
  - rewrite H. vm_compute. reflexivity.
Defined.

Lemma bumpSerial_advances_witness :
  soaOf (bumpSerial (ex_zone (2 ^ 32 - 1))) <> None /\ serialGreater 1 (2 ^ 32 - 1) = true.
Proof.
  destruct (bumpSerial_advances (ex_zone (2 ^ 32 - 1))
    (default {| Ns := []; Mbox := []; Serial := 0; Refresh := 0; Retry := 0; Expire := 0; Minttl := 0 |}
       (soaOf (ex_zone (2 ^ 32 - 1))))) as (H & _ & Hg & _).
  - reflexivity.
  - cbn. unfold is_u32. lia.
  - split; [by rewrite H|]. revert Hg. vm_compute. done.
Defined.

(** ** Where the code falls short of its comments *)

(** An UPDATE with two SOA records, each newer than the zone's at its turn,
    winds the serial back: from 0 over 2^31-1 to 2^32-2, to which 0 is the
    newer. The limit of one SOA in [serveUpdate_serial] is needed. *)
Theorem two_soas_wind_back :
  let r := ex_update [ex_soa (2 ^ 31 - 1); ex_soa (2 ^ 32 - 2)] in
  let d := ex_dyn 0 in
  let d' := (serveUpdate ex_writer {| d_next := d_next d; d_xfer := d_xfer d; d_mutable := None;
               d_view := d_view d; d_zone := d_zone d; d_rrs := d_rrs d |} r).1.2 in
  Serial <$> soaOf (d_rrs d) = Some 0 /\ Serial <$> soaOf (d_rrs d') = Some (2 ^ 32 - 2) /\
  serialGreater (2 ^ 32 - 2) 0 = false /\ serialGreater 0 (2 ^ 32 - 2) = true.
Proof. vm_compute. done. Qed.

(** An ASCII name that ends in an escaped dot is not fully qualified, and
    [sameName] does not recognise it under its own canonical form. *)
Theorem sameName_escaped_dot :
  let r := mkRR (mkHeader (bs "a\.") TypeA ClassINET 0 0) (RdA []) in
  canon (Name (Hdr r)) = bs "a\.." /\ sameName r (canon (Name (Hdr r))) = false.
Proof. vm_compute. done. Qed.
