(* ===== verification/DynSetup.v ===== *)
(** * Configuring [dynupdate] ([dynupdate/setup.go])

    The Corefile block, the seed zone file and the first view.  CoreDNS's
    [plugin.Host], the [file] plugin's parser and the file system are
    parameters. *)

From S2P Require Import Prelude GoStrings Netip Dns SimpleDns Caddy DynZone DynUpdate DynProps.

(** What [file.Parse] returns of a zone file: the apex records it keeps apart
    and, from [All], every other element of the tree in order. *)
Record ParsedZone := {
  pz_SOA : option RR; pz_NS : list RR; pz_SIGSOA : list RR; pz_SIGNS : list RR;
  pz_All : list (list RR)
}.

(** The properties of a block, as [parseBlock] fills them in. *)
Record DynBlock := { db_seed : bytes; db_mutable : option (gset Z) }.

Section Setup.
Context `{N : NameLib} `{F : FileLib} {D : Type} `{!Dispenser D}.
(** [plugin.Host(h).NormalizeExact()] is never empty: its first element. *)
Variable NormalizeExact : bytes -> bytes.
(** Opening [name] under the root [dir], and parsing it as a zone file. *)
Variable open_zone : bytes -> bytes -> option bytes.
Variable file_Parse : bytes -> bytes -> bytes -> option ParsedZone.

Definition parseOrigin (d : D) : result ParseErr (bytes * D) :=
  let '(args, d') := RemainingArgs d in
  match args with
  | [] =>
      match ServerBlockKeys d' with
      | [] => Err (PErr (bs "no zone given and none inferable from the server block"))
      | k :: _ => Ok (canon (NormalizeExact k), d')
      end
  | [a] => Ok (canon (NormalizeExact a), d')
  | _ => Err (PErr (bs "exactly one zone per dynupdate block"))
  end.

Fixpoint parseTypes (types : list bytes) (acc : gset Z) : result ParseErr (gset Z) :=
  match types with
  | [] => Ok acc
  | t :: rest => match StringToType (ToUpper t) with
                 | None => Err (PErr (bs "unknown RR type"))
                 | Some code => parseTypes rest ({[code]} ∪ acc)
                 end
  end.

Definition parseMutable (d : D) (b : DynBlock) : result ParseErr (D * DynBlock) :=
  let '(types, d') := RemainingArgs d in
  match types with
  | [] => Err ArgErr
  | _ => m ← parseTypes types ∅; Ok (d', {| db_seed := db_seed b; db_mutable := Some m |})
  end.

Definition dyn_parse_line (d : D) (b : DynBlock) : result ParseErr (D * DynBlock) :=
  if beqb (Val d) (bs "file") then
    '(v, d') ← arg1 d; Ok (d', {| db_seed := v; db_mutable := db_mutable b |})
  else if beqb (Val d) (bs "mutable") then parseMutable d b
  else Err (PErr (bs "unknown property")).

Definition parseBlock (d : D) : result ParseErr (D * DynBlock) :=
  block_loop dyn_parse_line d {| db_seed := []; db_mutable := None |}.

Definition readZone (path origin : bytes) : result ParseErr (list RR) :=
  let '(dir, name) := filepath_Split path in
  if beqb name [] then Err (PErr (bs "zone file has no file component"))
  else
    let dir := if beqb dir [] then bs "." else dir in
    match open_zone dir name with
    | None => Err (PErr (bs "opening zone file"))
    | Some f =>
        match file_Parse f origin path with
        | None => Err (PErr (bs "parsing"))
        | Some z => Ok (match pz_SOA z with Some s => [s] | None => [] end
                        ++ pz_NS z ++ pz_SIGSOA z ++ pz_SIGNS z ++ concat (pz_All z))
        end
    end.

(** [parse]; the view is built later, when the next handler is known. *)
Definition dyn_parse (d : D) : result ParseErr DynUpdate :=
  match Next d with
  | (false, _) => Err ArgErr
  | (true, d1) =>
      '(origin, d2) ← parseOrigin d1;
      '(_, b) ← parseBlock d2;
      if beqb (db_seed b) [] then Err (PErr (bs "a `file` seed zone is required"))
      else
        rrs ← readZone (db_seed b) origin;
        match soaOf rrs with
        | None => Err (PErr (bs "has no SOA"))
        | Some _ => Ok {| d_next := None; d_xfer := false; d_mutable := db_mutable b;
                          d_view := None; d_zone := origin; d_rrs := rrs |}
        end
  end.

(** The two callbacks [setup] registers: the plugin is linked to the next
    handler and its view rebuilt (a failure is logged and leaves the view as
    it was), and at startup the [transfer] plugin is looked up. *)
Definition setup_link (d : DynUpdate) (next : chain) : DynUpdate :=
  let d := {| d_next := Some next; d_xfer := d_xfer d; d_mutable := d_mutable d;
              d_view := d_view d; d_zone := d_zone d; d_rrs := d_rrs d |} in
  match swap d (d_rrs d) with Some d' => d' | None => d end.

Definition setup_startup (d : DynUpdate) (transfer : bool) : DynUpdate :=
  {| d_next := d_next d; d_xfer := transfer || d_xfer d; d_mutable := d_mutable d;
     d_view := d_view d; d_zone := d_zone d; d_rrs := d_rrs d |}.

(** [setup] and the two callbacks, in the order CoreDNS runs them: the plugin
    as it starts serving. *)
Definition dyn_setup (d : D) (next : chain) (transfer : bool) : result ParseErr DynUpdate :=
  p ← dyn_parse d;
  Ok (setup_startup (setup_link p next) transfer).

(** *** Lemmas *)

Definition known_types (m : option (gset Z)) : Prop :=
  forall types, m = Some types -> (exists t, t ∈ types) /\ forall t, t ∈ types -> exists s, StringToType s = Some t.

Lemma parseTypes_known types acc m :
  (forall t, t ∈ acc -> exists s, StringToType s = Some t) ->
  parseTypes types acc = Ok m ->
  (forall t, t ∈ m -> exists s, StringToType s = Some t) /\ acc ⊆ m /\ (types <> [] -> exists t, t ∈ m).
Proof.
  revert acc. induction types as [|t rest IH]; intros acc Ha; cbn [parseTypes].
  { intros [= <-]. done. }
  destruct (StringToType (ToUpper t)) as [c|] eqn:E; [|done].
  intros H. apply IH in H as (H1 & H2 & _).
  - split_and!; [done|set_solver|]. intros _. exists c. set_solver.
  - intros x [->%elem_of_singleton|Hx]%elem_of_union; [eauto|by apply Ha].
Qed.

Lemma parseTypes_total types acc : parseTypes types acc <> Err OutOfFuel.
Proof.
  revert acc. induction types as [|t rest IH]; intros acc; cbn [parseTypes]; [done|].
  destruct (StringToType (ToUpper t)); [apply IH|done].
Qed.

Lemma parseBlock_known d d' b : parseBlock d = Ok (d', b) -> known_types (db_mutable b).
Proof.
  intros H. refine (loop_inv NextBlock dyn_parse_line (fun b => known_types (db_mutable b)) _ _ _ _ _ _ _ H);
    [|by intros ??].
  intros d0 b0 d1 b1 Hb. unfold dyn_parse_line, parseMutable.
  destruct (beqb (Val d0) (bs "file")).
  { intros Hl. apply bind_ok in Hl as ([v d2] & _ & Hl). by injection Hl as <- <-. }
  destruct (beqb _ _); [|done]. destruct (RemainingArgs d0) as [[|t types] d2]; [done|].
  intros Hl. apply bind_ok in Hl as (m & Hm & Hl). injection Hl as <- <-.
  apply parseTypes_known in Hm as (H1 & _ & H2); [|set_solver].
  intros ? [= <-]. split; [by apply H2|done].
Qed.

(** The loops of a block never run out of steps. *)
Lemma dyn_block_total d : DispenserLaws D -> parseBlock d <> Err OutOfFuel.
Proof.
  intros HD. apply loop_fuel.
  - apply NextBlock_size.
  - intros d0 b d1 b'. unfold dyn_parse_line, parseMutable, arg1.
    destruct (beqb _ (bs "file")).
    { destruct (NextArg d0) as [[] d2] eqn:E; [|done]. cbn. intros [= <- <-]. by apply NextArg_size in E. }
    destruct (beqb _ _); [|done]. destruct (RemainingArgs d0) as [[|t ts] d2] eqn:E; [done|].
    intros H. apply bind_ok in H as (m & _ & H). injection H as <- <-. by apply RemainingArgs_size in E.
  - intros d0 b. unfold dyn_parse_line, parseMutable, arg1.
    destruct (beqb _ (bs "file")); [by destruct (NextArg d0) as [[]]|].
    destruct (beqb _ _); [|done]. destruct (RemainingArgs d0) as [[|t ts] d2]; [done|].
    destruct (parseTypes (t :: ts) ∅) eqn:E; cbn; [done|]. intros [= ->].
    by apply parseTypes_total in E.
  - lia.
Qed.

End Setup.

(** What a [dynupdate] block configures. A block that is accepted serves
    one zone under its canonical (folded) name, from the seed file's records,
    among them an SOA; its type policy, if any, is a non-empty set of types
    the library knows. Linking the plugin then builds the view from exactly
    those records, or leaves the plugin without one if the [file] plugin
    refuses a record; and the parser always ends, with a configuration or one
    of its own errors. *)
Theorem dyn_parse_safe `{N : NameLib} `{!NameLaws N} `{F : FileLib} {D} `{!Dispenser D} `{!DispenserLaws D}
    NormalizeExact open_zone file_Parse (d : D) :
  dyn_parse NormalizeExact open_zone file_Parse d <> Err OutOfFuel /\
  forall p, dyn_parse NormalizeExact open_zone file_Parse d = Ok p ->
  lower (d_zone p) = d_zone p /\ soaOf (d_rrs p) <> None /\ known_types (d_mutable p) /\
  forall next, let p' := setup_link p next in
    d_rrs p' = d_rrs p /\ d_view p' = build p' (d_rrs p').
Proof.
  unfold dyn_parse. destruct (Next d) as [[] d1]; [|done]. split.
  - apply bind_total.
    { unfold parseOrigin. repeat case_match; done. }
    intros [o d2] _. apply bind_total; [by apply dyn_block_total|]. intros [d3 b] _.
    case_match; [done|]. apply bind_total.
    { unfold readZone. repeat case_match; done. }
    intros rrs _. by case_match.
  - intros p H. inv_ok. destruct x as [origin d2]. inv_ok. destruct x as [d3 b].
    destruct (beqb (db_seed b) []); [done|]. inv_ok. destruct (soaOf x) eqn:Es; [|done]. inv_ok.
    cbn [d_zone d_rrs d_mutable]. split_and!.
    + unfold parseOrigin in *. destruct (RemainingArgs d1) as [[|a [|??]] d2']; [|by inv_ok; apply canon_folded|done].
      case_match; inv_ok; apply canon_folded.
    + by rewrite Es.
    + by eapply parseBlock_known.
    + intros next. unfold setup_link, swap, build. cbn [d_zone d_rrs].
      destruct (insert_all _ _) eqn:E; cbn; by rewrite E.
Qed.

(** From the Corefile to any run: a plugin that [setup] accepted over a
    well-formed seed zone, every record of which the [file] plugin takes, serves
    exactly that zone to begin with, and whatever it is asked afterwards its
    zone stays well formed and its view that of its records. *)
Theorem dyn_setup_runs `{N : NameLib} `{!NameLaws N} `{L : MsgLib} `{!MsgLaws L} `{F : FileLib} {D} `{!Dispenser D}
    NormalizeExact open_zone file_Parse (d : D) next transfer p p' :
  dyn_setup NormalizeExact open_zone file_Parse d next transfer = Ok p ->
  wf_zone (d_zone p) (d_rrs p) -> build p (d_rrs p) <> None ->
  rtc dyn_step p p' ->
  d_next p = Some next /\ d_view p = build p (d_rrs p) /\ dyn_ok p'.
Proof.
  intros H Hw Hb Hr. unfold dyn_setup in H. apply bind_ok in H as (q & _ & H). injection H as <-.
  assert (E : d_next (setup_startup (setup_link q next) transfer) = Some next /\
              d_view (setup_startup (setup_link q next) transfer)
              = build (setup_startup (setup_link q next) transfer) (d_rrs (setup_startup (setup_link q next) transfer))).
  { unfold setup_link, swap in *. cbn [d_rrs] in *. destruct (build _ (d_rrs q)) as [v|] eqn:E; cbn [mbind option_bind] in *; [split; [done|exact (eq_sym E)]|].
    exfalso. apply Hb. exact E. }
  destruct E as [En Ev]. split; [done|]. split; [done|].
  assert (Hok : dyn_ok (setup_startup (setup_link q next) transfer)).
  { split; [done|]. rewrite Ev. destruct (build _ _) as [v|]; [by exists v|done]. }
  revert Hok Hr. generalize (setup_startup (setup_link q next) transfer). intros s Hok Hr.
  induction Hr as [|x y z Hs _ IH]; [done|]. apply IH. by eapply dyn_step_ok.
Qed.

(** A parser of one known file for the witness. *)
Definition ex_Parse (f origin path : bytes) : option ParsedZone :=
  Some {| pz_SOA := Some (mkRR (mkHeader origin TypeSOA ClassINET 3600 0)
            (RdSOA {| Ns := bs "ns.example.org."; Mbox := bs "admin.example.org."; Serial := 7;
                      Refresh := 7200; Retry := 3600; Expire := 1209600; Minttl := 60 |}));
          pz_NS := [mkRR (mkHeader origin TypeNS ClassINET 3600 0) (RdNS (bs "ns.example.org."))];
          pz_SIGSOA := []; pz_SIGNS := []; pz_All := [] |}.

#[local] Instance ex_filelib : FileLib := {
  FileZone := list RR;
  NewZone _ := [];
  Insert z r := Some (z ++ [r]);
  file_ServeDNS _ _ _ _ := {| written := []; code := RcodeSuccess |};
  file_Transfer _ z _ _ := Some z
}.

Lemma dyn_parse_safe_witness :
  exists p, dyn_parse (fun h => h) (fun _ _ => Some []) ex_Parse
              (corefile [bs "Example.ORG."] [([], [(bs "file", [bs "/zones/db.example.org"]);
                                                   (bs "mutable", [bs "txt"])])]) = Ok p
            /\ d_zone p = bs "example.org." /\ known_types (d_mutable p).
Proof.
  eexists. split; [vm_compute; reflexivity|]. split; [reflexivity|].
  refine (proj1 (proj2 (proj2 (proj2 (dyn_parse_safe (fun h => h) (fun _ _ => Some []) ex_Parse
    (corefile [bs "Example.ORG."] [([], [(bs "file", [bs "/zones/db.example.org"]);
                                        (bs "mutable", [bs "txt"])])])) _ _)))).
  vm_compute. reflexivity.
Defined.

Lemma dyn_setup_runs_witness :
  exists p, dyn_setup (fun h => h) (fun _ _ => Some []) ex_Parse
              (corefile [bs "example.org."] [([], [(bs "file", [bs "/zones/db.example.org"])])])
              (fun _ => {| written := []; code := RcodeRefused |}) true = Ok p /\ dyn_ok p.
Proof.
  eexists. split; [vm_compute; reflexivity|].
  eapply (dyn_setup_runs (fun h => h) (fun _ _ => Some []) ex_Parse
            (corefile [bs "example.org."] [([], [(bs "file", [bs "/zones/db.example.org"])])])
            (fun _ => {| written := []; code := RcodeRefused |}) true).
  - vm_compute. reflexivity.
  - apply wf_no_cname; [good_list|]. vm_compute. reflexivity.
  - vm_compute. discriminate.
  - reflexivity.
Defined.
