(* ===== verification/DynHeap.v ===== *)
(** * Pointers and shared arrays in [dynupdate]

    [DynUpdate.v] treats a record set as a value.  In the program it is a Go
    slice of pointers: the plugin's [rrs], the working copy of an update and
    the served view share records, [append] writes into a backing array when
    it has room, and [Insert] of the [file] plugin writes to the record it is
    handed.  This file translates the update path again over an explicit heap
    of records and backing arrays and proves that it computes what
    [DynUpdate.serveUpdate] computes and writes to nothing that was there
    before: the record set and the view that readers hold stay as they were,
    also when the rebuild fails half way.

    A computation is a state transformer that fails where Go panics (a nil or
    dangling pointer, an index out of range); [wp] is its weakest precondition,
    and each operation has one specification in it.  Functions that only read
    ([checkPrereqs], [prescan], [sameName]) are applied to the records read
    from the heap. *)

From S2P Require Import Prelude GoStrings Netip Dns SimpleDns DynZone DynUpdate DynProps.

Definition Ptr : Type := nat.

(** A slice: its backing array, where it starts in it and its length.  Its
    capacity is what is left of the array. *)
Record Slice := { s_arr : nat; s_off : nat; s_len : nat }.

(** Records and backing arrays by address ([None] in an array is nil), and the
    next free address. *)
Record Heap := {
  h_rr : gmap nat RR;
  h_arr : gmap nat (list (option Ptr));
  h_next : nat
}.

(** ** Computations on the heap *)

Definition M (A : Type) : Type := Heap -> option (A * Heap).

#[global] Instance M_ret : MRet M := fun _ a h => Some (a, h).
#[global] Instance M_bind : MBind M := fun _ _ f m h =>
  match m h with Some (a, h') => f a h' | None => None end.

Fixpoint foldM {A B : Type} (f : B -> A -> M B) (b : B) (l : list A) : M B :=
  match l with
  | [] => mret b
  | a :: t => b' ← f b a; foldM f b' t
  end.

Definition panic {A : Type} : M A := fun _ => None.

Definition load (p : Ptr) : M RR := fun h => r ← h_rr h !! p; Some (r, h).

Definition store (p : Ptr) (r : RR) : M unit := fun h =>
  match h_rr h !! p with
  | Some _ => Some (tt, {| h_rr := <[p := r]> (h_rr h); h_arr := h_arr h; h_next := h_next h |})
  | None => None
  end.

Definition new_rr (r : RR) : M Ptr := fun h =>
  Some (h_next h, {| h_rr := <[h_next h := r]> (h_rr h); h_arr := h_arr h; h_next := S (h_next h) |}).

(** [dns.Copy]: a new record of the same value. *)
Definition Copy (p : Ptr) : M Ptr := r ← load p; new_rr r.

Definition load_arr (a : nat) : M (list (option Ptr)) := fun h => l ← h_arr h !! a; Some (l, h).

Definition store_arr (a : nat) (l : list (option Ptr)) : M unit := fun h =>
  Some (tt, {| h_rr := h_rr h; h_arr := <[a := l]> (h_arr h); h_next := h_next h |}).

Definition new_arr (l : list (option Ptr)) : M nat := fun h =>
  Some (h_next h, {| h_rr := h_rr h; h_arr := <[h_next h := l]> (h_arr h); h_next := S (h_next h) |}).

(** ** Slices of records *)

(** [make([]dns.RR, 0, n)] *)
Definition make_slice (n : nat) : M Slice :=
  a ← new_arr (replicate n None); mret {| s_arr := a; s_off := 0; s_len := 0 |}.

(** The cells of a slice. *)
Definition cells (s : Slice) : M (list (option Ptr)) :=
  a ← load_arr (s_arr s); mret (take (s_len s) (drop (s_off s) a)).

(** The records a [range] over the slice visits; a method call on a nil one
    panics. *)
Definition range (s : Slice) : M (list Ptr) :=
  cs ← cells s; match mapM id cs with Some ps => mret ps | None => panic end.

(** [s[i]] as an operand and as a target. *)
Definition index (s : Slice) (i : nat) : M Ptr :=
  ps ← range s; match ps !! i with Some p => mret p | None => panic end.

Definition set_index (s : Slice) (i : nat) (p : Ptr) : M unit :=
  if (i <? s_len s)%nat then
    a ← load_arr (s_arr s); store_arr (s_arr s) (<[(s_off s + i)%nat := Some p]> a)
  else panic.

(** [s[:i]] and [s[i:]] *)
Definition slice_to (s : Slice) (i : nat) : M Slice :=
  a ← load_arr (s_arr s);
  if (s_off s + i <=? length a)%nat then mret {| s_arr := s_arr s; s_off := s_off s; s_len := i |}
  else panic.

Definition slice_from (s : Slice) (i : nat) : M Slice :=
  if (i <=? s_len s)%nat then
    mret {| s_arr := s_arr s; s_off := (s_off s + i)%nat; s_len := (s_len s - i)%nat |}
  else panic.

(** What the language leaves to the implementation: how much room [append]
    leaves in the larger array it allocates, given the old capacity and the
    length it needs; and what CoreDNS's [Insert] leaves in the record it is
    given (it lower-cases names in place). *)
Class Runtime `{F : FileLib} := {
  spare : nat -> nat -> nat;
  Insert_leaves : FileZone -> RR -> RR
}.

Section Heaps.
Context `{N : NameLib} `{L : MsgLib} `{F : FileLib} `{R : !Runtime}.

(** [append(s, vs...)]: in place when the capacity allows, in a new array
    otherwise. *)
Definition append (s : Slice) (vs : list (option Ptr)) : M Slice :=
  a ← load_arr (s_arr s);
  let need := (s_len s + length vs)%nat in
  let capacity := (length a - s_off s)%nat in
  if (need <=? capacity)%nat then
    _ ← store_arr (s_arr s)
          (take (s_off s + s_len s)%nat a ++ vs ++ drop (s_off s + need)%nat a);
    mret {| s_arr := s_arr s; s_off := s_off s; s_len := need |}
  else
    b ← new_arr (take (s_len s) (drop (s_off s) a) ++ vs ++ replicate (spare capacity need) None);
    mret {| s_arr := b; s_off := 0; s_len := need |}.

(** ** The zone functions that write *)

(** [rdataKey]: the name, TTL and class are overwritten in a copy. *)
Definition p_rdataKey (p : Ptr) : M bytes :=
  c ← Copy p;
  r ← load c;
  let h := Hdr r in
  _ ← store c (mkRR (mkHeader (canon (Name h)) (Rrtype h) (HClass h) (Ttl h) (Rdlength h)) (Data r));
  r ← load c;
  _ ← store c (set_ttl 0 r);
  r ← load c;
  let h := Hdr r in
  _ ← store c (mkRR (mkHeader (Name h) (Rrtype h) ClassINET (Ttl h) (Rdlength h)) (Data r));
  r ← load c;
  mret (rr_String r).

(** The loop of [indexOfRR], with the key of [want] rendered once. *)
Fixpoint p_index_loop (ps : list Ptr) (i : nat) (want : Ptr) (wr : RR) (canonical : bytes)
    (k : option bytes) : M (option nat) :=
  match ps with
  | [] => mret None
  | p :: t =>
      r ← load p;
      if negb (Rrtype (Hdr r) =? Rrtype (Hdr wr)) || negb (sameName r canonical) then
        p_index_loop t (S i) want wr canonical k
      else
        key ← match k with Some k => mret k | None => p_rdataKey want end;
        have ← p_rdataKey p;
        if beqb have key then mret (Some i) else p_index_loop t (S i) want wr canonical (Some key)
  end.

Definition p_indexOfRR (rrs : Slice) (want : Ptr) : M (option nat) :=
  wr ← load want;
  ps ← range rrs;
  p_index_loop ps 0 want wr (canon (Name (Hdr wr))) None.

Definition p_deleteWhere (rrs : Slice) (changed : bool) (m : RR -> bool) : M (Slice * bool) :=
  out ← make_slice (s_len rrs);
  ps ← range rrs;
  foldM (fun s p => r ← load p;
                    if m r then mret (s.1, true)
                    else (out ← append s.1 [Some p]; mret (out, s.2)))
        (out, changed) ps.

(** [bumpSerial]: the first SOA's slot gets an advanced copy. *)
Fixpoint p_bump_loop (rrs : Slice) (ps : list Ptr) (i : nat) : M unit :=
  match ps with
  | [] => mret tt
  | p :: t =>
      r ← load p;
      match as_soa r with
      | None => p_bump_loop rrs t (S i)
      | Some soa =>
          next ← new_rr (mkRR (Hdr r) (RdSOA (set_serial (next_serial (Serial soa)) soa)));
          set_index rrs i next
      end
  end.

Definition p_bumpSerial (rrs : Slice) : M unit := ps ← range rrs; p_bump_loop rrs ps 0.

(** The records of a slice, for the functions that only read them. *)
Definition read_all (ps : list Ptr) : M (list RR) := fun h =>
  l ← mapM (fun p => h_rr h !! p) ps; Some (l, h).

Definition contents (s : Slice) : M (list RR) := ps ← range s; read_all ps.

(** ** Applying the update section *)

Section Apply.
Variable zone : bytes.

Definition p_applyAdd (out : Slice) (changed : bool) (rr : Ptr) (r : RR) (name : bytes) (apex : bool)
  : M (Slice * bool) :=
  let h := Hdr r in
  l ← contents out;
  if Rrtype h =? TypeSOA then
    match as_soa r, soaOf l with
    | Some newSOA, Some cur =>
        if negb apex || negb (serialGreater (Serial newSOA) (Serial cur)) then mret (out, changed)
        else
          d ← p_deleteWhere out changed (is_type TypeSOA);
          c ← Copy rr;
          out ← append d.1 [Some c];
          mret (out, true)
    | _, _ => mret (out, changed)
    end
  else if (Rrtype h =? TypeCNAME) && hasNonCNAME l name then mret (out, changed)
  else if negb (Rrtype h =? TypeCNAME) && hasCNAME l name then mret (out, changed)
  else
    found ← p_indexOfRR out rr;
    match found with
    | Some i =>
        p ← index out i;
        x ← load p;
        if negb (Ttl (Hdr x) =? Ttl h) then
          c ← Copy p;
          _ ← set_index out i c;
          q ← index out i;
          y ← load q;
          _ ← store q (set_ttl (Ttl h) y);
          mret (out, true)
        else mret (out, changed)
    | None =>
        out ← (if Rrtype h =? TypeCNAME then
                 d ← p_deleteWhere out changed (fun x => sameName x name && is_type TypeCNAME x);
                 mret d.1
               else mret out);
        c ← Copy rr;
        out ← append out [Some c];
        mret (out, true)
    end.

Definition p_applyDeleteRRset (out : Slice) (changed : bool) (h : Header) (name : bytes) (apex : bool)
  : M (Slice * bool) :=
  if Rrtype h =? TypeANY then
    p_deleteWhere out changed (fun x =>
      if negb (sameName x name) then false
      else if apex && (is_type TypeSOA x || is_type TypeNS x) then false
      else true)
  else if apex && ((Rrtype h =? TypeSOA) || (Rrtype h =? TypeNS)) then mret (out, changed)
  else p_deleteWhere out changed (fun x => sameName x name && is_type (Rrtype h) x).

Definition p_applyDeleteRecord (out : Slice) (changed : bool) (rr : Ptr) (r : RR) (name : bytes)
    (apex : bool) : M (Slice * bool) :=
  let h := Hdr r in
  l ← contents out;
  if apex && (Rrtype h =? TypeSOA) then mret (out, changed)
  else if apex && (Rrtype h =? TypeNS) && (countRRset l name TypeNS <=? 1)%nat then mret (out, changed)
  else
    found ← p_indexOfRR out rr;
    match found with
    | Some i =>
        rest ← slice_from out (S i);
        vs ← cells rest;
        front ← slice_to out i;
        out ← append front vs;
        mret (out, true)
    | None => mret (out, changed)
    end.

Definition p_apply1 (s : Slice * bool) (rr : Ptr) : M (Slice * bool) :=
  r ← load rr;
  let h := Hdr r in
  let name := canon (Name h) in
  let apex := beqb name zone in
  if HClass h =? ClassINET then p_applyAdd s.1 s.2 rr r name apex
  else if HClass h =? ClassANY then p_applyDeleteRRset s.1 s.2 h name apex
  else if HClass h =? ClassNONE then p_applyDeleteRecord s.1 s.2 rr r name apex
  else mret s.

(** [apply]: over a copy of the plugin's slice. *)
Definition p_apply (rrs : Slice) (updates : list Ptr) : M (Slice * bool) :=
  out ← make_slice (s_len rrs);
  vs ← cells rrs;
  out ← append out vs;
  foldM p_apply1 (out, false) updates.

End Apply.

(** ** The handler *)

(** A served view: the [file] zone, and the records its tree holds with what
    [Insert] left in them.  The zone answers as built as long as those are
    untouched. *)
Record PFile := { pf_file : File; pf_recs : list (Ptr * RR) }.

Record PDyn := {
  p_next : option chain;
  p_xfer : bool;
  p_mutable : option (gset Z);
  p_view : option PFile;
  p_zone : bytes;
  p_rrs : Slice
}.

(** A request: the message, and where the records of its prerequisite and
    update sections are. *)
Record PMsg := { m_msg : Msg; m_prereqs : list Ptr; m_updates : list Ptr }.

(** The loop of [build]: [None] is an [Insert] that failed. *)
Definition p_insert (s : option (FileZone * list (Ptr * RR))) (p : Ptr)
  : M (option (FileZone * list (Ptr * RR))) :=
  match s with
  | None => mret None
  | Some (z, recs) =>
      c ← Copy p;
      r ← load c;
      _ ← store c (Insert_leaves z r);
      mret (z' ← Insert z r; Some (z', recs ++ [(c, Insert_leaves z r)]))
  end.

Definition p_build (d : PDyn) (rrs : Slice) : M (option PFile) :=
  ps ← range rrs;
  s ← foldM p_insert (Some (NewZone (p_zone d), [])) ps;
  mret (s ← s;
        Some {| pf_file := {| f_next := p_next d; f_origin := p_zone d; f_zone := s.1 |};
                pf_recs := s.2 |}).

Definition p_swap (d : PDyn) (rrs : Slice) : M (option PDyn) :=
  view ← p_build d rrs;
  mret (view ← view;
        Some {| p_next := p_next d; p_xfer := p_xfer d; p_mutable := p_mutable d;
                p_view := Some view; p_zone := p_zone d; p_rrs := rrs |}).

(** The serial of an update that did not set it is bumped in [updated]. *)
Definition p_advance (rrs updated : Slice) : M unit :=
  l ← contents rrs;
  u ← contents updated;
  match soaOf l, soaOf u with
  | Some cur, Some next => if Serial next =? Serial cur then p_bumpSerial updated else mret tt
  | _, _ => mret tt
  end.

Definition p_serveUpdate (w : Writer) (d : PDyn) (m : PMsg) : M (Outcome * PDyn * list bytes) :=
  let r := m_msg m in
  let answer rcode := mret (reply w r rcode, d, []) in
  match Questions r with
  | [q] =>
      if negb (Qtype q =? TypeSOA) || negb (Qclass q =? ClassINET) then answer RcodeFormatError
      else
        let zone := canon (QName q) in
        if negb (beqb zone (p_zone d)) then answer RcodeNotAuth
        else if negb (tsigVerified w r) then answer RcodeRefused
        else
          l ← contents (p_rrs d);
          prereqs ← read_all (m_prereqs m);
          let rcode := checkPrereqs (p_zone d) l prereqs in
          if negb (rcode =? RcodeSuccess) then answer rcode
          else
            updates ← read_all (m_updates m);
            let rcode := prescan (p_zone d) (p_mutable d) updates in
            if negb (rcode =? RcodeSuccess) then answer rcode
            else
              u ← p_apply (p_zone d) (p_rrs d) (m_updates m);
              if negb u.2 then answer RcodeSuccess
              else
                _ ← p_advance (p_rrs d) u.1;
                d' ← p_swap d u.1;
                match d' with
                | None => answer RcodeServerFailure
                | Some d' => mret (reply w r RcodeSuccess, d', if p_xfer d then [zone] else [])
                end
  | _ => answer RcodeFormatError
  end.

End Heaps.

(** ** Weakest preconditions *)

Definition wp {A : Type} (m : M A) (h : Heap) (Q : A -> Heap -> Prop) : Prop :=
  exists a h', m h = Some (a, h') /\ Q a h'.

Lemma wp_ret {A} (a : A) h (Q : A -> Heap -> Prop) : Q a h -> wp (mret a) h Q.
Proof. intros H. by exists a, h. Qed.

Lemma wp_bind {A B} (m : M A) (f : A -> M B) h Q :
  wp m h (fun a h' => wp (f a) h' Q) -> wp (m ≫= f) h Q.
Proof.
  intros (a & h' & E & b & h'' & E' & HQ). exists b, h''. split; [|done].
  unfold mbind, M_bind. by rewrite E.
Qed.

Lemma wp_mono {A} (m : M A) h (P Q : A -> Heap -> Prop) :
  wp m h P -> (forall a h', P a h' -> Q a h') -> wp m h Q.
Proof. intros (a & h' & E & HP) H. exists a, h'. auto. Qed.

(** ** Heaps that grow *)

(** Everything the first heap has, the second has unchanged. *)
Definition kept (h h' : Heap) : Prop := h_rr h ⊆ h_rr h' /\ h_arr h ⊆ h_arr h'.

Definition wf_heap (h : Heap) : Prop :=
  (forall p r, h_rr h !! p = Some r -> (p < h_next h)%nat) /\
  (forall a l, h_arr h !! a = Some l -> (a < h_next h)%nat).

(** What a computation that started in [h0] may do: nothing of [h0] changes. *)
Record inv (h0 h : Heap) : Prop := {
  inv_wf : wf_heap h;
  inv_kept : kept h0 h;
  inv_next : (h_next h0 <= h_next h)%nat
}.

#[export] Instance kept_preorder : PreOrder kept.
Proof.
  split; [by split|]. intros h1 h2 h3 [H1 H2] [H3 H4]. split; by etrans.
Qed.

Lemma inv_refl h : wf_heap h -> inv h h.
Proof. intros H. by split. Qed.

Lemma inv_trans h0 h h' : inv h0 h -> inv h h' -> inv h0 h'.
Proof. intros [] []. split; [done|by etrans|lia]. Qed.

Lemma fresh_rr h : wf_heap h -> h_rr h !! h_next h = None.
Proof.
  intros [H _]. destruct (h_rr h !! h_next h) eqn:E; [|done]. apply H in E. lia.
Qed.

Lemma fresh_arr h : wf_heap h -> h_arr h !! h_next h = None.
Proof.
  intros [_ H]. destruct (h_arr h !! h_next h) eqn:E; [|done]. apply H in E. lia.
Qed.

(** ** What a slice holds *)

(** The records at a list of addresses. *)
Definition at_ptrs (h : Heap) (ps : list Ptr) (l : list RR) : Prop :=
  Forall2 (fun p r => h_rr h !! p = Some r) ps l.

(** The addresses in a slice. *)
Definition slots (h : Heap) (s : Slice) (ps : list Ptr) : Prop :=
  exists a, h_arr h !! s_arr s = Some a /\ (s_off s + s_len s <= length a)%nat /\
            take (s_len s) (drop (s_off s) a) = Some <$> ps.

(** The slice holds the records [l], in order. *)
Definition holds (h : Heap) (s : Slice) (l : list RR) : Prop :=
  exists ps, slots h s ps /\ at_ptrs h ps l.

(** ... in a backing array that [h0] does not have. *)
Definition owns (h0 h : Heap) (s : Slice) (l : list RR) : Prop :=
  h_arr h0 !! s_arr s = None /\ holds h s l.

Lemma at_ptrs_mono h h' ps l : h_rr h ⊆ h_rr h' -> at_ptrs h ps l -> at_ptrs h' ps l.
Proof. intros H Hp. eapply Forall2_impl; [exact Hp|]. intros p r E. exact (lookup_weaken _ _ _ _ E H). Qed.

Lemma slots_kept h h' s ps : kept h h' -> slots h s ps -> slots h' s ps.
Proof. intros [_ H] (a & Ha & ?). exists a. split; [by eapply lookup_weaken|done]. Qed.

Lemma holds_kept h h' s l : kept h h' -> holds h s l -> holds h' s l.
Proof.
  intros K (ps & Hs & Hp). exists ps. split; [by eapply slots_kept|].
  eapply at_ptrs_mono; [apply K|done].
Qed.

Lemma owns_kept h0 h h' s l : kept h h' -> owns h0 h s l -> owns h0 h' s l.
Proof. intros H [H1 H2]. split; [done|]. by eapply holds_kept. Qed.

Lemma slots_length h s ps : slots h s ps -> length ps = s_len s.
Proof.
  intros (a & _ & Hl & E). rewrite <- (length_fmap Some ps), <- E, length_take, length_drop. lia.
Qed.

Lemma at_ptrs_length h ps l : at_ptrs h ps l -> length ps = length l.
Proof. apply Forall2_length. Qed.

Lemma holds_length h s l : holds h s l -> length l = s_len s.
Proof. intros (ps & Hs & Hp). apply at_ptrs_length in Hp. apply slots_length in Hs. congruence. Qed.

(** ** Specifications of the operations *)

Section Specs.
Context `{N : NameLib} `{L : MsgLib} `{F : FileLib} `{R : !Runtime}.

Lemma wp_load p r h Q : h_rr h !! p = Some r -> Q r h -> wp (load p) h Q.
Proof. intros E H. exists r, h. unfold load. by rewrite E. Qed.

(** A new record: nothing else changes. *)
Lemma wp_new_rr r h Q :
  wf_heap h ->
  (forall p h', inv h h' -> h_arr h' = h_arr h -> h_rr h !! p = None -> h_rr h' !! p = Some r -> Q p h') ->
  wp (new_rr r) h Q.
Proof.
  intros W H. eexists _, _. split; [reflexivity|]. pose proof (fresh_rr _ W). apply H; [split|..]; cbn.
  - destruct W as [W1 W2]. split; cbn.
    + intros q s [[<- _]|[_ E]]%lookup_insert_Some; [lia|]. apply W1 in E. lia.
    + intros a l E. apply W2 in E. lia.
  - split; cbn; [by apply insert_subseteq|done].
  - lia.
  - done.
  - done.
  - apply lookup_insert_eq.
Qed.

Lemma wp_Copy p r h Q :
  wf_heap h -> h_rr h !! p = Some r ->
  (forall q h', inv h h' -> h_arr h' = h_arr h -> h_rr h !! q = None -> h_rr h' !! q = Some r -> Q q h') ->
  wp (Copy p) h Q.
Proof. intros W E H. apply wp_bind, (wp_load _ r); [done|]. by apply wp_new_rr. Qed.

(** A write to a record that [h0] does not have. *)
Lemma wp_store h0 p r0 r h Q :
  inv h0 h -> h_rr h0 !! p = None -> h_rr h !! p = Some r0 ->
  (forall h', inv h0 h' -> h_arr h' = h_arr h -> h_rr h' = <[p := r]> (h_rr h) -> Q tt h') ->
  wp (store p r) h Q.
Proof.
  intros [[W1 W2] [K1 K2] ?] E0 E H. unfold wp, store. rewrite E. eexists _, _. split; [reflexivity|].
  apply H; [split|..]; cbn; [|split; cbn|..]; try done.
  - split; cbn; [|done]. intros q s [[<- _]|[_ E']]%lookup_insert_Some; by eapply W1.
  - by apply insert_subseteq_r.
Qed.

Lemma wp_load_arr a l h Q : h_arr h !! a = Some l -> Q l h -> wp (load_arr a) h Q.
Proof. intros E H. exists l, h. unfold load_arr. by rewrite E. Qed.

Lemma wp_new_arr l h Q :
  wf_heap h ->
  (forall a h', inv h h' -> h_rr h' = h_rr h -> h_arr h !! a = None -> h_arr h' !! a = Some l -> Q a h') ->
  wp (new_arr l) h Q.
Proof.
  intros W H. eexists _, _. split; [reflexivity|]. pose proof (fresh_arr _ W). apply H; [split|..]; cbn.
  - destruct W as [W1 W2]. split; cbn.
    + intros q s E. apply W1 in E. lia.
    + intros a k [[<- _]|[_ E]]%lookup_insert_Some; [lia|]. apply W2 in E. lia.
  - split; cbn; [done|by apply insert_subseteq].
  - lia.
  - done.
  - done.
  - apply lookup_insert_eq.
Qed.

(** A write to an array that [h0] does not have. *)
Lemma wp_store_arr h0 a l0 l h Q :
  inv h0 h -> h_arr h0 !! a = None -> h_arr h !! a = Some l0 ->
  (forall h', inv h0 h' -> h_rr h' = h_rr h -> h_arr h' !! a = Some l -> Q tt h') ->
  wp (store_arr a l) h Q.
Proof.
  intros [[W1 W2] [K1 K2] ?] E0 E H. eexists _, _. split; [reflexivity|].
  apply H; [split|..]; cbn; [|split; cbn|..]; try done.
  - split; cbn; [done|]. intros q s [[<- _]|[_ E']]%lookup_insert_Some; by eapply W2.
  - by apply insert_subseteq_r.
  - apply lookup_insert_eq.
Qed.

Lemma owns_trans h0 h h' s l : inv h0 h -> owns h h' s l -> owns h0 h' s l.
Proof.
  intros I [H1 H2]. split; [|done]. destruct (h_arr h0 !! s_arr s) eqn:E; [|done].
  eapply lookup_weaken in E; [|apply (inv_kept _ _ I)]. congruence.
Qed.

Lemma wp_make_slice n h Q :
  wf_heap h -> (forall s h', inv h h' -> h_rr h' = h_rr h -> owns h h' s [] -> Q s h') ->
  wp (make_slice n) h Q.
Proof.
  intros W H. apply wp_bind, wp_new_arr; [done|]. intros a h' I E Ha Ha'. apply wp_ret, H; [done..|].
  split; [done|]. exists []. split; [|constructor]. exists (replicate n None). split; [done|].
  cbn. split; [lia|done].
Qed.

Lemma wp_cells s ps h Q : slots h s ps -> Q (Some <$> ps) h -> wp (cells s) h Q.
Proof.
  intros (a & Ha & _ & E) H. eapply wp_bind, wp_load_arr; [done|]. apply wp_ret. by rewrite E.
Qed.

Lemma mapM_Some (ps : list Ptr) : mapM id (Some <$> ps) = Some ps.
Proof. induction ps as [|p ps IH]; [done|]. cbn in *. by rewrite IH. Qed.

Lemma wp_range s ps h Q : slots h s ps -> Q ps h -> wp (range s) h Q.
Proof. intros H HQ. eapply wp_bind, wp_cells; [done|]. rewrite mapM_Some. by apply wp_ret. Qed.

Lemma wp_index s ps i p h Q : slots h s ps -> ps !! i = Some p -> Q p h -> wp (index s i) h Q.
Proof. intros H E HQ. eapply wp_bind, wp_range; [done|]. rewrite E. by apply wp_ret. Qed.

Lemma wp_set_index h0 s ps i p h Q :
  inv h0 h -> h_arr h0 !! s_arr s = None -> slots h s ps -> (i < length ps)%nat ->
  (forall h', inv h0 h' -> h_rr h' = h_rr h -> slots h' s (<[i := p]> ps) -> Q tt h') ->
  wp (set_index s i p) h Q.
Proof.
  intros I Hn Hs Hi HQ. pose proof (slots_length _ _ _ Hs) as Hlen. destruct Hs as (a & Ha & Hl & E).
  unfold set_index. rewrite (proj2 (Nat.ltb_lt _ _)) by lia.
  eapply wp_bind, wp_load_arr; [done|]. eapply wp_store_arr; [done..|]. intros h' I' Er Ha'.
  apply HQ; [done..|]. exists (<[(s_off s + i)%nat := Some p]> a).
  split; [done|]. rewrite length_insert. split; [done|].
  rewrite list_fmap_insert, <- E. rewrite drop_insert_ge by lia.
  rewrite take_insert_lt by lia. do 2 f_equal. lia.
Qed.

Lemma wp_append h0 s ps qs h Q :
  inv h0 h -> h_arr h0 !! s_arr s = None -> slots h s ps ->
  (forall s' h', inv h0 h' -> h_rr h' = h_rr h -> h_arr h0 !! s_arr s' = None ->
     slots h' s' (ps ++ qs) -> Q s' h') ->
  wp (append s (Some <$> qs)) h Q.
Proof.
  intros I Hn Hs HQ. pose proof (slots_length _ _ _ Hs) as Hlen. destruct Hs as (a & Ha & Hl & E).
  unfold append. eapply wp_bind, wp_load_arr; [done|]. rewrite length_fmap.
  case_match eqn:Ec.
  - apply Nat.leb_le in Ec. eapply wp_bind, wp_store_arr; [done..|]. intros h' I' Er Ha'.
    apply wp_ret, HQ; [done..|]. eexists. split; [exact Ha'|]. cbn.
    rewrite !length_app, length_take, length_fmap, length_drop. split; [lia|].
    rewrite fmap_app, <- E. rewrite drop_app_le by (rewrite length_take; lia).
    rewrite skipn_firstn_comm, take_app_ge by (rewrite length_take, length_drop; lia).
    rewrite length_take, length_drop. 
    replace (s_off s + s_len s - s_off s)%nat with (s_len s) by lia. f_equal.
    apply take_app_length'. rewrite length_fmap. lia.
  - eapply wp_bind, wp_new_arr; [apply I|]. intros b h' I' Er Hb Hb'.
    apply wp_ret, HQ; [by eapply inv_trans|done| |].
    + cbn. destruct (h_arr h0 !! b) eqn:Eb; [|done].
      eapply lookup_weaken in Eb; [|apply (inv_kept _ _ I)]. congruence.
    + eexists. split; [exact Hb'|]. cbn. rewrite E, !length_app, !length_fmap. split; [lia|].
      rewrite fmap_app, app_assoc. apply take_app_length'. rewrite length_app, !length_fmap. lia.
Qed.


Lemma wp_slice_to s ps i h Q :
  slots h s ps -> (i <= length ps)%nat ->
  (forall s', s_arr s' = s_arr s -> slots h s' (take i ps) -> Q s' h) -> wp (slice_to s i) h Q.
Proof.
  intros Hs Hi HQ. pose proof (slots_length _ _ _ Hs). destruct Hs as (a & Ha & Hl & E).
  eapply wp_bind, wp_load_arr; [done|]. rewrite (proj2 (Nat.leb_le _ _)) by lia.
  apply wp_ret, HQ; [done|]. exists a. split; [done|]. cbn. split; [lia|].
  rewrite fmap_take, <- E, take_take. f_equal. lia.
Qed.

Lemma wp_slice_from s ps i h Q :
  slots h s ps -> (i <= length ps)%nat ->
  (forall s', s_arr s' = s_arr s -> slots h s' (drop i ps) -> Q s' h) -> wp (slice_from s i) h Q.
Proof.
  intros Hs Hi HQ. pose proof (slots_length _ _ _ Hs). destruct Hs as (a & Ha & Hl & E).
  unfold slice_from. rewrite (proj2 (Nat.leb_le _ _)) by lia.
  apply wp_ret, HQ; [done|]. exists a. split; [done|]. cbn. split; [lia|].
  rewrite fmap_drop, <- E, skipn_firstn_comm, drop_drop. f_equal.
Qed.

Lemma wp_read_all ps l h Q : at_ptrs h ps l -> Q l h -> wp (read_all ps) h Q.
Proof.
  intros H HQ. exists l, h. split; [|done]. unfold read_all.
  replace (mapM _ ps) with (Some l); [done|]. symmetry. by apply mapM_Some_2.
Qed.

Lemma wp_contents s l h Q : holds h s l -> Q l h -> wp (contents s) h Q.
Proof. intros (ps & Hs & Hp) HQ. eapply wp_bind, wp_range; [done|]. by eapply wp_read_all. Qed.

(** ** The zone functions compute what their value models do *)

Lemma wp_rdataKey p r h Q :
  wf_heap h -> h_rr h !! p = Some r -> (forall h', inv h h' -> Q (rdataKey r) h') ->
  wp (p_rdataKey p) h Q.
Proof.
  intros W E HQ. eapply wp_bind, wp_Copy; [done..|]. intros c h1 I _ Hn Hc.
  eapply wp_bind, wp_load; [done|]. eapply wp_bind, (wp_store h); [done..|]. intros h2 I2 _ E2.
  assert (Hc2 : h_rr h2 !! c = Some _) by (rewrite E2; apply lookup_insert_eq).
  eapply wp_bind, wp_load; [done|]. eapply wp_bind, (wp_store h); [done..|]. intros h3 I3 _ E3.
  assert (Hc3 : h_rr h3 !! c = Some _) by (rewrite E3; apply lookup_insert_eq).
  eapply wp_bind, wp_load; [done|]. eapply wp_bind, (wp_store h); [done..|]. intros h4 I4 _ E4.
  assert (Hc4 : h_rr h4 !! c = Some _) by (rewrite E4; apply lookup_insert_eq).
  eapply wp_bind, wp_load; [done|]. apply wp_ret. exact (HQ _ I4).
Qed.

Lemma wp_index_loop ps l i want wr k h Q :
  wf_heap h -> at_ptrs h ps l -> h_rr h !! want = Some wr ->
  (k = None \/ k = Some (rdataKey wr)) ->
  (forall h', inv h h' -> Q (Nat.add i <$> indexOfRR l wr) h') ->
  wp (p_index_loop ps i want wr (canon (Name (Hdr wr))) k) h Q.
Proof.
  intros W H. revert i k h W H Q. induction ps as [|p ps IH] in l |- *; intros i k h W H Q Hw Hk HQ;
    inversion H as [|? r ? l' Hp Ht]; subst; cbn [p_index_loop indexOfRR] in *.
  { apply wp_ret, HQ, inv_refl, W. }
  assert (Hi : Nat.add i <$> (S <$> indexOfRR l' wr) = Nat.add (S i) <$> indexOfRR l' wr).
  { destruct (indexOfRR l' wr); cbn; [|done]. f_equal. lia. }
  eapply wp_bind, wp_load; [done|]. destruct (negb _ || negb _) eqn:Ec; rewrite ?Ec in HQ; cbn [negb andb] in *.
  { eapply IH; [done..|]. intros h1 I. rewrite <- Hi. by apply HQ. }
  apply wp_bind with (Q := Q).
  assert (Hkey : forall Q', (forall h', inv h h' -> Q' (rdataKey wr) h') ->
    wp (match k with Some k => mret k | None => p_rdataKey want end) h Q').
  { intros Q' HQk. destruct Hk as [-> | ->]; [by eapply wp_rdataKey|apply wp_ret, HQk, inv_refl, W]. }
  apply Hkey. intros h1 I1. eapply wp_bind, wp_rdataKey; [apply I1|by eapply lookup_weaken, I1|].
  intros h2 I2. pose proof (inv_trans _ _ _ I1 I2) as I. destruct (beqb _ _) eqn:Eb.
  { apply wp_ret. specialize (HQ _ I). cbn in HQ. by rewrite Nat.add_0_r in HQ. }
  eapply IH; [apply I2|eapply at_ptrs_mono; [apply I|done]|by eapply lookup_weaken, I|by right|].
  intros h3 I3. rewrite <- Hi. apply HQ. by eapply inv_trans.
Qed.

Lemma wp_indexOfRR s l want wr h Q :
  wf_heap h -> holds h s l -> h_rr h !! want = Some wr ->
  (forall h', inv h h' -> Q (indexOfRR l wr) h') -> wp (p_indexOfRR s want) h Q.
Proof.
  intros W (ps & Hs & Hp) Hw HQ. eapply wp_bind, wp_load; [done|].
  eapply wp_bind, wp_range; [done|]. eapply wp_index_loop; [done..|by left|].
  intros h' I. replace (Nat.add 0 <$> indexOfRR l wr) with (indexOfRR l wr); [auto|].
  by destruct (indexOfRR l wr).
Qed.

Lemma wp_deleteWhere_loop m ps l h0 h s ch acc Q :
  at_ptrs h0 ps l -> inv h0 h -> owns h0 h s acc ->
  (forall s' h', inv h0 h' -> owns h0 h' s' (acc ++ (deleteWhere l ch m).1) ->
     Q (s', (deleteWhere l ch m).2) h') ->
  wp (foldM (fun s p => r ← load p;
                        if m r then mret (s.1, true)
                        else (out ← append s.1 [Some p]; mret (out, s.2))) (s, ch) ps) h Q.
Proof.
  intros H. revert h s ch acc Q. induction H as [|p r ps l Hp _ IH]; intros h s ch acc Q I Ho HQ.
  { cbn in *. apply wp_ret, HQ; [done|]. by rewrite app_nil_r. }
  cbn [foldM deleteWhere fst snd] in *. apply wp_bind. eapply wp_bind, wp_load.
  { eapply lookup_weaken; [done|apply (inv_kept _ _ I)]. }
  destruct (m r).
  { apply wp_ret. by eapply IH. }
  destruct Ho as [Hn (qs & Hs & Hq)]. eapply wp_bind, (wp_append h0 s qs [p]); [done..|].
  intros s' h' I' Er Hn' Hs'. apply wp_ret. eapply (IH _ _ _ (acc ++ [r])); [done| |].
  - split; [done|]. exists (qs ++ [p]). split; [done|]. apply Forall2_app.
    + eapply at_ptrs_mono; [|exact Hq]. by rewrite Er.
    + repeat constructor. eapply lookup_weaken; [done|apply (inv_kept _ _ I')].
  - intros s'' h'' I'' Ho''. destruct (deleteWhere l ch m) as [out c]. apply HQ; [done|].
    by rewrite <- app_assoc in Ho''.
Qed.

Lemma wp_deleteWhere s l ch m h Q :
  wf_heap h -> holds h s l ->
  (forall s' h', inv h h' -> owns h h' s' (deleteWhere l ch m).1 -> Q (s', (deleteWhere l ch m).2) h') ->
  wp (p_deleteWhere s ch m) h Q.
Proof.
  intros W (ps & Hs & Hp) HQ. eapply wp_bind, wp_make_slice; [done|]. intros out h1 I1 Er Ho.
  eapply wp_bind, wp_range; [eapply slots_kept; [apply I1|done]|].
  by eapply wp_deleteWhere_loop.
Qed.

(** Replacing the record in one slot of a list of distinct or shared
    addresses. *)
Lemma at_ptrs_insert h ps l i p r :
  at_ptrs h ps l -> h_rr h !! p = Some r -> at_ptrs h (<[i := p]> ps) (<[i := r]> l).
Proof. intros H E. by apply Forall2_insert. Qed.

Lemma bumpSerial_slot pre r s t :
  (forall x, x ∈ pre -> as_soa x = None) -> as_soa r = Some s ->
  bumpSerial (pre ++ r :: t)
  = <[length pre := mkRR (Hdr r) (RdSOA (set_serial (next_serial (Serial s)) s))]> (pre ++ r :: t).
Proof.
  intros Hp Hr. induction pre as [|x pre IH]; cbn; [by rewrite Hr|].
  rewrite (Hp x) by left. f_equal. apply IH. intros y Hy. apply Hp. by right.
Qed.

Lemma bumpSerial_none l : (forall x, x ∈ l -> as_soa x = None) -> bumpSerial l = l.
Proof.
  induction l as [|x l IH]; [done|]. intros H. cbn. rewrite (H x) by left. f_equal.
  apply IH. intros y Hy. apply H. by right.
Qed.

Lemma wp_bump_loop h0 s qs ps pre l h Q :
  inv h0 h -> h_arr h0 !! s_arr s = None -> slots h s qs -> at_ptrs h qs (pre ++ l) ->
  at_ptrs h ps l -> (forall x, x ∈ pre -> as_soa x = None) ->
  (forall h', inv h0 h' -> owns h0 h' s (bumpSerial (pre ++ l)) -> Q tt h') ->
  wp (p_bump_loop s ps (length pre)) h Q.
Proof.
  intros I Hn Hs Hq Hp. revert pre Hq. induction Hp as [|p r ps l Hp _ IH]; intros pre Hq Hpre HQ.
  { apply wp_ret, HQ; [done|]. rewrite app_nil_r in *. rewrite bumpSerial_none by done.
    split; [done|]. by exists qs. }
  cbn [p_bump_loop]. eapply wp_bind, wp_load; [done|]. destruct (as_soa r) as [soa|] eqn:Er.
  - eapply wp_bind, wp_new_rr; [apply I|]. intros c h1 I1 Ea Hc Hc1.
    pose proof (at_ptrs_length _ _ _ Hq) as Hlen. rewrite length_app in Hlen. cbn in Hlen.
    eapply (wp_set_index h0 s qs); [by eapply inv_trans|done|eapply slots_kept; [apply I1|done]|lia|].
    intros h2 I2 Er2 Hs2. apply HQ; [done|]. split; [done|]. eexists. split; [exact Hs2|].
    rewrite (bumpSerial_slot _ _ soa) by done. apply at_ptrs_insert; [|by rewrite Er2].
    eapply at_ptrs_mono; [|exact Hq]. rewrite Er2. apply I1.
  - replace (S (length pre)) with (length (pre ++ [r])) by (rewrite length_app; cbn; lia).
    apply IH; rewrite <- ?app_assoc; [done| |done]. intros x [Hx|Hx]%elem_of_app; [by apply Hpre|].
    apply list_elem_of_singleton in Hx as ->. done.
Qed.

Lemma wp_bumpSerial h0 s l h Q :
  inv h0 h -> owns h0 h s l ->
  (forall h', inv h0 h' -> owns h0 h' s (bumpSerial l) -> Q tt h') -> wp (p_bumpSerial s) h Q.
Proof.
  intros I [Hn (ps & Hs & Hp)] HQ. eapply wp_bind, wp_range; [done|].
  apply (wp_bump_loop h0 s ps ps [] l); try done. by intros x Hx%elem_of_nil.
Qed.


(** ** The update section *)

Section ApplySpecs.
Variable zone : bytes.
Variables h0 : Heap.

(** What one step of [apply] promises: the value model's result, in an array
    of its own, and [h0] untouched. *)
Definition applied (v : list RR * bool) (Q : Slice * bool -> Heap -> Prop) : Prop :=
  forall s' h', inv h0 h' -> owns h0 h' s' v.1 -> Q (s', v.2) h'.

Lemma applied_same s ch l h Q :
  inv h0 h -> owns h0 h s l -> applied (l, ch) Q -> wp (mret (s, ch)) h Q.
Proof. intros I Ho HQ. by apply wp_ret, HQ. Qed.

Lemma applied_deleteWhere s ch m l h Q :
  inv h0 h -> owns h0 h s l -> applied (deleteWhere l ch m) Q -> wp (p_deleteWhere s ch m) h Q.
Proof.
  intros I [_ Hh] HQ. eapply wp_deleteWhere; [apply I|done|]. intros s' h' I' Ho'.
  apply HQ; [by eapply inv_trans|by eapply owns_trans].
Qed.

(** [append(out, dns.Copy(rr))] *)
Lemma wp_append_copy s l rr r h (Q : Slice -> Heap -> Prop) :
  inv h0 h -> owns h0 h s l -> h_rr h0 !! rr = Some r ->
  (forall s' h', inv h0 h' -> owns h0 h' s' (l ++ [r]) -> Q s' h') ->
  wp (c ← Copy rr; append s [Some c]) h Q.
Proof.
  intros I Ho Hr HQ. eapply wp_bind, wp_Copy; [apply I|eapply lookup_weaken; [done|apply (inv_kept _ _ I)]|].
  intros c h1 I1 _ _ Hc. destruct (owns_kept _ _ _ _ _ (inv_kept _ _ I1) Ho) as [Hn (ps & Hs & Hp)].
  pose proof (inv_trans _ _ _ I I1) as I01.
  eapply (wp_append h0 s ps [c]); [done..|]. intros s' h' I' Er Hn' Hs'. apply HQ; [done|].
  split; [done|]. exists (ps ++ [c]). split; [done|]. apply Forall2_app.
  - eapply at_ptrs_mono; [|exact Hp]. by rewrite Er.
  - repeat constructor. by rewrite Er.
Qed.

Lemma wp_assoc {A B C} (m : M A) (f : A -> M B) (g : B -> M C) h Q :
  wp (b ← (a ← m; f a); g b) h Q -> wp (a ← m; b ← f a; g b) h Q.
Proof.
  intros (c & h' & E & HQ). exists c, h'. split; [|done]. rewrite <- E.
  unfold mbind, M_bind. by destruct (m h) as [[]|].
Qed.

(** The TTL of the record in one slot, set on a copy of it. *)
Lemma wp_set_ttl s ps l i p x ttl h (Q : Slice * bool -> Heap -> Prop) :
  inv h0 h -> h_arr h0 !! s_arr s = None -> slots h s ps -> at_ptrs h ps l ->
  ps !! i = Some p -> h_rr h !! p = Some x -> applied (<[i := set_ttl ttl x]> l, true) Q ->
  wp (c ← Copy p;
      _ ← set_index s i c;
      q ← index s i;
      y ← load q;
      _ ← store q (set_ttl ttl y);
      mret (s, true)) h Q.
Proof.
  intros I Hn Hs Hp Hi Hpx HQ. pose proof (lookup_lt_Some _ _ _ Hi) as Hlt.
  eapply wp_bind, wp_Copy; [apply I|done|].
  intros c h1 I1 _ Hc Hc1. eapply wp_bind, (wp_set_index h0 s ps).
  { by eapply inv_trans. } { done. } { eapply slots_kept; [apply I1|done]. } { done. }
  intros h2 I2 E2 Hs2. assert (Hc2 : h_rr h2 !! c = Some x) by by rewrite E2.
  eapply wp_bind, (wp_index s _ i c); [done|by apply list_lookup_insert_eq|].
  eapply wp_bind, wp_load; [done|]. eapply wp_bind, (wp_store h0); [done| |done|].
  { destruct (h_rr h0 !! c) eqn:E; [|done]. eapply lookup_weaken in E; [|apply (inv_kept _ _ I)]. congruence. }
  intros h3 I3 Ea E3. apply wp_ret, HQ; [done|]. split; [done|]. exists (<[i := c]> ps). split.
  { destruct Hs2 as (a & Ha & ?). exists a. by rewrite Ea. }
  apply at_ptrs_insert; [|by rewrite E3; apply lookup_insert_eq].
  eapply Forall2_impl; [exact Hp|]. intros q y Hq. cbn in Hq.
  rewrite E3, lookup_insert_ne by (intros ->; congruence).
  rewrite E2. exact (lookup_weaken _ _ _ _ Hq (proj1 (inv_kept _ _ I1))).
Qed.

Lemma indexOfRR_lookup l r i : indexOfRR l r = Some i -> exists x, l !! i = Some x.
Proof.
  revert i. induction l as [|x l IH]; intros i; [done|]. cbn [indexOfRR].
  case_match; [intros [= <-]; by exists x|]. destruct (indexOfRR l r); [|done].
  intros [= <-]. by apply IH.
Qed.

Lemma wp_applyAdd s ch l rr r name apex h Q :
  inv h0 h -> owns h0 h s l -> h_rr h0 !! rr = Some r ->
  applied (applyAdd l ch r name apex) Q -> wp (p_applyAdd s ch rr r name apex) h Q.
Proof.
  intros I Ho Hr HQ. eapply wp_bind, wp_contents; [apply Ho|]. unfold applyAdd in HQ. cbn zeta in *.
  destruct (Rrtype (Hdr r) =? TypeSOA).
  { destruct (as_soa r), (soaOf l); try by eapply applied_same. case_match; [by eapply applied_same|].
    eapply wp_bind, applied_deleteWhere; [done..|]. intros o1 h1 I1 Ho1. cbn [fst].
    eapply wp_assoc, wp_bind, wp_append_copy; [done..|]. intros o2 h2 I2 Ho2. by apply wp_ret, HQ. }
  case_match; [by eapply applied_same|]. case_match; [by eapply applied_same|].
  eapply wp_bind, wp_indexOfRR; [apply I|apply Ho|eapply lookup_weaken; [done|apply (inv_kept _ _ I)]|].
  intros h1 I1. pose proof (inv_trans _ _ _ I I1) as I01.
  pose proof (owns_kept _ _ _ _ _ (inv_kept _ _ I1) Ho) as Ho1.
  destruct (indexOfRR l r) as [i|] eqn:Ei.
  - destruct (indexOfRR_lookup _ _ _ Ei) as [x Hx]. rewrite Hx in HQ. pose proof Ho1 as [Hn (ps & Hs & Hp)].
    destruct (Forall2_lookup_r _ _ _ _ _ Hp Hx) as (p & Hi & Hpx).
    eapply wp_bind, wp_index; [done..|]. eapply wp_bind, wp_load; [done|].
    case_match; [by eapply wp_set_ttl|by eapply applied_same].
  - destruct (Rrtype (Hdr r) =? TypeCNAME).
    + eapply wp_bind, wp_bind, (applied_deleteWhere _ _ _ l); [done..|]. intros o1 h2 I2 Ho2.
      apply wp_ret. eapply wp_assoc, wp_bind, wp_append_copy; [done..|].
      intros o2 h3 I3 Ho3. by apply wp_ret, HQ.
    + eapply wp_bind, wp_ret, wp_assoc, wp_bind, wp_append_copy; [done..|].
      intros o2 h3 I3 Ho3. by apply wp_ret, HQ.
Qed.

Lemma wp_applyDeleteRRset s ch l hd name apex h Q :
  inv h0 h -> owns h0 h s l ->
  applied (applyDeleteRRset l ch hd name apex) Q -> wp (p_applyDeleteRRset s ch hd name apex) h Q.
Proof.
  intros I Ho HQ. unfold p_applyDeleteRRset, applyDeleteRRset in *.
  case_match; [by eapply applied_deleteWhere|].
  case_match; [by eapply applied_same|by eapply applied_deleteWhere].
Qed.

(** [append(out[:i], out[i+1:]...)]: the tail moves down in the same array. *)
Lemma wp_remove s l i h (Q : Slice * bool -> Heap -> Prop) :
  inv h0 h -> owns h0 h s l -> (i < length l)%nat -> applied (delete i l, true) Q ->
  wp (rest ← slice_from s (S i); vs ← cells rest; front ← slice_to s i; out ← append front vs;
      mret (out, true)) h Q.
Proof.
  intros I [Hn (ps & Hs & Hp)] Hi HQ. pose proof (at_ptrs_length _ _ _ Hp) as Hlen.
  eapply wp_bind, wp_slice_from; [done|lia|]. intros rest Er Hrest.
  eapply wp_bind, wp_cells; [done|]. eapply wp_bind, wp_slice_to; [done|lia|]. intros front Ef Hfront.
  eapply wp_bind, (wp_append h0); [done|by rewrite Ef|done|]. intros s' h' I' Er' Hn' Hs'.
  apply wp_ret, HQ; [done|]. split; [done|]. eexists. split; [exact Hs'|]. cbn [fst].
  rewrite delete_take_drop. unfold at_ptrs in *. rewrite Er'.
  apply Forall2_app; [by apply Forall2_take|by apply Forall2_drop].
Qed.

Lemma wp_applyDeleteRecord s ch l rr r name apex h Q :
  inv h0 h -> owns h0 h s l -> h_rr h0 !! rr = Some r ->
  applied (applyDeleteRecord l ch r name apex) Q -> wp (p_applyDeleteRecord s ch rr r name apex) h Q.
Proof.
  intros I Ho Hr HQ. eapply wp_bind, wp_contents; [apply Ho|]. unfold applyDeleteRecord in HQ.
  cbn zeta in *. case_match; [by eapply applied_same|]. case_match; [by eapply applied_same|].
  eapply wp_bind, wp_indexOfRR; [apply I|apply Ho|eapply lookup_weaken; [done|apply (inv_kept _ _ I)]|].
  intros h1 I1. pose proof (inv_trans _ _ _ I I1) as I01.
  pose proof (owns_kept _ _ _ _ _ (inv_kept _ _ I1) Ho) as Ho1.
  destruct (indexOfRR l r) as [i|] eqn:Ei; [|by eapply applied_same].
  destruct (indexOfRR_lookup _ _ _ Ei) as [x Hx%lookup_lt_Some]. by eapply wp_remove.
Qed.

Lemma wp_apply1 s ch l rr r h Q :
  inv h0 h -> owns h0 h s l -> h_rr h0 !! rr = Some r ->
  applied (apply1 zone (l, ch) r) Q -> wp (p_apply1 zone (s, ch) rr) h Q.
Proof.
  intros I Ho Hr HQ. eapply wp_bind, wp_load; [eapply lookup_weaken; [done|apply (inv_kept _ _ I)]|].
  unfold apply1 in HQ. cbn [fst snd] in *. repeat case_match;
    eauto using wp_applyAdd, wp_applyDeleteRRset, wp_applyDeleteRecord, applied_same.
Qed.

Lemma wp_apply_loop updates us s ch l h Q :
  at_ptrs h0 us updates -> inv h0 h -> owns h0 h s l ->
  applied (foldl (apply1 zone) (l, ch) updates) Q ->
  wp (foldM (p_apply1 zone) (s, ch) us) h Q.
Proof.
  intros H. revert s ch l h Q. induction H as [|rr r us updates Hr _ IH]; intros s ch l h Q I Ho HQ.
  { by eapply applied_same. }
  eapply wp_bind, wp_apply1; [done..|]. intros s' h' I' Ho'. eapply IH; [done..|].
  by rewrite <- surjective_pairing.
Qed.

End ApplySpecs.

Lemma wp_apply zone rrs l us updates h Q :
  wf_heap h -> holds h rrs l -> at_ptrs h us updates ->
  applied h (apply_updates zone l updates) Q -> wp (p_apply zone rrs us) h Q.
Proof.
  intros W Hh Hu HQ. eapply wp_bind, wp_make_slice; [done|]. intros out h1 I1 Er Ho.
  pose proof (holds_kept _ _ _ _ (inv_kept _ _ I1) Hh) as (ps & Hs & Hp).
  eapply wp_bind, wp_cells; [done|]. destruct Ho as [Hn (qs & Hqs & Hq)].
  inversion Hq; subst. eapply wp_bind, (wp_append h); [done..|]. intros out' h2 I2 Er2 Hn2 Hs2.
  eapply wp_apply_loop; [done..| |done]. split; [done|]. exists ps. split; [done|].
  unfold at_ptrs. by rewrite Er2.
Qed.


(** ** The served view *)

(** The records a view's tree holds are as [Insert] left them. *)
Definition intact (h : Heap) (recs : list (Ptr * RR)) : Prop :=
  Forall (fun c => h_rr h !! c.1 = Some c.2) recs.

(** None of them was there in [h0]. *)
Definition fresh_recs (h0 : Heap) (recs : list (Ptr * RR)) : Prop :=
  Forall (fun c => h_rr h0 !! c.1 = None) recs.

Lemma intact_kept h h' recs : kept h h' -> intact h recs -> intact h' recs.
Proof. intros [K _] H. eapply Forall_impl; [exact H|]. intros c E. exact (lookup_weaken _ _ _ _ E K). Qed.

Lemma fresh_none h0 h (p : Ptr) : inv h0 h -> h_rr h !! p = None -> h_rr h0 !! p = None.
Proof.
  intros I E. destruct (h_rr h0 !! p) eqn:E'; [|done].
  eapply lookup_weaken in E'; [|apply (inv_kept _ _ I)]. congruence.
Qed.

Lemma insert_none ps h (Q : option (FileZone * list (Ptr * RR)) -> Heap -> Prop) :
  Q None h -> wp (foldM p_insert None ps) h Q.
Proof.
  revert h. induction ps as [|p ps IH]; intros h HQ; [by apply wp_ret|].
  cbn [foldM]. apply wp_bind, wp_ret. by apply IH.
Qed.

Lemma wp_insert_all h0 ps l z recs h (Q : option (FileZone * list (Ptr * RR)) -> Heap -> Prop) :
  at_ptrs h0 ps l -> inv h0 h -> intact h recs -> fresh_recs h0 recs ->
  (forall s h', inv h0 h' -> fst <$> s = insert_all z l ->
     (forall z' recs', s = Some (z', recs') -> intact h' recs' /\ fresh_recs h0 recs') -> Q s h') ->
  wp (foldM p_insert (Some (z, recs)) ps) h Q.
Proof.
  intros H. revert z recs h Q. induction H as [|p r ps l Hp _ IH]; intros z recs h Q I Hi Hf HQ.
  { apply wp_ret, HQ; [done..|]. by intros z' recs' [= <- <-]. }
  cbn [foldM]. apply wp_bind. eapply wp_bind, wp_Copy.
  { apply I. } { eapply lookup_weaken; [done|apply (inv_kept _ _ I)]. }
  intros c h1 I1 _ Hc Hc1. eapply wp_bind, wp_load; [done|].
  eapply wp_bind, (wp_store h); [done..|]. intros h2 I2 _ E2. apply wp_ret.
  cbn [insert_all] in HQ. destruct (Insert z r) as [z'|]; cbn [mbind option_bind].
  - eapply IH; [by eapply inv_trans| | |].
    + apply Forall_app. split; [by eapply intact_kept; [apply I2|]|]. repeat constructor.
      cbn. rewrite E2. apply lookup_insert_eq.
    + apply Forall_app. split; [done|]. repeat constructor. by eapply fresh_none.
    + done.
  - apply insert_none, HQ; [by eapply inv_trans|done|done].
Qed.

Definition view_stands (h : Heap) (v : option PFile) (f : option File) : Prop :=
  pf_file <$> v = f /\ forall v', v = Some v' -> intact h (pf_recs v').

(** The plugin's pointers stand for the plugin's value. *)
Record stands_for (h : Heap) (p : PDyn) (d : DynUpdate) : Prop := {
  st_next : p_next p = d_next d;
  st_xfer : p_xfer p = d_xfer d;
  st_mutable : p_mutable p = d_mutable d;
  st_zone : p_zone p = d_zone d;
  st_view : view_stands h (p_view p) (d_view d);
  st_rrs : holds h (p_rrs p) (d_rrs d)
}.

(** State of its own: an array and a view that [h0] does not have. *)
Definition fresh_state (h0 : Heap) (p : PDyn) : Prop :=
  h_arr h0 !! s_arr (p_rrs p) = None /\
  forall v, p_view p = Some v -> fresh_recs h0 (pf_recs v).

Lemma stands_kept h h' p d : kept h h' -> stands_for h p d -> stands_for h' p d.
Proof.
  intros K []. split; try done; [|by eapply holds_kept].
  split; [apply st_view0|]. intros v E. eapply intact_kept; [done|]. by apply st_view0.
Qed.

Lemma wp_swap h0 p d s l h (Q : option PDyn -> Heap -> Prop) :
  inv h0 h -> stands_for h p d -> owns h0 h s l ->
  (forall p' h', inv h0 h' ->
     match p', swap d l with
     | Some p', Some d' => stands_for h' p' d' /\ fresh_state h0 p'
     | None, None => True
     | _, _ => False
     end -> Q p' h') ->
  wp (p_swap p s) h Q.
Proof.
  intros I S Ho HQ. destruct Ho as [Hn (ps & Hs & Hp)]. eapply wp_bind.
  eapply wp_bind, wp_range; [done|]. eapply wp_bind, (wp_insert_all h ps l); [done|apply inv_refl, I|constructor..|].
  intros v h1 I1 Ev Hv. apply wp_ret, wp_ret, HQ; [by eapply inv_trans|].
  destruct S. unfold swap, build. rewrite <- st_zone0, <- Ev.
  destruct v as [[z recs]|]; cbn; [|done]. destruct (Hv _ _ eq_refl) as [Hi Hf].
  split; [split; cbn; try done|split; cbn; [done|]].
  - split; [by rewrite st_next0|]. by intros v [= <-].
  - exists ps. split; [eapply slots_kept; [apply I1|done]|eapply at_ptrs_mono; [apply I1|done]].
  - intros v [= <-]. cbn. eapply Forall_impl; [exact Hf|]. intros c E. by eapply fresh_none.
Qed.

Lemma wp_advance h0 rrs l s u h (Q : unit -> Heap -> Prop) :
  inv h0 h -> holds h0 rrs l -> owns h0 h s u ->
  (forall h', inv h0 h' -> owns h0 h' s (advance l u) -> Q tt h') ->
  wp (p_advance rrs s) h Q.
Proof.
  intros I Hl Ho HQ. eapply wp_bind, wp_contents; [eapply holds_kept; [apply I|done]|].
  eapply wp_bind, wp_contents; [apply Ho|]. unfold advance in HQ.
  destruct (soaOf l), (soaOf u); try by apply wp_ret, HQ.
  case_match; [by eapply wp_bumpSerial|by apply wp_ret, HQ].
Qed.

(** The records of a request, where the message says they are. *)
Definition request_at (h : Heap) (m : PMsg) : Prop :=
  at_ptrs h (m_prereqs m) (Answer (m_msg m)) /\ at_ptrs h (m_updates m) (NsSec (m_msg m)).

(** What a handled update leaves: the value model's answer and state, and
    nothing of the heap it started from changed. *)
Definition refined (h0 : Heap) (p : PDyn) (v : served) (a : Outcome * PDyn * list bytes) (h : Heap)
  : Prop :=
  inv h0 h /\ a.1.1 = v.1.1 /\ a.2 = v.2 /\ stands_for h a.1.2 v.1.2 /\
  (a.1.2 = p \/ fresh_state h0 a.1.2).

Lemma refined_answer h0 h p d out :
  inv h0 h -> stands_for h0 p d -> refined h0 p (out, d, []) (out, p, []) h.
Proof. intros I S. split_and!; try done; [|by left]. eapply stands_kept; [apply I|done]. Qed.

Lemma wp_serveUpdate w p d m h :
  wf_heap h -> stands_for h p d -> request_at h m ->
  wp (p_serveUpdate w p m) h (refined h p (serveUpdate w d (m_msg m))).
Proof.
  intros W S [Hpre Hup]. pose proof (inv_refl _ W) as I. unfold p_serveUpdate, serveUpdate.
  pose proof S as [_ Sx Sm Sz _ Sr].
  destruct (Questions (m_msg m)) as [|q [|]]; try (by apply wp_ret, refined_answer).
  rewrite Sz, Sm, Sx. cbn zeta.
  do 3 (case_match; [by apply wp_ret, refined_answer|]).
  eapply wp_bind, wp_contents; [done|]. eapply wp_bind, wp_read_all; [done|].
  case_match; [by apply wp_ret, refined_answer|].
  eapply wp_bind, wp_read_all; [done|].
  case_match; [by apply wp_ret, refined_answer|].
  eapply wp_bind, wp_apply; [done..|]. intros u h1 I1 Ho1.
  destruct (apply_updates _ _ _) as [updated changed] eqn:Eu. cbn [fst snd] in *.
  destruct changed; cbn [negb]; [|by apply wp_ret, refined_answer].
  eapply wp_bind, wp_advance; [done..|]. intros h2 I2 Ho2.
  eapply wp_bind, wp_swap; [done|eapply stands_kept; [apply I2|done]|done|].
  intros p' h3 I3 Hp'. destruct p' as [p'|], (swap d _) as [d'|]; try done.
  - apply wp_ret. destruct Hp'. split_and!; try done. by right.
  - by apply wp_ret, refined_answer.
Qed.


(** C2: on pointers and shared backing arrays, handling an UPDATE panics
    nowhere and gives the answer, the NOTIFYs and the state of the value model
    -- whatever room [append] leaves in an array and whatever [Insert] writes
    to the records it is given -- and no record and no backing array that
    existed before is written to, on any path: the plugin's pointers are then
    either what they were or to an array and a view of their own, so readers
    of the previous view, the previous record set and the request itself are
    undisturbed, also when the rebuild fails after the update was applied. *)
Theorem update_on_pointers (w : Writer) (p : PDyn) (d : DynUpdate) (m : PMsg) (h : Heap) :
  wf_heap h -> stands_for h p d -> request_at h m ->
  exists out p' notified h' d',
    p_serveUpdate w p m h = Some ((out, p', notified), h') /\
    serveUpdate w d (m_msg m) = (out, d', notified) /\
    stands_for h' p' d' /\ wf_heap h' /\ kept h h' /\
    (p' = p \/ fresh_state h p').
Proof.
  intros W S M. destruct (wp_serveUpdate w p d m h W S M) as (a & h' & E & I & E1 & E2 & S' & Hp).
  destruct a as [[out p'] n]. destruct (serveUpdate w d (m_msg m)) as [[out' d'] n']. cbn in *.
  subst. exists out', p', n', h', d'. split_and!; try done; apply I.
Qed.

(** Steps of a server over its heap: an update is handled, or something else
    allocates (the next request is decoded, a reader takes notes). *)
Inductive p_step : Heap * PDyn -> Heap * PDyn -> Prop :=
  | step_update w m h p out p' n h' :
      request_at h m -> p_serveUpdate w p m h = Some ((out, p', n), h') -> p_step (h, p) (h', p')
  | step_alloc h p h' : wf_heap h' -> kept h h' -> p_step (h, p) (h', p).

(** An update of the value model. *)
Definition v_step (d d' : DynUpdate) : Prop := exists w r, d' = (serveUpdate w d r).1.2.

Lemma p_step_ok s s' d :
  p_step s s' -> wf_heap s.1 -> stands_for s.1 s.2 d ->
  wf_heap s'.1 /\ kept s.1 s'.1 /\ exists d', rtc v_step d d' /\ stands_for s'.1 s'.2 d'.
Proof.
  intros [w m h p out p' n h' M E|h p h' W' K] W S; cbn in *.
  - destruct (wp_serveUpdate w p d m h W S M) as (a & k & E' & I & _ & _ & S' & _).
    rewrite E in E'. injection E' as <- <-. split_and!; [apply I..|]. eexists. split; [|exact S'].
    apply rtc_once. by exists w, (m_msg m).
  - split_and!; [done..|]. exists d. split; [done|]. by eapply stands_kept.
Qed.

Lemma p_run_ok s s' d :
  rtc p_step s s' -> wf_heap s.1 -> stands_for s.1 s.2 d ->
  kept s.1 s'.1 /\ exists d', rtc v_step d d' /\ stands_for s'.1 s'.2 d'.
Proof.
  intros Hr. revert d. induction Hr as [s|s s1 s2 Hs _ IH]; intros d W S.
  - split; [done|]. by exists d.
  - destruct (p_step_ok _ _ _ Hs W S) as (W1 & K1 & d1 & R1 & S1).
    destruct (IH d1 W1 S1) as (K2 & d2 & R2 & S2).
    split; [by etrans|]. exists d2. split; [by etrans|done].
Qed.

(** Whatever updates a server handles after a reader took the view, the
    records that view serves are still as they were built, and so is the record
    set a transfer was started on: a run over the heap is a run of the value
    model, and it keeps every record and array it found. *)
Theorem views_undisturbed (h h' : Heap) (p p' : PDyn) (d : DynUpdate) :
  rtc p_step (h, p) (h', p') -> wf_heap h -> stands_for h p d ->
  (exists d', rtc v_step d d' /\ stands_for h' p' d') /\
  (forall v, p_view p = Some v -> intact h' (pf_recs v)) /\ holds h' (p_rrs p) (d_rrs d).
Proof.
  intros Hr W S. destruct (p_run_ok _ _ d Hr W S) as [K Hd]. cbn in *. split; [done|].
  destruct S. split.
  - intros v E. eapply intact_kept; [exact K|]. by apply st_view0.
  - by eapply holds_kept.
Qed.

End Specs.

(** ** A run *)

#[local] Existing Instance simple_filelib.

(** [append] leaves no room, [Insert] lower-cases the owner name. *)
#[local] Instance simple_runtime : Runtime := {
  spare _ _ := O;
  Insert_leaves _ r := mkRR (set_name (lower (Name (Hdr r))) (Hdr r)) (Data r)
}.

(** The example zone of [DynProps] at addresses 0 to 2, its slice at 3 with
    room for one more record, and an update's record at 4. *)
Definition ex_heap (updates : list RR) : Heap :=
  let put l := list_to_map (zip (seq 0 (length l)) l) in
  let rrs := ex_zone 7 ++ updates in
  {| h_rr := put rrs; h_arr := {[ length rrs := [Some 0%nat; Some 1%nat; Some 2%nat; None] ]};
     h_next := S (length rrs) |}.

Definition ex_pdyn (n : nat) : PDyn :=
  {| p_next := None; p_xfer := true; p_mutable := Some {[TypeTXT]};
     p_view := Some {| pf_file := ex_view (ex_zone 7); pf_recs := [] |};
     p_zone := bs "example.org."; p_rrs := {| s_arr := n; s_off := 0; s_len := 3 |} |}%nat.

Definition ex_pmsg (updates : list RR) : PMsg :=
  {| m_msg := ex_update updates; m_prereqs := []; m_updates := seq 3 (length updates) |}.
Definition ex_run (updates : list RR) : option (Outcome * PDyn * list bytes * Heap) :=
  p_serveUpdate ex_writer (ex_pdyn (3 + length updates)) (ex_pmsg updates) (ex_heap updates).

(** The new slice shares the two records the update left alone. *)
Example ex_shares :
  match ex_run [ex_txt] with
  | Some (_, p, _, h) => h_arr h !! s_arr (p_rrs p) = Some [Some 8%nat; Some 1%nat; Some 2%nat; Some 6%nat]
  | None => False
  end.
Proof. vm_compute. reflexivity. Qed.

Lemma ex_wf_heap : wf_heap (ex_heap [ex_txt]).
Proof.
  split.
  - intros p r E. cbn in *.
    repeat (apply lookup_insert_Some in E as [[<- _]|[_ E]]; [lia|]). by rewrite lookup_empty in E.
  - intros a l E. cbn in E. apply lookup_insert_Some in E as [[<- _]|[_ E]]; [cbn; lia|].
    by rewrite lookup_empty in E.
Qed.

Lemma ex_stands : stands_for (ex_heap [ex_txt]) (ex_pdyn 4) (ex_dyn 7).
Proof.
  split; try done.
  - split; [done|]. intros v [= <-]. constructor.
  - exists [0; 1; 2]%nat. split.
    + exists [Some 0%nat; Some 1%nat; Some 2%nat; None]. repeat split; try done. cbn. lia.
    + repeat constructor.
Qed.

Lemma ex_request_at : request_at (ex_heap [ex_txt]) (ex_pmsg [ex_txt]).
Proof. split; repeat constructor. Qed.

(** The challenge record is added and the serial bumped; the old slice and its
    records are what they were. *)
Lemma update_on_pointers_witness :
  exists out p' notified h',
    ex_run [ex_txt] = Some ((out, p', notified), h') /\
    notified = [bs "example.org."] /\ Rcode <$> written out = [RcodeSuccess] /\
    holds h' (p_rrs p') (ex_zone 8 ++ [ex_txt]) /\ holds h' (p_rrs (ex_pdyn 4)) (ex_zone 7).
Proof.
  destruct (update_on_pointers ex_writer (ex_pdyn 4) (ex_dyn 7) (ex_pmsg [ex_txt]) (ex_heap [ex_txt])
              ex_wf_heap ex_stands ex_request_at)
    as (out & p' & n & h' & d' & E & Ed & S & _ & K & _).
  exists out, p', n, h'. split; [exact E|].
  assert (Ed' : d_rrs d' = ex_zone 8 ++ [ex_txt]).
  { replace d' with ex_after by (unfold ex_after; cbn [m_msg ex_pmsg] in Ed; by rewrite Ed).
    exact ex_after_rrs. }
  split; [|split; [|split]].
  - replace n with (serveUpdate ex_writer (ex_dyn 7) (ex_update [ex_txt])).2
      by (cbn [m_msg ex_pmsg] in Ed; by rewrite Ed). vm_compute. reflexivity.
  - replace out with (serveUpdate ex_writer (ex_dyn 7) (ex_update [ex_txt])).1.1
      by (cbn [m_msg ex_pmsg] in Ed; by rewrite Ed). vm_compute. reflexivity.
  - rewrite <- Ed'. apply (st_rrs _ _ _ S).
  - eapply holds_kept; [exact K|]. apply (st_rrs _ _ _ ex_stands).
Defined.

Lemma views_undisturbed_witness :
  exists a h', ex_run [ex_txt] = Some (a, h') /\ holds h' (p_rrs (ex_pdyn 4)) (ex_zone 7).
Proof.
  destruct (wp_serveUpdate ex_writer (ex_pdyn 4) (ex_dyn 7) (ex_pmsg [ex_txt]) (ex_heap [ex_txt])
              ex_wf_heap ex_stands ex_request_at) as ([[out p'] n] & h' & E & _).
  exists (out, p', n), h'. split; [exact E|].
  eapply (views_undisturbed (ex_heap [ex_txt]) h' (ex_pdyn 4) p' (ex_dyn 7)).
  - apply rtc_once. eapply step_update; [exact ex_request_at|exact E].
  - exact ex_wf_heap.
  - exact ex_stands.
Defined.
