(* ===== verification/DynRace.v ===== *)
(** * Updates and readers in parallel ([dynupdate]'s [RWMutex])

    CoreDNS serves requests on many goroutines.  A query or a transfer takes
    the view pointer under the read lock and serves from it after unlocking;
    an UPDATE is checked for form, zone and TSIG without a lock, then holds the
    write lock from its first prerequisite to its reply, and stores the new
    record set and the new view one after the other.  [thread_step] is one such
    step, a schedule says whose turn it is ([turn]; a thread whose lock is taken
    stays where it is), and the theorem says that every interleaving is
    linearizable: each request gets the result, and the plugin the state, that
    [DynUpdate.dyn_ServeDNS] gives when the requests are served one after
    another in the order in which they committed.

    [sh_commits] is a history variable, the order of those commits: a query
    commits when it reads the view, an update when it stores the view or when
    it is turned away. *)

From S2P Require Import Prelude GoStrings Netip Dns SimpleDns DynZone DynUpdate DynProps.

Section Race.
Context `{N : NameLib} `{NL : !NameLaws N} `{L : MsgLib} `{ML : !MsgLaws L} `{F : FileLib}.

(** ** Requests and results *)

Inductive Request := RServe (w : Writer) (r : Msg) | RTransfer (zone : bytes) (serial : Z).

Inductive Result := Served (out : Outcome) (notified : list bytes) | Transferred (rrs : option (list RR)).

(** A request served alone. *)
Definition serve_one (req : Request) (d : DynUpdate) : Result * DynUpdate :=
  match req with
  | RServe w r => let '(out, d', n) := dyn_ServeDNS w d r in (Served out n, d')
  | RTransfer zone serial => (Transferred (dyn_Transfer d zone serial), d)
  end.

(** What a reader makes of the view it took; a nil view panics, and the server
    recovers with SERVFAIL. *)
Definition from_view (req : Request) (v : option File) : Result :=
  match req with
  | RServe w r =>
      Served (match v with
              | Some v => file_ServeDNS (f_next v) (f_origin v) (f_zone v) r
              | None => {| written := []; code := RcodeServerFailure |}
              end) []
  | RTransfer zone serial => Transferred (v ← v; file_Transfer (f_origin v) (f_zone v) zone serial)
  end.

(** ** One request, step by step *)

(** Where a goroutine is. *)
Inductive PC :=
| Arrived
| AwaitRLock | HoldRLock | HaveView (v : option File) | Serving (v : option File)
| AwaitLock | Checking | Prescanning | Applying
| Bumping (updated : list RR) | Building (updated : list RR)
| StoringRrs (updated : list RR) (view : File) | StoringView (updated : list RR) (view : File)
| Notifying | Replying (rcode : Z) (notified : list bytes) | Unlocking (res : Result)
| Done (res : Result).

(** What the goroutines share: the plugin, its lock (the writer, the readers)
    and the history of commits. *)
Record Shared := mkShared {
  sh_d : DynUpdate;
  sh_writer : option nat;
  sh_readers : gset nat;
  sh_commits : list nat
}.

Definition commit (i : nat) (s : Shared) : Shared :=
  mkShared (sh_d s) (sh_writer s) (sh_readers s) (sh_commits s ++ [i]).
Definition with_d (d : DynUpdate) (s : Shared) : Shared :=
  mkShared d (sh_writer s) (sh_readers s) (sh_commits s).
Definition with_writer (w : option nat) (s : Shared) : Shared :=
  mkShared (sh_d s) w (sh_readers s) (sh_commits s).
Definition with_readers (rs : gset nat) (s : Shared) : Shared :=
  mkShared (sh_d s) (sh_writer s) rs (sh_commits s).

(** [d.rrs = rrs] and [d.view = view], two stores. *)
Definition store_rrs (rrs : list RR) (d : DynUpdate) : DynUpdate :=
  {| d_next := d_next d; d_xfer := d_xfer d; d_mutable := d_mutable d;
     d_view := d_view d; d_zone := d_zone d; d_rrs := rrs |}.
Definition store_view (view : File) (d : DynUpdate) : DynUpdate :=
  {| d_next := d_next d; d_xfer := d_xfer d; d_mutable := d_mutable d;
     d_view := Some view; d_zone := d_zone d; d_rrs := d_rrs d |}.

(** The checks [serveUpdate] makes before it takes the lock. *)
Definition precheck (w : Writer) (zone : bytes) (r : Msg) : option Z :=
  match Questions r with
  | [q] =>
      if negb (Qtype q =? TypeSOA) || negb (Qclass q =? ClassINET) then Some RcodeFormatError
      else if negb (beqb (canon (QName q)) zone) then Some RcodeNotAuth
      else if negb (tsigVerified w r) then Some RcodeRefused
      else None
  | _ => Some RcodeFormatError
  end.

(** An UPDATE's message and writer; the other requests do not get there. *)
Definition update_step (i : nat) (w : Writer) (r : Msg) (pc : PC) (s : Shared) : PC * Shared :=
  let d := sh_d s in
  match pc with
  | AwaitLock =>
      match sh_writer s with
      | None => if decide (sh_readers s = ∅) then (Checking, with_writer (Some i) s) else (pc, s)
      | Some _ => (pc, s)
      end
  | Checking =>
      let rcode := checkPrereqs (d_zone d) (d_rrs d) (Answer r) in
      if negb (rcode =? RcodeSuccess) then (Replying rcode [], commit i s) else (Prescanning, s)
  | Prescanning =>
      let rcode := prescan (d_zone d) (d_mutable d) (NsSec r) in
      if negb (rcode =? RcodeSuccess) then (Replying rcode [], commit i s) else (Applying, s)
  | Applying =>
      let '(updated, changed) := apply_updates (d_zone d) (d_rrs d) (NsSec r) in
      if negb changed then (Replying RcodeSuccess [], commit i s) else (Bumping updated, s)
  | Bumping updated => (Building (advance (d_rrs d) updated), s)
  | Building updated =>
      match build d updated with
      | None => (Replying RcodeServerFailure [], commit i s)
      | Some view => (StoringRrs updated view, s)
      end
  | StoringRrs updated view => (StoringView updated view, with_d (store_rrs updated d) s)
  | StoringView _ view => (Notifying, commit i (with_d (store_view view d) s))
  | Notifying => (Replying RcodeSuccess (if d_xfer d then [d_zone d] else []), s)
  | Replying rcode n => (Unlocking (Served (reply w r rcode) n), s)
  | Unlocking res => (Done res, with_writer None s)
  | _ => (pc, s)
  end.

Definition read_step (i : nat) (req : Request) (pc : PC) (s : Shared) : PC * Shared :=
  match pc with
  | AwaitRLock =>
      match sh_writer s with
      | None => (HoldRLock, with_readers ({[i]} ∪ sh_readers s) s)
      | Some _ => (pc, s)
      end
  | HoldRLock => (HaveView (d_view (sh_d s)), commit i s)
  | HaveView v => (Serving v, with_readers (sh_readers s ∖ {[i]}) s)
  | Serving v => (Done (from_view req v), s)
  | _ => (pc, s)
  end.

Definition is_update (req : Request) : option (Writer * Msg) :=
  match req with
  | RServe w r => if Opcode r =? OpcodeUpdate then Some (w, r) else None
  | RTransfer _ _ => None
  end.

Definition thread_step (i : nat) (req : Request) (pc : PC) (s : Shared) : PC * Shared :=
  match is_update req, pc with
  | Some (w, r), Arrived =>
      match precheck w (d_zone (sh_d s)) r with
      | Some rcode => (Done (Served (reply w r rcode) []), commit i s)
      | None => (AwaitLock, s)
      end
  | Some (w, r), _ => update_step i w r pc s
  | None, Arrived => (AwaitRLock, s)
  | None, _ => read_step i req pc s
  end.

(** ** All of them *)

Record Sys := mkSys { threads : list (Request * PC); shared : Shared }.

Definition start (reqs : list Request) (d : DynUpdate) : Sys :=
  mkSys ((fun r => (r, Arrived)) <$> reqs) (mkShared d None ∅ []).

Definition turn (s : Sys) (i : nat) : Sys :=
  match threads s !! i with
  | Some (req, pc) =>
      let '(pc', sh) := thread_step i req pc (shared s) in mkSys (<[i := (req, pc')]> (threads s)) sh
  | None => s
  end.

Definition race (reqs : list Request) (d : DynUpdate) (sched : list nat) : Sys :=
  foldl turn (start reqs d) sched.

(** The requests [order] served one after another. *)
Definition in_turn (reqs : list Request) (d : DynUpdate) (order : list nat) : DynUpdate :=
  foldl (fun d i => match reqs !! i with Some req => (serve_one req d).2 | None => d end) d order.

End Race.

(** ** What each place promises *)

Section Linear.
Context `{N : NameLib} `{NL : !NameLaws N} `{L : MsgLib} `{ML : !MsgLaws L} `{F : FileLib}.
Variable reqs : list Request.
Variable d0 : DynUpdate.

(** The rest of [serveUpdate], from each place on. *)
Definition rest_build (w : Writer) (r : Msg) (d : DynUpdate) (updated : list RR) : served :=
  match swap d updated with
  | None => (reply w r RcodeServerFailure, d, [])
  | Some d' => (reply w r RcodeSuccess, d', if d_xfer d then [d_zone d] else [])
  end.
Definition rest_apply (w : Writer) (r : Msg) (d : DynUpdate) : served :=
  let '(updated, changed) := apply_updates (d_zone d) (d_rrs d) (NsSec r) in
  if negb changed then (reply w r RcodeSuccess, d, [])
  else rest_build w r d (advance (d_rrs d) updated).
Definition rest_prescan (w : Writer) (r : Msg) (d : DynUpdate) : served :=
  let rcode := prescan (d_zone d) (d_mutable d) (NsSec r) in
  if negb (rcode =? RcodeSuccess) then (reply w r rcode, d, []) else rest_apply w r d.
Definition rest_check (w : Writer) (r : Msg) (d : DynUpdate) : served :=
  let rcode := checkPrereqs (d_zone d) (d_rrs d) (Answer r) in
  if negb (rcode =? RcodeSuccess) then (reply w r rcode, d, []) else rest_prescan w r d.

Lemma serveUpdate_split w d r :
  serveUpdate w d r = match precheck w (d_zone d) r with
                      | Some rcode => (reply w r rcode, d, [])
                      | None => rest_check w r d
                      end.
Proof.
  unfold serveUpdate, precheck. destruct (Questions r) as [|q [|??]]; try done.
  case_match; [done|]. destruct (beqb (canon (QName q)) (d_zone d)) eqn:E; cbn [negb]; [|done].
  case_match; [done|]. apply beqb_true in E. rewrite E. unfold rest_check, rest_prescan, rest_apply, rest_build.
  done.
Qed.

Notation D c := (in_turn reqs d0 c).

Definition promised (w : Writer) (r : Msg) (d : DynUpdate) (pc : PC) : Prop :=
  match pc with
  | AwaitLock => precheck w (d_zone d0) r = None
  | Checking => serveUpdate w d r = rest_check w r d
  | Prescanning => serveUpdate w d r = rest_prescan w r d
  | Applying => serveUpdate w d r = rest_apply w r d
  | Bumping u => serveUpdate w d r = rest_build w r d (advance (d_rrs d) u)
  | Building u => serveUpdate w d r = rest_build w r d u
  | StoringRrs u v | StoringView u v =>
      serveUpdate w d r = (reply w r RcodeSuccess, store_view v (store_rrs u d),
                           if d_xfer d then [d_zone d] else [])
  | _ => True
  end.

Definition locked (pc : PC) : bool :=
  match pc with
  | Checking | Prescanning | Applying | Bumping _ | Building _ | StoringRrs _ _ | StoringView _ _
  | Notifying | Replying _ _ | Unlocking _ => true
  | _ => false
  end.
Definition rlocked (pc : PC) : bool := match pc with HoldRLock | HaveView _ => true | _ => false end.

Definition update_pc (pc : PC) : bool := locked pc || match pc with AwaitLock => true | _ => false end.
Definition read_pc (pc : PC) : bool :=
  match pc with AwaitRLock | HoldRLock | HaveView _ | Serving _ => true | _ => false end.

(** The result a request past its commit will get. *)
Definition result_of (req : Request) (d : DynUpdate) (pc : PC) : option Result :=
  match pc, req with
  | (HaveView v | Serving v), _ => Some (from_view req v)
  | Notifying, RServe w r => Some (Served (reply w r RcodeSuccess) (if d_xfer d then [d_zone d] else []))
  | Replying rcode n, RServe w r => Some (Served (reply w r rcode) n)
  | (Unlocking res | Done res), _ => Some res
  | _, _ => None
  end.

(** The request at [i] committed with this result. *)
Definition committed_as (commits : list nat) (i : nat) (req : Request) (res : Result) : Prop :=
  exists pre post, commits = pre ++ i :: post /\ (serve_one req (D pre)).1 = res.

Record thread_ok (sh : Shared) (i : nat) (req : Request) (pc : PC) : Prop := {
  t_lock : locked pc = true <-> sh_writer sh = Some i;
  t_rlock : rlocked pc = true <-> i ∈ sh_readers sh;
  t_before : result_of req (sh_d sh) pc = None -> i ∉ sh_commits sh;
  t_after : forall res, result_of req (sh_d sh) pc = Some res -> committed_as (sh_commits sh) i req res;
  t_d : locked pc = true ->
        sh_d sh = match pc with StoringView u _ => store_rrs u (D (sh_commits sh)) | _ => D (sh_commits sh) end;
  t_update : update_pc pc = true ->
             exists w r, is_update req = Some (w, r) /\ promised w r (D (sh_commits sh)) pc;
  t_read : read_pc pc = true -> is_update req = None
}.

(** What holds of the shared part by itself. *)
Record shared_ok (sh : Shared) : Prop := {
  s_excl : sh_writer sh <> None -> sh_readers sh = ∅;
  s_d : sh_writer sh = None -> sh_d sh = D (sh_commits sh);
  s_zone : d_zone (sh_d sh) = d_zone d0;
  s_nodup : NoDup (sh_commits sh)
}.

(** What a step of [j] may do to the others. *)
Record others (j : nat) (sh sh' : Shared) : Prop := {
  o_commits : sh_commits sh' = sh_commits sh \/ sh_commits sh' = sh_commits sh ++ [j];
  o_writer : forall i, i <> j -> sh_writer sh = Some i ->
             sh_writer sh' = Some i /\ sh_d sh' = sh_d sh /\ D (sh_commits sh') = D (sh_commits sh);
  o_writer' : forall i, i <> j -> sh_writer sh' = Some i -> sh_writer sh = Some i;
  o_readers : forall i, i <> j -> i ∈ sh_readers sh <-> i ∈ sh_readers sh'
}.

(** ** Commits *)

Lemma committed_app commits i req res j :
  committed_as commits i req res -> committed_as (commits ++ [j]) i req res.
Proof.
  intros (pre & post & -> & E). exists pre, (post ++ [j]). split; [|done].
  by rewrite <- app_assoc.
Qed.

Lemma committed_now commits i req res :
  (serve_one req (D commits)).1 = res -> committed_as (commits ++ [i]) i req res.
Proof. intros E. by exists commits, []. Qed.

Lemma in_turn_snoc commits i req :
  reqs !! i = Some req -> D (commits ++ [i]) = (serve_one req (D commits)).2.
Proof. intros E. unfold in_turn. rewrite foldl_snoc. by rewrite E. Qed.

Lemma serve_update req w r d :
  is_update req = Some (w, r) ->
  serve_one req d = (Served (serveUpdate w d r).1.1 (serveUpdate w d r).2, (serveUpdate w d r).1.2).
Proof.
  unfold is_update. destruct req as [w' r'|]; [|done]. case_match eqn:E; [|done]. intros [= -> ->].
  cbn. unfold dyn_ServeDNS. rewrite E. by destruct (serveUpdate w d r) as [[out d'] n].
Qed.

Lemma serve_read req d : is_update req = None -> serve_one req d = (from_view req (d_view d), d).
Proof.
  unfold is_update. destruct req as [w r|zone serial]; [|done]. case_match eqn:E; [done|]. intros _.
  cbn. unfold dyn_ServeDNS. rewrite E. by destruct (d_view d).
Qed.

Lemma is_update_serve req w r : is_update req = Some (w, r) -> req = RServe w r.
Proof. unfold is_update. destruct req; [|done]. case_match; [|done]. by intros [= -> ->]. Qed.

Lemma rest_build_view w r d u v :
  build d u = Some v ->
  rest_build w r d u = (reply w r RcodeSuccess, store_view v (store_rrs u d), if d_xfer d then [d_zone d] else []).
Proof. unfold rest_build, swap. by intros ->. Qed.

Lemma rest_build_none w r d u : build d u = None -> rest_build w r d u = (reply w r RcodeServerFailure, d, []).
Proof. unfold rest_build, swap. by intros ->. Qed.

#[local] Arguments in_turn : simpl never.
#[local] Arguments serve_one : simpl never.

(** The other threads' promises survive a step. *)
Lemma thread_ok_others j sh sh' i req pc :
  i <> j -> others j sh sh' -> thread_ok sh i req pc -> thread_ok sh' i req pc.
Proof.
  intros Hn [Hc Hw Hw' Hr] [].
  assert (Hres : result_of req (sh_d sh') pc = result_of req (sh_d sh) pc).
  { destruct pc; try done. destruct (Hw i Hn (proj1 t_lock0 eq_refl)) as (_ & -> & _). done. }
  split; rewrite ?Hres.
  - rewrite t_lock0. split; [apply Hw, Hn|apply Hw', Hn].
  - rewrite t_rlock0. apply Hr, Hn.
  - intros E. specialize (t_before0 E). destruct Hc as [-> | ->]; [done|].
    rewrite elem_of_app, list_elem_of_singleton. intros [?|?]; done.
  - intros res E. specialize (t_after0 _ E). destruct Hc as [-> | ->]; [done|]. by apply committed_app.
  - intros E. destruct (Hw i Hn (proj1 t_lock0 E)) as (_ & -> & ->). by apply t_d0.
  - intros E. destruct (t_update0 E) as (w & r & Eu & Hp). exists w, r. split; [done|].
    unfold update_pc in E. destruct (locked pc) eqn:El.
    + by destruct (Hw i Hn (proj1 t_lock0 eq_refl)) as (_ & _ & ->).
    + by destruct pc.
  - done.
Qed.

(** ** One step *)

Lemma others_refl i sh : others i sh sh.
Proof. split; auto. Qed.

(** A commit that changes nothing. *)
Lemma commit_same i sh :
  D (sh_commits sh ++ [i]) = D (sh_commits sh) -> i ∉ sh_commits sh -> shared_ok sh ->
  shared_ok (commit i sh) /\ others i sh (commit i sh).
Proof.
  intros E Hi []. split; split; cbn; rewrite ?E; auto.
  apply NoDup_app. split_and!; [done| |apply NoDup_singleton]. by intros x Hx ->%list_elem_of_singleton.
Qed.

Lemma refused_same req w r i c rcode :
  reqs !! i = Some req -> is_update req = Some (w, r) ->
  serveUpdate w (D c) r = (reply w r rcode, D c, []) ->
  D (c ++ [i]) = D c /\ committed_as (c ++ [i]) i req (Served (reply w r rcode) []).
Proof.
  intros Hr Hu E. rewrite (in_turn_snoc _ _ req), (serve_update _ w r), E by done. split; [done|].
  apply committed_now. by rewrite (serve_update _ w r), E.
Qed.

(** What a step owes. *)
Definition step_ok (i : nat) (req : Request) (sh : Shared) (s' : PC * Shared) : Prop :=
  shared_ok s'.2 /\ thread_ok s'.2 i req s'.1 /\ others i sh s'.2.

(** To stay where one waits. *)
Lemma wait_ok i req pc sh : shared_ok sh -> thread_ok sh i req pc -> step_ok i req sh (pc, sh).
Proof. intros S T. split_and!; [done..|apply others_refl]. Qed.

(** Under the write lock, before the commit. *)
Definition working (pc : PC) : bool :=
  match pc with
  | Checking | Prescanning | Applying | Bumping _ | Building _ | StoringRrs _ _ => true
  | _ => false
  end.

Lemma working_locked pc : working pc = true -> locked pc = true /\ rlocked pc = false /\ read_pc pc = false.
Proof. by destruct pc. Qed.

Lemma working_result req d pc : working pc = true -> result_of req d pc = None.
Proof. by destruct pc, req. Qed.

Lemma working_d sh i req pc :
  working pc = true -> thread_ok sh i req pc -> sh_d sh = D (sh_commits sh) /\ i ∉ sh_commits sh.
Proof.
  intros E T. split.
  - pose proof (t_d _ _ _ _ T) as H. destruct pc; try done; by apply H.
  - apply (t_before _ _ _ _ T). by apply working_result.
Qed.

(** From one such place to the next. *)
Lemma work_on i req w r pc pc' sh :
  working pc = true -> working pc' = true -> is_update req = Some (w, r) ->
  promised w r (D (sh_commits sh)) pc' ->
  shared_ok sh -> thread_ok sh i req pc -> step_ok i req sh (pc', sh).
Proof.
  intros E E' Hu P S T. destruct (working_d _ _ _ _ E T) as [Ed Hi].
  apply working_locked in E as (El & Er & _). pose proof (working_locked _ E') as (El' & Er' & En').
  apply wait_ok; [done|]. destruct T. split.
  - by rewrite <- t_lock0, El, El'.
  - by rewrite <- t_rlock0, Er, Er'.
  - done.
  - intros res. by rewrite working_result.
  - intros _. rewrite Ed. by destruct pc'.
  - intros _. by exists w, r.
  - by rewrite En'.
Qed.

(** An update turned away under the lock. *)
Lemma refuse_ok i req w r pc sh rcode :
  reqs !! i = Some req -> is_update req = Some (w, r) -> working pc = true ->
  serveUpdate w (D (sh_commits sh)) r = (reply w r rcode, D (sh_commits sh), []) ->
  shared_ok sh -> thread_ok sh i req pc -> step_ok i req sh (Replying rcode [], commit i sh).
Proof.
  intros Hi Hu E P S T. destruct (working_d _ _ _ _ E T) as [Ed Hc].
  destruct (refused_same _ _ _ _ _ _ Hi Hu P) as [Es Ec].
  destruct (commit_same i sh Es Hc S) as [S' O].
  apply working_locked in E as (El & Er & _). pose proof (is_update_serve _ _ _ Hu) as Hreq.
  split_and!; [done| |done]. destruct T. cbn. split; cbn.
  - by rewrite <- t_lock0, El.
  - by rewrite <- t_rlock0, Er.
  - by rewrite Hreq.
  - rewrite Hreq. intros res [= <-]. by rewrite <- Hreq.
  - by rewrite Es.
  - intros _. by exists w, r.
  - done.
Qed.

Lemma take_lock_ok i req w r sh :
  is_update req = Some (w, r) -> precheck w (d_zone d0) r = None ->
  sh_writer sh = None -> sh_readers sh = ∅ ->
  shared_ok sh -> thread_ok sh i req AwaitLock -> step_ok i req sh (Checking, with_writer (Some i) sh).
Proof.
  intros Hu P Ew Er S []. pose proof (is_update_serve _ _ _ Hu) as Hreq. subst req.
  split_and!; cbn; [destruct S; by split| |].
  - split; cbn; try done; [intros _; by apply s_d|]. intros _. exists w, r. split; [done|]. cbn.
    rewrite serveUpdate_split, <- (s_d _ S), (s_zone _ S), P by done. done.
  - split; cbn; try (by left); [| |done].
    + intros k _ E. by rewrite Ew in E.
    + intros k Hk [= E]. by destruct Hk.
Qed.

(** The two stores. *)
Lemma store_rrs_ok i req w r u v sh :
  is_update req = Some (w, r) -> promised w r (D (sh_commits sh)) (StoringRrs u v) ->
  shared_ok sh -> thread_ok sh i req (StoringRrs u v) ->
  step_ok i req sh (StoringView u v, with_d (store_rrs u (sh_d sh)) sh).
Proof.
  intros Hu P S T. destruct (working_d _ _ _ (StoringRrs u v) eq_refl T) as [Ed Hc]. destruct T.
  pose proof (proj1 t_lock0 eq_refl) as Ew. pose proof (is_update_serve _ _ _ Hu) as Hreq. subst req.
  split_and!; cbn.
  - destruct S. split; cbn; [done| |done..]. by rewrite Ew.
  - split; cbn; try done; try (by rewrite Ed); intros _; by exists w, r.
  - split; cbn; [by left| |done..]. intros k Hk E. congruence.
Qed.

Lemma store_view_ok i req w r u v sh :
  reqs !! i = Some req -> is_update req = Some (w, r) ->
  promised w r (D (sh_commits sh)) (StoringView u v) ->
  shared_ok sh -> thread_ok sh i req (StoringView u v) ->
  step_ok i req sh (Notifying, commit i (with_d (store_view v (sh_d sh)) sh)).
Proof.
  intros Hi Hu P S []. pose proof (proj1 t_lock0 eq_refl) as Ew. specialize (t_d0 eq_refl). cbn in *.
  assert (Hc : i ∉ sh_commits sh) by (apply t_before0; by destruct req).
  assert (E : D (sh_commits sh ++ [i]) = store_view v (sh_d sh)).
  { rewrite (in_turn_snoc _ _ req), (serve_update _ w r) by done. by rewrite P, t_d0. }
  pose proof (is_update_serve _ _ _ Hu) as Hreq.
  split_and!; cbn.
  - destruct S. split; cbn; [done|by rewrite Ew|done|].
    apply NoDup_app. split_and!; [done| |apply NoDup_singleton]. by intros x Hx ->%list_elem_of_singleton.
  - subst req. split; cbn; try done.
    + intros res [= <-]. apply committed_now. rewrite (serve_update _ w r), P by done.
      by rewrite t_d0.
    + intros _. by exists w, r.
  - split; cbn; [by right| |done..]. intros k Hk E'. congruence.
Qed.

Lemma reply_ok i req w r pc pc' sh :
  is_update req = Some (w, r) -> update_pc pc = true ->
  locked pc = true -> locked pc' = true -> rlocked pc' = false -> read_pc pc' = false ->
  result_of req (sh_d sh) pc' = result_of req (sh_d sh) pc -> promised w r (D (sh_commits sh)) pc' ->
  match pc with StoringView _ _ => False | _ => True end ->
  match pc' with StoringView _ _ => False | _ => True end ->
  shared_ok sh -> thread_ok sh i req pc -> step_ok i req sh (pc', sh).
Proof.
  intros Hu Eu El El' Er' En' Eq P Hv Hv' S []. apply wait_ok; [done|]. split; rewrite ?Eq; try done.
  - by rewrite <- t_lock0, El, El'.
  - rewrite <- t_rlock0. rewrite Er'. destruct pc; done.
  - intros _. specialize (t_d0 El). rewrite t_d0. by destruct pc, pc'.
  - intros _. by exists w, r.
  - by rewrite En'.
Qed.

Lemma unlock_ok i req res sh :
  shared_ok sh -> thread_ok sh i req (Unlocking res) -> step_ok i req sh (Done res, with_writer None sh).
Proof.
  intros S []. pose proof (proj1 t_lock0 eq_refl) as Ew. specialize (t_d0 eq_refl). cbn in *.
  split_and!; cbn.
  - destruct S. by split.
  - split; cbn; try done.
  - split; cbn; [by left| |done..]. intros k Hk E. congruence.
Qed.

Lemma update_step_ok i req w r pc sh :
  reqs !! i = Some req -> is_update req = Some (w, r) -> update_pc pc = true ->
  shared_ok sh -> thread_ok sh i req pc -> step_ok i req sh (update_step i w r pc sh).
Proof.
  intros Hi Hu Hpc S T. destruct (t_update _ _ _ _ T Hpc) as (w' & r' & Hu' & P).
  rewrite Hu in Hu'. injection Hu' as <- <-. pose proof (is_update_serve _ _ _ Hu) as Hreq.
  assert (Hd : working pc = true -> sh_d sh = D (sh_commits sh)).
  { intros E. by eapply working_d. }
  destruct pc; try done; cbn [update_step]; try rewrite (Hd eq_refl).
  - destruct (sh_writer sh) eqn:Ew; [by apply wait_ok|].
    destruct (decide _); [by eapply take_lock_ok|by apply wait_ok].
  - cbn in P. unfold rest_check in P. case_match; [by eapply (refuse_ok _ _ w r Checking)|by eapply (work_on _ _ w r Checking)].
  - cbn in P. unfold rest_prescan in P. 
    case_match; [by eapply (refuse_ok _ _ w r Prescanning)|by eapply (work_on _ _ w r Prescanning)].
  - cbn in P. unfold rest_apply in P. destruct (apply_updates _ _ _) as [u ch].
    case_match; [by eapply (refuse_ok _ _ w r Applying)|by eapply (work_on _ _ w r Applying)].
  - by eapply (work_on _ _ w r (Bumping updated)).
  - cbn in P. destruct (build _ updated) as [v|] eqn:Eb.
    + eapply (work_on _ _ w r (Building updated)); try done. cbn. by rewrite P, (rest_build_view _ _ _ _ v).
    + rewrite rest_build_none in P by done. by eapply (refuse_ok _ _ w r (Building updated)).
  - rewrite <- (Hd eq_refl). by eapply store_rrs_ok.
  - by eapply store_view_ok.
  - subst req. by eapply (reply_ok _ _ w r Notifying).
  - subst req. by eapply (reply_ok _ _ w r (Replying rcode notified)).
  - by apply unlock_ok.
Qed.


(** A reader's steps. *)
Lemma read_step_ok i req pc sh :
  reqs !! i = Some req -> is_update req = None -> read_pc pc = true ->
  shared_ok sh -> thread_ok sh i req pc -> step_ok i req sh (read_step i req pc sh).
Proof.
  intros Hi Hu Hpc S T. pose proof T as [Tl Tr Tb Ta Td _ _].
  assert (Hs : forall c, D (c ++ [i]) = D c).
  { intros c. by rewrite (in_turn_snoc _ _ req), serve_read. }
  destruct pc; try done; cbn [read_step].
  - destruct (sh_writer sh) eqn:Ew; [by apply wait_ok|]. split_and!; cbn.
    + destruct S. split; cbn; [congruence|auto..].
    + split; cbn; rewrite ?Ew; try done. all: try set_solver. all: by apply Tb.
    + split; cbn; [by left|intros; by rewrite Ew in *|done|set_solver].
  - assert (Ew : sh_writer sh = None).
    { destruct (sh_writer sh) eqn:E; [|done]. pose proof (proj1 Tr eq_refl) as H.
      rewrite (s_excl _ S) in H by (by rewrite E). set_solver. }
    destruct (commit_same i sh (Hs _) (Tb eq_refl) S) as [S' O]. split_and!; [done| |done].
    split; cbn; try done. intros res [= <-]. apply committed_now. rewrite serve_read by done.
    by rewrite <- (s_d _ S).
  - split_and!; cbn.
    + destruct S. split; cbn; try done. intros E. rewrite (s_excl0 E). set_solver.
    + split; cbn; try done. set_solver.
    + split; cbn; [by left|done|done|set_solver].
  - apply wait_ok; [done|]. split; cbn; try done.
Qed.

Lemma serveUpdate_zone w d r : d_zone (serveUpdate w d r).1.2 = d_zone d.
Proof.
  destruct (serveUpdate_cases w d r) as [[rcode ->]|(_ & updated & view & _ & _ & ->)]; done.
Qed.

Lemma in_turn_zone c : d_zone (D c) = d_zone d0.
Proof.
  induction c as [|i c IH] using rev_ind; [done|]. unfold in_turn in *. rewrite foldl_snoc.
  destruct (reqs !! i) as [req|]; [|done]. rewrite <- IH.
  destruct (is_update req) as [[w r]|] eqn:Hu; [|by rewrite serve_read].
  rewrite (serve_update _ w r) by done. apply serveUpdate_zone.
Qed.

(** Arrival: an update may be turned away before it takes the lock. *)
Lemma arrive_ok i req sh :
  reqs !! i = Some req -> shared_ok sh -> thread_ok sh i req Arrived ->
  step_ok i req sh (thread_step i req Arrived sh).
Proof.
  intros Hi S T. pose proof T as [Tl Tr Tb _ _ _ _]. unfold thread_step.
  destruct (is_update req) as [[w r]|] eqn:Hu.
  - destruct (precheck w _ r) as [rcode|] eqn:Ep.
    + assert (P : serveUpdate w (D (sh_commits sh)) r = (reply w r rcode, D (sh_commits sh), [])).
      { by rewrite serveUpdate_split, in_turn_zone, <- (s_zone _ S), Ep. }
      destruct (refused_same _ _ _ _ _ _ Hi Hu P) as [Es Ec].
      destruct (commit_same i sh Es (Tb eq_refl) S) as [S' O]. split_and!; [done| |done].
      split; cbn; try done. by intros res [= <-].
    + apply wait_ok; [done|]. split; cbn; try done. intros _. exists w, r. split; [done|].
      by rewrite (s_zone _ S) in Ep.
  - apply wait_ok; [done|]. by split.
Qed.

Lemma thread_step_ok i req pc sh :
  reqs !! i = Some req -> shared_ok sh -> thread_ok sh i req pc ->
  step_ok i req sh (thread_step i req pc sh).
Proof.
  intros Hi S T. destruct pc; [by apply arrive_ok|..]; unfold thread_step;
    destruct (is_update req) as [[w r]|] eqn:Hu;
    try (by apply wait_ok); try (by apply update_step_ok); try (by apply read_step_ok).
Qed.

(** ** The system *)

Record sys_ok (s : Sys) : Prop := {
  y_shared : shared_ok (shared s);
  y_reqs : length (threads s) = length reqs;
  y_threads : forall i req pc, threads s !! i = Some (req, pc) ->
              reqs !! i = Some req /\ thread_ok (shared s) i req pc;
  y_writer : forall i, sh_writer (shared s) = Some i -> is_Some (threads s !! i);
  y_readers : forall i, i ∈ sh_readers (shared s) -> is_Some (threads s !! i)
}.

Lemma sys_start_ok : sys_ok (start reqs d0).
Proof.
  split; cbn; [split; done || apply NoDup_nil_2|by rewrite length_fmap| |done|set_solver].
  intros i req pc H. rewrite list_lookup_fmap in H. destruct (reqs !! i) eqn:E; [|done].
  injection H as <- <-. split; [done|]. split; cbn; try done; try set_solver. 
Qed.

Lemma sys_turn_ok s i : sys_ok s -> sys_ok (turn s i) /\ exists l, sh_commits (shared (turn s i)) = sh_commits (shared s) ++ l.
Proof.
  intros Y. unfold turn. destruct (threads s !! i) as [[req pc]|] eqn:Ei.
  2: { split; [done|]. exists []. by rewrite app_nil_r. }
  destruct (y_threads _ Y _ _ _ Ei) as [Hr T].
  pose proof (thread_step_ok i req pc (shared s) Hr (y_shared _ Y) T) as (S' & T' & O).
  destruct (thread_step i req pc (shared s)) as [pc' sh]. cbn in *.
  pose proof (lookup_lt_Some _ _ _ Ei) as Hlt.
  split; [split|]; cbn; [done|by rewrite length_insert, (y_reqs _ Y)| | | |].
  - intros k req' pck Hk. apply list_lookup_insert_Some in Hk as [(<- & [= <- <-] & _)|[Hn Hk]]; [done|].
    destruct (y_threads _ Y _ _ _ Hk) as [Hr' Tk]. split; [done|]. by eapply thread_ok_others.
  - intros k Hk. destruct (decide (k = i)) as [->|Hn]; [rewrite list_lookup_insert_eq by done; done|].
    rewrite list_lookup_insert_ne by done. apply (y_writer _ Y). by eapply o_writer'.
  - intros k Hk. destruct (decide (k = i)) as [->|Hn]; [rewrite list_lookup_insert_eq by done; done|].
    rewrite list_lookup_insert_ne by done. apply (y_readers _ Y). by eapply o_readers.
  - destruct (o_commits _ _ _ O) as [-> | ->]; [exists []; by rewrite app_nil_r|by exists [i]].
Qed.

Lemma turns_ok sched s :
  sys_ok s -> sys_ok (foldl turn s sched) /\ sh_commits (shared s) `prefix_of` sh_commits (shared (foldl turn s sched)).
Proof.
  revert s. induction sched as [|i sched IH]; intros s Y; [done|]. cbn.
  destruct (sys_turn_ok s i Y) as [Y' [l El]]. destruct (IH _ Y') as [Y'' P]. split; [done|].
  etrans; [|exact P]. rewrite El. by apply prefix_app_r.
Qed.

Lemma race_ok sched : sys_ok (race reqs d0 sched).
Proof. apply turns_ok, sys_start_ok. Qed.

Lemma locked_view s :
  sys_ok s -> d_view (sh_d (shared s)) = d_view (D (sh_commits (shared s))).
Proof.
  intros Y. destruct (sh_writer (shared s)) as [i|] eqn:Ew; [|by rewrite (s_d _ (y_shared _ Y))].
  destruct (y_writer _ Y i Ew) as [[req pc] Hi]. destruct (y_threads _ Y _ _ _ Hi) as [_ []].
  rewrite (t_d0 (proj2 t_lock0 Ew)). by destruct pc.
Qed.


(** C3: however the goroutines interleave -- updates between their checks and
    their two stores, readers between taking the view and serving from it --
    the result is one of serving the requests one after another in the order
    of their commits: a finished request got exactly what
    [dyn_ServeDNS] (or [Transfer]) gives after the requests that committed
    before it, each commits once, and the state left when no update holds the
    lock is that of the same sequence. At every moment the view that a reader
    would take is a committed one, never that of a half-installed update. *)
Theorem race_linearizable (sched : list nat) :
  let s := race reqs d0 sched in
  let order := sh_commits (shared s) in
  NoDup order /\
  (forall i req res, threads s !! i = Some (req, Done res) ->
     exists pre post, order = pre ++ i :: post /\ (serve_one req (in_turn reqs d0 pre)).1 = res) /\
  (sh_writer (shared s) = None -> sh_d (shared s) = in_turn reqs d0 order) /\
  d_view (sh_d (shared s)) = d_view (in_turn reqs d0 order).
Proof.
  intros s order. pose proof (race_ok sched) as Y. split_and!.
  - apply (y_shared _ Y).
  - intros i req res Hi. destruct (y_threads _ Y _ _ _ Hi) as [_ T].
    apply (t_after _ _ _ _ T). by destruct req.
  - apply (y_shared _ Y).
  - by apply locked_view.
Qed.

(** A request that finished before another arrived is before it in the order:
    commits are only ever added at the end, and a request that has just arrived
    has not committed. *)
Lemma race_real_time (sched sched' : list nat) :
  sh_commits (shared (race reqs d0 sched)) `prefix_of` sh_commits (shared (race reqs d0 (sched ++ sched'))) /\
  forall i req, threads (race reqs d0 sched) !! i = Some (req, Arrived) ->
    i ∉ sh_commits (shared (race reqs d0 sched)).
Proof.
  split.
  - unfold race. rewrite foldl_app. apply turns_ok, race_ok.
  - intros i req Hi. destruct (y_threads _ (race_ok sched) _ _ _ Hi) as [_ T]. by apply (t_before _ _ _ _ T).
Qed.

(** ** Everyone finishes *)

(** Steps left. *)
Definition work (pc : PC) : nat :=
  match pc with
  | Arrived => 13
  | AwaitRLock => 4 | HoldRLock => 3 | HaveView _ => 2 | Serving _ => 1
  | AwaitLock => 12 | Checking => 11 | Prescanning => 10 | Applying => 9
  | Bumping _ => 8 | Building _ => 7 | StoringRrs _ _ => 6 | StoringView _ _ => 5
  | Notifying => 4 | Replying _ _ => 3 | Unlocking _ => 2
  | Done _ => 0
  end%nat.

Definition work_left (ts : list (Request * PC)) : nat := foldr (fun t n => work t.2 + n)%nat O ts.

Lemma work_left_insert ts i req pc pc' :
  ts !! i = Some (req, pc) -> (work pc' < work pc)%nat ->
  (work_left (<[i := (req, pc')]> ts) < work_left ts)%nat.
Proof.
  unfold work_left. revert i. induction ts as [|t ts IH]; intros i Hi Hw; [done|].
  destruct i as [|i]; simpl in *; [injection Hi as ->; simpl; lia|]. specialize (IH i Hi Hw). lia.
Qed.

(** A thread can go on: it holds what it needs, or the lock is free. *)
Definition enabled (sh : Shared) (pc : PC) : Prop :=
  match pc with
  | AwaitRLock => sh_writer sh = None
  | AwaitLock => sh_writer sh = None /\ sh_readers sh = ∅
  | Done _ => False
  | _ => True
  end.

Lemma enabled_works i req pc sh :
  thread_ok sh i req pc -> enabled sh pc -> (work (thread_step i req pc sh).1 < work pc)%nat.
Proof.
  intros [_ _ _ _ _ Tu Tn] E. unfold thread_step.
  destruct pc; cbn in E; try done;
    try (rewrite (Tn eq_refl)); try (destruct (Tu eq_refl) as (w & r & -> & _)); cbn;
    repeat (case_match; cbn); subst; try lia; try done; try (by destruct E).
Qed.

(** Someone can go on while anyone has not finished: the holder of the write
    lock, or else a reader that holds its lock, or else anyone. *)
Lemma someone_enabled s :
  sys_ok s -> work_left (threads s) <> O ->
  exists i req pc, threads s !! i = Some (req, pc) /\ enabled (shared s) pc.
Proof.
  intros Y Hw. destruct (sh_writer (shared s)) as [i|] eqn:Ew.
  { destruct (y_writer _ Y i Ew) as [[req pc] Hi]. exists i, req, pc. split; [done|].
    destruct (y_threads _ Y _ _ _ Hi) as [_ []]. pose proof (proj2 t_lock0 Ew). by destruct pc. }
  destruct (decide (sh_readers (shared s) = ∅)) as [Er|Er].
  - assert (H : exists t, t ∈ threads s /\ work t.2 <> O).
    { unfold work_left in Hw. clear -Hw. induction (threads s) as [|t ts IH]; [done|]. cbn in Hw.
      destruct (decide (work t.2 = O)) as [E|E]; [|exists t; split; [left|done]].
      destruct IH as (t' & ? & ?); [lia|]. exists t'. split; [by right|done]. }
    destruct H as ([req pc] & [i Hi]%list_elem_of_lookup & Hp). exists i, req, pc. split; [done|].
    by destruct pc.
  - apply set_choose_L in Er as [i Hi]. destruct (y_readers _ Y i Hi) as [[req pc] Ht].
    exists i, req, pc. split; [done|]. destruct (y_threads _ Y _ _ _ Ht) as [_ []].
    pose proof (proj2 t_rlock0 Hi). by destruct pc.
Qed.

Lemma turns_finish n s :
  sys_ok s -> (work_left (threads s) <= n)%nat ->
  exists sched, work_left (threads (foldl turn s sched)) = O.
Proof.
  revert s. induction n as [|n IH]; intros s Y Hn; [exists []; cbn; lia|].
  destruct (decide (work_left (threads s) = O)) as [E|E]; [by exists []|].
  destruct (someone_enabled s Y E) as (i & req & pc & Hi & He).
  destruct (sys_turn_ok s i Y) as [Y' _]. destruct (IH (turn s i) Y') as [sched Hs].
  - destruct (y_threads _ Y _ _ _ Hi) as [_ T]. pose proof (enabled_works _ _ _ _ T He) as Hw.
    unfold turn. rewrite Hi. destruct (thread_step i req pc (shared s)) as [pc' sh]. cbn [fst threads] in *.
    pose proof (work_left_insert _ _ _ _ _ Hi Hw). lia.
  - by exists (i :: sched).
Qed.

(** C29: there is no deadlock: from every point of every interleaving the requests
    can all be brought to their end. *)
Theorem race_finishes (sched : list nat) :
  exists sched', forall i req pc, threads (race reqs d0 (sched ++ sched')) !! i = Some (req, pc) ->
    exists res, pc = Done res.
Proof.
  destruct (turns_finish _ _ (race_ok sched) (Nat.le_refl _)) as [sched' E]. exists sched'.
  intros i req pc Hi. unfold race in Hi. rewrite foldl_app in Hi. fold (race reqs d0 sched) in Hi.
  assert (Hz : work pc = O).
  { revert E Hi. generalize (threads (foldl turn (race reqs d0 sched) sched')). unfold work_left.
    intros l. revert i. induction l as [|x l IH]; intros [|i] E Hi; try done; cbn in *.
    - injection Hi as ->. cbn in *. lia.
    - apply (IH i); [lia|done]. }
  destruct pc; try done. by eexists.
Qed.

End Linear.

(** ** A race *)

#[local] Existing Instance simple_filelib.

(** An ACME client adds its challenge while the validator asks for it. *)
Definition ex_query : Request :=
  RServe ex_writer (mkMsg OpcodeQuery 0 false false false
    [{| QName := bs "_acme-challenge.example.org."; Qtype := TypeTXT; Qclass := ClassINET |}]
    [] [] [] None false).
Definition ex_reqs : list Request := [RServe ex_writer (ex_update [ex_txt]); ex_query].

(** The query takes the view, the update runs, and the query is served from
    the view it took. *)
Definition ex_sched : list nat := [1; 1; 1; 0; 1]%nat ++ replicate 12 0%nat ++ [1]%nat.

Example ex_race_order : sh_commits (shared (race ex_reqs (ex_dyn 7) ex_sched)) = [1; 0]%nat.
Proof. vm_compute. reflexivity. Qed.

Definition answers (res : Result) : list (list RR) :=
  match res with Served out _ => Answer <$> written out | Transferred _ => [] end.

Lemma race_linearizable_witness :
  d_rrs (sh_d (shared (race ex_reqs (ex_dyn 7) ex_sched))) = ex_zone 8 ++ [ex_txt] /\
  exists pre post res, [1; 0]%nat = pre ++ 1%nat :: post /\
    (serve_one ex_query (in_turn ex_reqs (ex_dyn 7) pre)).1 = res /\ answers res = [[]].
Proof.
  destruct (race_linearizable ex_reqs (ex_dyn 7) ex_sched) as (_ & Hres & Hd & _).
  rewrite ex_race_order in Hres, Hd. split.
  - rewrite Hd by (vm_compute; reflexivity). vm_compute. reflexivity.
  - destruct (Hres 1%nat ex_query (serve_one ex_query (ex_dyn 7)).1) as (pre & post & E & Er);
      [vm_compute; reflexivity|].
    exists pre, post, (serve_one ex_query (ex_dyn 7)).1. split; [exact E|]. split; [exact Er|].
    vm_compute. reflexivity.
Defined.

Lemma race_finishes_witness :
  exists sched', forall i req pc,
    threads (race ex_reqs (ex_dyn 7) ([0; 0; 1; 1]%nat ++ sched')) !! i = Some (req, pc) ->
    exists res, pc = Done res.
Proof. exact (race_finishes ex_reqs (ex_dyn 7) [0; 0; 1; 1]%nat). Defined.
