(* ===== verification/Ci.v ===== *)
(** * The build pipeline ([ci/main.go])

    A Dagger container is the list of operations that make it; running it is
    the engine's, a parameter.  The pipeline's functions build such lists, so
    what they promise (which patch lands before which command, what must have
    been seen before an image is returned) is about their order.  [sed] is a
    parameter with the documented meaning of the two scripts it is given. *)

From stdpp Require Import sorting.
From S2P Require Import Prelude GoStrings.

(** ** Containers *)

(** [dagger.Directory] and [dagger.File] as the pipeline makes them: the
    repository or a directory of it, a Git tree, a download, or a file of a
    container. *)
Inductive Dir := Source | SubDir (name : bytes) | GitTree (url branch : bytes).

Inductive Step :=
| From_ (image : bytes)
| WithMountedCache (path volume : bytes)
| WithDirectory (path : bytes) (d : Dir)
| WithFile (path : bytes) (f : File) (permissions : option Z)
| WithWorkdir (path : bytes)
| WithEnvVariable (name value : bytes)
| WithExec (argv : list bytes)
| WithUser (user : bytes)
| WithExposedPort (port : Z)
| WithEntrypoint (argv : list bytes)
with File :=
| HTTP (url : bytes)
| FileOf (ctr : list Step) (path : bytes).

Notation container := (list Step).

(** Running a container: its last command's output, or an error. *)
Class Engine := { Stdout : container -> option bytes }.

Inductive CiErr :=
| NoSlot (plugin : bytes)            (* neither replaceStockLine nor insertAfterLine *)
| Floating (plugin : bytes)          (* an external module without a version *)
| GetcapFailed | SetcapLost (want : bytes)
| SmokeFailed | PluginMissing (plugin : bytes)
| BadSlice (plugin : bytes).            (* a run-time panic: no colon in cfgLine *)

(** ** The patches of [plugin.cfg] *)

Record Patch := mkPatch {
  cfgLine : bytes; replaceStockLine : bytes; insertAfterLine : bytes; modulePath : bytes;
  externalModule : bytes; externalVersion : bytes
}.

Definition own (name anchor : bytes) : bytes * Patch :=
  let path := bs "github.com/puredevotion/coredns-plugins/" ++ name in
  (name, mkPatch (name ++ bs ":" ++ path) [] anchor path [] []).

(** A Go map: the order its entries are ranged over is not defined, so every
    function below takes it as a list in some order. *)
Definition pluginCfgPatches : list (bytes * Patch) :=
  [(bs "sni_tls", mkPatch (bs "sni_tls:github.com/puredevotion/coredns-plugins/sni_tls") (bs "tls:tls") []
                    (bs "github.com/puredevotion/coredns-plugins/sni_tls") [] []);
   own (bs "radnr") (bs "health:health");
   own (bs "dynupdate") (bs "hosts:hosts");
   own (bs "cookie") (bs "tsig:tsig");
   own (bs "probe") (bs "file:file");
   (bs "rrl", mkPatch (bs "rrl:github.com/coredns/rrl/plugins/rrl") [] (bs "rewrite:rewrite")
                (bs "github.com/coredns/rrl/plugins/rrl") (bs "github.com/coredns/rrl")
                (bs "v0.0.0-20250915113509-ac1135e077ba"))].

(** [strings.Contains]. *)
Fixpoint Contains (s sub : bytes) : bool :=
  has_prefix sub s || match s with [] => false | _ :: t => Contains t sub end.

(** [sort.Strings]: by bytes. *)
Fixpoint bytes_leb (a b : bytes) : bool :=
  match a, b with
  | [], _ => true
  | _ :: _, [] => false
  | x :: s, y :: t => (b2z x <? b2z y) || ((b2z x =? b2z y) && bytes_leb s t)
  end.
Definition bytes_le (a b : bytes) : Prop := bytes_leb a b = true.
#[global] Instance bytes_le_dec : RelDecision bytes_le.
Proof. intros a b. unfold bytes_le. apply _. Defined.
Definition sort_Strings (l : list bytes) : list bytes := merge_sort bytes_le l.

(** ** The functions *)

Definition goCaches : container :=
  [WithMountedCache (bs "/go/pkg/mod") (bs "go-mod"); WithMountedCache (bs "/root/.cache/go-build") (bs "go-build")].

Definition goBase : container :=
  [From_ (bs "golang:1.27")] ++ goCaches ++ [WithDirectory (bs "/src") Source; WithWorkdir (bs "/src")].

Definition golangciLintImage : bytes := bs "golangci/golangci-lint:v2.15.0-alpine".
Definition gitleaksImage : bytes := bs "ghcr.io/gitleaks/gitleaks:v8.30.1".
Definition cyclonedxGomodVersion : bytes := bs "v1.12.0".
Definition opengrepVersion : bytes := bs "v1.33.1".
Definition runtimeBaseRef : bytes := bs "gcr.io/distroless/static-debian12:nonroot".

Definition apt_script : bytes := bs "
			sed -i 's|http://deb.debian.org|https://deb.debian.org|g' \
				/etc/apt/sources.list /etc/apt/sources.list.d/*.list /etc/apt/sources.list.d/*.sources 2>/dev/null
			apt-get update && apt-get install -y --no-install-recommends git libcap2-bin
		".

Definition buildBase : container :=
  [From_ (bs "golang:1.27"); WithExec [bs "sh"; bs "-c"; apt_script]] ++ goCaches
  ++ [WithEnvVariable (bs "CGO_ENABLED") (bs "0")].

(** [Sprintf]'s scripts for [sed]. *)
Definition script_replace (stock line : bytes) : bytes := bs "s#^" ++ stock ++ bs "$#" ++ line ++ bs "#".
Definition script_after (stock line : bytes) : bytes := bs "/^" ++ stock ++ bs "$/a " ++ line.
Definition sed_step (script : bytes) : Step := WithExec [bs "sed"; bs "-i"; script; bs "plugin.cfg"].
Definition replace_step (p : Patch) (path : bytes) : Step :=
  WithExec [bs "go"; bs "mod"; bs "edit"; bs "-replace"; modulePath p ++ bs "=" ++ path].

(** One turn of [BuildCoredns]'s loop over the patches: the container so far
    and the external modules to fetch. *)
Definition patch_turn (s : container * list bytes) (e : bytes * Patch) : result CiErr (container * list bytes) :=
  let '(ctr, gets) := s in
  let '(dir, p) := e in
  ctr ← (if negb (beqb (replaceStockLine p) []) then
           Ok (ctr ++ [sed_step (script_replace (replaceStockLine p) (cfgLine p))])
         else if negb (beqb (insertAfterLine p) []) then
           Ok (ctr ++ [sed_step (script_after (insertAfterLine p) (cfgLine p))])
         else Err (NoSlot dir));
  if negb (beqb (externalModule p) []) then
    if beqb (externalVersion p) [] then Err (Floating dir)
    else Ok (ctr, gets ++ [externalModule p ++ bs "@" ++ externalVersion p])
  else
    let vendored := bs "/vendored/" ++ dir in
    Ok (ctr ++ [WithDirectory vendored (SubDir dir); replace_step p vendored], gets).

Fixpoint patch_loop (patches : list (bytes * Patch)) (s : container * list bytes) : result CiErr (container * list bytes) :=
  match patches with
  | [] => Ok s
  | e :: rest => s ← patch_turn s e; patch_loop rest s
  end.

Definition clone_steps (version : bytes) : container :=
  [WithExec [bs "git"; bs "clone"; bs "--branch"; bs "v" ++ version; bs "--depth"; bs "1";
             bs "https://github.com/coredns/coredns.git"; bs "/coredns"];
   WithWorkdir (bs "/coredns")].

Definition binary_path : bytes := bs "/coredns-out/coredns".
Definition generate_step : Step := WithExec [bs "go"; bs "generate"].
Definition get_step (spec : bytes) : Step := WithExec [bs "go"; bs "get"; spec].
Definition finish_steps : container :=
  [WithExec [bs "go"; bs "get"; bs "golang.org/x/text@v0.41.0"; bs "google.golang.org/grpc@v1.83.2";
             bs "go.etcd.io/etcd/client/pkg/v3@v3.6.15"; bs "github.com/klauspost/compress@v1.20.2"];
   WithExec [bs "go"; bs "mod"; bs "tidy"];
   WithExec [bs "go"; bs "build"; bs "-o"; binary_path; bs "."];
   WithExec [bs "setcap"; bs "cap_net_raw,cap_net_bind_service+ep"; binary_path]].
Definition getcap_step : Step := WithExec [bs "getcap"; binary_path].
Definition wanted_caps : list bytes := [bs "cap_net_raw"; bs "cap_net_bind_service"].

(** The commands of [BuildCoredns], without running any. *)
Definition build_plan (patches : list (bytes * Patch)) (version : bytes) : result CiErr container :=
  '(ctr, gets) ← patch_loop patches (buildBase ++ clone_steps version, []);
  Ok (ctr ++ [generate_step] ++ map get_step (sort_Strings gets) ++ finish_steps).

Section Running.
Context `{E : !Engine}.

Definition TestPlugin (pluginDir : bytes) : option bytes :=
  Stdout (goBase ++ [WithWorkdir (bs "/src/" ++ pluginDir); WithExec [bs "go"; bs "test"; bs "-race"; bs "./..."]]).

Definition LintPlugin (pluginDir : bytes) : option bytes :=
  Stdout ([From_ golangciLintImage] ++ goCaches
          ++ [WithMountedCache (bs "/root/.cache/golangci-lint") (bs "golangci-lint");
              WithDirectory (bs "/src") Source; WithWorkdir (bs "/src/" ++ pluginDir);
              WithExec [bs "/src/custom-gcl"; bs "run"; bs "--timeout=5m"; bs "./..."]]).

Definition GitleaksScan (base : bytes) : option bytes :=
  let base := if beqb base [] then bs "main" else base in
  Stdout [From_ gitleaksImage; WithDirectory (bs "/src") Source; WithWorkdir (bs "/src");
          WithExec [bs "gitleaks"; bs "git"; bs "--log-opts=" ++ base ++ bs "..HEAD"; bs "--redact"; bs "--no-banner"; bs "."]].

Definition YamlLint : option bytes :=
  Stdout [From_ (bs "alpine:3.21"); WithExec [bs "apk"; bs "add"; bs "--no-cache"; bs "yamllint"];
          WithDirectory (bs "/src") Source; WithWorkdir (bs "/src");
          WithExec [bs "yamllint"; bs "-c"; bs ".yamllint.yml"; bs "-f"; bs "parsable"; bs ".github/workflows"]].

Definition Sbom (pluginDir : bytes) : File :=
  FileOf (goBase ++ [WithWorkdir (bs "/src/" ++ pluginDir);
                     WithExec [bs "go"; bs "install";
                               bs "github.com/CycloneDX/cyclonedx-gomod/cmd/cyclonedx-gomod@" ++ cyclonedxGomodVersion];
                     WithExec [bs "sh"; bs "-c"; bs "$(go env GOPATH)/bin/cyclonedx-gomod mod -json -output /tmp/sbom.cdx.json"]])
         (bs "/tmp/sbom.cdx.json").

Definition SbomScan (pluginDir : bytes) : option bytes :=
  Stdout [From_ (bs "alpine:3.21");
          WithExec [bs "apk"; bs "add"; bs "--no-cache"; bs "curl"; bs "bash"; bs "ca-certificates"];
          WithExec [bs "sh"; bs "-c";
                    bs "curl -sSfL https://raw.githubusercontent.com/anchore/grype/main/install.sh | sh -s -- -b /usr/local/bin v0.116.0"];
          WithFile (bs "/sbom.cdx.json") (Sbom pluginDir) None;
          WithExec [bs "grype"; bs "sbom:/sbom.cdx.json"; bs "--fail-on"; bs "high"]].

Definition OpengrepScan : option bytes :=
  Stdout [From_ (bs "debian:12-slim"); WithEnvVariable (bs "PYTHONUTF8") (bs "1"); WithEnvVariable (bs "LC_ALL") (bs "C.UTF-8");
          WithFile (bs "/usr/local/bin/opengrep")
            (HTTP (bs "https://github.com/opengrep/opengrep/releases/download/" ++ opengrepVersion ++ bs "/opengrep_manylinux_x86"))
            (Some 493);
          WithDirectory (bs "/rules") (GitTree (bs "https://github.com/opengrep/opengrep-rules.git") (bs "main"));
          WithDirectory (bs "/src") Source; WithWorkdir (bs "/src");
          WithExec [bs "opengrep"; bs "scan"; bs "-f"; bs "/rules/go"; bs "--error"; bs "."]].

(** The capabilities [getcap] must name. *)
Fixpoint check_caps (out : bytes) (wants : list bytes) : result CiErr unit :=
  match wants with
  | [] => Ok tt
  | w :: rest => if negb (Contains out w) then Err (SetcapLost w) else check_caps out rest
  end.

Definition BuildCoredns (patches : list (bytes * Patch)) (version : bytes) : result CiErr File :=
  ctr ← build_plan patches version;
  match Stdout (ctr ++ [getcap_step]) with
  | None => Err GetcapFailed
  | Some out => check_caps out wanted_caps;; Ok (FileOf ctr binary_path)
  end.

(** [p.cfgLine[:strings.IndexByte(p.cfgLine, ':')]]. *)
Definition plugin_name (p : Patch) : option bytes :=
  (fun i => take i (cfgLine p)) <$> index_byte (cfgLine p) Byte.x3a.

Fixpoint check_plugins (out : bytes) (patches : list (bytes * Patch)) : result CiErr unit :=
  match patches with
  | [] => Ok tt
  | (dir, p) :: rest =>
      match plugin_name p with
      | None => Err (BadSlice dir)
      | Some name => if negb (Contains out name) then Err (PluginMissing dir) else check_plugins out rest
      end
  end.

Definition runtime (binary : File) : container :=
  [From_ runtimeBaseRef; WithFile (bs "/coredns") binary None; WithUser (bs "nonroot:nonroot"); WithWorkdir (bs "/");
   WithExposedPort 53; WithExposedPort 853; WithExposedPort 443].

(** [Containerize]: the container of the tarball. The two loops over the map
    may see it in different orders. *)
Definition Containerize (patches patches' : list (bytes * Patch)) (version : bytes) : result CiErr container :=
  binary ← BuildCoredns patches version;
  let ctr := runtime binary in
  match Stdout (ctr ++ [WithExec [bs "/coredns"; bs "-plugins"]]) with
  | None => Err SmokeFailed
  | Some out => check_plugins out patches';; Ok (ctr ++ [WithEntrypoint [bs "/coredns"]])
  end.
End Running.

(** ** [plugin.cfg], whatever the order *)

(** A line [sed] takes literally, in an address and as text. *)
Definition literal_byte (b : byte) : bool :=
  let z := b2z b in
  (48 <=? z) && (z <=? 57) || (65 <=? z) && (z <=? 90) || (97 <=? z) && (z <=? 122)
  || (z =? 95) || (z =? 45) || (z =? 58).
Definition plain_byte (b : byte) : bool := literal_byte b || (b2z b =? 46) || (b2z b =? 47).

Definition is_line (x y : bytes) : bool := beqb x y.

(** [sed -i SCRIPT FILE] on the lines of a file: [s#^X$#Y#] replaces the lines
    [X], [/^X$/a Y] adds [Y] after each of them. *)
Class SedLaws (sed : bytes -> list bytes -> list bytes) : Prop := {
  sed_replace X Y lines :
    X <> [] -> forallb literal_byte X = true -> Y <> [] -> forallb plain_byte Y = true ->
    sed (script_replace X Y) lines = (fun x => if is_line x X then Y else x) <$> lines;
  sed_append X Y lines :
    X <> [] -> forallb literal_byte X = true -> Y <> [] -> forallb plain_byte Y = true ->
    sed (script_after X Y) lines = lines ≫= (fun x => if is_line x X then [x; Y] else [x])
}.

Section Cfg.
Variable sed : bytes -> list bytes -> list bytes.

(** What the commands of a container make of [plugin.cfg]. *)
Definition step_cfg (lines : list bytes) (s : Step) : list bytes :=
  match s with
  | WithExec [c; i; script; f] =>
      if beqb c (bs "sed") && beqb i (bs "-i") && beqb f (bs "plugin.cfg") then sed script lines else lines
  | _ => lines
  end.
Definition plugin_cfg (ctr : container) (lines : list bytes) : list bytes := foldl step_cfg lines ctr.

(** *** One patch's slot, on its own *)

Definition anchor (p : Patch) : bytes := if beqb (replaceStockLine p) [] then insertAfterLine p else replaceStockLine p.
Definition slot (p : Patch) (x : bytes) : list bytes :=
  if is_line x (anchor p) then if beqb (replaceStockLine p) [] then [x; cfgLine p] else [cfgLine p] else [x].

(** Every patch at its own slot, looking at stock lines only. *)
Definition slots (patches : list (bytes * Patch)) (x : bytes) : list bytes :=
  match List.find (fun e => is_line x (anchor e.2)) patches with Some e => slot e.2 x | None => [x] end.

(** A set of patches that do not touch one another's lines. *)
Record patches_ok (patches : list (bytes * Patch)) : Prop := {
  po_anchors : NoDup (anchor <$> patches.*2);
  po_lines : Forall (fun e => cfgLine e.2 ∉ anchor <$> patches.*2) patches;
  po_text : Forall (fun e => anchor e.2 <> [] /\ forallb literal_byte (anchor e.2) = true /\
                             cfgLine e.2 <> [] /\ forallb plain_byte (cfgLine e.2) = true) patches;
  po_pinned : Forall (fun e => externalModule e.2 <> [] -> externalVersion e.2 <> []) patches
}.

Context `{!SedLaws sed}.

Lemma plugin_cfg_app a b lines : plugin_cfg (a ++ b) lines = plugin_cfg b (plugin_cfg a lines).
Proof. apply foldl_app. Qed.

Lemma step_cfg_sed script lines : step_cfg lines (sed_step script) = sed script lines.
Proof. done. Qed.

(** What a patch adds to the container. *)
Definition patch_steps (e : bytes * Patch) : container :=
  let p := e.2 in
  [sed_step (if beqb (replaceStockLine p) [] then script_after (insertAfterLine p) (cfgLine p)
             else script_replace (replaceStockLine p) (cfgLine p))]
  ++ (if beqb (externalModule p) [] then
        [WithDirectory (bs "/vendored/" ++ e.1) (SubDir e.1); replace_step p (bs "/vendored/" ++ e.1)]
      else []).
Definition patch_gets (e : bytes * Patch) : list bytes :=
  if beqb (externalModule e.2) [] then [] else [externalModule e.2 ++ bs "@" ++ externalVersion e.2].

Lemma patch_turn_ok ctr gets e :
  anchor e.2 <> [] -> (externalModule e.2 <> [] -> externalVersion e.2 <> []) ->
  patch_turn (ctr, gets) e = Ok (ctr ++ patch_steps e, gets ++ patch_gets e).
Proof.
  intros Ha Hp. destruct e as [dir p]. cbn in Ha, Hp. unfold patch_turn, patch_steps, patch_gets, anchor in *. cbn [fst snd].
  destruct (beqb (replaceStockLine p) []) eqn:Er; cbn [negb mbind result_bind].
  - rewrite (proj2 (beqb_false _ _) Ha). cbn [negb mbind result_bind].
    destruct (beqb (externalModule p) []) eqn:Ee; cbn [negb]; rewrite ?app_nil_r, <- ?app_assoc; [done|].
    rewrite (proj2 (beqb_false _ _)); [done|]. apply Hp. by apply beqb_false.
  - destruct (beqb (externalModule p) []) eqn:Ee; cbn [negb]; rewrite ?app_nil_r, <- ?app_assoc; [done|].
    rewrite (proj2 (beqb_false _ _)); [done|]. apply Hp. by apply beqb_false.
Qed.

Lemma patch_loop_ok patches ctr gets :
  Forall (fun e => anchor e.2 <> []) patches ->
  Forall (fun e => externalModule e.2 <> [] -> externalVersion e.2 <> []) patches ->
  patch_loop patches (ctr, gets) = Ok (ctr ++ (patches ≫= patch_steps), gets ++ (patches ≫= patch_gets)).
Proof.
  intros H. revert ctr gets. induction H as [|e l He _ IH]; intros ctr gets Hp; cbn [patch_loop].
  { cbn. by rewrite !app_nil_r. }
  apply Forall_cons in Hp as [Hp Hl]. rewrite patch_turn_ok by done. cbn [mbind result_bind]. rewrite IH by done.
  rewrite !bind_cons, <- !app_assoc. done.
Qed.

Lemma patch_steps_cfg e lines :
  anchor e.2 <> [] -> forallb literal_byte (anchor e.2) = true -> cfgLine e.2 <> [] -> forallb plain_byte (cfgLine e.2) = true ->
  plugin_cfg (patch_steps e) lines = lines ≫= slot e.2.
Proof.
  intros Ha Hl Hc Ht. unfold patch_steps. rewrite plugin_cfg_app.
  assert (Hrest : forall ls, plugin_cfg (if beqb (externalModule e.2) [] then
      [WithDirectory (bs "/vendored/" ++ e.1) (SubDir e.1); replace_step e.2 (bs "/vendored/" ++ e.1)] else []) ls = ls)
    by (intros ls; by destruct (beqb _ _)).
  rewrite Hrest. cbn [plugin_cfg foldl]. rewrite step_cfg_sed. unfold slot, anchor in *.
  destruct (beqb (replaceStockLine e.2) []).
  - by rewrite sed_append.
  - rewrite sed_replace by done. induction lines as [|x l IH]; [done|]. rewrite fmap_cons, bind_cons, IH.
    by destruct (is_line x _).
Qed.

Lemma slots_cons e l x :
  anchor e.2 ∉ anchor <$> l.*2 -> cfgLine e.2 ∉ anchor <$> l.*2 -> slot e.2 x ≫= slots l = slots (e :: l) x.
Proof.
  intros Ha Hc.
  assert (Hout : forall y, y ∉ anchor <$> l.*2 -> slots l y = [y]).
  { intros y Hy. unfold slots. destruct (List.find _ l) as [e'|] eqn:Ef; [|done].
    apply find_some in Ef as [Hin Heq]. apply beqb_true in Heq as ->. exfalso. apply Hy.
    by apply list_elem_of_fmap_2, list_elem_of_fmap_2, list_elem_of_In. }
  unfold slots at 2. cbn [List.find]. unfold slot at 1 2. destruct (is_line x (anchor e.2)) eqn:Ex.
  - apply beqb_true in Ex as ->. unfold is_line. rewrite beqb_refl.
    by destruct (beqb _ []); rewrite ?bind_cons, ?bind_nil, ?(Hout _ Ha), ?(Hout _ Hc).
  - cbn. by rewrite app_nil_r.
Qed.

Lemma bind_bind {A B C} (f : A -> list B) (g : B -> list C) (l : list A) : (l ≫= f) ≫= g = l ≫= (fun x => f x ≫= g).
Proof. induction l as [|x l IH]; [done|]. by rewrite !bind_cons, bind_app, IH. Qed.

Lemma patches_ok_tail e l : patches_ok (e :: l) -> patches_ok l.
Proof.
  intros [Ha Hl Ht Hp]. cbn in Ha. apply NoDup_cons in Ha as [_ Ha].
  apply Forall_cons in Hl as [_ Hl]. apply Forall_cons in Ht as [_ Ht]. apply Forall_cons in Hp as [_ Hp].
  split; try done. apply (Forall_impl _ _ _ Hl). cbn. intros e' H Hin. apply H. by right.
Qed.

(** The edits of the loop, one after another, are every patch at its own slot. *)
Lemma edits_cfg l lines : patches_ok l -> plugin_cfg (l ≫= patch_steps) lines = lines ≫= slots l.
Proof.
  revert lines. induction l as [|e l IH]; intros lines Hok.
  { cbn. induction lines as [|x lines IH]; [done|]. rewrite bind_cons, <- IH. done. }
  assert (Hl := patches_ok_tail e l Hok). destruct Hok as [Ha Hc Ht _].
  apply Forall_cons in Ht as [(?&?&?&?) _]. cbn in Ha. apply NoDup_cons in Ha as [Ha _].
  apply Forall_cons in Hc as [Hc _].
  rewrite bind_cons, plugin_cfg_app, patch_steps_cfg, IH by done.
  rewrite bind_bind. apply list_bind_ext; [|done]. intros x. apply slots_cons; [done|].
  intros Hin. apply Hc. by right.
Qed.

(** *** The order of the patches *)

Lemma patches_ok_perm l l' : l' ≡ₚ l -> patches_ok l -> patches_ok l'.
Proof.
  intros Hp [Ha Hl Ht Hv]. split; try by rewrite Hp.
  rewrite Hp. apply (Forall_impl _ _ _ Hl). cbn. intros e. by rewrite Hp.
Qed.

(** A line's slot is that of the one patch anchored there, if any. *)
Lemma slots_spec l x :
  (exists e, e ∈ l /\ anchor e.2 = x /\ slots l x = slot e.2 x) \/ (x ∉ anchor <$> l.*2 /\ slots l x = [x]).
Proof.
  unfold slots. destruct (List.find _ l) as [e|] eqn:Ef.
  - left. apply find_some in Ef as [Hin Heq]. apply beqb_true in Heq. exists e. split; [by apply list_elem_of_In|done].
  - right. split; [|done]. intros Hin. rewrite <- list_fmap_compose in Hin. apply list_elem_of_fmap in Hin as (e & -> & He).
    apply list_elem_of_In in He. apply (find_none _ _ Ef) in He. unfold is_line in He. cbn in He. by rewrite beqb_refl in He.
Qed.

Lemma anchor_unique l e e' : patches_ok l -> e ∈ l -> e' ∈ l -> anchor e.2 = anchor e'.2 -> e = e'.
Proof.
  intros [Ha _ _ _] He He' Heq. rewrite <- list_fmap_compose in Ha.
  apply list_elem_of_lookup in He as [i Hi]. apply list_elem_of_lookup in He' as [j Hj].
  assert (i = j) as ->; [|congruence].
  apply (NoDup_lookup _ _ _ (anchor e.2) Ha); rewrite list_lookup_fmap; [by rewrite Hi|]. rewrite Hj. cbn. by rewrite Heq.
Qed.

Lemma slots_perm l l' x : patches_ok l -> l' ≡ₚ l -> slots l' x = slots l x.
Proof.
  intros Hok Hp. assert (Hok' := patches_ok_perm _ _ Hp Hok).
  destruct (slots_spec l x) as [(e & He & Ha & ->)|[Hn ->]];
    destruct (slots_spec l' x) as [(e' & He' & Ha' & ->)|[Hn' ->]]; [| | |done].
  - rewrite Hp in He'. by rewrite (anchor_unique l e e') by congruence.
  - rewrite Hp in Hn'. exfalso. apply Hn'. rewrite <- Ha, <- list_fmap_compose. apply list_elem_of_fmap. by exists e.
  - rewrite <- Hp in Hn. exfalso. apply Hn. rewrite <- Ha', <- list_fmap_compose. apply list_elem_of_fmap. by exists e'.
Qed.
End Cfg.

(** [sort.Strings] has one answer for the strings, however they come. *)
Lemma bytes_leb_refl a : bytes_leb a a = true.
Proof. induction a as [|x a IH]; [done|]. cbn. rewrite IH, Z.eqb_refl. by rewrite orb_true_r. Qed.

#[global] Instance bytes_le_total : Total bytes_le.
Proof.
  intros a. unfold bytes_le. induction a as [|x a IH]; intros [|y b]; cbn; [by left..|by right|].
  destruct (Z.lt_trichotomy (b2z x) (b2z y)) as [H|[H|H]].
  - left. apply orb_true_iff. left. by apply Z.ltb_lt.
  - rewrite H, !Z.eqb_refl. destruct (IH b) as [->| ->]; [left|right]; by rewrite orb_true_r.
  - right. apply orb_true_iff. left. by apply Z.ltb_lt.
Qed.

#[global] Instance bytes_le_trans : Transitive bytes_le.
Proof.
  intros a. unfold bytes_le. induction a as [|x a IH]; intros [|y b] [|z c] H1 H2; try done. cbn in *.
  apply orb_true_iff in H1, H2. apply orb_true_iff. rewrite !andb_true_iff, !Z.ltb_lt, !Z.eqb_eq in *.
  destruct H1 as [H1|[H1 H1']], H2 as [H2|[H2 H2']]; [left; lia..|right; split; [lia|]]. by apply (IH b).
Qed.

#[global] Instance bytes_le_anti : AntiSymm (=) bytes_le.
Proof.
  intros a. unfold bytes_le. induction a as [|x a IH]; intros [|y b] H1 H2; try done. cbn in *.
  apply orb_true_iff in H1, H2. rewrite !andb_true_iff, !Z.ltb_lt, !Z.eqb_eq in *.
  destruct H1 as [H1|[H1 H1']], H2 as [H2|[H2 H2']]; try lia.
  f_equal; [by apply b2z_inj|by apply IH].
Qed.

Lemma sort_Strings_perm l l' : l' ≡ₚ l -> sort_Strings l' = sort_Strings l.
Proof.
  intros H. apply (Sorted_unique bytes_le); [apply Sorted_merge_sort, _..|].
  unfold sort_Strings. by rewrite !merge_sort_Permutation.
Qed.

(** *** A [sed] for these scripts *)

Definition split_dollar (r : bytes) : bytes * bytes :=
  match index_byte r Byte.x24 with Some i => (take i r, drop i r) | None => (r, []) end.
Definition simple_sed (script : bytes) (lines : list bytes) : list bytes :=
  match cut_prefix (bs "s#^") script with
  | Some r =>
      let '(X, t) := split_dollar r in
      let Y := take (length t - 3) (drop 2 t) in
      (fun x => if is_line x X then Y else x) <$> lines
  | None =>
      match cut_prefix (bs "/^") script with
      | Some r =>
          let '(X, t) := split_dollar r in
          let Y := drop 4 t in
          lines ≫= (fun x => if is_line x X then [x; Y] else [x])
      | None => lines
      end
  end.

Lemma split_dollar_app X t : forallb literal_byte X = true -> split_dollar (X ++ Byte.x24 :: t) = (X, Byte.x24 :: t).
Proof.
  intros H. unfold split_dollar. rewrite index_byte_app.
  - by rewrite take_app_length, drop_app_length.
  - intros Hin. rewrite forallb_forall in H. rewrite ?list_elem_of_In in Hin. by apply H in Hin.
Qed.

#[export] Instance simple_sed_laws : SedLaws simple_sed.
Proof.
  split; intros X Y lines _ HX _ _; unfold simple_sed.
  - unfold script_replace. rewrite cut_prefix_app.
    change (X ++ bs "$#" ++ Y ++ bs "#") with (X ++ Byte.x24 :: Byte.x23 :: Y ++ bs "#").
    rewrite split_dollar_app by done. cbn [drop length]. rewrite length_app.
    replace (S (S (length Y + length (bs "#"))) - 3)%nat with (length Y) by (cbn; lia). by rewrite drop_0, take_app_length.
  - unfold script_after. change (cut_prefix (bs "s#^") (bs "/^" ++ X ++ bs "$/a " ++ Y)) with (@None bytes). cbv iota.
    rewrite cut_prefix_app.
    change (X ++ bs "$/a " ++ Y) with (X ++ Byte.x24 :: Byte.x2f :: Byte.x61 :: Byte.x20 :: Y).
    by rewrite split_dollar_app.
Qed.

(** ** What is promised *)

(** [patches_ok] by computation. *)
Definition patches_okb (l : list (bytes * Patch)) : bool :=
  bool_decide (NoDup (anchor <$> l.*2))
  && forallb (fun e => bool_decide (cfgLine e.2 ∉ anchor <$> l.*2)) l
  && forallb (fun e => negb (beqb (anchor e.2) []) && forallb literal_byte (anchor e.2)
                       && negb (beqb (cfgLine e.2) []) && forallb plain_byte (cfgLine e.2)) l
  && forallb (fun e => beqb (externalModule e.2) [] || negb (beqb (externalVersion e.2) [])) l.

Lemma patches_okb_ok l : patches_okb l = true -> patches_ok l.
Proof.
  unfold patches_okb. rewrite !andb_true_iff, !forallb_forall. intros [[[Ha Hl] Ht] Hp].
  apply bool_decide_eq_true in Ha. split; [done|..]; apply List.Forall_forall; intros e He.
  - by eapply bool_decide_eq_true, Hl.
  - apply Ht in He. rewrite !andb_true_iff, !negb_true_iff, !beqb_false in He. by destruct He as [[[? ?] ?] ?].
  - apply Hp in He. rewrite orb_true_iff, negb_true_iff, beqb_false, beqb_true in He. by destruct He.
Qed.

(** The repository's own patches. *)
Lemma pluginCfgPatches_ok : patches_ok pluginCfgPatches.
Proof. apply patches_okb_ok. vm_compute. reflexivity. Qed.

Lemma Contains_spec s sub : Contains s sub = true <-> exists a b, s = a ++ sub ++ b.
Proof.
  induction s as [|x s IH]; cbn [Contains]; rewrite orb_true_iff, has_prefix_spec.
  - split; [intros [[t Ht]|]; [|done]; by exists [], t|]. intros (a & b & H). left.
    destruct a; [|done]. by exists b.
  - rewrite IH. split.
    + intros [[t Ht]|(a & b & ->)]; [by exists [], t|]. by exists (x :: a), b.
    + intros (a & b & H). destruct a as [|y a]; [left; by exists b|]. right. exists a, b. by injection H.
Qed.

Lemma check_caps_ok out wants : check_caps out wants = Ok tt <-> Forall (fun w => Contains out w = true) wants.
Proof.
  induction wants as [|w l IH]; cbn; [done|]. rewrite Forall_cons. destruct (Contains out w); cbn.
  - rewrite IH. tauto.
  - split; [done|]. by intros [? _].
Qed.

Lemma check_plugins_ok out patches :
  check_plugins out patches = Ok tt
  <-> Forall (fun e => exists name, plugin_name e.2 = Some name /\ exists a b, out = a ++ name ++ b) patches.
Proof.
  induction patches as [|[dir p] l IH]; cbn [check_plugins]; [done|]. rewrite Forall_cons. cbn [snd].
  destruct (plugin_name p) as [name|].
  - rewrite <- IH. setoid_rewrite <- Contains_spec. destruct (Contains out name) eqn:E; cbn [negb].
    + split; [|by intros [_ ?]]. intros H. split; [by exists name|done].
    + split; [done|]. intros [(n & [= <-] & Hn) _]. congruence.
  - split; [done|]. by intros [(n & ? & _) _].
Qed.

Lemma gets_cfg sed specs lines : plugin_cfg sed (map get_step specs) lines = lines.
Proof. by induction specs. Qed.

(** C19: whatever order the map is ranged over, [BuildCoredns] succeeds in
    planning its build and the plan leaves the same [plugin.cfg]: every stock
    line with exactly its own patch applied. Each patch's commands are there
    once and whole, all of them before [go generate], after which the rest is
    the same commands in the same order. *)
Theorem plugin_cfg_any_order sed `{!SedLaws sed} (patches patches' : list (bytes * Patch)) (version : bytes) :
  patches_ok patches -> patches' ≡ₚ patches ->
  exists edits,
    let plan := buildBase ++ clone_steps version ++ edits ++ [generate_step]
                ++ map get_step (sort_Strings (patches ≫= patch_gets)) ++ finish_steps in
    build_plan patches' version = Ok plan
    /\ edits ≡ₚ patches ≫= patch_steps
    /\ (forall e, e ∈ patches -> exists before after, edits = before ++ patch_steps e ++ after)
    /\ forall lines, plugin_cfg sed plan lines = lines ≫= slots patches.
Proof.
  intros Hok Hp. assert (Hok' := patches_ok_perm _ _ Hp Hok). exists (patches' ≫= patch_steps). cbv zeta. split_and!.
  - unfold build_plan. rewrite patch_loop_ok.
    + cbn [mbind result_bind]. cbn [app]. rewrite <- !app_assoc. by rewrite (sort_Strings_perm (patches ≫= patch_gets)) by (by rewrite Hp).
    + apply (Forall_impl _ _ _ (po_text _ Hok')). by intros e (? & _).
    + apply (po_pinned _ Hok').
  - by rewrite Hp.
  - intros e He. rewrite <- Hp in He. apply list_elem_of_split in He as (l1 & l2 & ->).
    exists (l1 ≫= patch_steps), (l2 ≫= patch_steps). by rewrite bind_app, bind_cons.
  - intros lines. rewrite app_assoc, !plugin_cfg_app, (edits_cfg sed) by done.
    change (plugin_cfg sed (clone_steps version) (plugin_cfg sed buildBase lines)) with lines.
    rewrite gets_cfg. change (plugin_cfg sed finish_steps ?x) with x.
    apply list_bind_ext; [|done]. intros x. by apply slots_perm.
Qed.

(** Part of a stock [plugin.cfg], and what it becomes. *)
Definition stock_lines : list bytes :=
  [bs "# Directives"; bs "tls:tls"; bs "health:health"; bs "tsig:tsig"; bs "cache:cache";
          bs "rewrite:rewrite"; bs "acl:acl"; bs "hosts:hosts"; bs "file:file"].

Lemma plugin_cfg_any_order_witness :
  rev pluginCfgPatches ≡ₚ pluginCfgPatches
  /\ exists plan, build_plan (rev pluginCfgPatches) (bs "1.14.6") = Ok plan
     /\ plugin_cfg simple_sed plan stock_lines =
        [bs "# Directives"; bs "sni_tls:github.com/puredevotion/coredns-plugins/sni_tls";
                bs "health:health"; bs "radnr:github.com/puredevotion/coredns-plugins/radnr";
                bs "tsig:tsig"; bs "cookie:github.com/puredevotion/coredns-plugins/cookie"; bs "cache:cache";
                bs "rewrite:rewrite"; bs "rrl:github.com/coredns/rrl/plugins/rrl"; bs "acl:acl";
                bs "hosts:hosts"; bs "dynupdate:github.com/puredevotion/coredns-plugins/dynupdate";
                bs "file:file"; bs "probe:github.com/puredevotion/coredns-plugins/probe"].
Proof.
  assert (Hp : rev pluginCfgPatches ≡ₚ pluginCfgPatches) by (symmetry; apply Permutation_rev).
  split; [exact Hp|].
  destruct (plugin_cfg_any_order simple_sed pluginCfgPatches _ (bs "1.14.6") pluginCfgPatches_ok Hp) as (edits & Hplan & _ & _ & Hcfg).
  eexists. split; [exact Hplan|]. rewrite (Hcfg stock_lines). vm_compute. reflexivity.
Defined.

(** What the loop over the patches needs of each. *)
Definition patch_ok (e : bytes * Patch) : Prop := anchor e.2 <> [] /\ (externalModule e.2 <> [] -> externalVersion e.2 <> []).

Lemma patch_turn_inv s s' e : patch_turn s e = Ok s' -> patch_ok e.
Proof.
  destruct s as [ctr gets], e as [dir p]. unfold patch_turn, patch_ok, anchor. cbn [snd].
  destruct (beqb (replaceStockLine p) []) eqn:Er; cbn [negb mbind result_bind].
  - destruct (beqb (insertAfterLine p) []) eqn:Ei; cbn [negb mbind result_bind]; [done|]. apply beqb_false in Ei.
    destruct (beqb (externalModule p) []) eqn:Em; cbn [negb].
    + intros _. split; [done|]. apply beqb_true in Em. by rewrite Em.
    + destruct (beqb (externalVersion p) []) eqn:Ev; [done|]. apply beqb_false in Ev. done.
  - apply beqb_false in Er. destruct (beqb (externalModule p) []) eqn:Em; cbn [negb].
    + intros _. split; [done|]. apply beqb_true in Em. by rewrite Em.
    + destruct (beqb (externalVersion p) []) eqn:Ev; [done|]. apply beqb_false in Ev. done.
Qed.

(** The plan, where there is one. *)
Definition plan_of (patches : list (bytes * Patch)) (version : bytes) : container :=
  buildBase ++ clone_steps version ++ (patches ≫= patch_steps) ++ [generate_step]
  ++ map get_step (sort_Strings (patches ≫= patch_gets)) ++ finish_steps.

Lemma build_plan_iff patches version plan :
  build_plan patches version = Ok plan <-> Forall patch_ok patches /\ plan = plan_of patches version.
Proof.
  unfold build_plan. split.
  - intros H. assert (Hok : Forall patch_ok patches).
    { revert H. generalize (buildBase ++ clone_steps version, @nil bytes).
      induction patches as [|e l IH]; intros s H; [constructor|]. cbn [patch_loop] in H.
      destruct (patch_turn s e) as [s'|] eqn:Et; [|done]. constructor; [by eapply patch_turn_inv|]. by apply (IH s'). }
    split; [done|]. revert H. rewrite patch_loop_ok by (apply (Forall_impl _ _ _ Hok); by intros e []).
    cbn [mbind result_bind]. intros [= <-]. unfold plan_of. cbn [app]. done.
  - intros [Hok ->]. rewrite patch_loop_ok by (apply (Forall_impl _ _ _ Hok); by intros e []).
    cbn [mbind result_bind]. unfold plan_of. cbn [app]. by rewrite <- !app_assoc.
Qed.

(** A text names a word. *)
Definition names (out w : bytes) : Prop := exists a b, out = a ++ w ++ b.

(** Exactly when an image comes out of [Containerize]: every patch has a
    slot and every foreign module a version; [getcap], run on the built binary
    itself, named both capabilities; and the binary, run in the very container
    the image is made of and before its entry point is set, named every
    plugin. The image is that container. Otherwise there is an error. *)
Theorem Containerize_checked `{!Engine} (patches patches' : list (bytes * Patch)) (version : bytes) (image : container) :
  Containerize patches patches' version = Ok image <->
  Forall patch_ok patches /\
  exists caps out,
    let plan := plan_of patches version in
    Stdout (plan ++ [getcap_step]) = Some caps
    /\ Forall (names caps) wanted_caps
    /\ Stdout (runtime (FileOf plan binary_path) ++ [WithExec [bs "/coredns"; bs "-plugins"]]) = Some out
    /\ Forall (fun e => exists name, plugin_name e.2 = Some name /\ names out name) patches'
    /\ image = runtime (FileOf plan binary_path) ++ [WithEntrypoint [bs "/coredns"]].
Proof.
  unfold Containerize, BuildCoredns. split.
  - destruct (build_plan patches version) as [plan|] eqn:Hplan; [|done]. apply build_plan_iff in Hplan as [Hok ->].
    cbn [mbind result_bind]. destruct (Stdout (plan_of _ _ ++ [getcap_step])) as [caps|] eqn:Hcaps; [|done].
    destruct (check_caps caps wanted_caps) as [[]|] eqn:Hc; [|done]. cbn [mbind result_bind].
    destruct (Stdout (runtime _ ++ _)) as [out|] eqn:Hout; [|done].
    destruct (check_plugins out patches') as [[]|] eqn:Hpl; [|done]. cbn [mbind result_bind]. intros [= <-].
    split; [done|]. exists caps, out. apply check_caps_ok in Hc. apply check_plugins_ok in Hpl. cbv zeta. split_and!; try done.
    + apply (Forall_impl _ _ _ Hc). intros w. apply Contains_spec.
  - intros (Hok & caps & out & Hcaps & Hc & Hout & Hpl & ->).
    rewrite (proj2 (build_plan_iff patches version _) (conj Hok eq_refl)). cbn [mbind result_bind]. rewrite Hcaps.
    rewrite (proj2 (check_caps_ok _ _)).
    2: { apply (Forall_impl _ _ _ Hc). intros w. apply Contains_spec. }
    cbn [mbind result_bind]. rewrite Hout. by rewrite (proj2 (check_plugins_ok _ _) Hpl).
Qed.

(** An engine where every command prints everything, and one whose [getcap]
    prints nothing. *)
Definition loud : Engine :=
  {| Stdout _ := Some (bs "coredns cap_net_bind_service,cap_net_raw=ep sni_tls radnr dynupdate cookie probe rrl") |}.
Definition mute : Engine := {| Stdout _ := Some [] |}.
Example containerize_loud :
  exists image, @Containerize loud pluginCfgPatches (rev pluginCfgPatches) (bs "1.14.6") = Ok image.
Proof. eexists. vm_compute. reflexivity. Qed.
Example containerize_mute :
  @Containerize mute pluginCfgPatches pluginCfgPatches (bs "1.14.6") = Err (SetcapLost (bs "cap_net_raw")).
Proof. vm_compute. reflexivity. Qed.

(** The commands themselves come in the order of the map: two builds of one
    tree may run them differently. *)
Example layers_vary :
  build_plan pluginCfgPatches (bs "1.14.6") <> build_plan (rev pluginCfgPatches) (bs "1.14.6").
Proof. vm_compute. discriminate. Qed.
