(* ===== verification/Chain.v ===== *)
(** * The plugins in one server

    [plugin.cfg] puts [cookie] in front of [dynupdate] and [probe]
    ([Ci.plugin_cfg_any_order_witness]).  Here the cookie handler is given
    each of them as the rest of its chain, over the response writer it really
    hands on: [cookieWriter] has the methods of [dns.ResponseWriter] and no
    others. *)

From S2P Require Import Prelude GoStrings Netip Dns SimpleDns Cookie CookieHandler ProbeObserve ProbeReport ProbeStore.
From S2P Require Import ProbeSign ProbeMetrics ProbeLabels ProbeServe ProbeServeProps DynZone DynUpdate DynProps.

(** ** [cookie], then [probe] *)

(** The connection through a [cookieWriter]: the same peer and the same
    writes, but the TLS state is out of sight, as the type has neither
    [ConnectionState] nor [Unwrap]. *)
Definition cookieWriter_conn (c : Conn) : Conn :=
  {| c_remote := c_remote c; c_writer := w_plain; c_writes := c_writes c |}.

Definition with_req (st : Request) (r : Msg) : Request := {| Req := r; SrcIP := SrcIP st; Proto := Proto st |}.

Lemma with_req_id st : with_req st (Req st) = st.
Proof. by destruct st. Qed.

(** An observation of the same query as one that came in the clear. *)
Definition set_transport (tr : bytes) (tls : option TLSInfo) (o : Observation) : Observation :=
  mkObservation (At o) (ResolverAddr o) tls (ResolverPrefix o) (ECSPrefix o) (ob_Token o) (ob_Qtype o)
    (ob_Mods o) tr (KeyTags o) (Seen o) (ECSFamily o) (ob_UDPSize o) (IPv6 o) (ECSScope o) (ECS o)
    (CookieSent o) (DELEGAware o) (EDNS o) (KnowsZoneKey o) (ZoneVersionAsked o) (CompactAware o)
    (CaseRandomized o) (DO o).
Definition cleartext (proto : bytes) : Observation -> Observation :=
  set_transport (if beqb proto TransportTCP then TransportTCP else TransportUDP) None.

Lemma cleartext_plain proto o : Encrypted (cleartext proto o) = false /\ TLS (cleartext proto o) = None.
Proof. unfold cleartext. by destruct (beqb proto _). Qed.

Lemma apply_option_transport tr tls o x : apply_option (set_transport tr tls o) x = set_transport tr tls (apply_option o x).
Proof.
  destruct x; cbn [apply_option]; try done. unfold applyECSObservation.
  destruct (_ =? 0); [done|]. destruct (AddrFromSlice _); [|done]. by destruct (addr_prefix _ _).
Qed.

Lemma Observe_transport `{!NameLib} now q raw addr tr tr' qtype m :
  Observe now q raw addr tr' qtype m = set_transport tr' None (Observe now q raw addr tr qtype m).
Proof.
  unfold Observe. destruct (Edns m) as [opt|]; [|done]. unfold applyEDNSObservation.
  set (o := set_flags _ _ _ _ _ _). set (o' := set_flags _ _ _ _ _ _).
  change o with (set_transport tr' None o'). clearbody o'. clear o. generalize o'. clear o'.
  induction (Option opt) as [|x l IH]; intros o; [done|]. cbn. by rewrite apply_option_transport, IH.
Qed.

Section CookieProbe.
Context `{N : !NameLib} `{L : !LabelLib} `{M : !MsgLib} `{ML : !MsgLaws M} `{R : !RequestLib} `{RL : !RequestLaws R}
  {P : Type} `{C : !CryptoLib P} `{CL : !CryptoLaws C} {T : Type} `{SL : !StoreLib T} `{SLL : !StoreLaws SL}.
Implicit Types (p : Probe P) (s : State T).

(** The clock of [cookie] is read twice, that of [probe] once. *)
Definition cookie_probe (ck : CookiePlugin) p (next : chain) (c : Conn) (st : Request) (now0 now1 now : Z)
  (mt : CookieMetrics) s : State T * Outcome * CookieMetrics :=
  cookie_ServeDNS ck cookieWriter_conn (fun c s r => probe_ServeDNS p next c (with_req st r) now s) st c now0 now1 mt s.

Lemma addrOf_wrapped c st : addrOf (cookieWriter_conn c) st = addrOf c st.
Proof. done. Qed.

Lemma observe_query_wrapped c st q raw now :
  observe_query (cookieWriter_conn c) st q raw now = cleartext (Proto st) (observe_query c st q raw now).
Proof.
  unfold observe_query. destruct (transportFrom (c_writer c) (Proto st)) as [tr tls].
  unfold transportFrom at 1. cbn [cookieWriter_conn c_writer connectionState unwrap_state].
  unfold cleartext. rewrite addrOf_wrapped.
  destruct (beqb (Proto st) TransportTCP);
    rewrite (Observe_transport now q raw (addrOf c st) tr); reflexivity.
Qed.

(** What is seen of a query through the cookie writer. *)
Lemma observed_wrapped p c st now :
  observed p (cookieWriter_conn c) st now = cleartext (Proto st) <$> observed p c st now.
Proof.
  unfold observed. destruct (route p st) as [| | | |k token|tags| |q|]; try done; cbn [fmap option_fmap option_map].
  - by rewrite observe_query_wrapped.
  - rewrite observe_query_wrapped. destruct (p_Signer p) as [sg|]; [|done].
    set (o := observe_query c st q (raw_name st) now). clearbody o.
    change (KeyTags (cleartext (Proto st) o)) with (KeyTags o). by destruct (0 <? zlen (KeyTags o)).
Qed.

(** The options of a reply after the cookie writer. *)
Definition stamped (ck : CookiePlugin) (st : Request) (now0 now1 : Z) (m0 m : Msg) : Prop :=
  exists opt, Edns m0 = Some opt /\
    m = set_edns (Some (Dns.set_options (List.filter (fun o => negb (is_cookie o)) (Option opt)
                                         ++ [Cookie_option ck (inspect ck st now0) now1]) opt)) m0.

Lemma WriteMsg_stamped ck c st now0 now1 (Q : Msg -> Prop) out :
  wrote c Q out -> (forall m, Q m -> Edns m <> None) ->
  wrote c (fun m => exists m0, Q m0 /\ stamped ck st now0 now1 m0 m)
    {| written := cookie_WriteMsg (writer_of ck (Req st) (inspect ck st now0) now1) <$> written out; code := code out |}.
Proof.
  intros Hw HQ. unfold wrote in *. destruct (c_writes c); [|by rewrite Hw].
  destruct Hw as (m0 & -> & Hm). specialize (HQ m0 Hm). eexists. split; [done|]. exists m0. split; [done|].
  unfold cookie_WriteMsg. destruct (Edns m0) as [opt|] eqn:E; [|done]. rewrite E. exists opt.
  by rewrite writer_of_option.
Qed.

Lemma filter_both {A} (f g : A -> bool) l : (forall x, f x = true -> g x = true) ->
  List.filter f (List.filter g l) = List.filter f l.
Proof.
  intros H. induction l as [|x l IH]; [done|]. cbn. destruct (g x) eqn:Eg; cbn; rewrite IH; [done|].
  destruct (f x) eqn:Ef; [|done]. by rewrite (H x Ef) in Eg.
Qed.

(** The cookie takes no other option's place. *)
Lemma stamped_options ck st now0 now1 m0 m f :
  stamped ck st now0 now1 m0 m -> (forall x, f x = true -> is_cookie x = false) -> options_of f m = options_of f m0.
Proof.
  intros (opt & Ho & ->) Hf. unfold options_of. rewrite Ho. cbn. rewrite List.filter_app. cbn.
  destruct (f _) eqn:E.
  - apply Hf in E. done.
  - rewrite app_nil_r. apply filter_both. intros x Hx. by rewrite (Hf x Hx).
Qed.

Lemma stamped_ok ck st now0 now1 m0 m :
  stamped ck st now0 now1 m0 m -> options_ok st m0 ->
  options_ok st m /\ options_of is_cookie m = [Cookie_option ck (inspect ck st now0) now1].
Proof.
  intros Hs (Ho & He & Hr & Hz). split.
  - unfold options_ok. rewrite (stamped_options _ _ _ _ _ _ _ Hs), (stamped_options _ _ _ _ _ _ _ Hs),
      (stamped_options _ _ _ _ _ _ _ Hs) by (by intros []). split_and!; try done.
    destruct Hs as (opt & E & ->). cbn. rewrite <- Ho, E. done.
  - destruct Hs as (opt & E & ->). unfold options_of. cbn. by apply first_cookie_filter.
Qed.

(** A request the cookie plugin turns away over UDP in enforce mode. *)
Definition refused (ck : CookiePlugin) (st : Request) (now : Z) : bool :=
  negb (validated (in_status (inspect ck st now))) && bool_decide (c_mode ck = modeEnforce) && beqb (Proto st) (bs "udp").

Lemma inspect_edns ck st now : in_status (inspect ck st now) <> statusNone -> Edns (Req st) <> None.
Proof. unfold inspect. by destruct (Edns (Req st)). Qed.

(** C20: the probe zone behind DNS cookies. A query without a COOKIE option is
    served and recorded as if [cookie] were not there. One with a malformed
    option, or one that is refused, leaves the zone's state as it was and gets
    FORMERR or BADCOOKIE. Every other gets the zone's own reply with exactly
    one fresh COOKIE option among the options the zone gave it, and is recorded
    like a query that came in the clear: whatever TLS connection carried it,
    the observation says TCP or UDP and has no TLS state, because the writer
    the zone is handed hides it; nothing else of the observation is lost. *)
Theorem cookie_before_probe ck p next c st now0 now1 now mt s :
  route p st <> ToNext ->
  let status := in_status (inspect ck st now0) in
  let '(s', out, mt') := cookie_probe ck p next c st now0 now1 now mt s in
  (status = statusNone -> (s', out) = probe_ServeDNS p next c st now s) /\
  (status = statusMalformed -> s' = s /\ exists m, written out = [m] /\ Rcode m = RcodeFormatError) /\
  (status <> statusNone -> status <> statusMalformed -> refused ck st now0 = true ->
     s' = s /\ exists m, written out = [m] /\ Rcode m = RcodeBadCookie) /\
  (status <> statusNone -> status <> statusMalformed -> refused ck st now0 = false ->
     wrote c (fun m => Rcode m = route_code (route p st) /\ Authoritative m = true /\ options_ok st m /\
                       options_of is_cookie m = [Cookie_option ck (inspect ck st now0) now1]) out /\
     store s' = recorded p (cookieWriter_conn c) st now (store s) /\
     observed p (cookieWriter_conn c) st now = cleartext (Proto st) <$> observed p c st now).
Proof.
  intros Hr. cbv zeta. destruct (cookie_probe _ _ _ _ _ _ _ _ _ _) as [[s' out] mt'] eqn:E.
  unfold cookie_probe, cookie_ServeDNS in E. rewrite with_req_id in E. fold (refused ck st now0) in E.
  destruct (bool_decide (_ = statusNone)) eqn:En.
  { apply bool_decide_eq_true in En. rewrite En. injection E as E _. split; [done|]. split; [done|]. by split. }
  apply bool_decide_eq_false in En. split; [done|].
  destruct (bool_decide (_ = statusMalformed)) eqn:Em.
  { apply bool_decide_eq_true in Em. rewrite Em. injection E as <- <- _. split; [|done]. intros _. split; [done|].
    eexists. split; [done|]. apply SetRcode_rcode. }
  apply bool_decide_eq_false in Em. split; [done|].
  destruct (refused ck st now0).
  { injection E as <- <- _. split; [|done]. intros _ _ _. split; [done|]. eexists. split; [done|].
    by rewrite cookie_WriteMsg_rcode, SetRcode_rcode. }
  split; [done|]. intros _ _ _.
  pose proof (probe_wrote p next (cookieWriter_conn c) st now s Hr) as Hw.
  pose proof (probe_recorded p next (cookieWriter_conn c) st now s) as Hst.
  destruct (probe_ServeDNS p next (cookieWriter_conn c) st now s) as [s1 out1]. injection E as <- <- _.
  split; [|split; [done|apply observed_wrapped]].
  eapply wrote_mono; [|apply (WriteMsg_stamped ck c st now0 now1 _ out1 Hw)].
  - intros m (m0 & (H1 & H2 & H3) & Hs). destruct (stamped_ok _ _ _ _ _ _ Hs H3) as [H4 H5].
    destruct Hs as (? & _ & Em'). rewrite Em' in *. by split_and!.
  - intros m (_ & _ & [H _]) Hn. apply H in Hn. by apply (inspect_edns ck st now0 En).
Qed.
End CookieProbe.

(** A query over TLS from a client that uses cookies. *)
Definition ex_dot : Conn :=
  {| c_remote := TCPAddr [Byte.xc0; Byte.x00; Byte.x02; Byte.x07];
     c_writer := w_stater (Some {| cs_Version := bs "TLS 1.3"; cs_CipherSuite := bs "TLS_AES_128_GCM_SHA256"; cs_CurveID := None;
                                   cs_ServerName := []; cs_DidResume := false; cs_NegotiatedProtocol := bs "dot" |});
     c_writes := true |}.
Definition ex_dot_request : Request :=
  {| Req := query (bs "deadbeef.check.test.") TypeTXT [EDNS0_COOKIE (bs "0102030405060708")];
     SrcIP := bs "192.0.2.7"; Proto := bs "tcp" |}.
Definition ex_cookie (m : mode) : CookiePlugin :=
  {| keys := {| verifyOnly := []; generate := bs "0123456789abcdef" |}; c_mode := m |}.
Definition no_requests : CookieMetrics := {| requests := ∅; badCookies := 0; formerrs := 0 |}.

(** The zone alone sees TLS; behind [cookie] it records TCP. *)
Lemma cookie_before_probe_witness :
  let r := cookie_probe (ex_cookie modeEnforce) ex_probe ex_next ex_dot ex_dot_request 100 100 ex_now no_requests ex_state in
  exists o m, observed ex_probe ex_dot ex_dot_request ex_now = Some o /\ Encrypted o = true /\
    observed ex_probe (cookieWriter_conn ex_dot) ex_dot_request ex_now = Some (cleartext (bs "tcp") o) /\
    store r.1.1 = recorded ex_probe (cookieWriter_conn ex_dot) ex_dot_request ex_now (store ex_state) /\
    r.1.2 = write_one m /\ Rcode m = RcodeSuccess /\ length (options_of is_cookie m) = 1%nat.
Proof.
  cbv zeta.
  assert (Hr : route ex_probe ex_dot_request = ToQuery {| Token := bs "deadbeef"; Mods := 0 |}) by (vm_compute; reflexivity).
  assert (Hs : in_status (inspect (ex_cookie modeEnforce) ex_dot_request 100) = statusClientOnly) by (vm_compute; reflexivity).
  pose proof (cookie_before_probe (ex_cookie modeEnforce) ex_probe ex_next ex_dot ex_dot_request 100 100 ex_now no_requests
                ex_state ltac:(rewrite Hr; discriminate)) as H. cbv zeta in H.
  destruct (cookie_probe _ _ _ _ _ _ _ _ _ _) as [[s' out] mt'].
  destruct H as (_ & _ & _ & H). rewrite Hs in H.
  destruct (H ltac:(discriminate) ltac:(discriminate) ltac:(vm_compute; reflexivity)) as (Hw & Hst & Ho).
  destruct (observed ex_probe ex_dot ex_dot_request ex_now) as [o|] eqn:Eo; [|vm_compute in Eo; discriminate].
  change (wrote ex_dot ?Q ?o) with (exists m, o = write_one m /\ Q m) in Hw. destruct Hw as (m & Hm & Hc & _ & _ & Hk).
  exists o, m. split; [reflexivity|]. split; [|split; [exact Ho|split; [exact Hst|split; [exact Hm|split]]]].
  - assert (E : exists x, observed ex_probe ex_dot ex_dot_request ex_now = Some x /\ Encrypted x = true)
      by (eexists; split; vm_compute; reflexivity).
    destruct E as (x & Ex & Hx). rewrite Eo in Ex. injection Ex as ->. exact Hx.
  - rewrite Hc, Hr. reflexivity.
  - rewrite Hk. reflexivity.
Defined.

(** ** [cookie], then [dynupdate] *)

Section CookieDyn.
Context `{N : NameLib} `{NL : !NameLaws N} `{L : MsgLib} `{ML : !MsgLaws L} `{F : FileLib}.

(** The plugin with the zones it has sent a NOTIFY for. [TsigStatus] is one
    of the methods the cookie writer has. *)
Definition dyn_next : schain DynUpdate.Writer (DynUpdate * list bytes) := fun w s r =>
  let '(out, d, notified) := dyn_ServeDNS w s.1 r in ((d, s.2 ++ notified), out).

Definition cookie_dyn (ck : CookiePlugin) (w : DynUpdate.Writer) (d : DynUpdate) (st : Request) (now0 now1 : Z) (mt : CookieMetrics)
  : (DynUpdate * list bytes) * Outcome * CookieMetrics :=
  cookie_ServeDNS ck id dyn_next st w now0 now1 mt (d, []).

(** C40: an UPDATE through [cookie] is as atomic as without it: a reply with a
    code other than NOERROR, the cookie plugin's own ones included, means that
    nothing changed; and a change means an authorised UPDATE that was not
    turned away. The zone stays well formed. *)
Theorem update_behind_cookie ck w d st now0 now1 mt :
  let r := Req st in
  let '((d', notified), out, mt') := cookie_dyn ck w d st now0 now1 mt in
  let nothing := d' = d /\ notified = [] in
  (nothing \/ Opcode r = OpcodeUpdate /\ authorised w d r /\ in_status (inspect ck st now0) <> statusMalformed /\
              (in_status (inspect ck st now0) = statusNone \/ refused ck st now0 = false)) /\
  (Opcode r = OpcodeUpdate -> forall m, m ∈ written out -> Rcode m <> RcodeSuccess -> nothing) /\
  (good_request r -> dyn_ok d -> dyn_ok d').
Proof.
  cbv zeta. destruct (cookie_dyn _ _ _ _ _ _ _) as [[[d' notified] out] mt'] eqn:E.
  unfold cookie_dyn, cookie_ServeDNS in E. fold (refused ck st now0) in E.
  assert (Hd : forall d1 n1 out1, dyn_next w (d, []) (Req st) = (d1, n1, out1) ->
    let nothing := d1 = d /\ n1 = [] in
    (nothing \/ Opcode (Req st) = OpcodeUpdate /\ authorised w d (Req st)) /\
    (Opcode (Req st) = OpcodeUpdate -> forall m, m ∈ written out1 -> Rcode m <> RcodeSuccess -> nothing) /\
    (good_request (Req st) -> dyn_ok d -> dyn_ok d1)).
  { intros d1 n1 out1 H. unfold dyn_next, dyn_ServeDNS in H. cbn [fst snd] in H.
    destruct (Opcode (Req st) =? OpcodeUpdate) eqn:Eo.
    - pose proof (serveUpdate_ok w d (Req st)) as Hk. apply Z.eqb_eq in Eo.
      destruct (serveUpdate_cases w d (Req st)) as [[rcode Es]|(Ha & upd & view & _ & _ & Es)]; rewrite Es in H, Hk;
        cbn [app] in H; injection H as <- <- <-.
      + split; [by left|]. by split.
      + split; [by right|]. split; [|done]. intros _ m Hm Hn. apply list_elem_of_In, reply_rcode in Hm. done.
    - apply Z.eqb_neq in Eo. destruct (d_view d); injection H as <- <- <-; (split; [by left|done]). }
  destruct (bool_decide (_ = statusNone)) eqn:En.
  { apply bool_decide_eq_true in En. injection E as E _. destruct (Hd _ _ _ E) as (H1 & H2 & H3).
    split; [|by split]. destruct H1 as [H1|[H1 H1']]; [by left|right]. rewrite En. by split_and!; [..|by left]. }
  destruct (bool_decide (_ = statusMalformed)) eqn:Em.
  { injection E as <- <- <- _. split; [by left|done]. }
  apply bool_decide_eq_false in Em.
  destruct (refused ck st now0).
  { injection E as <- <- <- _. split; [by left|done]. }
  change (id w) with w in E. destruct (dyn_next w (d, []) (Req st)) as [[d1 n1] out1] eqn:Ed.
  injection E as <- <- <- _. destruct (Hd _ _ _ eq_refl) as (H1 & H2 & H3). split; [|split; [|done]].
  - destruct H1 as [H1|[H1 H1']]; [by left|right]. by split_and!; [..|by right].
  - intros Ho m Hm Hn. cbn [written] in Hm. apply list_elem_of_fmap in Hm as (m0 & -> & Hm).
    rewrite cookie_WriteMsg_rcode in Hn. by apply (H2 Ho m0).
Qed.
End CookieDyn.

(** The example update of [DynProps], with a COOKIE option and without TCP. *)
Definition ex_cookie_update (ck : bytes) : Request :=
  {| Req := set_edns (Some {| UDPSize := 1232; OptTtl := 0; Option := [EDNS0_COOKIE ck] |}) (ex_update [ex_txt]);
     SrcIP := bs "192.0.2.7"; Proto := bs "udp" |}.

(** Turned away in enforce mode, taken in permissive mode. *)
Lemma update_behind_cookie_witness :
  let st := ex_cookie_update (bs "0102030405060708") in
  let r m := cookie_dyn (ex_cookie m) ex_writer (ex_dyn 7) st 100 100 no_requests in
  (r modeEnforce).1.1.1 = ex_dyn 7 /\
  dyn_ok (r modePermissive).1.1.1 /\ d_rrs (r modePermissive).1.1.1 = ex_zone 8 ++ [ex_txt].
Proof.
  cbv zeta. split; [|split].
  - pose proof (update_behind_cookie (ex_cookie modeEnforce) ex_writer (ex_dyn 7)
                  (ex_cookie_update (bs "0102030405060708")) 100 100 no_requests) as H. cbv zeta in H.
    destruct (cookie_dyn _ _ _ _ _ _ _) as [[[d' n] out] mt] eqn:E. destruct H as ([[H _]|(_ & _ & _ & [H|H])] & _).
    + exact H.
    + vm_compute in H. discriminate H.
    + vm_compute in H. discriminate H.
  - pose proof (update_behind_cookie (ex_cookie modePermissive) ex_writer (ex_dyn 7)
                  (ex_cookie_update (bs "0102030405060708")) 100 100 no_requests) as H. cbv zeta in H.
    destruct (cookie_dyn _ _ _ _ _ _ _) as [[[d' n] out] mt] eqn:E. destruct H as (_ & _ & H).
    apply H; [exact ex_good_txt|exact ex_dyn_ok].
  - vm_compute. reflexivity.
Defined.
